(* ===== verification/_CoqProject ===== *)
-Q . S2P
Prelude.v
Status.v
Support.v
Ids.v
Digest.v
Float64.v
Json.v
Telemetry.v
Task.v
Lifecycle.v
Dag.v
TopoOrder.v
Reservation.v
Placement.v
Wire.v
Frame.v
Socket.v
SocketOpen.v
Channel.v
Serialize.v
Messages.v
Client.v
Launcher.v
LauncherProps.v
WinQuote.v
WinProcess.v
Workloads.v
Cuda.v
Executor.v
NodeRuntime.v
NodeRegister.v
NodeProps.v
Store.v
Locality.v
Scheduler.v
Outbound.v
CoordState.v
CoordNodes.v
CoordAttempts.v
CoordSched.v
CoordClient.v
Coordinator.v
CoordInv.v
CoordDurable.v
CoordRecovery.v
CoordProps.v
CoordReadiness.v
CoordCommit.v
CoordDispatch.v
CoordTasks.v
CoordWaiting.v
CoordStop.v
CoordHalt.v
Cli.v
CliProps.v
FabricLocal.v
Bench.v
BenchProps.v
Fabric.v
Rpc.v
Host.v
