(* ===== verification/Prelude.v ===== *)
(** * Compute Fabric: a verification development

    Compute Fabric runs tasks with dependencies on a set of nodes.  Clients submit
    tasks to a coordinator; the coordinator keeps the dependency graph, chooses a
    node and an executor for every ready task, reserves the node's slots,
    dispatches an execution attempt and commits its result; nodes run attempts and
    report on them.  Every peer talks in checksummed frames over TCP.  The
    coordinator saves its state in one file and, when it restarts, recovers from
    it under a new epoch that takes all authority from attempts of the old one.

    This development models the coordinator, the nodes with their executors, the
    client, the launcher that runs them all as local processes and the command
    line, with everything below them, and proves what makes them correct.
    Definitions follow the source function by function and are executable: the
    sample runs evaluate whole coordinators, nodes and local fabrics.

    ** The parts and where they are

    - [Prelude] (this file): machine integers, identifiers' order, ordered
      iteration of maps ([std::map]), tactics and the hint database [cf].
    - [Status], [Support], [Ids], [Digest], [Float64]: core/status; core/version,
      core/log and the conversions of core/time_util; core/identifiers and
      core/random, core/digest; and the language's [double] as its 64 bits, with
      the arithmetic of the Standard Library's [SpecFloat].
    - [Json], [Telemetry]: core/json and telemetry/telemetry: the printer of
      documents, with a reader of the JSON grammar to state what it prints, and the
      log of events.
    - [Task], [Lifecycle], [Dag], [TopoOrder]: task/task, task/attempt,
      task/lifecycle, task/dag.  [TaskGraph] is the four maps of the class; [dfs] is the recursive
      coloured search with its [std::map] of colours and a fuel for its depth.
    - [Reservation]: resource/capacity and resource/reservation, with the 32- and
      64-bit sums of the source.
    - [Wire], [Frame], [Serialize], [Messages]: protocol/*.  A deserializer is a
      function of the reader's state; the reader's error is sticky.
    - [Socket], [SocketOpen], [Channel], [Client]: net/socket (the life of a handle
      shared by threads, sending and receiving; connecting, binding and accepting
      over a table of descriptors), net/channel (frames over a byte stream) and
      net/client (requests with a deadline).
    - [Workloads], [Cuda], [Executor]: executor/*: the kernels, the CUDA host code
      and kernels, the abstract backend (a class with its laws) and the pool of
      workers that both backends are.
    - [NodeRuntime], [NodeRegister], [NodeProps]: node/node_runtime: the threads of
      a node as interleaved steps, registration, and its theorem.
    - [Store]: persist/store: the file format and the replacement of the file
      through a temporary one.
    - [Placement], [Locality], [Scheduler]: scheduler/* and state/*.
    - [Outbound]: the output queue of a connection and the idempotency cache
      (coordinator/coordinator.cpp, before the class).
    - [CoordState], [CoordNodes], [CoordAttempts], [CoordSched], [CoordClient],
      [Coordinator]: the class [Coordinator]: its members and helpers, the
      handlers of the nodes' messages, of the attempts' reports, the scheduling
      pass and the sweep, the clients' requests, and start-up, recovery, command
      loop and reader threads.
    - [CoordStop], [CoordHalt]: the life of the coordinator's threads: acceptors,
      readers and writers, the reaper that joins them, and [Coordinator::stop],
      first under the schedules the code relies on and then under all.
    - [CoordInv], [CoordDurable], [CoordRecovery]: the program logic, the
      invariant, what is durable, and restart; [CoordProps], [CoordReadiness],
      [CoordCommit], [CoordDispatch], [CoordTasks], [CoordWaiting]: the
      coordinator's theorems.
    - [Launcher], [LauncherProps], [WinQuote], [WinProcess]: launcher/launcher:
      processes, their supervision and shutdown; the quoting of a Windows command
      line and the Windows branches of spawning, polling and terminating.
    - [Cli], [CliProps], [FabricLocal]: cli/cli: argument parsing and the commands,
      and the command that launches a fabric and validates it.
    - [Bench], [BenchProps]: cli/benchmark_suite: the benchmarks, which run the
      scheduler, the registry, the executors and whole fabrics.
    - [Fabric]: a node and the coordinator put together.
    - [Rpc]: the client and the coordinator put together, through a class of remote
      calls ([RemoteCall] with [RemoteCallLaws]) with one instance per request.
    - [Host]: the processes of cli/cli that run a coordinator or a node: the main
      thread, the thread it starts and the signals it waits for.

    ** How the code is represented

    A w-bit integer is a [Z] with its wrap-around written out; bytes are lists of
    [Z] below 256; [std::map] and [std::set] are stdpp's [gmap] and [gset],
    iterated in key order by [in_order] and [set_in_order]; enumerations and
    structures are inductive types and records with the source's constructors and
    members.  [Result] is a sum type.  Handlers are programs of the state monad
    [Core]; connections, which the source shares by [std::shared_ptr], live in one
    store.  What the environment decides is data: the readings of the clock, the
    random identifiers and the outcome of every write of the store file
    ([World]), the frames that arrive and the interleaving of threads ([Event],
    one critical section or one command per event).  In the launcher and the
    sockets a program is a function of the host ([Host], [NetHost]: processes or
    descriptors, and counters of calls and clock readings), and an environment
    ([Env], [NetEnv]) says what each system call does and what the clock shows.
    Where components meet through an interface the source names, the model has a
    class: [ExecutorBackend] with [BackendLaws], of which the CPU pool, the CUDA
    pool and the stub are instances; the node is proved against the class.

    ** What the theorems show

    - Graph (Dag): every history keeps it well formed and acyclic; [add_task]
      accepts exactly the tasks that close no cycle; [dependents] is exact as
      long as no insertion was rejected for a cycle, and what is lost when one is;
      the topological order is the least one that respects the dependencies.
    - Reservations: no overcommitment over any history whose requests cannot wrap
      the counters, and that they do wrap; epoch fencing.
    - Protocol (Frame, Messages, Digest, Ids): round trips of identifiers, frames
      and all 44 messages; on arbitrary input deserializers fail or read within
      bounds; bursts of damage of up to four bytes are always detected; where the
      checksum departs from the IEEE polynomial.
    - Store: round trip, crash atomicity, detection of damage, and the limits that
      are enforced by [load] only.
    - Scheduler: a placement is sound, complete, explained, optimal for the order
      (score, node, executor), and where the load of a node is ignored.
    - Lifecycle: legal runs, terminal states.
    - Output queues: bounded and first-in first-out under every interleaving.
    - Network: a handle is closed once and never under an operation; no descriptor
      is lost or left half configured; frames arrive in order and unaltered however
      the stream is cut; a request is answered by the frame with its number.
    - Executors: the accepted work is the finished and the pending work, each item
      with one start and one completion; the workers drain it; the CUDA transform
      gives the CPU kernel's digest, within the bounds where it does.
    - Nodes: every dispatch is accounted for exactly once, for every backend with
      the laws; registration returns and is sound.
    - Coordinator, for every reachable state, where [reachable] is closed under
      all events and under restarts from the store file: the invariant; the durable
      state is the graph's between commands; a restart comes up with the same
      tasks, recovered states, no old authority and a new epoch; who may commit a
      result and what a commit does; what the success of a task triggers and that
      the recursion returns; the order of dispatch, what a dispatch guarantees,
      what a submission does, and the ways a task can be left waiting forever.
    - Threads: stopping the coordinator returns under every schedule, and with every
      thread joined under the schedules the code relies on; examples show the
      schedules it does not exclude and that leave a thread behind.
    - Processes: a hosted coordinator or node that is interrupted ends, once its
      loop runs; examples show the wake-up that is lost when the notification comes
      between the test and the wait, and the signal that comes too early.
    - Fabric: a completion that a node reports, read by the coordinator from the
      node's frames, makes the task succeed.
    - Remote calls: a request the client encodes is answered by the coordinator with
      the client's request number, and the client decodes the answer the handler
      gave, for every one of the client's requests.
    - Launcher and command line: shutting down returns and tells the truth about
      the processes left; on Windows no process handle is lost or closed twice; the
      children understand the arguments they are started
      with, also through Windows' quoting; exit code 0 of the local validation run
      means what it says; which commands cannot work.
    - Benchmarks: what the suite's exit code means; the benchmarks of scheduler and
      reservations cannot fail, whatever identifiers are drawn.
    - Telemetry: every line is a document with the members of its event.

    ** Bounds and fuel

    Recursion on data is structural.  [dfs] and [propagate] recurse along the
    graph: their fuel is one more than the number of tasks, and
    [add_task_accepts_iff] and [propagate_returns] show it is never exhausted.
    The parsers of lists count down the number of elements read from the input.
    [kahn] takes one fuel per task.  Loops that end by a deadline (requests,
    registration, accepting, waiting for children and for the validation tasks)
    take a fuel for their clock readings, and the theorems hold for every clock and
    fuel such that the clock has passed the deadline by then ([timely] for the
    launcher, whose spans go up to the 60 seconds of the validation run): with any
    clock that goes on there is such a fuel, so the results are never assumed.
    Results of endless loops (nodes, the coordinator) are stated over all finite
    sequences of steps.

    ** What is not modelled

    - The Windows branches of the sockets and of the console handler, and
      [current_executable_path]: they only call the platform.
    - The formatting of calendar dates ([unix_iso8601]) and [seconds_between]: the
      C library's calendar and the clocks' representation of durations.
    - The decimal text of floating-point numbers and its reading ([std::stod]):
      parameters of the definitions that print or read them.
    - Tests and example programs, which only use the parts above. *)

From Stdlib Require Export ZArith Lia.
From stdpp Require Export base tactics numbers list gmap sets strings sorting pretty.

(** ** Machine integers

    A w-bit integer of the source is a [Z]; the range predicates below are the
    types [uint8_t], [uint16_t], [uint32_t], [uint64_t], [int32_t], [int64_t],
    and [u8] ... [i64] are the conversions the language performs
    ([static_cast], unsigned wrap-around). *)

Definition is_u8 (x : Z) : Prop := (0 <= x < 256)%Z.
Definition is_u16 (x : Z) : Prop := (0 <= x < 65536)%Z.
Definition is_u32 (x : Z) : Prop := (0 <= x < 4294967296)%Z.
Definition is_u64 (x : Z) : Prop := (0 <= x < 18446744073709551616)%Z.
Definition is_i32 (x : Z) : Prop := (-2147483648 <= x < 2147483648)%Z.
Definition is_i64 (x : Z) : Prop := (-9223372036854775808 <= x < 9223372036854775808)%Z.

Definition u8 (x : Z) : Z := (x mod 256)%Z.
Definition u16 (x : Z) : Z := (x mod 65536)%Z.
Definition u32 (x : Z) : Z := (x mod 4294967296)%Z.
Definition u64 (x : Z) : Z := (x mod 18446744073709551616)%Z.
Definition i32 (x : Z) : Z :=
  (if u32 x <? 2147483648 then u32 x else u32 x - 4294967296)%Z.
Definition i64 (x : Z) : Z :=
  (if u64 x <? 9223372036854775808 then u64 x else u64 x - 18446744073709551616)%Z.

#[export] Instance is_u8_dec x : Decision (is_u8 x).
Proof. unfold is_u8. apply _. Defined.
#[export] Instance is_u16_dec x : Decision (is_u16 x).
Proof. unfold is_u16. apply _. Defined.
#[export] Instance is_u32_dec x : Decision (is_u32 x).
Proof. unfold is_u32. apply _. Defined.
#[export] Instance is_u64_dec x : Decision (is_u64 x).
Proof. unfold is_u64. apply _. Defined.
#[export] Instance is_i32_dec x : Decision (is_i32 x).
Proof. unfold is_i32. apply _. Defined.
#[export] Instance is_i64_dec x : Decision (is_i64 x).
Proof. unfold is_i64. apply _. Defined.

(** [int_solve]: arithmetic on ranges and conversions. *)
Ltac int_unfold :=
  unfold is_u8, is_u16, is_u32, is_u64, is_i32, is_i64,
         u8, u16, u32, u64, i32, i64 in *.
Ltac int_solve := int_unfold; try lia; Z.to_euclidean_division_equations; lia.

Lemma u8_range x : is_u8 (u8 x).
Proof. int_solve. Qed.
Lemma u16_range x : is_u16 (u16 x).
Proof. int_solve. Qed.
Lemma u32_range x : is_u32 (u32 x).
Proof. int_solve. Qed.
Lemma u64_range x : is_u64 (u64 x).
Proof. int_solve. Qed.

Lemma u8_id x : is_u8 x → u8 x = x.
Proof. intros. apply Z.mod_small. int_solve. Qed.
Lemma u16_id x : is_u16 x → u16 x = x.
Proof. intros. apply Z.mod_small. int_solve. Qed.
Lemma u32_id x : is_u32 x → u32 x = x.
Proof. intros. apply Z.mod_small. int_solve. Qed.
Lemma u64_id x : is_u64 x → u64 x = x.
Proof. intros. apply Z.mod_small. int_solve. Qed.

(** Reinterpreting a signed integer as unsigned and back is the identity. *)
Lemma i32_u32 x : is_i32 x → i32 (u32 x) = x.
Proof. intros. unfold i32. case (Z.ltb_spec (u32 (u32 x)) 2147483648); int_solve. Qed.
Lemma i64_u64 x : is_i64 x → i64 (u64 x) = x.
Proof. intros. unfold i64. case (Z.ltb_spec (u64 (u64 x)) 9223372036854775808); int_solve. Qed.
Lemma i32_range x : is_i32 (i32 x).
Proof. unfold i32. case (Z.ltb_spec (u32 x) 2147483648); int_solve. Qed.
Lemma i64_range x : is_i64 (i64 x).
Proof. unfold i64. case (Z.ltb_spec (u64 x) 9223372036854775808); int_solve. Qed.

(** Exclusive or and right shift stay within a width. *)
Lemma lxor_range n a b :
  (0 <= n → 0 <= a < 2 ^ n → 0 <= b < 2 ^ n → 0 <= Z.lxor a b < 2 ^ n)%Z.
Proof.
  intros Hn Ha Hb. split; [apply Z.lxor_nonneg; lia|].
  destruct (Z.eq_dec (Z.lxor a b) 0%Z) as [->|Hne]; [lia|].
  pose proof (proj2 (Z.lxor_nonneg a b)).
  apply Z.log2_lt_pow2; [lia|].
  eapply Z.le_lt_trans; [apply Z.log2_lxor; lia|].
  assert (Hlog : ∀ x, (0 <= x < 2 ^ n)%Z → x = 0%Z ∨ (Z.log2 x < n)%Z).
  { intros x Hx. destruct (Z.eq_dec x 0%Z); [by left|right]. apply Z.log2_lt_pow2; lia. }
  pose proof (Z.log2_nonneg a). pose proof (Z.log2_nonneg b).
  destruct (Hlog a Ha) as [->|], (Hlog b Hb) as [->|];
    change (Z.log2 0) with 0%Z in *; try lia.
  by rewrite Z.lxor_0_l in Hne.
Qed.

Lemma shiftr_range m a n : (0 <= n → 0 <= a < m → 0 <= Z.shiftr a n < m)%Z.
Proof.
  intros Hn Ha. rewrite Z.shiftr_div_pow2 by done.
  assert (0 < 2 ^ n)%Z by (apply Z.pow_pos_nonneg; lia).
  split; [apply Z.div_pos; lia|]. apply Z.div_lt_upper_bound; nia.
Qed.

Lemma lxor_u32 a b : is_u32 a → is_u32 b → is_u32 (Z.lxor a b).
Proof. apply (lxor_range 32). done. Qed.
Lemma lxor_u64 a b : is_u64 a → is_u64 b → is_u64 (Z.lxor a b).
Proof. apply (lxor_range 64). done. Qed.
Lemma shiftr_u32 a n : is_u32 a → (0 <= n)%Z → is_u32 (Z.shiftr a n).
Proof. intros. by apply shiftr_range. Qed.
Lemma shiftr_u64 a n : is_u64 a → (0 <= n)%Z → is_u64 (Z.shiftr a n).
Proof. intros. by apply shiftr_range. Qed.

Create HintDb cf.
#[export] Hint Resolve lxor_u32 lxor_u64 shiftr_u32 shiftr_u64 : cf.
#[export] Hint Extern 1 (_ <= _)%Z => lia : cf.
#[export] Hint Resolve u8_range u16_range u32_range u64_range i32_range i64_range
  u8_id u16_id u32_id u64_id : cf.

(** ** Ordered containers

    [std::map] and [std::set] are [gmap] and [gset] (extensional equality) and
    their iteration, which follows [operator<] of the key, is [in_order]: the
    bindings sorted by key.  A key type gives its order once, as an instance of
    [MapKey]. *)

Class MapKey (K : Type) `{Countable K} := {
  key_le : relation K;
  key_le_dec :: RelDecision key_le;
  key_le_refl :: Reflexive key_le;
  key_le_trans :: Transitive key_le;
  key_le_antisymm :: AntiSymm (=) key_le;
  key_le_total :: Total key_le
}.

Section ordered.
Context {K : Type} `{MapKey K} {V : Type}.

Definition kv_le : relation (K * V) := λ x y, key_le x.1 y.1.

#[global] Instance kv_le_dec : RelDecision kv_le.
Proof. intros x y. unfold kv_le. apply _. Defined.
#[global] Instance kv_le_total : Total kv_le.
Proof. intros x y. unfold kv_le. apply (total key_le). Qed.
#[global] Instance kv_le_trans : Transitive kv_le.
Proof. intros x y z. unfold kv_le. apply transitivity. Qed.

(** [for (const auto& [k, v] : m)] *)
Definition in_order (m : gmap K V) : list (K * V) := merge_sort kv_le (map_to_list m).

(** [for (const auto& x : s)] on a [std::set] *)
Definition set_in_order (X : gset K) : list K := merge_sort key_le (elements X).

Lemma in_order_perm m : in_order m ≡ₚ map_to_list m.
Proof. apply merge_sort_Permutation. Qed.

Lemma elem_of_in_order m k v : (k, v) ∈ in_order m ↔ m !! k = Some v.
Proof. by rewrite in_order_perm, elem_of_map_to_list. Qed.

Lemma elem_of_set_in_order X k : k ∈ set_in_order X ↔ k ∈ X.
Proof. unfold set_in_order. by rewrite merge_sort_Permutation, elem_of_elements. Qed.

Lemma NoDup_set_in_order X : NoDup (set_in_order X).
Proof. unfold set_in_order. rewrite merge_sort_Permutation. apply NoDup_elements. Qed.

Lemma NoDup_in_order_keys m : NoDup (in_order m).*1.
Proof. rewrite in_order_perm. apply NoDup_fst_map_to_list. Qed.

Lemma list_to_map_in_order m : (list_to_map (in_order m) : gmap K V) = m.
Proof.
  rewrite (list_to_map_proper (M:=gmap K) _ _ (NoDup_in_order_keys m) (in_order_perm m)).
  apply list_to_map_to_list.
Qed.

Lemma length_in_order m : length (in_order m) = size m.
Proof. rewrite in_order_perm. apply length_map_to_list. Qed.

Lemma in_order_sorted m : StronglySorted kv_le (in_order m).
Proof. apply (StronglySorted_merge_sort _). Qed.

Lemma set_in_order_sorted X : StronglySorted key_le (set_in_order X).
Proof. apply (StronglySorted_merge_sort _). Qed.

Lemma in_order_empty : in_order (∅ : gmap K V) = [].
Proof. unfold in_order. by rewrite map_to_list_empty. Qed.

(** Inserting the bindings of a map one by one, in any order, rebuilds it. *)
Lemma foldl_insert_in_order m :
  foldl (λ acc kv, <[kv.1 := kv.2]> acc) (∅ : gmap K V) (in_order m) = m.
Proof.
  assert (Hgen : ∀ (l : list (K * V)) (acc : gmap K V), NoDup l.*1 →
    (∀ k, k ∈ l.*1 → acc !! k = None) →
    foldl (λ acc kv, <[kv.1 := kv.2]> acc) acc l = list_to_map l ∪ acc).
  { induction l as [|[k v] l IH]; intros acc Hnd Hnone; simpl.
    - by rewrite (left_id_L ∅ (∪)).
    - apply NoDup_cons in Hnd as [Hk Hnd].
      rewrite IH; [|done|].
      + rewrite <-insert_union_l, insert_union_r; [done|].
        by apply not_elem_of_list_to_map_1.
      + intros k' Hk'. rewrite lookup_insert_ne; [|set_solver].
        apply Hnone. set_solver. }
  rewrite Hgen; [|apply NoDup_in_order_keys|done].
  by rewrite list_to_map_in_order, (right_id_L ∅ (∪)).
Qed.
End ordered.

(** Key orders used by the source: [bool], [Z], lexicographic pairs, byte strings. *)
Section lex.
Context {A B : Type} `{MapKey A} `{MapKey B}.

Definition lex_le : relation (A * B) := λ x y,
  (x.1 ≠ y.1 ∧ key_le x.1 y.1) ∨ (x.1 = y.1 ∧ key_le x.2 y.2).

#[global] Program Instance lex_key : MapKey (A * B) := {| key_le := lex_le |}.
Next Obligation. intros x y. unfold lex_le. apply _. Defined.
Next Obligation. intros x. right. done. Qed.
Next Obligation.
  intros [x1 x2] [y1 y2] [z1 z2]; unfold lex_le; simpl.
  intros [[? ?]|[-> ?]] [[? ?]|[-> ?]]; auto.
  - left. split; [|by etrans]. intros ->. assert (z1 = y1) by (by apply (anti_symm key_le)). done.
  - right. split; [done|by etrans].
Qed.
Next Obligation.
  intros [x1 x2] [y1 y2]; unfold lex_le; simpl.
  intros [[? ?]|[-> ?]] [[? ?]|[E ?]]; subst; try done.
  - assert (x1 = y1) by (by apply (anti_symm key_le)). done.
  - f_equal. by apply (anti_symm key_le).
Qed.
Next Obligation.
  intros [x1 x2] [y1 y2]; unfold lex_le; simpl.
  destruct (decide (x1 = y1)) as [->|]; [destruct (total key_le x2 y2); auto|].
  destruct (total key_le x1 y1); auto.
Qed.
End lex.

#[export] Program Instance Z_key : MapKey Z := {| key_le := Z.le |}.

(** [std::string::compare]: unsigned bytes from the left, then the length. *)
Fixpoint str_leb (s t : string) : bool :=
  match s, t with
  | EmptyString, _ => true
  | String _ _, EmptyString => false
  | String a s', String b t' =>
      match N.compare (Ascii.N_of_ascii a) (Ascii.N_of_ascii b) with
      | Lt => true
      | Gt => false
      | Eq => str_leb s' t'
      end
  end.

Lemma N_of_ascii_inj a b : Ascii.N_of_ascii a = Ascii.N_of_ascii b → a = b.
Proof. intros E. by rewrite <-(Ascii.ascii_N_embedding a), E, Ascii.ascii_N_embedding. Qed.

Lemma str_leb_trans s t u : str_leb s t → str_leb t u → str_leb s u.
Proof.
  revert t u. induction s as [|a s IH]; intros [|b t] [|c u]; simpl; try done.
  destruct (N.compare_spec (Ascii.N_of_ascii a) (Ascii.N_of_ascii b)) as [E1|E1|E1],
    (N.compare_spec (Ascii.N_of_ascii b) (Ascii.N_of_ascii c)) as [E2|E2|E2],
    (N.compare_spec (Ascii.N_of_ascii a) (Ascii.N_of_ascii c)) as [E3|E3|E3];
    try done; try lia; apply IH.
Qed.

Lemma str_leb_antisymm s t : str_leb s t → str_leb t s → s = t.
Proof.
  revert t. induction s as [|a s IH]; intros [|b t]; simpl; try done.
  rewrite (N.compare_antisym (Ascii.N_of_ascii a)).
  destruct (N.compare_spec (Ascii.N_of_ascii a) (Ascii.N_of_ascii b)) as [E1|E1|E1];
    simpl; try done.
  intros. f_equal; [by apply N_of_ascii_inj|by apply IH].
Qed.

Lemma str_leb_total s t : str_leb s t ∨ str_leb t s.
Proof.
  revert t. induction s as [|a s IH]; intros [|b t]; simpl; auto.
  rewrite (N.compare_antisym (Ascii.N_of_ascii a)).
  destruct (N.compare_spec (Ascii.N_of_ascii a) (Ascii.N_of_ascii b)); simpl; auto.
Qed.

#[export] Program Instance string_key : MapKey string := {| key_le := λ s t, str_leb s t |}.
Next Obligation. intros s t. apply _. Defined.
Next Obligation. intros s. destruct (str_leb_total s s); done. Qed.
Next Obligation. intros s t u. apply str_leb_trans. Qed.
Next Obligation. intros s t. apply str_leb_antisymm. Qed.
Next Obligation. intros s t. apply str_leb_total. Qed.

(** ** Bytes and strings *)

(** A [std::vector<uint8_t>] is a list of [Z] in byte range. *)
Abbreviation bytes := (list Z).
Definition are_bytes (bs : bytes) : Prop := Forall is_u8 bs.

#[export] Instance are_bytes_dec bs : Decision (are_bytes bs).
Proof. unfold are_bytes. apply _. Defined.

Fixpoint bytes_of_string (s : string) : bytes :=
  match s with
  | EmptyString => []
  | String a s' => Z.of_N (Ascii.N_of_ascii a) :: bytes_of_string s'
  end.

Fixpoint string_of_bytes (bs : bytes) : string :=
  match bs with
  | [] => EmptyString
  | b :: bs' => String (Ascii.ascii_of_N (Z.to_N b)) (string_of_bytes bs')
  end.

Lemma string_of_bytes_of_string s : string_of_bytes (bytes_of_string s) = s.
Proof.
  induction s as [|a s IH]; simpl; [done|].
  by rewrite N2Z.id, Ascii.ascii_N_embedding, IH.
Qed.

Lemma bytes_of_string_of_bytes bs :
  are_bytes bs → bytes_of_string (string_of_bytes bs) = bs.
Proof.
  induction 1 as [|b bs Hb _ IH]; simpl; [done|].
  rewrite Ascii.N_ascii_embedding, Z2N.id, IH by int_solve. done.
Qed.

Lemma are_bytes_of_string s : are_bytes (bytes_of_string s).
Proof.
  induction s as [|a s IH]; constructor; [|done].
  pose proof (Ascii.N_ascii_bounded a). int_solve.
Qed.

Lemma length_bytes_of_string s : length (bytes_of_string s) = String.length s.
Proof. induction s; simpl; congruence. Qed.

(** [std::to_string] on integers: decimal notation. *)
Definition to_string (x : Z) : string := pretty x.

(** ** Lists *)

(** Splitting a list that starts with a known prefix. *)
Lemma take_app_length' {A} (l k : list A) n : n = length l → take n (l ++ k) = l.
Proof. intros ->. apply take_app_length. Qed.
Lemma drop_app_length' {A} (l k : list A) n : n = length l → drop n (l ++ k) = k.
Proof. intros ->. apply drop_app_length. Qed.

Lemma are_bytes_app bs cs : are_bytes (bs ++ cs) ↔ are_bytes bs ∧ are_bytes cs.
Proof. apply Forall_app. Qed.

(** Counting with a boolean predicate. *)
Lemma length_filter_bool {A} (p : A → bool) x l :
  length (filter (λ y, p y = true) (x :: l)) =
  ((if p x then 1 else 0) + length (filter (λ y, p y = true) l))%nat.
Proof. rewrite filter_cons. destruct (p x); [rewrite decide_True|rewrite decide_False]; done. Qed.

(** Sums of a [Z]-valued measure over a list. *)
Definition sumZ {A} (f : A → Z) (l : list A) : Z := foldr (λ x acc, (f x + acc)%Z) 0%Z l.

Lemma sumZ_app {A} (f : A → Z) l k : sumZ f (l ++ k) = (sumZ f l + sumZ f k)%Z.
Proof. induction l; simpl; lia. Qed.

Lemma sumZ_perm {A} (f : A → Z) l k : l ≡ₚ k → sumZ f l = sumZ f k.
Proof. induction 1; simpl; lia. Qed.

Lemma sumZ_nonneg {A} (f : A → Z) l : Forall (λ x, 0 <= f x)%Z l → (0 <= sumZ f l)%Z.
Proof. induction 1; simpl; lia. Qed.

Lemma sumZ_le {A} (f g : A → Z) l : Forall (λ x, f x <= g x)%Z l → (sumZ f l <= sumZ g l)%Z.
Proof. induction 1; simpl; lia. Qed.

Lemma sumZ_add {A} (f g : A → Z) l : sumZ (λ x, f x + g x)%Z l = (sumZ f l + sumZ g l)%Z.
Proof. induction l; simpl; lia. Qed.

Lemma sumZ_elem_le {A} (f : A → Z) l x :
  x ∈ l → Forall (λ y, 0 <= f y)%Z l → (f x <= sumZ f l)%Z.
Proof.
  intros Hx Hl. induction Hl as [|y l Hy Hl IH]; [by apply elem_of_nil in Hx|].
  pose proof (sumZ_nonneg f l Hl). apply elem_of_cons in Hx as [->|Hx]; simpl; [lia|].
  specialize (IH Hx). lia.
Qed.

Lemma sumZ_ext {A} (f g : A → Z) l : (∀ x, x ∈ l → f x = g x) → sumZ f l = sumZ g l.
Proof.
  induction l as [|x l IH]; intros Hfg; simpl; [done|].
  rewrite (Hfg x), IH; [done| |]; set_solver.
Qed.

(** An accumulating loop whose accumulator wraps at [m] computes the exact sum
    modulo [m]. *)
Lemma foldl_mod_sumZ {A} (m : Z) (f : A → Z) l acc :
  (0 < m)%Z →
  (foldl (λ a x, ((a + f x) mod m)%Z) (acc mod m)%Z l = (acc + sumZ f l) mod m)%Z.
Proof.
  intros Hm. revert acc. induction l as [|x l IH]; intros acc; simpl.
  - by rewrite Z.add_0_r.
  - rewrite Z.add_mod_idemp_l by lia. rewrite IH. f_equal. lia.
Qed.

(** ** Positional encodings

    [digits w n v] are the [n] low [w]-bit digits of [v], most significant
    first: the loop "push((v >> (i * w)) & mask)" for i from n-1 down to 0.
    [of_digits w ds] is the loop "v = (v << w) | d".  Big-endian bytes are the
    case [w = 8], hexadecimal the case [w = 4]. *)

Fixpoint digits (w : Z) (n : nat) (v : Z) : list Z :=
  match n with
  | O => []
  | S k => Z.land (Z.shiftr v (w * Z.of_nat k)) (Z.ones w) :: digits w k v
  end.

Definition of_digits (w : Z) (ds : list Z) : Z :=
  foldl (λ acc d, Z.lor (Z.shiftl acc w) d) 0%Z ds.

Definition be_bytes : nat → Z → bytes := digits 8.
Definition be_value : bytes → Z := of_digits 8.

Lemma lor_shiftl_add a b w :
  (0 <= w)%Z → (0 <= b < 2 ^ w)%Z → (Z.lor (Z.shiftl a w) b = a * 2 ^ w + b)%Z.
Proof.
  intros Hw Hb.
  assert (Hland : Z.land (Z.shiftl a w) b = 0%Z).
  { apply Z.bits_inj'. intros i Hi. rewrite Z.land_spec, Z.bits_0.
    destruct (Z.lt_ge_cases i w).
    - rewrite Z.shiftl_spec_low by lia. done.
    - rewrite <-(Z.mod_small b (2 ^ w)), Z.mod_pow2_bits_high by lia.
      apply andb_false_r. }
  rewrite <-Z.lxor_lor, <-Z.add_nocarry_lxor by done.
  by rewrite Z.shiftl_mul_pow2.
Qed.

Section digits.
Context (w : Z) (Hw : (0 < w)%Z).
Local Open Scope Z_scope.

Definition is_digit (d : Z) : Prop := 0 <= d < 2 ^ w.

Lemma of_digits_acc ds acc :
  Forall is_digit ds →
  foldl (λ acc d, Z.lor (Z.shiftl acc w) d) acc ds =
  acc * 2 ^ (w * Z.of_nat (length ds)) + of_digits w ds.
Proof using Hw.
  unfold of_digits. intros Hds. revert acc.
  induction Hds as [|d ds Hd Hds IH]; intros acc; simpl.
  - rewrite Z.mul_0_r. lia.
  - rewrite (IH (Z.lor (Z.shiftl acc w) d)), (IH (Z.lor (Z.shiftl 0 w) d)).
    unfold is_digit in Hd. rewrite !lor_shiftl_add by lia.
    rewrite Nat2Z.inj_succ, Z.mul_succ_r, (Z.pow_add_r 2 _ w) by lia. ring.
Qed.

Lemma digits_is_digit n v : Forall is_digit (digits w n v).
Proof using Hw.
  induction n as [|n IH]; simpl; constructor; [|done].
  unfold is_digit. rewrite Z.land_ones by lia. apply Z.mod_pos_bound. lia.
Qed.

Lemma length_digits n v : length (digits w n v) = n.
Proof. induction n; simpl; congruence. Qed.

Lemma of_digits_cons d ds :
  is_digit d → Forall is_digit ds →
  of_digits w (d :: ds) = d * 2 ^ (w * Z.of_nat (length ds)) + of_digits w ds.
Proof using Hw.
  intros Hd Hds. unfold of_digits at 1. simpl.
  rewrite of_digits_acc by done. rewrite Z.shiftl_0_l, Z.lor_0_l. done.
Qed.

Lemma of_digits_digits n v : of_digits w (digits w n v) = v mod 2 ^ (w * Z.of_nat n).
Proof using Hw.
  induction n as [|n IH].
  - simpl. rewrite Z.mul_0_r. change (2 ^ 0) with 1. by rewrite Z.mod_1_r.
  - change (digits w (S n) v) with
      (Z.land (Z.shiftr v (w * Z.of_nat n)) (Z.ones w) :: digits w n v).
    pose proof (digits_is_digit (S n) v) as Hd. apply Forall_cons in Hd as [Hd1 Hd2].
    rewrite of_digits_cons, length_digits, IH by done.
    rewrite Z.land_ones, Z.shiftr_div_pow2 by lia.
    rewrite Nat2Z.inj_succ, Z.mul_succ_r, Z.pow_add_r by lia.
    rewrite (Z.rem_mul_r v) by (try apply Z.pow_nonzero; lia). ring.
Qed.

Lemma of_digits_range ds :
  Forall is_digit ds → 0 <= of_digits w ds < 2 ^ (w * Z.of_nat (length ds)).
Proof using Hw.
  induction 1 as [|d ds Hd Hds IH].
  - simpl. rewrite Z.mul_0_r. unfold of_digits. simpl. lia.
  - rewrite of_digits_cons by done. unfold is_digit in Hd. simpl length.
    rewrite Nat2Z.inj_succ, Z.mul_succ_r, Z.pow_add_r by lia. nia.
Qed.

Lemma of_digits_inj ds es :
  Forall is_digit ds → Forall is_digit es → length ds = length es →
  of_digits w ds = of_digits w es → ds = es.
Proof using Hw.
  intros Hds. revert es. induction Hds as [|d ds Hd Hds IH]; intros [|e es] Hes Hlen;
    try done. apply Forall_cons in Hes as [He Hes]. injection Hlen as Hlen.
  rewrite !of_digits_cons, Hlen by done. intros Heq.
  pose proof (of_digits_range ds Hds) as R1. pose proof (of_digits_range es Hes) as R2.
  rewrite Hlen in R1.
  assert (d = e ∧ of_digits w ds = of_digits w es) as [-> ?] by
    (apply (Z.div_mod_unique (2 ^ (w * Z.of_nat (length es)))); lia).
  f_equal. by apply IH.
Qed.

Lemma digits_of_digits ds :
  Forall is_digit ds → digits w (length ds) (of_digits w ds) = ds.
Proof using Hw.
  intros Hds. apply of_digits_inj; [apply digits_is_digit|done|apply length_digits|].
  rewrite of_digits_digits. apply Z.mod_small, of_digits_range, Hds.
Qed.
End digits.

Arguments be_bytes : simpl never.
Arguments be_value : simpl never.

Lemma are_bytes_digits bs : are_bytes bs ↔ Forall (is_digit 8) bs.
Proof. done. Qed.

Lemma are_bytes_be_bytes n v : are_bytes (be_bytes n v).
Proof. apply are_bytes_digits. by apply digits_is_digit. Qed.

Lemma length_be_bytes n v : length (be_bytes n v) = n.
Proof. apply length_digits. Qed.

Lemma be_value_be_bytes n v :
  (0 <= v < 2 ^ (8 * Z.of_nat n))%Z → be_value (be_bytes n v) = v.
Proof. intros. unfold be_value, be_bytes. rewrite of_digits_digits by done. by apply Z.mod_small. Qed.

Lemma be_bytes_be_value bs : are_bytes bs → be_bytes (length bs) (be_value bs) = bs.
Proof. intros. by apply digits_of_digits. Qed.

#[export] Hint Resolve are_bytes_be_bytes are_bytes_of_string : cf.
