(* ===== verification/Status.v ===== *)
(** * Status: typed errors and results (core/status.h, core/status.cpp)

    [ErrorCode], [Error] and [Result] are the source's types.  A [Result<T>]
    holds either a value or an error whose code is not [Ok] and carries no
    exceptions, so it is a sum type; [x <-- m ;;; k] is the source's
    "if (m.failed()) return m.error();". *)

From S2P Require Import Prelude.

(** ** Error codes *)

Inductive ErrorCode : Set :=
| EOk
| EInvalidArgument
| EOutOfBounds
| EMalformedFrame
| EProtocolVersionMismatch
| ETimeout
| ENetworkError
| EConnectionClosed
| ENotConnected
| EIllegalTransition
| ETaskNotFound
| EWorkloadNotFound
| EDependencyCycle
| ESelfDependency
| EMissingDependency
| EDependencyFailed
| EDependencyCancelled
| ENodeNotFound
| ENodeOffline
| ENodeDraining
| EStaleSession
| EStaleEpoch
| EStaleAttempt
| ENoCapacity
| EReservationConflict
| EReservationNotFound
| EExecutorUnavailable
| ECapabilityMismatch
| ENoSchedulableNode
| EPersistenceError
| ECorruptionDetected
| EIoError
| ECudaError
| EUnsupported
| EInternal
| ECancelled
| EDeadlineExceeded
| EAlreadyExists
| EInvalidState
| EDuplicateRequest
| EShuttingDown
| ELaunchError
| EProcessError
| EIdempotentReplay.

#[export] Instance ErrorCode_eq_dec : EqDecision ErrorCode.
Proof. solve_decision. Defined.

(** The stable numeric value of each code. *)
Definition error_code_value (c : ErrorCode) : Z :=
  match c with
  | EOk => 0
  | EInvalidArgument => 1
  | EOutOfBounds => 2
  | EMalformedFrame => 3
  | EProtocolVersionMismatch => 4
  | ETimeout => 5
  | ENetworkError => 6
  | EConnectionClosed => 7
  | ENotConnected => 8
  | EIllegalTransition => 9
  | ETaskNotFound => 10
  | EWorkloadNotFound => 11
  | EDependencyCycle => 12
  | ESelfDependency => 13
  | EMissingDependency => 14
  | EDependencyFailed => 15
  | EDependencyCancelled => 16
  | ENodeNotFound => 17
  | ENodeOffline => 18
  | ENodeDraining => 19
  | EStaleSession => 20
  | EStaleEpoch => 21
  | EStaleAttempt => 22
  | ENoCapacity => 23
  | EReservationConflict => 24
  | EReservationNotFound => 25
  | EExecutorUnavailable => 26
  | ECapabilityMismatch => 27
  | ENoSchedulableNode => 28
  | EPersistenceError => 29
  | ECorruptionDetected => 30
  | EIoError => 31
  | ECudaError => 32
  | EUnsupported => 33
  | EInternal => 34
  | ECancelled => 35
  | EDeadlineExceeded => 36
  | EAlreadyExists => 37
  | EInvalidState => 38
  | EDuplicateRequest => 39
  | EShuttingDown => 40
  | ELaunchError => 41
  | EProcessError => 42
  | EIdempotentReplay => 43
  end%Z.

Definition error_code_name (c : ErrorCode) : string :=
  match c with
  | EOk => "ok"
  | EInvalidArgument => "invalid_argument"
  | EOutOfBounds => "out_of_bounds"
  | EMalformedFrame => "malformed_frame"
  | EProtocolVersionMismatch => "protocol_version_mismatch"
  | ETimeout => "timeout"
  | ENetworkError => "network_error"
  | EConnectionClosed => "connection_closed"
  | ENotConnected => "not_connected"
  | EIllegalTransition => "illegal_transition"
  | ETaskNotFound => "task_not_found"
  | EWorkloadNotFound => "workload_not_found"
  | EDependencyCycle => "dep_cycle"
  | ESelfDependency => "self_dependency"
  | EMissingDependency => "missing_dependency"
  | EDependencyFailed => "dependency_failed"
  | EDependencyCancelled => "dependency_cancelled"
  | ENodeNotFound => "node_not_found"
  | ENodeOffline => "node_offline"
  | ENodeDraining => "node_draining"
  | EStaleSession => "stale_session"
  | EStaleEpoch => "stale_epoch"
  | EStaleAttempt => "stale_attempt"
  | ENoCapacity => "no_capacity"
  | EReservationConflict => "reservation_conflict"
  | EReservationNotFound => "reservation_not_found"
  | EExecutorUnavailable => "executor_unavailable"
  | ECapabilityMismatch => "capability_mismatch"
  | ENoSchedulableNode => "no_schedulable_node"
  | EPersistenceError => "persistence_error"
  | ECorruptionDetected => "corruption_detected"
  | EIoError => "io_error"
  | ECudaError => "cuda_error"
  | EUnsupported => "unsupported"
  | EInternal => "internal"
  | ECancelled => "cancelled"
  | EDeadlineExceeded => "deadline_exceeded"
  | EAlreadyExists => "already_exists"
  | EInvalidState => "invalid_state"
  | EDuplicateRequest => "duplicate_request"
  | EShuttingDown => "shutting_down"
  | ELaunchError => "launch_error"
  | EProcessError => "process_error"
  | EIdempotentReplay => "idempotent_replay"
  end.

Definition error_code_message (c : ErrorCode) : string :=
  match c with
  | EOk => "no error"
  | EInvalidArgument => "invalid argument"
  | EOutOfBounds => "value out of bounds"
  | EMalformedFrame => "malformed network frame"
  | EProtocolVersionMismatch => "protocol version mismatch"
  | ETimeout => "operation timed out"
  | ENetworkError => "network error"
  | EConnectionClosed => "connection closed"
  | ENotConnected => "not connected"
  | EIllegalTransition => "illegal lifecycle transition"
  | ETaskNotFound => "task not found"
  | EWorkloadNotFound => "workload not found"
  | EDependencyCycle => "dependency cycle detected"
  | ESelfDependency => "task depends on itself"
  | EMissingDependency => "missing dependency"
  | EDependencyFailed => "dependency failed"
  | EDependencyCancelled => "dependency cancelled"
  | ENodeNotFound => "node not found"
  | ENodeOffline => "node is offline"
  | ENodeDraining => "node is draining"
  | EStaleSession => "stale node session"
  | EStaleEpoch => "stale coordinator epoch"
  | EStaleAttempt => "stale attempt token"
  | ENoCapacity => "no capacity available"
  | EReservationConflict => "reservation conflict"
  | EReservationNotFound => "reservation not found"
  | EExecutorUnavailable => "executor unavailable"
  | ECapabilityMismatch => "capability mismatch"
  | ENoSchedulableNode => "no schedulable node"
  | EPersistenceError => "persistence error"
  | ECorruptionDetected => "state corruption detected"
  | EIoError => "io error"
  | ECudaError => "cuda error"
  | EUnsupported => "unsupported operation"
  | EInternal => "internal error"
  | ECancelled => "operation cancelled"
  | EDeadlineExceeded => "deadline exceeded"
  | EAlreadyExists => "already exists"
  | EInvalidState => "invalid state"
  | EDuplicateRequest => "duplicate request"
  | EShuttingDown => "runtime is shutting down"
  | ELaunchError => "process launch error"
  | EProcessError => "child process error"
  | EIdempotentReplay => "idempotent replay of request"
  end.

(** ** Errors and results *)

Record Error := mkError { err_code : ErrorCode; err_message : string }.

#[export] Instance Error_eq_dec : EqDecision Error.
Proof. solve_decision. Defined.

(** [Error::to_string] *)
Definition error_to_string (e : Error) : string :=
  (error_code_name (err_code e) +:+ ": " +:+ err_message e)%string.

Inductive Result (A : Type) : Type :=
| Ok (a : A)
| Err (e : Error).
Arguments Ok {A} a.
Arguments Err {A} e.

Definition err {A} (c : ErrorCode) (msg : string) : Result A := Err (mkError c msg).

Definition is_ok {A} (r : Result A) : bool := match r with Ok _ => true | Err _ => false end.
Definition failed {A} (r : Result A) : bool := negb (is_ok r).
Definition value_or {A} (r : Result A) (fallback : A) : A :=
  match r with Ok a => a | Err _ => fallback end.

Definition result_bind {A B} (m : Result A) (k : A → Result B) : Result B :=
  match m with Ok a => k a | Err e => Err e end.

Declare Scope cf_scope.
Delimit Scope cf_scope with cf.
Notation "x <-- m ;;; k" := (result_bind m (λ x, k))
  (at level 100, m at next level, right associativity) : cf_scope.
Open Scope cf_scope.

Lemma is_ok_spec {A} (r : Result A) : is_ok r ↔ ∃ a, r = Ok a.
Proof. destruct r; simpl; naive_solver. Qed.

Lemma error_code_value_inj c d : error_code_value c = error_code_value d → c = d.
Proof. destruct c, d; simpl; intros E; try reflexivity; discriminate E. Qed.

Lemma error_code_name_inj c d : error_code_name c = error_code_name d → c = d.
Proof. destruct c, d; simpl; intros E; try reflexivity; discriminate E. Qed.
