(* ===== verification/Support.v ===== *)
(** * Support: version, logging and time (core/version.h, core/logging.h,
    core/logging.cpp, core/time_util.h, core/time_util.cpp)

    The logger's lines and the time stamps.  What [vsnprintf] makes of a format and
    its arguments is the text handed to the logger; the clocks are their readings in
    nanoseconds. *)

From S2P Require Import Prelude.

Local Open Scope Z_scope.

(** ** Version *)

Record Version := mkVersion { v_major : Z; v_minor : Z; v_patch : Z }.
Definition version : Version := mkVersion 1 0 0.
Definition version_string : string := "1.0.0".
Definition project_name : string := "Compute Fabric".

(** The string spells the version. *)
Lemma version_spelled :
  version_string = to_string (v_major version) +:+ "." +:+ to_string (v_minor version) +:+ "."
                   +:+ to_string (v_patch version).
Proof. vm_compute. reflexivity. Qed.

(** ** Logging *)

Inductive LogLevel := LL_Debug | LL_Info | LL_Warn | LL_Error.
Definition level_value (l : LogLevel) : Z :=
  match l with LL_Debug => 0 | LL_Info => 1 | LL_Warn => 2 | LL_Error => 3 end.
Definition level_prefix (l : LogLevel) : string :=
  match l with LL_Debug => "DEBUG" | LL_Info => "INFO" | LL_Warn => "WARN" | LL_Error => "ERROR" end.

Record Logger := mkLogger { lg_level : LogLevel; lg_tag : bytes }.
Definition new_logger : Logger := mkLogger LL_Info [].
Definition set_level (l : LogLevel) (g : Logger) : Logger := mkLogger l (lg_tag g).
Definition set_tag (t : bytes) (g : Logger) : Logger := mkLogger (lg_level g) t.

(** What a function that takes a C string sees. *)
Fixpoint c_str (b : bytes) : bytes :=
  match b with [] => [] | c :: b => if c =? 0 then [] else c :: c_str b end.

(** [vsnprintf(buf, sizeof(buf), ..)] with 2048 bytes: the last is the terminator. *)
Definition kLogBuffer : nat := 2047.
Definition log_buffer (text : bytes) : bytes := take kLogBuffer (c_str text).

(** [Logger::log]: the line written to stderr, if any. *)
Definition log (g : Logger) (level : LogLevel) (text : bytes) : option bytes :=
  if level_value level <? level_value (lg_level g) then None
  else
    let buf := log_buffer text in
    let head := bytes_of_string ("[" +:+ level_prefix level +:+ "] ") in
    Some (match lg_tag g with
          | [] => head ++ buf
          | tag => head ++ bytes_of_string "{" ++ c_str tag ++ bytes_of_string "} " ++ buf
          end ++ [10]).

(** [debug], [info], [warn] and [error] format into a buffer of their own and log
    that. *)
Definition log_through (g : Logger) (level : LogLevel) (text : bytes) : option bytes :=
  log g level (log_buffer text).
Definition debug (g : Logger) := log_through g LL_Debug.
Definition info (g : Logger) := log_through g LL_Info.
Definition warn (g : Logger) := log_through g LL_Warn.
Definition error (g : Logger) := log_through g LL_Error.

Lemma c_str_no_nul b : Forall (λ c, c ≠ 0) (c_str b).
Proof. induction b as [|c b IH]; cbn; [constructor|]. destruct (Z.eqb_spec c 0); [constructor|by constructor]. Qed.
Lemma c_str_id b : Forall (λ c, c ≠ 0) b → c_str b = b.
Proof. induction 1 as [|c b Hc _ IH]; cbn; [done|]. destruct (Z.eqb_spec c 0); [done|]. by rewrite IH. Qed.
Lemma c_str_length b : (length (c_str b) <= length b)%nat.
Proof. induction b as [|c b IH]; cbn; [lia|]. destruct (c =? 0); cbn; lia. Qed.

(** The second buffer changes nothing. *)
Lemma log_through_log g level text : log_through g level text = log g level text.
Proof.
  unfold log_through, log. destruct (_ <? _); [done|].
  assert (E : log_buffer (log_buffer text) = log_buffer text); [|by rewrite E].
  unfold log_buffer. rewrite (c_str_id (take kLogBuffer (c_str text))) by (apply Forall_take, c_str_no_nul).
  by rewrite take_take, Nat.min_id.
Qed.

(** A line is written exactly for the levels from the logger's own on, and it is
    bounded whatever is logged. *)
Lemma log_bounded g level text :
  (log g level text = None ↔ level_value level < level_value (lg_level g)) ∧
  ∀ line, log g level text = Some line → (length line <= kLogBuffer + length (lg_tag g) + 12)%nat.
Proof.
  unfold log. destruct (Z.ltb_spec (level_value level) (level_value (lg_level g))) as [Hlt|Hge].
  - split; [done|discriminate].
  - split; [split; [discriminate|lia]|]. intros line E. apply (inj Some) in E. subst line.
    assert (Hb : (length (log_buffer text) <= kLogBuffer)%nat) by (unfold log_buffer; rewrite length_take; lia).
    assert (Hh : (length (bytes_of_string ("[" +:+ level_prefix level +:+ "] ")) <= 8)%nat) by (destruct level; vm_compute; lia).
    pose proof (c_str_length (lg_tag g)).
    assert (length (bytes_of_string "{") = 1%nat ∧ length (bytes_of_string "} ") = 2%nat) as [E1 E2] by done.
    revert Hb Hh E1 E2. generalize (log_buffer text) (bytes_of_string ("[" +:+ level_prefix level +:+ "] "))
      (bytes_of_string "{") (bytes_of_string "} "). intros buf head open close ????.
    destruct (lg_tag g) as [|c tag]; rewrite !length_app; change (length [10]) with 1%nat; lia.
Qed.

(** ** Time *)

(** [std::chrono::duration_cast] rounds towards zero. *)
Definition to_millis (ns : Z) : Z := Z.quot ns 1000000.
Definition to_micros (ns : Z) : Z := Z.quot ns 1000.

(** [now_millis], [now_micros] on a reading of the steady clock, [unix_millis] and
    [realtime_millis] on one of the system clock. *)
Definition now_millis (steady_ns : Z) : Z := to_millis steady_ns.
Definition now_micros (steady_ns : Z) : Z := to_micros steady_ns.
Definition unix_millis (wall_ns : Z) : Z := to_millis wall_ns.
Definition realtime_millis (wall_ns : Z) : Z := unix_millis wall_ns.

(** The clocks agree, and no reading runs backwards. *)
Lemma millis_of_micros ns : now_millis ns = Z.quot (now_micros ns) 1000.
Proof. unfold now_millis, now_micros, to_millis, to_micros. by rewrite Z.quot_quot by lia. Qed.
Lemma now_millis_mono a b : a <= b → now_millis a <= now_millis b.
Proof. intros. by apply Z.quot_le_mono. Qed.
