(* ===== verification/Ids.v ===== *)
(** * Ids: 128-bit identifiers (core/identifiers.h, core/identifiers.cpp, core/random.h)

    [Id128] with its order, its hexadecimal and big-endian encodings, and the
    generator with its fallback.  [SeededRng] is the SplitMix64 generator. *)

From S2P Require Import Prelude Status.

(** ** SeededRng *)

Local Open Scope Z_scope.

(** [next_u64]: the new state and the value drawn. *)
Definition next_u64 (state : Z) : Z * Z :=
  let state := u64 (state + 0x9E3779B97F4A7C15) in
  let z := state in
  let z := u64 (Z.lxor z (Z.shiftr z 30) * 0xBF58476D1CE4E5B9) in
  let z := u64 (Z.lxor z (Z.shiftr z 27) * 0x94D049BB133111EB) in
  (state, Z.lxor z (Z.shiftr z 31)).

Definition next_u64_bounded (state bound : Z) : Z * Z :=
  if bound =? 0 then (state, 0)
  else let '(state, v) := next_u64 state in (state, v mod bound).

Definition next_u32 (state : Z) : Z * Z :=
  let '(state, v) := next_u64 state in (state, u32 v).

Definition next_bool (state : Z) : Z * bool :=
  let '(state, v) := next_u64 state in (state, negb (Z.land v 1 =? 0)).

(** ** Identifiers *)

Record Id128 := mkId { id_hi : Z; id_lo : Z }.

Definition id_zero : Id128 := mkId 0 0.
Definition id_is_zero (id : Id128) : bool := (id_hi id =? 0) && (id_lo id =? 0).

(** The two words are [uint64_t]. *)
Definition id_wf (id : Id128) : Prop := is_u64 (id_hi id) ∧ is_u64 (id_lo id).

#[export] Instance Id128_eq_dec : EqDecision Id128.
Proof. solve_decision. Defined.
#[export] Instance id_wf_dec id : Decision (id_wf id).
Proof. unfold id_wf. apply _. Defined.
#[export] Instance Id128_countable : Countable Id128.
Proof.
  apply (inj_countable' (λ id, (id_hi id, id_lo id)) (λ p, mkId p.1 p.2)). by intros [].
Defined.
#[export] Instance Id128_inhabited : Inhabited Id128 := populate id_zero.

(** [operator<] *)
Definition id_ltb (a b : Id128) : bool :=
  if negb (id_hi a =? id_hi b) then id_hi a <? id_hi b else id_lo a <? id_lo b.

Definition id_pair (id : Id128) : Z * Z := (id_hi id, id_lo id).

#[export] Program Instance Id128_key : MapKey Id128 :=
  {| key_le := λ a b, key_le (id_pair a) (id_pair b) |}.
Next Obligation. intros a b. apply _. Defined.
Next Obligation. intros a. reflexivity. Qed.
Next Obligation. intros a b c. apply transitivity. Qed.
Next Obligation.
  intros [a1 a2] [b1 b2] H1 H2.
  pose proof (anti_symm key_le _ _ H1 H2) as E. by inversion E.
Qed.
Next Obligation. intros a b. apply (total key_le). Qed.

(** The iteration order of maps keyed by [Id128] is the one [operator<] gives. *)
Lemma id_ltb_key a b : id_ltb a b ↔ key_le a b ∧ a ≠ b.
Proof.
  destruct a as [a1 a2], b as [b1 b2]. unfold id_ltb; simpl. unfold lex_le; simpl.
  destruct (Z.eqb_spec a1 b1) as [->|Hne]; simpl; rewrite Is_true_true, Z.ltb_lt.
  - split; [intros; split; [right; lia|injection 1; lia]|].
    intros [[[? ?]|[? ?]] Hne]; [lia|].
    assert (a2 ≠ b2) by (intros ->; done). lia.
  - split; [intros; split; [left; lia|injection 1; lia]|]. intros [[?|?] ?]; lia.
Qed.

(** ** Generation

    [entropy] is what the operating system's generator delivered for the two
    words ([None] when the call failed); [seed] is the mix of clocks, process,
    thread and address the fallback seeds its generator with.  C++ leaves the
    order in which the two arguments of the constructor are drawn open:
    [left_first] is the compiler's choice. *)

Definition fallback_seed (wall steady pid thread address serial : Z) : Z :=
  Z.lxor (Z.lxor (Z.lxor (Z.lxor (Z.lxor wall (u64 (Z.shiftl steady 1)))
    (u64 (Z.shiftl pid 32))) (u64 (Z.shiftl thread 7))) address) serial.

Definition fallback_random (left_first : bool) (seed pid serial : Z) : Id128 :=
  let '(s1, v1) := next_u64 seed in
  let '(_, v2) := next_u64 s1 in
  let id := if left_first then mkId v1 v2 else mkId v2 v1 in
  if id_is_zero id then mkId pid serial else id.

Definition id_random (entropy : option (Z * Z)) (left_first : bool)
    (seed pid serial : Z) : Id128 :=
  match entropy with
  | Some (w0, w1) =>
      let id := mkId w0 w1 in
      if negb (id_is_zero id) then id else fallback_random left_first seed pid serial
  | None => fallback_random left_first seed pid serial
  end.

(** ** Encodings *)

(** [snprintf("%016llx")]: one lower-case hexadecimal digit. *)
Definition hex_char (d : Z) : Z := if d <? 10 then 48 + d else 87 + d.

Definition hex64 (v : Z) : bytes := map hex_char (digits 4 16 v).

Definition to_hex (id : Id128) : string :=
  string_of_bytes (hex64 (id_hi id) ++ hex64 (id_lo id)).

(** The lambda [nib] of [from_hex]. *)
Definition nib (c : Z) : Z :=
  if (48 <=? c) && (c <=? 57) then c - 48
  else if (97 <=? c) && (c <=? 102) then c - 97 + 10
  else if (65 <=? c) && (c <=? 70) then c - 65 + 10
  else -1.

(** The loop of [from_hex]: [rest] are the characters at [i..15] paired with
    those at [i+16..31]. *)
Fixpoint from_hex_loop (rest : list (Z * Z)) (hi lo : Z) : Result Id128 :=
  match rest with
  | [] => Ok (mkId hi lo)
  | (ca, cb) :: rest =>
      let a := nib ca in
      let b := nib cb in
      if (a <? 0) || (b <? 0) then err EInvalidArgument "invalid hex character in id"
      else from_hex_loop rest (u64 (Z.lor (Z.shiftl hi 4) a)) (u64 (Z.lor (Z.shiftl lo 4) b))
  end.

Definition from_hex (hex : string) : Result Id128 :=
  let cs := bytes_of_string hex in
  if negb (Nat.eqb (length cs) 32) then err EInvalidArgument "id must be 32 hex characters"
  else from_hex_loop (zip (take 16 cs) (drop 16 cs)) 0 0.

Definition to_bytes (id : Id128) : bytes := be_bytes 8 (id_hi id) ++ be_bytes 8 (id_lo id).

(** Reads the first 16 bytes of [bs]. *)
Definition from_bytes (bs : bytes) : Id128 :=
  mkId (be_value (take 8 bs)) (be_value (take 8 (drop 8 bs))).

(** ** Facts *)

Lemma next_u64_range s : is_u64 (next_u64 s).1 ∧ is_u64 (next_u64 s).2.
Proof. unfold next_u64. simpl. split; [apply u64_range|]. auto with cf. Qed.

Lemma id_random_nonzero entropy lf seed pid serial :
  serial ≠ 0 → id_is_zero (id_random entropy lf seed pid serial) = false.
Proof.
  intros Hs.
  assert (Hfb : id_is_zero (fallback_random lf seed pid serial) = false).
  { unfold fallback_random. destruct (next_u64 seed) as [s1 v1], (next_u64 s1) as [s2 v2].
    set (id := if lf then _ else _). destruct (id_is_zero id) eqn:E; [|done].
    unfold id_is_zero; simpl. destruct (Z.eqb_spec serial 0); [done|apply andb_false_r]. }
  destruct entropy as [[w0 w1]|]; simpl; [|done].
  destruct (id_is_zero (mkId w0 w1)) eqn:E; simpl; done.
Qed.

Lemma to_bytes_length id : length (to_bytes id) = 16%nat.
Proof. unfold to_bytes. by rewrite length_app, !length_be_bytes. Qed.

Lemma are_bytes_to_bytes id : are_bytes (to_bytes id).
Proof. apply are_bytes_app; auto with cf. Qed.

Lemma from_bytes_to_bytes id rest : id_wf id → from_bytes (to_bytes id ++ rest) = id.
Proof.
  intros [H1 H2]. unfold from_bytes, to_bytes. rewrite <-!(assoc_L (++)).
  rewrite take_app_length' by (by rewrite length_be_bytes).
  rewrite drop_app_length' by (by rewrite length_be_bytes).
  rewrite take_app_length' by (by rewrite length_be_bytes).
  rewrite !be_value_be_bytes by (simpl; int_solve). by destruct id.
Qed.

Lemma be_value_u64 bs : are_bytes bs → length bs = 8%nat → is_u64 (be_value bs).
Proof.
  intros H1 H2. pose proof (of_digits_range 8 ltac:(lia) bs H1) as R.
  rewrite H2 in R. exact R.
Qed.

Lemma from_bytes_wf bs : are_bytes bs → (16 <= length bs)%nat → id_wf (from_bytes bs).
Proof.
  intros H1 H2. split; apply be_value_u64; simpl.
  - by apply Forall_take.
  - rewrite length_take. lia.
  - by apply Forall_take, Forall_drop.
  - rewrite length_take, length_drop. lia.
Qed.

Lemma to_bytes_from_bytes bs : are_bytes bs → length bs = 16%nat → to_bytes (from_bytes bs) = bs.
Proof.
  intros H1 H2. unfold to_bytes, from_bytes; cbn [id_hi id_lo].
  assert (L1 : length (take 8 bs) = 8%nat) by (rewrite length_take; lia).
  assert (L2 : length (take 8 (drop 8 bs)) = 8%nat) by (rewrite length_take, length_drop; lia).
  pose proof (be_bytes_be_value (take 8 bs)) as E1. rewrite L1 in E1.
  pose proof (be_bytes_be_value (take 8 (drop 8 bs))) as E2. rewrite L2 in E2.
  rewrite E1, E2 by (by repeat (apply Forall_take || apply Forall_drop)).
  rewrite (take_ge (drop 8 bs)) by (rewrite length_drop; lia). apply take_drop.
Qed.

(** *** Hexadecimal *)

Lemma nib_hex_char d : 0 <= d < 16 → nib (hex_char d) = d.
Proof.
  intros Hd. unfold hex_char, nib. destruct (Z.ltb_spec d 10).
  - destruct (Z.leb_spec 48 (48 + d)), (Z.leb_spec (48 + d) 57); simpl; lia.
  - destruct (Z.leb_spec 48 (87 + d)), (Z.leb_spec (87 + d) 57),
      (Z.leb_spec 97 (87 + d)), (Z.leb_spec (87 + d) 102); simpl; lia.
Qed.

Lemma hex_char_byte d : 0 <= d < 16 → is_u8 (hex_char d).
Proof. intros. unfold hex_char, is_u8. destruct (Z.ltb_spec d 10); lia. Qed.

Lemma nib_range c : nib c < 16.
Proof. unfold nib. repeat case_match; lia. Qed.

Lemma Forall_hex_chars ds : Forall (is_digit 4) ds → are_bytes (map hex_char ds).
Proof. induction 1; constructor; [by apply hex_char_byte|done]. Qed.

(** On hexadecimal digits the loop accumulates the value of the digits read. *)
Lemma from_hex_loop_digits ds es hi lo :
  length ds = length es → Forall (is_digit 4) ds → Forall (is_digit 4) es →
  (Z.of_nat (length ds) <= 16) →
  0 <= hi < 2 ^ (64 - 4 * Z.of_nat (length ds)) →
  0 <= lo < 2 ^ (64 - 4 * Z.of_nat (length ds)) →
  from_hex_loop (zip (map hex_char ds) (map hex_char es)) hi lo =
  Ok (mkId (foldl (λ acc d, Z.lor (Z.shiftl acc 4) d) hi ds)
           (foldl (λ acc d, Z.lor (Z.shiftl acc 4) d) lo es)).
Proof.
  intros Hlen Hds. revert es hi lo Hlen. induction Hds as [|d ds Hd Hds IH];
    intros [|e es] hi lo Hlen Hes Hn Hhi Hlo; try done.
  apply Forall_cons in Hes as [He Hes]. injection Hlen as Hlen.
  cbn [map zip_with from_hex_loop foldl zip]. rewrite !nib_hex_char by done.
  unfold is_digit in Hd, He.
  destruct (Z.ltb_spec d 0), (Z.ltb_spec e 0); simpl; try lia.
  cbn [length] in *. rewrite Nat2Z.inj_succ in *.
  assert (E : 2 ^ (64 - 4 * Z.of_nat (length ds)) =
    2 ^ (64 - 4 * Z.succ (Z.of_nat (length ds))) * 2 ^ 4).
  { rewrite <-Z.pow_add_r by lia. f_equal. lia. }
  assert (2 ^ (64 - 4 * Z.of_nat (length ds)) <= 2 ^ 64) by (apply Z.pow_le_mono_r; lia).
  rewrite !lor_shiftl_add by lia.
  rewrite !u64_id by (unfold is_u64; change (2 ^ 64) with 18446744073709551616 in *; nia).
  rewrite <-!lor_shiftl_add by lia.
  apply IH; [done|done|lia| |]; rewrite lor_shiftl_add by lia; nia.
Qed.

Lemma from_hex_to_hex_gen id : id_wf id → from_hex (to_hex id) = Ok id.
Proof.
  intros [H1 H2]. unfold from_hex, to_hex, hex64.
  rewrite bytes_of_string_of_bytes by (apply are_bytes_app; split;
    apply Forall_hex_chars; by apply digits_is_digit).
  rewrite length_app, !length_map, !length_digits. simpl negb.
  rewrite take_app_length' by (by rewrite length_map, length_digits).
  rewrite drop_app_length' by (by rewrite length_map, length_digits).
  cbv iota. rewrite from_hex_loop_digits; rewrite ?length_digits; try done;
    try (by apply digits_is_digit).
  assert (E : ∀ ds, foldl (λ acc d, Z.lor (Z.shiftl acc 4) d) 0 ds = of_digits 4 ds) by done.
  rewrite !E, !of_digits_digits by done. destruct id as [h l]; cbn [id_hi id_lo] in *.
  do 2 f_equal; apply Z.mod_small; int_solve.
Qed.

(** ** Claims *)

(** Identifiers survive every encoding.  The 16-byte form decodes to the
    same identifier whatever follows it, every 16 bytes are the encoding of the
    identifier they decode to, and the 32-character hexadecimal form parses back. *)
Theorem id_roundtrips (id : Id128) (bs rest : bytes) :
  id_wf id → are_bytes bs → length bs = 16%nat →
  from_bytes (to_bytes id ++ rest) = id ∧ to_bytes (from_bytes bs) = bs ∧
  from_hex (to_hex id) = Ok id.
Proof.
  intros. split_and!; [by apply from_bytes_to_bytes|by apply to_bytes_from_bytes|].
  by apply from_hex_to_hex_gen.
Qed.

Lemma id_roundtrips_witness :
  from_hex (to_hex (mkId 81985529216486895 18364758544493064720)) =
  Ok (mkId 81985529216486895 18364758544493064720).
Proof.
  refine (proj2 (proj2 (id_roundtrips _ (replicate 16 0) [] _ _ _))).
  - split; vm_compute; split; congruence.
  - repeat constructor; vm_compute; congruence.
  - reflexivity.
Defined.

(** [Id128::random] never returns the null identifier, whatever the
    operating system's generator delivers, as long as the process-wide serial
    number (which starts at 1) is not 0. *)
Theorem random_id_not_null (entropy : option (Z * Z)) (left_first : bool) (seed pid serial : Z) :
  serial ≠ 0 → id_is_zero (id_random entropy left_first seed pid serial) = false.
Proof. apply id_random_nonzero. Qed.

Lemma random_id_witness : id_is_zero (id_random (Some (0, 0)) true 0 0 1) = false.
Proof. apply (random_id_not_null (Some (0, 0)) true 0 0 1). lia. Defined.
