(* ===== verification/Digest.v ===== *)
(** * Digest: checksums and hashes (core/digest.h, core/digest.cpp)

    The table-driven CRC-32 with the table as the source spells it, the
    bit-serial CRC-32 of the IEEE 802.3 polynomial it is meant to compute, and
    the 64-bit hashes. *)

From S2P Require Import Prelude.

Local Open Scope Z_scope.

(** ** CRC-32 *)

(** [static const uint32_t table[256]] *)
Definition crc_table : list Z :=
  [0x00000000; 0x77073096; 0xEE0E612C; 0x990951BA; 0x076DC419; 0x706AF48F;
   0xE963A535; 0x9E6495A3; 0x0EDB8832; 0x79DCB8A4; 0xE0D5E91E; 0x97D2D988;
   0x09B64C2B; 0x7EB17CBD; 0xE7B82D07; 0x90BF1D91; 0x1DB71064; 0x6AB020F2;
   0xF3B97148; 0x84BE41DE; 0x1ADAD47D; 0x6DDDE4EB; 0xF4D4B551; 0x83D385C7;
   0x136C9856; 0x646BA8C0; 0xFD62F97A; 0x8A65C9EC; 0x14015C4F; 0x63066CD9;
   0xFA0F3D63; 0x8D080DF5; 0x3B6E20C8; 0x4C69105E; 0xD56041E4; 0xA2677172;
   0x3C03E4D1; 0x4B04D447; 0xD20D85FD; 0xA50AB56B; 0x35B5A8FA; 0x42B2986C;
   0xDBBB9F86; 0xACBCF940; 0x32D86CE3; 0x45DF5C75; 0xDCD60DCF; 0xABD13D59;
   0x26D930AC; 0x51DE003A; 0xC8D75180; 0xBFD06116; 0x21B4F4B5; 0x56B3C423;
   0xCFBA9599; 0xB8BDA50F; 0x2802B89E; 0x5F058808; 0xC60CD9B2; 0xB10BE924;
   0x2F6F7C87; 0x58684C11; 0xC1611DAB; 0xB6662D3D; 0x76DC4190; 0x01DB7106;
   0x98D220BC; 0xEFD5102A; 0x71B18589; 0x06B6B51F; 0x9FBFE4A5; 0xE8B8D433;
   0x7807C9A2; 0x0F00F934; 0x9609A88E; 0xE10E9818; 0x7F6A0DBB; 0x086D3D2D;
   0x91646C97; 0xE6635C01; 0x6B6B51F4; 0x1C6C6162; 0x856530D8; 0xF262004E;
   0x6C0695ED; 0x1B01A57B; 0x8208F4C1; 0xF50FC457; 0x65B0D9C6; 0x12B7E950;
   0x8BBEB8EA; 0xFCB9887C; 0x62DD1DDF; 0x15DA2D49; 0x8CD37CF3; 0xFBD44C65;
   0x4DB26158; 0x3AB551CE; 0xA3BC0074; 0xD4BB30E2; 0x4ADFA541; 0x3DD895D7;
   0xA4D1C46D; 0xD3D6F4FB; 0x4369E96A; 0x346ED9FC; 0xAD678846; 0xDA60B8D0;
   0x44042D73; 0x33031DE5; 0xAA0A4C5F; 0xDD0D7CC9; 0x5005713C; 0x270241AA;
   0xBE0B1010; 0xC90C2086; 0x5768B525; 0x206F85B3; 0xB966D409; 0xCE61E49F;
   0x5EDEF90E; 0x29D9C998; 0xB0D09822; 0xC7D7A8B4; 0x59B33D17; 0x2EB40D81;
   0xB7BD5C3B; 0xC0BA6CAD; 0xEDB88320; 0x9ABFB3B6; 0x03B6E20C; 0x74B1D29A;
   0xEAD54739; 0x9DD277AF; 0x04DB2615; 0x73DC1683; 0xE3630B12; 0x94643B84;
   0x0D6D6A3E; 0x7A6A5AA8; 0xE40ECF0B; 0x9309FF9D; 0x0A00AE27; 0x7D079EB1;
   0xF00F9344; 0x8708A3D2; 0x1E01F268; 0x6906C2FE; 0xF762575D; 0x806567CB;
   0x196C3671; 0x6E6B06E7; 0xFED41B76; 0x89D32BE0; 0x10DA7A5A; 0x67DD4ACC;
   0xF9B9DF6F; 0x8EBEEFF9; 0x17B7BE43; 0x60B08ED5; 0xD6D6A3E8; 0xA1D1937E;
   0x38D8C2C4; 0x4FDFF252; 0xD1BB67F1; 0xA6BC5767; 0x3FB506DD; 0x48B2364B;
   0xD80D2BDA; 0xAF0A1B4C; 0x36034AF6; 0x41047A60; 0xDF60EFC3; 0xA867DF55;
   0x316E8EEF; 0x4669BE79; 0xCB61B38C; 0xBC66831A; 0x256FD2A0; 0x5268E236;
   0xCC0C7795; 0xBB0B4703; 0x220216B9; 0x5505262F; 0xC5BA3BBE; 0xB2BD0B28;
   0x2BB45A92; 0x5CB36A04; 0xC2D7FFA7; 0xB5D0CF31; 0x2CD99E8B; 0x5BDEAE1D;
   0x9B64C2B0; 0xEC63F226; 0x756AA39C; 0x026D930A; 0x9C0906A9; 0xEB0E363F;
   0x72076785; 0x05005713; 0x95BF4A82; 0xE2B87A14; 0x7BB12BAE; 0x0CB61B38;
   0x92D28E9B; 0xE5D5BE0D; 0x7CDCEFB7; 0x0BDBDF21; 0x86D3D2D4; 0xF1D4E242;
   0x68DDB3F8; 0x1FDA836E; 0x81BE16CD; 0xF6B9265B; 0x6FB077E1; 0x18B74777;
   0x88085AE6; 0xFF0F6A70; 0x66063BCA; 0x11010B5C; 0x8F659EFF; 0xF862AE69;
   0x616BFFD3; 0x166CCF45; 0xA00AE278; 0xD70DD2EE; 0x4E048354; 0x3903B3C2;
   0xA7672661; 0xD06016F7; 0x4969474D; 0x3E6E77DB; 0xAED16A4A; 0xD9D65ADC;
   0x40DF0B66; 0x37D83BF0; 0xA9BCAE53; 0xDEBB9EC5; 0x47B2CF7F; 0x30B5FFE9;
   0xBDBDF21C; 0xCABAC28A; 0x53B39330; 0x24B4A3A6; 0xBAD03605; 0xCDD70693;
   0x54DE5729; 0x23D967BF; 0xB3667A2E; 0xC4614AB8; 0x5D681B02; 0x2A6F2B94;
   0xB40BBE37; 0xC30C8EA1; 0x5A05DF1B; 0x2D02EF8D].

Definition crc_entry (i : Z) : Z := nth (Z.to_nat i) crc_table 0.

(** The index into the table and one iteration of the loop of [update]. *)
Definition crc_index (crc b : Z) : Z := Z.land (Z.lxor crc b) 0xFF.
Definition crc_step (crc b : Z) : Z :=
  Z.lxor (Z.shiftr crc 8) (crc_entry (crc_index crc b)).

(** [Crc32::update] and [Crc32::compute] *)
Definition crc_update (crc : Z) (data : bytes) : Z := foldl crc_step crc data.
Definition crc32_compute (data : bytes) : Z :=
  Z.lxor (crc_update 0xFFFFFFFF data) 0xFFFFFFFF.

(** The CRC-32 of IEEE 802.3 and zlib, one bit at a time (reflected polynomial
    0xEDB88320). *)
Definition ieee_bit (crc : Z) : Z :=
  if Z.odd crc then Z.lxor (Z.shiftr crc 1) 0xEDB88320 else Z.shiftr crc 1.
Definition ieee_entry (i : Z) : Z := Nat.iter 8 ieee_bit i.
Definition ieee_step (crc b : Z) : Z :=
  Z.lxor (Z.shiftr crc 8) (ieee_entry (crc_index crc b)).
Definition ieee_crc32 (data : bytes) : Z :=
  Z.lxor (foldl ieee_step 0xFFFFFFFF data) 0xFFFFFFFF.

(** ** 64-bit hashes *)

Definition mix64 (x : Z) : Z :=
  let x := Z.lxor x (Z.shiftr x 30) in
  let x := u64 (x * 0xBF58476D1CE4E5B9) in
  let x := Z.lxor x (Z.shiftr x 27) in
  let x := u64 (x * 0x94D049BB133111EB) in
  Z.lxor x (Z.shiftr x 31).

Definition fnv_step (h b : Z) : Z := u64 (Z.lxor h b * 0x100000001B3).

Definition bytes_hash (data : bytes) (seed : Z) : Z :=
  mix64 (foldl fnv_step (Z.lxor 0xCBF29CE484222325 seed) data).

(** The overload on [std::string]. *)
Definition string_hash (s : string) (seed : Z) : Z := bytes_hash (bytes_of_string s) seed.

(** The memory image of a [uint64_t] on the supported (x64) platforms. *)
Definition le_bytes64 (v : Z) : bytes := reverse (be_bytes 8 v).

Definition pair_hash (a b : Z) : Z := bytes_hash (le_bytes64 a ++ le_bytes64 b) 0.

(** ** Facts about the table *)

Lemma crc_table_length : length crc_table = 256%nat.
Proof. vm_compute. reflexivity. Qed.

Lemma crc_entry_u32 i : is_u32 (crc_entry i).
Proof.
  unfold crc_entry. destruct (nth_in_or_default (Z.to_nat i) crc_table 0) as [Hin| ->];
    [|int_solve].
  assert (Hall : Forall is_u32 crc_table) by (apply (bool_decide_unpack _); vm_compute; exact I).
  rewrite List.Forall_forall in Hall. by apply Hall.
Qed.

(** The most significant bytes of the entries are pairwise distinct. *)
Lemma crc_entry_top_inj i j :
  0 <= i < 256 → 0 <= j < 256 →
  Z.shiftr (crc_entry i) 24 = Z.shiftr (crc_entry j) 24 → i = j.
Proof.
  intros Hi Hj Heq.
  assert (Hnd : NoDup (map (λ x, Z.shiftr x 24) crc_table))
    by (apply (bool_decide_unpack _); vm_compute; exact I).
  assert (L : length (map (λ x, Z.shiftr x 24) crc_table) = 256%nat) by (vm_compute; done).
  enough (Z.to_nat i = Z.to_nat j) by lia.
  rewrite NoDup_ListNoDup, (NoDup_nth _ (Z.shiftr 0 24)) in Hnd.
  apply Hnd; [lia|lia|]. by rewrite !(map_nth (λ x, Z.shiftr x 24)).
Qed.

(** Entry 42 is the only one that differs from the polynomial's table. *)
Lemma crc_entry_ieee i : 0 <= i < 256 → i ≠ 42 → crc_entry i = ieee_entry i.
Proof.
  intros Hi Hne.
  assert (Hall : Forall (λ k, k ≠ 42 → crc_entry k = ieee_entry k) (seqZ 0 256)).
  { apply (bool_decide_unpack _). vm_compute. exact I. }
  rewrite Forall_forall in Hall. apply Hall; [|done]. apply elem_of_seqZ. lia.
Qed.

Lemma crc_entry_42 : crc_entry 42 = 0xDBBB9F86 ∧ ieee_entry 42 = 0xDBBBC9D6.
Proof. split; vm_compute; reflexivity. Qed.

(** ** Ranges *)

Lemma crc_index_range crc b : 0 <= crc_index crc b < 256.
Proof.
  unfold crc_index. change 0xFF with (Z.ones 8).
  rewrite Z.land_ones by lia. apply Z.mod_pos_bound. lia.
Qed.

Lemma crc_step_u32 crc b : is_u32 crc → is_u32 (crc_step crc b).
Proof. intros. apply lxor_u32; [by apply shiftr_u32|apply crc_entry_u32]. Qed.

Lemma crc_update_u32 crc data : is_u32 crc → is_u32 (crc_update crc data).
Proof. revert crc. induction data; intros; simpl; [done|]. by apply IHdata, crc_step_u32. Qed.

Lemma crc32_compute_u32 data : is_u32 (crc32_compute data).
Proof. apply lxor_u32; [apply crc_update_u32|]; int_solve. Qed.

#[export] Hint Resolve crc_entry_u32 crc_step_u32 crc_update_u32
  crc32_compute_u32 crc_index_range : cf.

(** ** Injectivity

    [agree k x y]: the [k] most significant bytes of the 32-bit words agree. *)

Definition agree (k : Z) (x y : Z) : Prop := Z.shiftr x (32 - 8 * k) = Z.shiftr y (32 - 8 * k).

Lemma agree_4 x y : agree 4 x y → x = y.
Proof. unfold agree. simpl. by rewrite !Z.shiftr_0_r. Qed.

Lemma agree_weaken k k' x y : k' <= k → k <= 4 → agree k x y → agree k' x y.
Proof.
  unfold agree. intros ? ? E.
  replace (32 - 8 * k') with ((32 - 8 * k) + 8 * (k - k')) by lia.
  by rewrite <-!Z.shiftr_shiftr, E by lia.
Qed.

Lemma shiftr_small a n : is_u32 a → 32 <= n → Z.shiftr a n = 0.
Proof.
  unfold is_u32. intros. rewrite Z.shiftr_div_pow2 by lia. apply Z.div_small.
  assert (2 ^ 32 <= 2 ^ n) by (apply Z.pow_le_mono_r; lia). lia.
Qed.

(** Agreement after a step on [k + 1] bytes means the steps used the same table
    entry and the states before agreed on [k] bytes. *)
Lemma crc_step_agree k s s' b b' :
  is_u32 s → is_u32 s' → 0 <= k <= 3 →
  agree (k + 1) (crc_step s b) (crc_step s' b') →
  crc_index s b = crc_index s' b' ∧ agree k s s'.
Proof.
  intros Hs Hs' Hk Hag.
  assert (Hidx : crc_index s b = crc_index s' b').
  { apply crc_entry_top_inj; [apply crc_index_range..|].
    apply (agree_weaken _ 1) in Hag; [|lia..]. unfold agree, crc_step in Hag.
    change (32 - 8 * 1) with 24 in Hag.
    rewrite !Z.shiftr_lxor, !Z.shiftr_shiftr in Hag by lia.
    rewrite !(shiftr_small _ (8 + 24)), !Z.lxor_0_l in Hag by (done || lia). done. }
  split; [done|]. unfold agree, crc_step in *. rewrite Hidx in Hag.
  rewrite !Z.shiftr_lxor, !Z.shiftr_shiftr in Hag by lia.
  apply (f_equal (λ z, Z.lxor z
    (Z.shiftr (crc_entry (crc_index s' b')) (32 - 8 * (k + 1))))) in Hag.
  rewrite !Z.lxor_assoc, !Z.lxor_nilpotent, !Z.lxor_0_r in Hag.
  by replace (8 + (32 - 8 * (k + 1))) with (32 - 8 * k) in Hag by lia.
Qed.

Lemma crc_index_byte_inj s b b' :
  is_u8 b → is_u8 b' → crc_index s b = crc_index s b' → b = b'.
Proof.
  unfold crc_index, is_u8. change 0xFF with (Z.ones 8). intros Hb Hb' E.
  apply Z.bits_inj'. intros n Hn. destruct (Z.lt_ge_cases n 8).
  - apply (f_equal (λ z, Z.testbit z n)) in E.
    rewrite !Z.land_spec, !Z.lxor_spec, Z.ones_spec_low, !andb_true_r in E by lia.
    by destruct (Z.testbit s n), (Z.testbit b n), (Z.testbit b' n).
  - rewrite <-(Z.mod_small b (2 ^ 8)), <-(Z.mod_small b' (2 ^ 8)) by (simpl; lia).
    by rewrite !Z.mod_pow2_bits_high by lia.
Qed.

Lemma crc_index_low_inj s s' b :
  crc_index s b = crc_index s' b → Z.land s 0xFF = Z.land s' 0xFF.
Proof.
  unfold crc_index. intros E. apply Z.bits_inj'. intros n Hn.
  apply (f_equal (λ z, Z.testbit z n)) in E. rewrite !Z.land_spec, !Z.lxor_spec in *.
  destruct (Z.testbit s n), (Z.testbit s' n), (Z.testbit b n), (Z.testbit 0xFF n); done.
Qed.

Lemma crc_step_state_inj s s' b :
  is_u32 s → is_u32 s' → crc_step s b = crc_step s' b → s = s'.
Proof.
  intros Hs Hs' E.
  destruct (crc_step_agree 3 s s' b b) as [Hi Ha]; [done|done|lia| |].
  { unfold agree. by rewrite E. }
  apply crc_index_low_inj in Hi. unfold agree in Ha. change (32 - 8 * 3) with 8 in Ha.
  change 0xFF with (Z.ones 8) in Hi. rewrite !Z.land_ones in Hi by lia.
  rewrite !Z.shiftr_div_pow2 in Ha by lia.
  change (2 ^ 8) with 256 in *. pose proof (Z.div_mod s 256). pose proof (Z.div_mod s' 256). lia.
Qed.

Lemma crc_update_state_inj s s' data :
  is_u32 s → is_u32 s' → crc_update s data = crc_update s' data → s = s'.
Proof.
  revert s s'. induction data as [|b data IH]; simpl; intros s s' Hs Hs' E; [done|].
  apply IH in E; [|by apply crc_step_u32..]. by apply crc_step_state_inj in E.
Qed.

Lemma crc_update_app s xs ys : crc_update s (xs ++ ys) = crc_update (crc_update s xs) ys.
Proof. apply foldl_app. Qed.

(** Up to four bytes are determined by the state before and the state after. *)
Lemma crc_update_window_agree s bs bs' :
  is_u32 s → length bs = length bs' → (length bs <= 4)%nat →
  are_bytes bs → are_bytes bs' →
  agree (Z.of_nat (length bs)) (crc_update s bs) (crc_update s bs') → bs = bs'.
Proof.
  intros Hs. revert bs'. induction bs as [|b bs IH] using rev_ind; intros bs' Hlen Hle Hb Hb' Hag.
  { by destruct bs'. }
  destruct bs' as [|b' bs' _] using rev_ind; [by rewrite length_app in Hlen; simpl in Hlen; lia|].
  rewrite !length_app in *. simpl in *.
  apply are_bytes_app in Hb as [Hb1 Hb2], Hb' as [Hb1' Hb2'].
  rewrite !crc_update_app in Hag. simpl in Hag.
  replace (Z.of_nat (length bs + 1)) with (Z.of_nat (length bs) + 1) in Hag by lia.
  apply crc_step_agree in Hag as [Hi Ha]; [|auto with cf|auto with cf|lia].
  assert (bs = bs') as <- by (apply IH; [lia|lia|done..]).
  apply (Forall_singleton is_u8) in Hb2, Hb2'. f_equal. f_equal.
  exact (crc_index_byte_inj _ _ _ Hb2 Hb2' Hi).
Qed.

Lemma crc32_compute_inj_update s data data' :
  Z.lxor (crc_update s data) 0xFFFFFFFF = Z.lxor (crc_update s data') 0xFFFFFFFF →
  crc_update s data = crc_update s data'.
Proof.
  intros E. apply (f_equal (λ z, Z.lxor z 0xFFFFFFFF)) in E.
  by rewrite !Z.lxor_assoc, !Z.lxor_nilpotent, !Z.lxor_0_r in E.
Qed.

(** Damage confined to four consecutive bytes changes the checksum. *)
Lemma crc32_burst pre bs bs' post :
  length bs = length bs' → (length bs <= 4)%nat → are_bytes bs → are_bytes bs' →
  crc32_compute (pre ++ bs ++ post) = crc32_compute (pre ++ bs' ++ post) → bs = bs'.
Proof.
  intros Hlen Hle Hb Hb' E. apply crc32_compute_inj_update in E.
  rewrite !crc_update_app in E.
  assert (Hs : is_u32 (crc_update 0xFFFFFFFF pre)) by (apply crc_update_u32; int_solve).
  apply crc_update_state_inj in E; [|auto with cf..].
  eapply crc_update_window_agree; [exact Hs|done..|]. unfold agree. by rewrite E.
Qed.

(** The checksum is the IEEE CRC-32 on every input whose run never selects
    entry 42. *)
Definition avoids_42 (data : bytes) : Prop :=
  ∀ k b, data !! k = Some b → crc_index (crc_update 0xFFFFFFFF (take k data)) b ≠ 42.

Lemma crc_update_ieee s data :
  (∀ k b, data !! k = Some b → crc_index (crc_update s (take k data)) b ≠ 42) →
  crc_update s data = foldl ieee_step s data.
Proof.
  revert s. induction data as [|b data IH]; intros s Hav; simpl; [done|].
  assert (crc_step s b = ieee_step s b) as E.
  { unfold crc_step, ieee_step. rewrite crc_entry_ieee; [done|apply crc_index_range|].
    apply (Hav 0%nat b). done. }
  rewrite <-E. apply IH. intros k b' Hk. apply (Hav (S k) b'). done.
Qed.

Lemma mix64_u64 x : is_u64 (mix64 x).
Proof. unfold mix64. cbv zeta. auto with cf. Qed.

Lemma bytes_hash_u64 data seed : is_u64 (bytes_hash data seed).
Proof. apply mix64_u64. Qed.

(** ** Claims *)

(** Error detection.  Two buffers that differ only within four consecutive
    bytes (any single-byte error, any burst of up to 32 bits aligned to bytes)
    never have the same checksum: the wrong table entry costs nothing here. *)
Theorem crc32_detects_bursts (pre bs bs' post : bytes) :
  length bs = length bs' → (length bs <= 4)%nat → are_bytes bs → are_bytes bs' → bs ≠ bs' →
  crc32_compute (pre ++ bs ++ post) ≠ crc32_compute (pre ++ bs' ++ post).
Proof. intros Hl H4 Hb Hb' Hne E. by apply Hne, (crc32_burst pre bs bs' post). Qed.

Lemma crc32_detects_bursts_witness :
  crc32_compute ([1; 2] ++ [3] ++ [4]) ≠ crc32_compute ([1; 2] ++ [7] ++ [4]).
Proof.
  apply (crc32_detects_bursts [1; 2] [3] [7] [4]);
    [reflexivity|simpl; lia|repeat constructor; vm_compute; congruence..|congruence].
Defined.

(** The checksum is the IEEE 802.3 CRC-32 on every run that never
    looks up table entry 42, whose constant is wrong: on such input the two agree,
    and the one-byte input 0xD5, whose first step uses that entry, has another
    checksum than the standard assigns to it. *)
Theorem crc32_ieee (data : bytes) :
  avoids_42 data →
  crc32_compute data = ieee_crc32 data ∧ crc32_compute [0xD5] ≠ ieee_crc32 [0xD5].
Proof.
  intros Hav. split; [|vm_compute; congruence].
  unfold crc32_compute, ieee_crc32. by rewrite crc_update_ieee.
Qed.

Lemma crc32_ieee_witness : crc32_compute [49; 50; 51] = ieee_crc32 [49; 50; 51].
Proof.
  refine (proj1 (crc32_ieee [49; 50; 51] _)). intros k b Hk.
  destruct k as [|[|[|k]]]; simplify_eq/=; vm_compute; congruence.
Defined.
