(* ===== verification/Float64.v ===== *)
(** * Float64: the language's [double]

    A [double] is its 64-bit IEEE 754 pattern (what [memcpy] sees), a [Z] of
    64 bits.  Arithmetic decodes the pattern, applies the binary64 operation of
    [SpecFloat] (round to nearest even, the default mode) and encodes the
    result; an arithmetic NaN is encoded by the quiet pattern.  Comparisons are
    the IEEE ones: every comparison with a NaN but [!=] is false. *)

From Stdlib Require Import SpecFloat.
From S2P Require Import Prelude.

Local Open Scope Z_scope.

(** ** Patterns and numbers *)

Definition f64_decode (b : Z) : spec_float :=
  let s := Z.testbit b 63 in
  let e := Z.land (Z.shiftr b 52) 0x7FF in
  let m := Z.land b 0xFFFFFFFFFFFFF in
  if e =? 0 then
    match m with Zpos p => S754_finite s p (-1074) | _ => S754_zero s end
  else if e =? 0x7FF then
    (if m =? 0 then S754_infinity s else S754_nan)
  else match m + 0x10000000000000 with
       | Zpos p => S754_finite s p (e - 1075)
       | _ => S754_nan
       end.

Definition sign_bit (s : bool) : Z := if s then 0x8000000000000000 else 0.

Definition f64_encode (x : spec_float) : Z :=
  match x with
  | S754_zero s => sign_bit s
  | S754_infinity s => sign_bit s + 0x7FF0000000000000
  | S754_nan => 0x7FF8000000000000
  | S754_finite s m e =>
      if Zpos m <? 0x10000000000000 then sign_bit s + Zpos m
      else sign_bit s + (e + 1075) * 0x10000000000000 + (Zpos m - 0x10000000000000)
  end.

(** ** Operations *)

Definition f64_add (a b : Z) : Z := f64_encode (SFadd 53 1024 (f64_decode a) (f64_decode b)).
Definition f64_sub (a b : Z) : Z := f64_encode (SFsub 53 1024 (f64_decode a) (f64_decode b)).
Definition f64_mul (a b : Z) : Z := f64_encode (SFmul 53 1024 (f64_decode a) (f64_decode b)).
Definition f64_div (a b : Z) : Z := f64_encode (SFdiv 53 1024 (f64_decode a) (f64_decode b)).

(** [static_cast<double>] of an integer. *)
Definition f64_of_Z (v : Z) : Z := f64_encode (binary_normalize 53 1024 v 0 false).

Definition f64_cmp (a b : Z) : option comparison := SFcompare (f64_decode a) (f64_decode b).
Definition f64_ltb (a b : Z) : bool := SFltb (f64_decode a) (f64_decode b).
Definition f64_leb (a b : Z) : bool := SFleb (f64_decode a) (f64_decode b).
Definition f64_eqb (a b : Z) : bool := SFeqb (f64_decode a) (f64_decode b).
Definition f64_gtb (a b : Z) : bool := f64_ltb b a.
Definition f64_geb (a b : Z) : bool := f64_leb b a.

(** [std::min(a, b)] and [std::max(a, b)] *)
Definition f64_min (a b : Z) : Z := if f64_ltb b a then b else a.
Definition f64_max (a b : Z) : Z := if f64_ltb a b then b else a.

Definition f64_is_nan (a : Z) : bool :=
  match f64_decode a with S754_nan => true | _ => false end.

(** Literals of the source. *)
Definition f64_0 : Z := 0.                       (* 0.0 *)
Definition f64_1 : Z := 0x3FF0000000000000.      (* 1.0 *)
Definition f64_2 : Z := 0x4000000000000000.      (* 2.0 *)
Definition f64_minus_1 : Z := 0xBFF0000000000000. (* -1.0 *)
Definition f64_tenth : Z := 0x3FB999999999999A.  (* 0.1 *)
Definition f64_0_8 : Z := 0x3FE999999999999A.    (* 0.8 *)
Definition f64_0_001 : Z := 0x3F50624DD2F1A9FC.  (* 0.001 *)
Definition f64_1000 : Z := 0x408F400000000000.   (* 1000.0 *)
Definition f64_1e9 : Z := 0x41CDCD6500000000.    (* 1.0e9 *)

Example f64_literals :
  f64_of_Z 1 = f64_1 ∧ f64_of_Z 2 = f64_2 ∧ f64_of_Z 1000 = f64_1000 ∧
  f64_of_Z 1000000000 = f64_1e9 ∧ f64_of_Z (-1) = f64_minus_1 ∧
  f64_div f64_1 (f64_of_Z 10) = f64_tenth ∧ f64_div (f64_of_Z 8) (f64_of_Z 10) = f64_0_8 ∧
  f64_div f64_1 f64_1000 = f64_0_001.
Proof. vm_compute. auto 10. Qed.

(** ** Comparison is an order away from NaN

    [cmp_key] embeds the numbers into triples ordered lexicographically. *)

Definition cmp_key (x : spec_float) : option (Z * Z * Z) :=
  match x with
  | S754_nan => None
  | S754_zero _ => Some (0, 0, 0)
  | S754_infinity s => Some (if s then -2 else 2, 0, 0)
  | S754_finite s m e => Some (if s then (-1, - e, - Zpos m) else (1, e, Zpos m))
  end.

Definition cmp3 (x y : Z * Z * Z) : comparison :=
  match x.1.1 ?= y.1.1 with
  | Eq => match x.1.2 ?= y.1.2 with Eq => x.2 ?= y.2 | c => c end
  | c => c
  end.

Lemma SFcompare_key x y :
  SFcompare x y =
  match cmp_key x, cmp_key y with Some a, Some b => Some (cmp3 a b) | _, _ => None end.
Proof.
  destruct x as [[]|[]| |[] m e], y as [[]|[]| |[] m' e']; try reflexivity; simpl;
    unfold cmp3; simpl; f_equal.
  rewrite Z.compare_opp, (Z.compare_antisym e e'). by destruct (e ?= e').
Qed.

Lemma cmp3_antisym a b : cmp3 b a = CompOpp (cmp3 a b).
Proof.
  destruct a as [[a1 a2] a3], b as [[b1 b2] b3]. unfold cmp3; simpl.
  rewrite (Z.compare_antisym a1 b1), (Z.compare_antisym a2 b2), (Z.compare_antisym a3 b3).
  by destruct (a1 ?= b1), (a2 ?= b2), (a3 ?= b3).
Qed.

Lemma cmp3_eq a b : cmp3 a b = Eq → a = b.
Proof.
  destruct a as [[a1 a2] a3], b as [[b1 b2] b3]. unfold cmp3; simpl.
  destruct (Z.compare_spec a1 b1), (Z.compare_spec a2 b2), (Z.compare_spec a3 b3);
    intros; congruence.
Qed.

Lemma cmp3_lt_trans a b c : cmp3 a b = Lt → cmp3 b c = Lt → cmp3 a c = Lt.
Proof.
  destruct a as [[a1 a2] a3], b as [[b1 b2] b3], c as [[c1 c2] c3]. unfold cmp3; simpl.
  destruct (Z.compare_spec a1 b1), (Z.compare_spec b1 c1); intros; try done;
    destruct (Z.compare_spec a1 c1); try lia; try done;
    destruct (Z.compare_spec a2 b2), (Z.compare_spec b2 c2); try done;
    destruct (Z.compare_spec a2 c2); try lia; try done;
    destruct (Z.compare_spec a3 b3), (Z.compare_spec b3 c3); try done;
    destruct (Z.compare_spec a3 c3); try lia; done.
Qed.

Lemma f64_is_nan_key a : f64_is_nan a = false ↔ is_Some (cmp_key (f64_decode a)).
Proof. unfold f64_is_nan. destruct (f64_decode a); simpl; naive_solver. Qed.

Section order.
Context (a b : Z) (Ha : f64_is_nan a = false) (Hb : f64_is_nan b = false).

Lemma f64_ltb_key :
  ∃ x y, cmp_key (f64_decode a) = Some x ∧ cmp_key (f64_decode b) = Some y ∧
    f64_ltb a b = bool_decide (cmp3 x y = Lt) ∧ f64_eqb a b = bool_decide (cmp3 x y = Eq).
Proof using Ha Hb.
  apply f64_is_nan_key in Ha as [x Hx], Hb as [y Hy]. exists x, y.
  unfold f64_ltb, f64_eqb, SFltb, SFeqb. rewrite SFcompare_key, Hx, Hy.
  by destruct (cmp3 x y).
Qed.

(** Trichotomy. *)
Lemma f64_trichotomy :
  f64_ltb a b = true ∨ f64_eqb a b = true ∨ f64_ltb b a = true.
Proof using Ha Hb.
  apply f64_is_nan_key in Ha as [x Hx], Hb as [y Hy].
  unfold f64_ltb, f64_eqb, SFltb, SFeqb. rewrite !SFcompare_key, Hx, Hy.
  rewrite (cmp3_antisym x y). destruct (cmp3 x y); simpl; auto.
Qed.
End order.

Lemma f64_ltb_irrefl a : f64_ltb a a = false.
Proof.
  unfold f64_ltb, SFltb. rewrite SFcompare_key. destruct (cmp_key _) as [x|]; [|done].
  pose proof (cmp3_antisym x x) as E. by destruct (cmp3 x x).
Qed.

Lemma f64_ltb_asym a b : f64_ltb a b = true → f64_ltb b a = false.
Proof.
  unfold f64_ltb, SFltb. rewrite !SFcompare_key.
  destruct (cmp_key _) as [x|], (cmp_key _) as [y|]; try done.
  rewrite (cmp3_antisym x y). by destruct (cmp3 x y).
Qed.

Lemma f64_ltb_trans a b c : f64_ltb a b = true → f64_ltb b c = true → f64_ltb a c = true.
Proof.
  unfold f64_ltb, SFltb. rewrite !SFcompare_key.
  destruct (cmp_key (f64_decode a)) as [x|], (cmp_key (f64_decode b)) as [y|],
    (cmp_key (f64_decode c)) as [z|]; try done.
  destruct (cmp3 x y) eqn:E1, (cmp3 y z) eqn:E2; try done.
  by rewrite (cmp3_lt_trans _ _ _ E1 E2).
Qed.

Lemma f64_eqb_cmp a b c :
  f64_eqb a b = true → f64_ltb a c = f64_ltb b c ∧ f64_ltb c a = f64_ltb c b ∧
    f64_eqb a c = f64_eqb b c ∧ f64_eqb c a = f64_eqb c b.
Proof.
  unfold f64_ltb, f64_eqb, SFltb, SFeqb. rewrite !SFcompare_key.
  destruct (cmp_key (f64_decode a)) as [x|], (cmp_key (f64_decode b)) as [y|];
    intros E; try done.
  destruct (cmp3 x y) eqn:E1; try done. by apply cmp3_eq in E1 as ->.
Qed.

Lemma f64_eqb_sym a b : f64_eqb a b = f64_eqb b a.
Proof.
  unfold f64_eqb, SFeqb. rewrite !SFcompare_key.
  destruct (cmp_key (f64_decode a)) as [x|], (cmp_key (f64_decode b)) as [y|]; try done.
  rewrite (cmp3_antisym x y). by destruct (cmp3 x y).
Qed.

Lemma f64_ltb_not_eqb a b : f64_ltb a b = true → f64_eqb a b = false.
Proof.
  unfold f64_ltb, f64_eqb, SFltb, SFeqb. by destruct (SFcompare _ _) as [[]|].
Qed.

Arguments f64_add : simpl never.
Arguments f64_sub : simpl never.
Arguments f64_mul : simpl never.
Arguments f64_div : simpl never.
Arguments f64_of_Z : simpl never.
Arguments f64_ltb : simpl never.
Arguments f64_leb : simpl never.
Arguments f64_eqb : simpl never.
