(* ===== verification/Json.v ===== *)
(** * Json: the JSON writer (core/json.h, core/json.cpp)

    The document type and its two printers, compact and with indentation.  An object
    is the list of the bindings of its [std::map], in the order of the keys.  Two
    things are parameters: what [printf("%.9g")] prints, and what is printed for a
    double whose conversion to [int64_t] is undefined.  The reader at the end is not
    part of the program: it is the JSON grammar, against which the printers are
    proved. *)

From Stdlib Require Import Floats.SpecFloat.
From S2P Require Import Prelude Status Ids Float64.

Local Open Scope Z_scope.

(** ** Documents *)

Unset Elimination Schemes.

Inductive Json :=
| JNull
| JBool (b : bool)
| JInt (v : Z)                          (* int64_t *)
| JDouble (d : Z)
| JString (s : string)
| JArray (items : list Json)
| JObject (members : list (string * Json)).

Set Elimination Schemes.

Section induction.
Variable P : Json → Prop.
Hypothesis Pnull : P JNull.
Hypothesis Pbool : ∀ b, P (JBool b).
Hypothesis Pint : ∀ v, P (JInt v).
Hypothesis Pdouble : ∀ d, P (JDouble d).
Hypothesis Pstring : ∀ s, P (JString s).
Hypothesis Parray : ∀ items, Forall P items → P (JArray items).
Hypothesis Pobject : ∀ members, Forall (λ kv, P kv.2) members → P (JObject members).

Fixpoint json_nested_ind (j : Json) : P j :=
  match j with
  | JNull => Pnull
  | JBool b => Pbool b
  | JInt v => Pint v
  | JDouble d => Pdouble d
  | JString s => Pstring s
  | JArray items =>
      Parray items ((fix go l : Forall P l :=
        match l with [] => Forall_nil_2 _ | x :: l => Forall_cons_2 _ _ _ (json_nested_ind x) (go l) end) items)
  | JObject members =>
      Pobject members ((fix go l : Forall (λ kv, P kv.2) l :=
        match l with [] => Forall_nil_2 _ | x :: l => Forall_cons_2 _ _ _ (json_nested_ind x.2) (go l) end) members)
  end.
End induction.

Definition make_object : Json := JObject [].
Definition make_array : Json := JArray [].
(** The constructor from [uint64_t] *)
Definition json_of_u64 (v : Z) : Json := JInt (i64 v).

(** Assignment to a binding of a [std::map]. *)
Fixpoint obj_set (k : string) (v : Json) (l : list (string * Json)) : list (string * Json) :=
  match l with
  | [] => [(k, v)]
  | (k', v') :: l' =>
      if bool_decide (k = k') then (k, v) :: l'
      else if str_leb k k' then (k, v) :: l
      else (k', v') :: obj_set k v l'
  end.
(** [None]: [std::get] throws. *)
Definition json_set (k : string) (v : Json) (j : Json) : option Json :=
  match j with JObject l => Some (JObject (obj_set k v l)) | _ => None end.
Definition json_push (v : Json) (j : Json) : option Json :=
  match j with JArray l => Some (JArray (l ++ [v])) | _ => None end.

(** ** Printing *)

(** The text written for a character of a string. *)
Definition escape_char (c : Z) : bytes :=
  if c =? 34 then [92; 34]                 (* the quotation mark *)
  else if c =? 92 then [92; 92]            (* the backslash *)
  else if c =? 8 then [92; 98]             (* \b \f \n \r \t *)
  else if c =? 12 then [92; 102]
  else if c =? 10 then [92; 110]
  else if c =? 13 then [92; 114]
  else if c =? 9 then [92; 116]
  else if c <? 32 then [92; 117; 48; 48; hex_char (c / 16); hex_char (c mod 16)]   (* \u%04x *)
  else [c].
Definition escape_string (s : string) : bytes := [34] ++ concat (map escape_char (bytes_of_string s)) ++ [34].

(** [static_cast<int64_t>(d)] where it is defined. *)
Definition double_to_i64 (d : Z) : option Z :=
  match f64_decode d with
  | S754_zero _ => Some 0
  | S754_finite sign m e =>
      let a := if e <? 0 then Z.pos m / 2 ^ (- e) else Z.pos m * 2 ^ e in
      let v := if sign then - a else a in
      if bool_decide (is_i64 v) then Some v else None
  | _ => None
  end.

Definition decimal (v : Z) : bytes := bytes_of_string (to_string v).

Section printer.
Context (fmt_g9 : Z → bytes) (unfit : Z → bytes).

Definition dump_double (d : Z) : bytes :=
  match double_to_i64 d with
  | Some v => if f64_eqb d (f64_of_Z v) then decimal v ++ [46; 48] else fmt_g9 d
  | None => unfit d
  end.

(** The line break and indentation of the pretty printer. *)
Definition break (pretty : bool) (indent : nat) : bytes := if pretty then 10 :: replicate (indent * 2) 32 else [].
Definition deeper (pretty : bool) (indent : nat) : nat := if pretty then S indent else 0.
(** After the last element: nothing when there is none. *)
Definition closing {A} (pretty : bool) (indent : nat) (l : list A) : bytes :=
  match l with [] => [] | _ => break pretty (indent - 1) end.
Definition comma (first : bool) : bytes := if first then [] else [44].

(** The loop over the elements, with the text of one. *)
Definition dump_items {A} (text : A → bytes) (pretty : bool) (indent : nat) : bool → list A → bytes :=
  fix go (first : bool) (l : list A) : bytes :=
    match l with
    | [] => []
    | item :: l => comma first ++ break pretty indent ++ text item ++ go false l
    end.

Fixpoint dump_rec (pretty : bool) (indent : nat) (j : Json) : bytes :=
  match j with
  | JNull => bytes_of_string "null"
  | JBool b => bytes_of_string (if b then "true" else "false")
  | JInt v => decimal v
  | JDouble d => dump_double d
  | JString s => escape_string s
  | JArray items =>
      [91] ++ dump_items (dump_rec pretty (deeper pretty indent)) pretty indent true items
      ++ closing pretty indent items ++ [93]
  | JObject members =>
      [123]
      ++ dump_items (λ kv, escape_string kv.1 ++ [58] ++ (if pretty then [32] else [])
                           ++ dump_rec pretty (deeper pretty indent) kv.2) pretty indent true members
      ++ closing pretty indent members ++ [125]
  end.

Definition dump (j : Json) : bytes := dump_rec false 0 j.
Definition dump_pretty (j : Json) : bytes := dump_rec true 1 j.
End printer.

(** ** The grammar *)

(** A document as a reader sees it: a number is its text. *)
Unset Elimination Schemes.
Inductive Value :=
| VNull
| VBool (b : bool)
| VNumber (text : bytes)
| VString (s : bytes)
| VArray (items : list Value)
| VObject (members : list (bytes * Value)).
Set Elimination Schemes.

Definition is_ws (c : Z) : bool := (c =? 32) || (c =? 9) || (c =? 10) || (c =? 13).
Fixpoint skip_ws (bs : bytes) : bytes :=
  match bs with c :: bs' => if is_ws c then skip_ws bs' else bs | [] => [] end.

(** Digits, signs, the point and the exponent. *)
Definition is_number_char (c : Z) : bool :=
  ((48 <=? c) && (c <=? 57)) || (c =? 45) || (c =? 43) || (c =? 46) || (c =? 101) || (c =? 69).
Fixpoint read_number_text (bs : bytes) : bytes * bytes :=
  match bs with
  | c :: bs' => if is_number_char c then let '(t, r) := read_number_text bs' in (c :: t, r) else ([], bs)
  | [] => ([], [])
  end.

Definition unescape (c : Z) : option Z :=
  if c =? 34 then Some 34 else if c =? 92 then Some 92 else if c =? 47 then Some 47
  else if c =? 98 then Some 8 else if c =? 102 then Some 12 else if c =? 110 then Some 10
  else if c =? 114 then Some 13 else if c =? 116 then Some 9 else None.
(** The characters of a string after its opening quotation mark; only the first 256
    code points can be written as escapes. *)
Fixpoint read_chars (bs : bytes) : option (bytes * bytes) :=
  match bs with
  | [] => None
  | c :: r =>
      if c =? 34 then Some ([], r)
      else if c =? 92 then
        match r with
        | u :: r =>
            if u =? 117 then
              match r with
              | a :: b :: x :: y :: r =>
                  if (a =? 48) && (b =? 48) && (0 <=? nib x) && (0 <=? nib y) then
                    '(s, r) ← read_chars r; Some (16 * nib x + nib y :: s, r)
                  else None
              | _ => None
              end
            else e ← unescape u; '(s, r) ← read_chars r; Some (e :: s, r)
        | [] => None
        end
      else if c <? 32 then None
      else '(s, r) ← read_chars r; Some (c :: s, r)
  end.

Fixpoint strip (prefix bs : bytes) : option bytes :=
  match prefix, bs with
  | [], _ => Some bs
  | p :: prefix, c :: bs => if p =? c then strip prefix bs else None
  | _, [] => None
  end.
Definition literal (word : string) (v : Value) (bs : bytes) : option (Value * bytes) :=
  r ← strip (bytes_of_string word) bs; Some (v, r).

Definition expect (c : Z) (bs : bytes) : option bytes :=
  match bs with x :: r => if x =? c then Some r else None | [] => None end.

Fixpoint read_value (n : nat) (bs : bytes) : option (Value * bytes) :=
  match n with
  | O => None
  | S n =>
      let bs := skip_ws bs in
      match bs with
      | [] => None
      | c :: r =>
          if c =? 110 then literal "null" VNull bs
          else if c =? 116 then literal "true" (VBool true) bs
          else if c =? 102 then literal "false" (VBool false) bs
          else if c =? 34 then '(s, r) ← read_chars r; Some (VString s, r)
          else if c =? 91 then
            match expect 93 (skip_ws r) with
            | Some r => Some (VArray [], r)
            | None => '(vs, r) ← read_items n r; Some (VArray vs, r)
            end
          else if c =? 123 then
            match expect 125 (skip_ws r) with
            | Some r => Some (VObject [], r)
            | None => '(ms, r) ← read_members n r; Some (VObject ms, r)
            end
          else match read_number_text bs with ([], _) => None | (t, r) => Some (VNumber t, r) end
      end
  end
with read_items (n : nat) (bs : bytes) : option (list Value * bytes) :=
  match n with
  | O => None
  | S n =>
      '(v, r) ← read_value n bs;
      match expect 44 (skip_ws r) with
      | Some r => '(vs, r) ← read_items n r; Some (v :: vs, r)
      | None => r ← expect 93 (skip_ws r); Some ([v], r)
      end
  end
with read_members (n : nat) (bs : bytes) : option (list (bytes * Value) * bytes) :=
  match n with
  | O => None
  | S n =>
      r ← expect 34 (skip_ws bs);
      '(k, r) ← read_chars r;
      r ← expect 58 (skip_ws r);
      '(v, r) ← read_value n r;
      match expect 44 (skip_ws r) with
      | Some r => '(ms, r) ← read_members n r; Some ((k, v) :: ms, r)
      | None => r ← expect 125 (skip_ws r); Some ([(k, v)], r)
      end
  end.

(** A whole text. *)
Definition read_json (bs : bytes) : option Value :=
  '(v, r) ← read_value (S (length bs)) bs;
  match skip_ws r with [] => Some v | _ => None end.

(** What a reader should see of a document. *)
Fixpoint seen (fmt_g9 unfit : Z → bytes) (j : Json) : Value :=
  match j with
  | JNull => VNull
  | JBool b => VBool b
  | JInt v => VNumber (decimal v)
  | JDouble d => VNumber (dump_double fmt_g9 unfit d)
  | JString s => VString (bytes_of_string s)
  | JArray items => VArray (map (seen fmt_g9 unfit) items)
  | JObject members => VObject (map (λ kv, (bytes_of_string kv.1, seen fmt_g9 unfit kv.2)) members)
  end.

(** Every double of the document fits. *)
Fixpoint fits (j : Json) : bool :=
  match j with
  | JDouble d => match double_to_i64 d with Some _ => true | None => false end
  | JArray items => forallb fits items
  | JObject members => forallb (λ kv, fits kv.2) members
  | _ => true
  end.

(** ** Reading what was printed *)

Lemma read_escape_char c rest :
  is_u8 c → read_chars (escape_char c ++ rest) = ('(s, r) ← read_chars rest; Some (c :: s, r)).
Proof.
  unfold is_u8. intros Hc. unfold escape_char.
  repeat match goal with |- context [if c =? ?k then _ else _] => destruct (Z.eqb_spec c k); [by subst c|] end.
  destruct (Z.ltb_spec c 32).
  - assert (0 <= c / 16 < 16) by (split; [apply Z.div_pos; lia|apply Z.div_lt_upper_bound; lia]).
    pose proof (Z.mod_pos_bound c 16 ltac:(lia)). cbn [app read_chars].
    change (92 =? 34) with false. change (92 =? 92) with true. change (117 =? 117) with true.
    change (48 =? 48) with true. cbv iota. cbn [andb].
    rewrite !nib_hex_char by lia. rewrite !(proj2 (Z.leb_le 0 _)) by lia. cbn [andb].
    replace (16 * (c / 16) + c mod 16) with c by (apply Z.div_mod; lia). done.
  - cbn [app read_chars]. rewrite !(proj2 (Z.eqb_neq c _)) by done. by rewrite (proj2 (Z.ltb_ge c 32)) by done.
Qed.

Lemma read_chars_escape (s rest : bytes) :
  are_bytes s → read_chars (concat (map escape_char s) ++ 34 :: rest) = Some (s, rest).
Proof.
  induction 1 as [|c s Hc _ IH]; [done|]. cbn [map concat]. by rewrite <-app_assoc, read_escape_char, IH.
Qed.

Lemma skip_ws_app w bs : Forall (λ c, is_ws c = true) w → skip_ws (w ++ bs) = skip_ws bs.
Proof. induction 1 as [|c w Hc _ IH]; [done|]. cbn. by rewrite Hc. Qed.

Lemma break_ws pretty indent : Forall (λ c, is_ws c = true) (break pretty indent).
Proof. destruct pretty; [|constructor]. constructor; [done|]. by apply Forall_replicate. Qed.

Lemma read_value_ws n w bs : Forall (λ c, is_ws c = true) w → read_value n (w ++ bs) = read_value n bs.
Proof. intros Hw. destruct n; [done|]. cbn [read_value]. by rewrite skip_ws_app. Qed.

(** Nothing that a number could go on with. *)
Definition stops (rest : bytes) : Prop := match rest with c :: _ => is_number_char c = false | [] => True end.
Definition number_text (t : bytes) : Prop := t ≠ [] ∧ Forall (λ c, is_number_char c = true) t.

Lemma read_number_text_app t rest :
  Forall (λ c, is_number_char c = true) t → stops rest → read_number_text (t ++ rest) = (t, rest).
Proof.
  intros Ht Hs. induction Ht as [|c t Hc _ IH]; cbn.
  - destruct rest as [|c r]; [done|]. cbn in Hs |- *. by rewrite Hs.
  - by rewrite Hc, IH.
Qed.

Lemma read_number_value n t rest :
  number_text t → stops rest → read_value (S n) (t ++ rest) = Some (VNumber t, rest).
Proof.
  intros [Hne Ht] Hs. destruct t as [|c t]; [done|]. pose proof (read_number_text_app (c :: t) rest Ht Hs) as E.
  apply Forall_cons in Ht as [Hc _]. cbn [read_value].
  assert (Hd : (c =? 110) = false ∧ (c =? 116) = false ∧ (c =? 102) = false ∧ (c =? 34) = false ∧
    (c =? 91) = false ∧ (c =? 123) = false ∧ is_ws c = false)
    by (unfold is_number_char in Hc; unfold is_ws; lia).
  destruct Hd as (H1 & H2 & H3 & H4 & H5 & H6 & H7). cbn [app skip_ws]. rewrite H7.
  cbn [app] in E. by rewrite H1, H2, H3, H4, H5, H6, E.
Qed.

(** *** Decimal numbers *)

Lemma decimal_char d : (d < 10)%N → Z.of_N (Ascii.N_of_ascii (pretty_N_char d)) = 48 + Z.of_N d.
Proof.
  intros Hd. assert (Hall : Forall (λ d, Z.of_N (Ascii.N_of_ascii (pretty_N_char d)) = 48 + Z.of_N d)
    [0; 1; 2; 3; 4; 5; 6; 7; 8; 9]%N) by (repeat constructor).
  rewrite Forall_forall in Hall. apply Hall.
  assert (d = 0 ∨ d = 1 ∨ d = 2 ∨ d = 3 ∨ d = 4 ∨ d = 5 ∨ d = 6 ∨ d = 7 ∨ d = 8 ∨ d = 9)%N by lia. set_solver.
Qed.

Lemma pretty_go_chars x s :
  (0 < x)%N → Forall (λ c, is_number_char c = true) (bytes_of_string s) →
  number_text (bytes_of_string (pretty_N_go x s)).
Proof.
  revert s. induction (N.lt_wf_0 x) as [x _ IH]; intros s Hx Hs. rewrite pretty_N_go_step by done.
  pose proof (N.mod_lt x 10 ltac:(done)) as Hm.
  assert (Hs' : Forall (λ c, is_number_char c = true) (bytes_of_string (String (pretty_N_char (x mod 10)) s))).
  { cbn [bytes_of_string]. constructor; [|done]. rewrite decimal_char by done. unfold is_number_char.
    generalize dependent (x mod 10)%N. intros d Hd. lia. }
  destruct (decide (x / 10 = 0)%N) as [E|Hne]; [|apply IH; [by apply N.div_lt|by apply N.neq_0_lt_0|done]].
  rewrite E, pretty_N_go_0. by split.
Qed.

Lemma decimal_number v : number_text (decimal v).
Proof.
  unfold decimal, to_string, pretty, pretty_Z. destruct v as [|q|q]; cbn [bytes_of_string].
  - split; [done|]. by constructor.
  - unfold pretty_positive, pretty, pretty_N. rewrite decide_False by done. apply pretty_go_chars; [lia|constructor].
  - split; [done|]. constructor; [done|]. unfold pretty_positive, pretty, pretty_N. rewrite decide_False by done.
    apply pretty_go_chars; [lia|constructor].
Qed.

(** *** Documents *)

Section roundtrip.
Context (fmt_g9 unfit : Z → bytes).
(** [printf("%.9g")] of a finite number writes a number. *)
Hypothesis fmt_number : ∀ d, is_Some (double_to_i64 d) → number_text (fmt_g9 d).

#[local] Abbreviation print := (dump_rec fmt_g9 unfit).
#[local] Abbreviation sees := (seen fmt_g9 unfit).

Lemma dump_double_number d : is_Some (double_to_i64 d) → number_text (dump_double fmt_g9 unfit d).
Proof.
  intros Hd. pose proof (fmt_number d Hd) as Hg. unfold dump_double. destruct Hd as [v ->].
  destruct (f64_eqb _ _); [|done]. destruct (decimal_number v) as [Hne Hv]. split.
  - by destruct (decimal v).
  - apply Forall_app. split; [done|]. repeat constructor.
Qed.

(** The printed text is not empty and begins neither a list's end nor with a space. *)
Definition starts_value (t : bytes) : Prop :=
  match t with c :: _ => is_ws c = false ∧ c ≠ 93 | [] => False end.

Lemma number_starts t : number_text t → starts_value t.
Proof.
  intros [Hne Ht]. destruct t as [|c t]; [done|]. apply Forall_cons in Ht as [Hc _].
  unfold is_number_char in Hc. cbn. unfold is_ws. lia.
Qed.

Lemma dump_starts pretty indent j : fits j = true → starts_value (print pretty indent j).
Proof.
  intros Hf. destruct j as [|[]|v|d| | |]; cbn [dump_rec]; [done|done|done| | |done..].
  - apply number_starts, decimal_number.
  - apply number_starts, dump_double_number. cbn [fits] in Hf. by destruct (double_to_i64 d).
Qed.

Lemma skip_starts t rest : starts_value t → skip_ws (t ++ rest) = t ++ rest ∧ expect 93 (t ++ rest) = None.
Proof. destruct t as [|c t]; [done|]. cbn. intros [-> Hc]. by rewrite (proj2 (Z.eqb_neq c 93)). Qed.

(** A printed document is read back whatever follows it. *)
Definition readable (j : Json) : Prop := ∀ pretty indent n rest,
  fits j = true → stops rest → (length (print pretty indent j) <= n)%nat →
  read_value n (print pretty indent j ++ rest) = Some (sees j, rest).

(** What follows an element. *)
Lemma tail_stops {A} (text : A → bytes) pretty indent l w c rest :
  Forall (λ c, is_ws c = true) w → is_number_char c = false →
  stops (dump_items text pretty indent false l ++ w ++ c :: rest).
Proof.
  intros Hw Hc. destruct l; [|done]. destruct w as [|x w]; [done|]. apply Forall_cons in Hw as [Hx _].
  cbn. unfold is_ws in Hx. unfold is_number_char. lia.
Qed.

(** A character that is there is found. *)
Lemma expect_skip c r : is_ws c = false → expect c (skip_ws (c :: r)) = Some r.
Proof. intros Hc. cbn [skip_ws]. rewrite Hc. cbn [expect]. by rewrite Z.eqb_refl. Qed.

Lemma dump_items_cons {A} (text : A → bytes) pretty indent first x l :
  dump_items text pretty indent first (x :: l) =
  comma first ++ break pretty indent ++ text x ++ dump_items text pretty indent false l.
Proof. done. Qed.

Lemma read_items_dump pretty indent l : ∀ x n w rest,
  Forall readable (x :: l) → forallb fits (x :: l) = true → Forall (λ c, is_ws c = true) w →
  (length (dump_items (print pretty (deeper pretty indent)) pretty indent true (x :: l)) < n)%nat →
  read_items n (dump_items (print pretty (deeper pretty indent)) pretty indent true (x :: l) ++ w ++ 93 :: rest) =
    Some (map sees (x :: l), rest).
Proof.
  set (text := print pretty (deeper pretty indent)).
  induction l as [|y l IH]; intros x n w rest [Hx Hl]%Forall_cons [Hfx Hfl]%andb_true_iff Hw Hn;
    (destruct n as [|n]; [lia|]); rewrite dump_items_cons in Hn |- *; cbn [comma app] in Hn |- *;
    rewrite !length_app in Hn; rewrite <-!app_assoc; cbn [read_items]; rewrite read_value_ws by apply break_ws;
    unfold text at 1; rewrite Hx by (done || (by apply tail_stops) || (fold text; lia)).
  - cbn [mbind option_bind dump_items app]. by rewrite skip_ws_app.
  - specialize (IH y n w rest Hl Hfl Hw). rewrite dump_items_cons in IH, Hn |- *. cbn [comma app length] in *.
    rewrite <-!app_assoc in *. cbn [mbind option_bind app]. rewrite expect_skip by done.
    rewrite IH; [done|]. rewrite !length_app in *. lia.
Qed.

(** The text of a member. *)
Definition member_text (pretty : bool) (indent : nat) (kv : string * Json) : bytes :=
  escape_string kv.1 ++ [58] ++ (if pretty then [32] else []) ++ print pretty (deeper pretty indent) kv.2.

Lemma read_members_dump pretty indent l : ∀ x n w rest,
  Forall (λ kv, readable kv.2) (x :: l) → forallb (λ kv, fits kv.2) (x :: l) = true →
  Forall (λ c, is_ws c = true) w →
  (length (dump_items (member_text pretty indent) pretty indent true (x :: l)) < n)%nat →
  read_members n (dump_items (member_text pretty indent) pretty indent true (x :: l) ++ w ++ 125 :: rest) =
    Some (map (λ kv, (bytes_of_string kv.1, sees kv.2)) (x :: l), rest).
Proof.
  induction l as [|y l IH]; intros x n w rest [Hx Hl]%Forall_cons [Hfx Hfl]%andb_true_iff Hw Hn;
    (destruct n as [|n]; [lia|]); rewrite dump_items_cons in Hn |- *; cbn [comma app] in Hn |- *;
    rewrite !length_app in Hn; rewrite <-!app_assoc; cbn [read_members]; rewrite skip_ws_app by apply break_ws;
    unfold member_text at 1, escape_string; unfold member_text at 1 in Hn; rewrite !length_app in Hn;
    cbn [length] in Hn; rewrite <-!app_assoc; cbn [app]; rewrite expect_skip by done; cbn [mbind option_bind];
    rewrite read_chars_escape by apply are_bytes_of_string; cbn [mbind option_bind];
    rewrite expect_skip by done; cbn [mbind option_bind];
    rewrite read_value_ws by (destruct pretty; repeat constructor);
    rewrite Hx by (done || (by apply tail_stops) || lia).
  - cbn [mbind option_bind dump_items app]. by rewrite skip_ws_app.
  - specialize (IH y n w rest Hl Hfl Hw). rewrite dump_items_cons in IH, Hn |- *. cbn [comma app length] in *.
    rewrite <-!app_assoc in *. cbn [mbind option_bind app]. rewrite expect_skip by done.
    rewrite IH; [done|]. rewrite !length_app in *. lia.
Qed.

Lemma closing_ws {A} pretty indent (l : list A) : Forall (λ c, is_ws c = true) (closing pretty indent l).
Proof. destruct l; [constructor|apply break_ws]. Qed.

Lemma array_readable items : Forall readable items → readable (JArray items).
Proof.
  intros Hi pretty indent n rest Hf Hs Hn. cbn [dump_rec] in *. rewrite !length_app in Hn. cbn [length] in Hn.
  destruct n as [|n]; [lia|]. cbn [read_value app skip_ws]. change (is_ws 91) with false. cbv iota.
  rewrite <-!app_assoc. cbn [app]. change (91 =? 91) with true.
  destruct items as [|x items]; [done|].
  assert (Hx : expect 93 (skip_ws (dump_items (print pretty (deeper pretty indent)) pretty indent true (x :: items) ++
    closing pretty indent (x :: items) ++ 93 :: rest)) = None).
  { rewrite dump_items_cons. cbn [comma app]. rewrite <-!app_assoc, skip_ws_app by apply break_ws.
    cbn [fits] in Hf. apply andb_true_iff in Hf as [Hfx _].
    destruct (skip_starts _ (dump_items (print pretty (deeper pretty indent)) pretty indent false items ++
      closing pretty indent (x :: items) ++ 93 :: rest) (dump_starts pretty (deeper pretty indent) x Hfx)) as [E1 E2].
    by rewrite E1. }
  cbv iota. rewrite Hx, read_items_dump; [done|done|done|apply closing_ws|lia].
Qed.

Lemma print_object pretty indent members :
  print pretty indent (JObject members) =
  [123] ++ dump_items (member_text pretty indent) pretty indent true members ++ closing pretty indent members ++ [125].
Proof. done. Qed.

Lemma object_readable members : Forall (λ kv, readable kv.2) members → readable (JObject members).
Proof.
  intros Hi pretty indent n rest Hf Hs Hn. rewrite print_object in *. rewrite !length_app in Hn. cbn [length] in Hn.
  destruct n as [|n]; [lia|]. cbn [read_value app skip_ws]. change (is_ws 123) with false. cbv iota.
  rewrite <-!app_assoc. cbn [app]. change (123 =? 123) with true.
  destruct members as [|x members]; [done|].
  assert (Hx : expect 125 (skip_ws (dump_items (member_text pretty indent) pretty indent true (x :: members) ++
    closing pretty indent (x :: members) ++ 125 :: rest)) = None).
  { rewrite dump_items_cons. cbn [comma app]. by rewrite <-!app_assoc, skip_ws_app by apply break_ws. }
  cbv iota. rewrite Hx, read_members_dump; [done|done|done|apply closing_ws|lia].
Qed.

Lemma every_readable j : readable j.
Proof.
  induction j as [|b|v|d|s|items Hi|members Hi] using json_nested_ind;
    [..|by apply array_readable|by apply object_readable]; intros pretty indent n rest Hf Hs Hn; cbn [dump_rec] in *.
  - destruct n; [cbn in Hn; lia|done].
  - destruct n; [destruct b; cbn in Hn; lia|by destruct b].
  - destruct n; [destruct (decimal_number v); destruct (decimal v); cbn in Hn; (done || lia)|].
    apply read_number_value; [apply decimal_number|done].
  - assert (Hd : is_Some (double_to_i64 d)) by (cbn [fits] in Hf; by destruct (double_to_i64 d)).
    pose proof (dump_double_number d Hd) as Hnum.
    destruct n; [destruct Hnum; destruct (dump_double fmt_g9 unfit d); cbn in Hn; (done || lia)|].
    by apply read_number_value.
  - destruct n; [cbn in Hn; lia|]. unfold escape_string. rewrite <-!app_assoc.
    cbn [read_value app skip_ws]. change (is_ws 34) with false. cbv iota. cbn [sees].
    change (34 =? 110) with false. change (34 =? 116) with false. change (34 =? 102) with false.
    change (34 =? 34) with true. cbv iota. by rewrite read_chars_escape by apply are_bytes_of_string.
Qed.

Lemma read_dump pretty indent j : fits j = true → read_json (print pretty indent j) = Some (sees j).
Proof.
  intros Hf. unfold read_json. rewrite <-(app_nil_r (print pretty indent j)) at 2.
  by rewrite every_readable by (done || lia).
Qed.

(** The compact form is one line: it has no control character. *)
Definition printable (bs : bytes) : Prop := Forall (λ c, 32 <= c) bs.

Lemma number_printable t : number_text t → printable t.
Proof. intros [_ Ht]. eapply Forall_impl; [exact Ht|]. intros c. unfold is_number_char. lia. Qed.

Lemma escape_printable s : printable (escape_string s).
Proof.
  unfold escape_string, printable. apply Forall_app. split; [by repeat constructor|].
  apply Forall_app. split; [|by repeat constructor]. apply Forall_concat, Forall_map.
  eapply Forall_impl; [apply are_bytes_of_string|]. intros c Hc. unfold is_u8 in Hc. unfold escape_char.
  repeat (destruct (_ =? _); [repeat constructor; lia|]). destruct (Z.ltb_spec c 32); [|repeat constructor; lia].
  assert (0 <= c / 16 < 16) by (split; [apply Z.div_pos; lia|apply Z.div_lt_upper_bound; lia]).
  pose proof (Z.mod_pos_bound c 16 ltac:(lia)).
  repeat constructor; try lia; unfold hex_char; case_match; lia.
Qed.

Lemma items_printable {A} (text : A → bytes) first l :
  Forall (λ x, printable (text x)) l → printable (dump_items text false 0 first l).
Proof.
  intros Hl. revert first. induction Hl as [|x l Hx _ IH]; intros first; [constructor|]. rewrite dump_items_cons.
  unfold printable. rewrite !Forall_app. split_and!; [destruct first; repeat constructor; lia|constructor|done|apply IH].
Qed.

Lemma dump_printable j : fits j = true → printable (print false 0 j).
Proof.
  unfold printable. induction j as [|b|v|d|s|items Hi|members Hi] using json_nested_ind; intros Hf.
  - repeat constructor; done.
  - destruct b; repeat constructor; done.
  - apply number_printable, decimal_number.
  - apply number_printable, dump_double_number. cbn [fits] in Hf. by destruct (double_to_i64 d).
  - apply escape_printable.
  - cbn [dump_rec]. rewrite !Forall_app. cbn [fits] in Hf. rewrite forallb_forall in Hf.
    split_and!; [repeat constructor; lia| |by destruct items; constructor|repeat constructor; lia].
    apply items_printable. rewrite Forall_forall in Hi |- *. intros x Hx. apply Hi; [done|]. apply Hf.
    by apply list_elem_of_In.
  - rewrite print_object, !Forall_app. cbn [fits] in Hf. rewrite forallb_forall in Hf.
    split_and!; [repeat constructor; lia| |by destruct members; constructor|repeat constructor; lia].
    apply items_printable. rewrite Forall_forall in Hi |- *. intros x Hx. unfold member_text, printable.
    rewrite !Forall_app. split_and!; [apply escape_printable|repeat constructor; lia|constructor|].
    apply Hi; [done|]. apply Hf. by apply list_elem_of_In.
Qed.
End roundtrip.

(** The printers agree with the grammar.  Any document whose doubles convert to
    [int64_t], printed compactly or with indentation, reads back as itself, with the
    strings' bytes and the numbers' texts unchanged; the compact text is one line
    without control characters. *)
Theorem json_roundtrip (fmt_g9 unfit : Z → bytes) (j : Json) :
  (∀ d, is_Some (double_to_i64 d) → number_text (fmt_g9 d)) → fits j = true →
  read_json (dump fmt_g9 unfit j) = Some (seen fmt_g9 unfit j) ∧
  read_json (dump_pretty fmt_g9 unfit j) = Some (seen fmt_g9 unfit j) ∧
  printable (dump fmt_g9 unfit j).
Proof. intros Hf Hj. split_and!; [by apply read_dump..|by apply dump_printable]. Qed.

(** ** Members *)

Lemma obj_set_lookup k v (l : list (string * Json)) :
  StronglySorted (λ x y, str_leb x.1 y.1 ∧ x.1 ≠ y.1) l →
  (list_to_map (obj_set k v l) : gmap string Json) = <[k := v]> (list_to_map l) ∧
  StronglySorted (λ x y, str_leb x.1 y.1 ∧ x.1 ≠ y.1) (obj_set k v l) ∧
  (∀ x, x ∈ (obj_set k v l).*1 → x = k ∨ x ∈ l.*1).
Proof.
  induction 1 as [|[k' v'] l Hs (IH1 & IH2 & IH3) Hall]; cbn [obj_set].
  { split_and!; [done|repeat constructor|set_solver]. }
  case_bool_decide as Ek; [subst k'|].
  { split_and!; [cbn; by rewrite insert_insert_eq|by constructor|set_solver]. }
  destruct (str_leb k k') eqn:El.
  - split_and!; [done| |set_solver]. constructor; [by constructor|]. constructor; [split; cbn; [by rewrite El|done]|].
    eapply Forall_impl; [exact Hall|]. intros [k2 v2] [H1 H2]. cbn in *.
    assert (Hle : str_leb k k2) by (eapply str_leb_trans; [by rewrite El|exact H1]). split; [done|].
    intros ->. apply Ek. apply str_leb_antisymm; [by rewrite El|done].
  - assert (Hle : str_leb k' k).
    { destruct (str_leb_total k k') as [H|H]; [by rewrite El in H|done]. }
    split_and!; [cbn; by rewrite IH1, insert_insert_ne by congruence| |set_solver].
    constructor; [exact IH2|]. apply Forall_forall. intros [k2 v2] Hin. cbn.
    assert (Hk2 : k2 = k ∨ k2 ∈ l.*1) by (apply IH3; by apply (list_elem_of_fmap_2 fst _ (k2, v2))).
    destruct Hk2 as [->|Hk2]; [by split; [|congruence]|].
    apply list_elem_of_fmap in Hk2 as ([k3 v3] & -> & Hk3). rewrite Forall_forall in Hall. by apply (Hall _ Hk3).
Qed.
