(* ===== verification/Telemetry.v ===== *)
(** * Telemetry: events as JSON lines (telemetry/telemetry.h, telemetry/telemetry.cpp)

    The event log of the coordinator: every event is one line of JSON, with an
    envelope of schema, sequence number, time and epoch.  The file is the bytes it
    holds; whether it can be opened and the wall clock are data.  The coordinator's
    helpers [telemetry_node] and [telemetry_task] are here too. *)

From S2P Require Import Prelude Status Ids Float64 Json.

Local Open Scope Z_scope.

Record Telemetry := mkTelemetry {
  tm_configured : bool;
  tm_human : bool;
  tm_json_path : string;
  tm_file : option bytes;       (* the contents of the open file *)
  tm_broken : bool;             (* the stream's failbit *)
  tm_seq : Z;                   (* uint64_t *)
  tm_stdout : list bytes
}.
Definition new_telemetry : Telemetry := mkTelemetry false false "" None false 0 [].

(** [found] is what the file holds when it can be opened; opening a stream that is
    open fails. *)
Definition configure (found : option bytes) (json_path : string) (human : bool) (t : Telemetry) : Telemetry :=
  let '(file, broken) :=
    if bool_decide (json_path = "") then (tm_file t, tm_broken t)
    else match tm_file t, found with
         | Some old, _ => (Some old, true)
         | None, Some bs => (Some bs, false)
         | None, None => (None, true)
         end in
  mkTelemetry true human json_path file broken (tm_seq t) (tm_stdout t).

Definition kSchemaVersion : Z := 1.

(** The members of an event, in the order of a [std::map]. *)
Definition set_all (fields members : list (string * Json)) : list (string * Json) :=
  foldl (λ acc kv, obj_set kv.1 kv.2 acc) members fields.
Definition envelope (seq ts : Z) (name : string) (coordinator_epoch : Z) (fields : list (string * Json))
    : list (string * Json) :=
  let e := obj_set "event" (JString name)
             (obj_set "ts" (JInt ts)
                (obj_set "seq" (json_of_u64 seq) (obj_set "schema" (JInt kSchemaVersion) []))) in
  let e := if negb (coordinator_epoch =? 0) then obj_set "coordinator_epoch" (json_of_u64 coordinator_epoch) e else e in
  set_all fields e.

(** An event with its fields and the reading of the wall clock. *)
Record Event := mkEvent {
  ev_name : string;
  ev_fields : list (string * Json);
  ev_epoch : Z;
  ev_ts : Z
}.
Definition event_json (seq : Z) (e : Event) : Json :=
  JObject (envelope seq (ev_ts e) (ev_name e) (ev_epoch e) (ev_fields e)).

(** The fields the coordinator's helpers give to an event. *)
Definition telemetry_node (node : Id128) (fields : list (string * Json)) : list (string * Json) :=
  set_all fields [("node", JString (to_hex node))].
Definition telemetry_task (task : Id128) (fields : list (string * Json)) : list (string * Json) :=
  set_all fields [("task", JString (to_hex task))].

Section log.
Context (fmt_g9 unfit : Z → bytes).

Definition log_event (e : Event) (t : Telemetry) : Telemetry :=
  let seq := u64 (tm_seq t + 1) in
  let line := dump fmt_g9 unfit (event_json seq e) in
  mkTelemetry (tm_configured t) (tm_human t) (tm_json_path t)
    (match tm_file t with
     | Some bs => Some (if tm_broken t then bs else bs ++ line ++ [10])
     | None => None
     end) (tm_broken t) seq
    (if tm_human t then tm_stdout t ++ [bytes_of_string "telemetry " ++ line ++ [10]] else tm_stdout t).

Definition log_events (es : list Event) (t : Telemetry) : Telemetry := foldl (λ t e, log_event e t) t es.
End log.

(** ** What a reader of the file finds *)

Abbreviation sorted_members := (StronglySorted (λ x y : string * Json, str_leb x.1 y.1 ∧ x.1 ≠ y.1)).
Abbreviation members_map := (list_to_map : list (string * Json) → gmap string Json).

Lemma obj_set_map k v l : sorted_members l → members_map (obj_set k v l) = <[k := v]> (members_map l).
Proof. intros Hs. by apply obj_set_lookup. Qed.
Lemma obj_set_sorted k v l : sorted_members l → sorted_members (obj_set k v l).
Proof. intros Hs. by apply (obj_set_lookup k v l). Qed.

Lemma sorted_NoDup l : sorted_members l → NoDup l.*1.
Proof.
  induction 1 as [|[k v] l _ IH Hall]; [constructor|]. cbn. constructor; [|done].
  intros ([k2 v2] & -> & Hin)%list_elem_of_fmap. rewrite Forall_forall in Hall. by destruct (Hall _ Hin).
Qed.

Lemma set_all_lookup fields members :
  sorted_members members →
  members_map (set_all fields members) = members_map (reverse fields) ∪ members_map members ∧
  sorted_members (set_all fields members).
Proof.
  unfold set_all. revert members. induction fields as [|[k v] fields IH]; intros members Hs; cbn [foldl fst snd].
  { split; [|done]. rewrite reverse_nil. cbn. by rewrite (left_id_L ∅ (∪)). }
  destruct (obj_set_lookup k v members Hs) as (E & Hs' & _). destruct (IH _ Hs') as [E2 Hs2]. split; [|done].
  rewrite E2, E, reverse_cons, list_to_map_app, <-(assoc_L (∪)). f_equal. cbn. by rewrite insert_union_singleton_l, insert_empty.
Qed.

Lemma reverse_members (fields : list (string * Json)) :
  NoDup fields.*1 → members_map (reverse fields) = members_map fields.
Proof.
  intros Hn. apply list_to_map_proper; [|apply reverse_Permutation]. by rewrite reverse_Permutation.
Qed.

(** The envelope's own members. *)
Definition envelope_base (seq ts : Z) (name : string) (epoch : Z) : gmap string Json :=
  (if negb (epoch =? 0) then {["coordinator_epoch" := json_of_u64 epoch]} else ∅) ∪
  {["event" := JString name; "ts" := JInt ts; "seq" := json_of_u64 seq; "schema" := JInt kSchemaVersion]}.

Lemma envelope_members seq ts name epoch fields :
  NoDup fields.*1 →
  members_map (envelope seq ts name epoch fields) = members_map fields ∪ envelope_base seq ts name epoch ∧
  NoDup (envelope seq ts name epoch fields).*1.
Proof.
  intros Hn. unfold envelope. set (e0 := obj_set "schema" _ []). set (e1 := obj_set "seq" _ e0).
  set (e2 := obj_set "ts" _ e1). set (e3 := obj_set "event" _ e2).
  assert (H0 : sorted_members e0) by apply obj_set_sorted, SSorted_nil.
  assert (H1 : sorted_members e1) by by apply obj_set_sorted. assert (H2 : sorted_members e2) by by apply obj_set_sorted.
  assert (H3 : sorted_members e3) by by apply obj_set_sorted.
  set (e4 := if negb _ then _ else _). assert (H4 : sorted_members e4 ∧ members_map e4 = envelope_base seq ts name epoch).
  { unfold e4, envelope_base. destruct (negb _).
    - split; [by apply obj_set_sorted|]. rewrite obj_set_map by done. by rewrite <-insert_union_singleton_l.
    - split; [done|]. rewrite (left_id_L ∅ (∪)). unfold e3, e2, e1, e0.
      rewrite !obj_set_map by (done || apply SSorted_nil). done. }
  destruct H4 as [H4 E4]. destruct (set_all_lookup fields e4 H4) as [E Hs]. split; [|by apply sorted_NoDup].
  by rewrite E, E4, reverse_members.
Qed.

(** The lines of a log whose first event has number [seq + 1]. *)
Section lines.
Context (fmt_g9 unfit : Z → bytes).
Hypothesis fmt_number : ∀ d, is_Some (double_to_i64 d) → number_text (fmt_g9 d).

Definition event_line (seq : Z) (e : Event) : bytes := dump fmt_g9 unfit (event_json seq e).
Fixpoint event_lines (seq : Z) (es : list Event) : list bytes :=
  match es with
  | [] => []
  | e :: es => event_line (u64 (seq + 1)) e :: event_lines (u64 (seq + 1)) es
  end.

Lemma log_file es t bs :
  tm_file t = Some bs → tm_broken t = false →
  tm_file (log_events fmt_g9 unfit es t) = Some (bs ++ concat (map (λ l, l ++ [10]) (event_lines (tm_seq t) es))).
Proof.
  unfold log_events. revert t bs. induction es as [|e es IH]; intros t bs Hf Hb; cbn [foldl event_lines map concat].
  { by rewrite app_nil_r. }
  rewrite (IH _ (bs ++ event_line (u64 (tm_seq t + 1)) e ++ [10])).
  - cbn [log_event tm_seq]. by rewrite <-!app_assoc.
  - cbn [log_event tm_file]. by rewrite Hf, Hb.
  - done.
Qed.

Definition ready_fields (e : Event) : Prop :=
  NoDup (ev_fields e).*1 ∧ forallb (λ kv, fits kv.2) (ev_fields e) = true.

Lemma event_fits seq e : ready_fields e → fits (event_json seq e) = true.
Proof.
  intros [Hn Hf]. destruct (envelope_members seq (ev_ts e) (ev_name e) (ev_epoch e) (ev_fields e) Hn) as [E Hd].
  cbn [event_json fits]. apply forallb_forall. intros [k v] Hin%list_elem_of_In. cbn.
  pose proof (elem_of_list_to_map_1 (M:=gmap string) _ _ _ Hd Hin) as Hl. change (members_map (envelope seq (ev_ts e)
    (ev_name e) (ev_epoch e) (ev_fields e)) !! k = Some v) in Hl. rewrite E in Hl.
  apply lookup_union_Some_raw in Hl as [Hl|[_ Hl]].
  - apply elem_of_list_to_map_2 in Hl. rewrite forallb_forall in Hf. apply (Hf (k, v)). by apply list_elem_of_In.
  - unfold envelope_base in Hl. apply lookup_union_Some_raw in Hl as [Hl|[_ Hl]].
    + destruct (negb _); [|done]. by apply lookup_singleton_Some in Hl as [_ <-].
    + repeat (apply lookup_insert_Some in Hl as [[_ <-]|[_ Hl]]; [done|]). by apply lookup_singleton_Some in Hl as [_ <-].
Qed.

Lemma event_line_single seq e : ready_fields e → 10 ∉ event_line seq e.
Proof.
  intros Hr Hin. pose proof (dump_printable fmt_g9 unfit fmt_number _ (event_fits seq e Hr)) as Hp.
  unfold printable in Hp. rewrite Forall_forall in Hp. specialize (Hp _ Hin). lia.
Qed.

Lemma event_lines_single seq es : Forall ready_fields es → Forall (λ l, 10 ∉ l) (event_lines seq es).
Proof.
  intros Hes. revert seq. induction Hes as [|e es He _ IH]; intros seq; constructor; [by apply event_line_single|apply IH].
Qed.

Lemma event_lines_lookup seq es i e :
  0 <= seq → seq + Z.of_nat (length es) < 2 ^ 64 → es !! i = Some e →
  event_lines seq es !! i = Some (event_line (seq + Z.of_nat i + 1) e).
Proof.
  revert seq i. induction es as [|x es IH]; intros seq i H0 Hl Hi; [done|]. cbn [event_lines length] in *.
  assert (E : u64 (seq + 1) = seq + 1) by (apply u64_id; unfold is_u64; lia).
  rewrite E. destruct i as [|i].
  - injection Hi as <-. cbn. by rewrite Z.add_0_r.
  - rewrite !lookup_cons_ne_0 in * by done. cbn [pred] in *. rewrite (IH (seq + 1) i) by (done || lia). do 2 f_equal. lia.
Qed.

Lemma length_event_lines seq es : length (event_lines seq es) = length es.
Proof. revert seq. induction es as [|e es IH]; intros seq; cbn; [done|]. by rewrite IH. Qed.
End lines.

(** Cutting a text at its line breaks. *)
Fixpoint split_lines (bs : bytes) (acc : bytes) : list bytes :=
  match bs with
  | [] => match acc with [] => [] | _ => [acc] end
  | c :: bs => if c =? 10 then acc :: split_lines bs [] else split_lines bs (acc ++ [c])
  end.

Lemma split_lines_line l rest acc : 10 ∉ l → split_lines (l ++ 10 :: rest) acc = (acc ++ l) :: split_lines rest [].
Proof.
  revert acc. induction l as [|c l IH]; intros acc Hl; cbn; [by rewrite app_nil_r|].
  apply not_elem_of_cons in Hl as [Hc Hl]. rewrite (proj2 (Z.eqb_neq c 10)) by congruence.
  by rewrite IH, <-app_assoc.
Qed.

Lemma split_lines_concat ls :
  Forall (λ l, 10 ∉ l) ls → split_lines (concat (map (λ l, l ++ [10]) ls)) [] = ls.
Proof.
  induction 1 as [|l ls Hl _ IH]; [done|]. cbn [map concat]. rewrite <-app_assoc. cbn [app].
  by rewrite split_lines_line, IH.
Qed.


(** Two events, one with characters that need escapes and a key of the envelope. *)
Definition sample_events : list Event :=
  [mkEvent "coordinator.start" [("policy", JString (string_of_bytes [10; 34; 92; 1; 200]))] 2 1000;
   mkEvent "node.register" (telemetry_node (mkId 1 2) [("executors", make_array); ("seq", JBool true);
     ("cost", JDouble f64_tenth)]) 0 1001].
Definition sample_fmt (d : Z) : bytes := bytes_of_string "0.1".


Example telemetry_text :
  string_of_bytes <$> split_lines (default [] (tm_file (log_events sample_fmt (λ _, []) (take 1 sample_events)
    (configure (Some []) "t.ndjson" false new_telemetry)))) [] =
  [string_of_bytes (bytes_of_string "{" ++ [34] ++ bytes_of_string "coordinator_epoch" ++ [34] ++ bytes_of_string ":2,"
     ++ [34] ++ bytes_of_string "event" ++ [34; 58; 34] ++ bytes_of_string "coordinator.start" ++ [34; 44; 34]
     ++ bytes_of_string "policy" ++ [34; 58; 34] ++ bytes_of_string "\n\" ++ [34] ++ bytes_of_string "\\\u0001"
     ++ [200; 34; 44; 34] ++ bytes_of_string "schema" ++ [34] ++ bytes_of_string ":1," ++ [34] ++ bytes_of_string "seq"
     ++ [34] ++ bytes_of_string ":1," ++ [34] ++ bytes_of_string "ts" ++ [34] ++ bytes_of_string ":1000}")].
Proof. vm_compute. reflexivity. Qed.
