(* ===== verification/Task.v ===== *)
(** * Task: the task and attempt data model (task/task.h, task/task.cpp,
    task/attempt.h, task/attempt.cpp)

    Every enumeration of the source has [uint8_t] as its underlying type and is
    read from the wire with [static_cast], so a value may lie outside the
    enumerators: the constructor [.._raw] is such a value.  [enum_wf] holds of
    the values a [uint8_t] can produce. *)

From S2P Require Import Prelude Status Ids Float64.

Local Open Scope Z_scope.

(** ** Enumerations over [uint8_t] *)

Class CEnum (E : Type) := {
  enum_to : E → Z;
  enum_of : Z → E;
  enum_to_of v : is_u8 v → enum_to (enum_of v) = v
}.

Definition enum_wf {E} `{CEnum E} (e : E) : Prop :=
  is_u8 (enum_to e) ∧ enum_of (enum_to e) = e.

Lemma enum_of_wf {E} `{CEnum E} v : is_u8 v → enum_wf (enum_of v).
Proof. intros Hv. unfold enum_wf. by rewrite enum_to_of. Qed.

#[export] Hint Resolve enum_of_wf : cf.

(** Named enumerators are well formed by evaluation. *)
Ltac enum_wf_solve := split; [vm_compute; split; congruence|reflexivity].

(** The loops [parse_*]: the first value [0 .. last] whose name is [s]. *)
Definition parse_enum {E} `{CEnum E} (name : E → string) (last : Z) (s : string) : option E :=
  snd <$> list_find (λ e, name e = s) (enum_of <$> seqZ 0 (last + 1)).

(** A parse loop inverts the name function when the names are distinct. *)
Lemma parse_enum_name {E} `{CEnum E} (name : E → string) last e :
  (∀ i j, 0 <= i <= last → 0 <= j <= last →
     name (enum_of i) = name (enum_of j) → i = j) →
  0 <= enum_to e <= last → enum_of (enum_to e) = e →
  parse_enum name last (name e) = Some e.
Proof.
  intros Hinj Hrange Hof. unfold parse_enum.
  assert (Hl : (enum_of <$> seqZ 0 (last + 1)) !! Z.to_nat (enum_to e) = Some e).
  { rewrite list_lookup_fmap, lookup_seqZ_lt by lia. simpl.
    rewrite Z2Nat.id, Z.add_0_l, Hof by lia. done. }
  rewrite (proj2 (list_find_Some (λ e', name e' = name e) _ (Z.to_nat (enum_to e)) e));
    [done|]. split_and!; [done|done|].
  intros j y Hy Hlt Heq. rewrite list_lookup_fmap in Hy.
  destruct (seqZ 0 (last + 1) !! j) as [i|] eqn:Hi; simplify_eq/=.
  apply lookup_seqZ in Hi as [-> Hj]. rewrite <-Hof in Heq.
  apply Hinj in Heq; lia.
Qed.

(** The side condition, by evaluation over the enumerators. *)
Definition names_distinct {E} `{CEnum E} (name : E → string) (last : Z) : bool :=
  bool_decide (NoDup (name ∘ enum_of <$> seqZ 0 (last + 1))).

Lemma names_distinct_inj {E} `{CEnum E} (name : E → string) last :
  names_distinct name last = true →
  ∀ i j, 0 <= i <= last → 0 <= j <= last → name (enum_of i) = name (enum_of j) → i = j.
Proof.
  unfold names_distinct. rewrite bool_decide_eq_true. intros Hnd i j Hi Hj Heq.
  enough (Z.to_nat i = Z.to_nat j) by lia.
  eapply (NoDup_lookup _ _ _ (name (enum_of i)) Hnd);
    rewrite list_lookup_fmap, lookup_seqZ_lt by lia; simpl;
    rewrite Z2Nat.id, Z.add_0_l by lia; by rewrite ?Heq.
Qed.

(** Semantic task class. *)
Inductive TaskClass : Set :=
| TC_Generic
| TC_Inference
| TC_Prefill
| TC_Decode
| TC_Embedding
| TC_Retrieval
| TC_AgentStep
| TC_ToolExecution
| TC_TensorKernel
| TC_TrainingStep
| TC_CheckpointTransform
| TC_ApplicationDefined
| TC_raw (v : Z).

#[export] Instance TaskClass_eq_dec : EqDecision TaskClass.
Proof. solve_decision. Defined.

Definition TaskClass_to_u8 (x : TaskClass) : Z :=
  match x with
  | TC_Generic => 0
  | TC_Inference => 1
  | TC_Prefill => 2
  | TC_Decode => 3
  | TC_Embedding => 4
  | TC_Retrieval => 5
  | TC_AgentStep => 6
  | TC_ToolExecution => 7
  | TC_TensorKernel => 8
  | TC_TrainingStep => 9
  | TC_CheckpointTransform => 10
  | TC_ApplicationDefined => 11
  | TC_raw v => v
  end.

Definition TaskClass_of_u8 (v : Z) : TaskClass :=
  match v with
  | 0 => TC_Generic
  | 1 => TC_Inference
  | 2 => TC_Prefill
  | 3 => TC_Decode
  | 4 => TC_Embedding
  | 5 => TC_Retrieval
  | 6 => TC_AgentStep
  | 7 => TC_ToolExecution
  | 8 => TC_TensorKernel
  | 9 => TC_TrainingStep
  | 10 => TC_CheckpointTransform
  | 11 => TC_ApplicationDefined
  | _ => TC_raw v
  end.

#[export] Program Instance TaskClass_enum : CEnum TaskClass :=
  {| enum_to := TaskClass_to_u8; enum_of := TaskClass_of_u8 |}.
Next Obligation. intros v Hv. unfold TaskClass_of_u8. repeat case_match; reflexivity. Qed.

Definition task_class_name (x : TaskClass) : string :=
  match x with
  | TC_Generic => "Generic"
  | TC_Inference => "Inference"
  | TC_Prefill => "Prefill"
  | TC_Decode => "Decode"
  | TC_Embedding => "Embedding"
  | TC_Retrieval => "Retrieval"
  | TC_AgentStep => "AgentStep"
  | TC_ToolExecution => "ToolExecution"
  | TC_TensorKernel => "TensorKernel"
  | TC_TrainingStep => "TrainingStep"
  | TC_CheckpointTransform => "CheckpointTransform"
  | TC_ApplicationDefined => "ApplicationDefined"
  | TC_raw _ => "Unknown"
  end.

Definition parse_task_class : string → option TaskClass :=
  parse_enum task_class_name (TaskClass_to_u8 TC_ApplicationDefined).

(** Executor kind required or available on a node. *)
Inductive ExecutorType : Set :=
| EX_Cpu
| EX_Cuda
| EX_Any_
| EX_raw (v : Z).

#[export] Instance ExecutorType_eq_dec : EqDecision ExecutorType.
Proof. solve_decision. Defined.

Definition ExecutorType_to_u8 (x : ExecutorType) : Z :=
  match x with
  | EX_Cpu => 0
  | EX_Cuda => 1
  | EX_Any_ => 2
  | EX_raw v => v
  end.

Definition ExecutorType_of_u8 (v : Z) : ExecutorType :=
  match v with
  | 0 => EX_Cpu
  | 1 => EX_Cuda
  | 2 => EX_Any_
  | _ => EX_raw v
  end.

#[export] Program Instance ExecutorType_enum : CEnum ExecutorType :=
  {| enum_to := ExecutorType_to_u8; enum_of := ExecutorType_of_u8 |}.
Next Obligation. intros v Hv. unfold ExecutorType_of_u8. repeat case_match; reflexivity. Qed.

Definition executor_type_name (x : ExecutorType) : string :=
  match x with
  | EX_Cpu => "cpu"
  | EX_Cuda => "cuda"
  | EX_Any_ => "any"
  | EX_raw _ => "unknown"
  end.

Definition parse_executor_type (s : string) : option ExecutorType :=
  if String.eqb s "cpu" then Some EX_Cpu
  else if String.eqb s "cuda" then Some EX_Cuda
  else if String.eqb s "any" then Some EX_Any_
  else None.

(** Built-in deterministic workloads. *)
Inductive KernelType : Set :=
| KT_None
| KT_HashInteger
| KT_VectorTransform
| KT_Checksum
| KT_SyntheticLoop
| KT_StateDependent
| KT_TensorArithmetic
| KT_raw (v : Z).

#[export] Instance KernelType_eq_dec : EqDecision KernelType.
Proof. solve_decision. Defined.

Definition KernelType_to_u8 (x : KernelType) : Z :=
  match x with
  | KT_None => 0
  | KT_HashInteger => 1
  | KT_VectorTransform => 2
  | KT_Checksum => 3
  | KT_SyntheticLoop => 4
  | KT_StateDependent => 5
  | KT_TensorArithmetic => 6
  | KT_raw v => v
  end.

Definition KernelType_of_u8 (v : Z) : KernelType :=
  match v with
  | 0 => KT_None
  | 1 => KT_HashInteger
  | 2 => KT_VectorTransform
  | 3 => KT_Checksum
  | 4 => KT_SyntheticLoop
  | 5 => KT_StateDependent
  | 6 => KT_TensorArithmetic
  | _ => KT_raw v
  end.

#[export] Program Instance KernelType_enum : CEnum KernelType :=
  {| enum_to := KernelType_to_u8; enum_of := KernelType_of_u8 |}.
Next Obligation. intros v Hv. unfold KernelType_of_u8. repeat case_match; reflexivity. Qed.

Definition kernel_type_name (x : KernelType) : string :=
  match x with
  | KT_None => "none"
  | KT_HashInteger => "hash_integer"
  | KT_VectorTransform => "vector_transform"
  | KT_Checksum => "checksum"
  | KT_SyntheticLoop => "synthetic_loop"
  | KT_StateDependent => "state_dependent"
  | KT_TensorArithmetic => "tensor_arithmetic"
  | KT_raw _ => "unknown"
  end.

Definition parse_kernel_type : string → option KernelType :=
  parse_enum kernel_type_name (KernelType_to_u8 KT_TensorArithmetic).

(** Scheduling priority, most urgent first. *)
Inductive Priority : Set :=
| PR_Critical
| PR_High
| PR_Normal
| PR_Low
| PR_Background
| PR_raw (v : Z).

#[export] Instance Priority_eq_dec : EqDecision Priority.
Proof. solve_decision. Defined.

Definition Priority_to_u8 (x : Priority) : Z :=
  match x with
  | PR_Critical => 0
  | PR_High => 1
  | PR_Normal => 2
  | PR_Low => 3
  | PR_Background => 4
  | PR_raw v => v
  end.

Definition Priority_of_u8 (v : Z) : Priority :=
  match v with
  | 0 => PR_Critical
  | 1 => PR_High
  | 2 => PR_Normal
  | 3 => PR_Low
  | 4 => PR_Background
  | _ => PR_raw v
  end.

#[export] Program Instance Priority_enum : CEnum Priority :=
  {| enum_to := Priority_to_u8; enum_of := Priority_of_u8 |}.
Next Obligation. intros v Hv. unfold Priority_of_u8. repeat case_match; reflexivity. Qed.

Definition priority_name (x : Priority) : string :=
  match x with
  | PR_Critical => "critical"
  | PR_High => "high"
  | PR_Normal => "normal"
  | PR_Low => "low"
  | PR_Background => "background"
  | PR_raw _ => "unknown"
  end.

Definition parse_priority : string → option Priority :=
  parse_enum priority_name (Priority_to_u8 PR_Background).

(** State of one execution attempt. *)
Inductive AttemptState : Set :=
| AS_Dispatched
| AS_Started
| AS_Succeeded
| AS_Failed
| AS_Cancelled
| AS_Lost
| AS_raw (v : Z).

#[export] Instance AttemptState_eq_dec : EqDecision AttemptState.
Proof. solve_decision. Defined.

Definition AttemptState_to_u8 (x : AttemptState) : Z :=
  match x with
  | AS_Dispatched => 0
  | AS_Started => 1
  | AS_Succeeded => 2
  | AS_Failed => 3
  | AS_Cancelled => 4
  | AS_Lost => 5
  | AS_raw v => v
  end.

Definition AttemptState_of_u8 (v : Z) : AttemptState :=
  match v with
  | 0 => AS_Dispatched
  | 1 => AS_Started
  | 2 => AS_Succeeded
  | 3 => AS_Failed
  | 4 => AS_Cancelled
  | 5 => AS_Lost
  | _ => AS_raw v
  end.

#[export] Program Instance AttemptState_enum : CEnum AttemptState :=
  {| enum_to := AttemptState_to_u8; enum_of := AttemptState_of_u8 |}.
Next Obligation. intros v Hv. unfold AttemptState_of_u8. repeat case_match; reflexivity. Qed.

Definition attempt_state_name (x : AttemptState) : string :=
  match x with
  | AS_Dispatched => "Dispatched"
  | AS_Started => "Started"
  | AS_Succeeded => "Succeeded"
  | AS_Failed => "Failed"
  | AS_Cancelled => "Cancelled"
  | AS_Lost => "Lost"
  | AS_raw _ => "Unknown"
  end.

(** Why an attempt failed. *)
Inductive FailureKind : Set :=
| FK_None
| FK_ExecutorFailed
| FK_NodeLost
| FK_Timeout
| FK_Cancelled
| FK_InvalidOutput
| FK_CudaError
| FK_Preempted
| FK_Internal
| FK_raw (v : Z).

#[export] Instance FailureKind_eq_dec : EqDecision FailureKind.
Proof. solve_decision. Defined.

Definition FailureKind_to_u8 (x : FailureKind) : Z :=
  match x with
  | FK_None => 0
  | FK_ExecutorFailed => 1
  | FK_NodeLost => 2
  | FK_Timeout => 3
  | FK_Cancelled => 4
  | FK_InvalidOutput => 5
  | FK_CudaError => 6
  | FK_Preempted => 7
  | FK_Internal => 8
  | FK_raw v => v
  end.

Definition FailureKind_of_u8 (v : Z) : FailureKind :=
  match v with
  | 0 => FK_None
  | 1 => FK_ExecutorFailed
  | 2 => FK_NodeLost
  | 3 => FK_Timeout
  | 4 => FK_Cancelled
  | 5 => FK_InvalidOutput
  | 6 => FK_CudaError
  | 7 => FK_Preempted
  | 8 => FK_Internal
  | _ => FK_raw v
  end.

#[export] Program Instance FailureKind_enum : CEnum FailureKind :=
  {| enum_to := FailureKind_to_u8; enum_of := FailureKind_of_u8 |}.
Next Obligation. intros v Hv. unfold FailureKind_of_u8. repeat case_match; reflexivity. Qed.

Definition failure_kind_name (x : FailureKind) : string :=
  match x with
  | FK_None => "none"
  | FK_ExecutorFailed => "executor_failed"
  | FK_NodeLost => "node_lost"
  | FK_Timeout => "timeout"
  | FK_Cancelled => "cancelled"
  | FK_InvalidOutput => "invalid_output"
  | FK_CudaError => "cuda_error"
  | FK_Preempted => "preempted"
  | FK_Internal => "internal"
  | FK_raw _ => "unknown"
  end.

(** ** Records *)

Record RetryPolicy := mkRetryPolicy {
  rp_max_attempts : Z;                (* uint32_t *)
  rp_retry_on_node_loss : bool;
  rp_retry_on_executor_failure : bool;
  rp_retry_on_timeout : bool;
  rp_retry_backoff_ms : Z             (* uint64_t *)
}.

(** The member initialisers of the struct. *)
Definition default_retry : RetryPolicy := mkRetryPolicy 1 true true false 100.

(** [RetryPolicy::valid] *)
Definition retry_valid (p : RetryPolicy) : bool := 1 <=? rp_max_attempts p.

Record StateDependency := mkStateDependency {
  sd_state_id : string;
  sd_generation : string;
  sd_size_bytes : Z;                  (* uint64_t *)
  sd_resident_nodes : list Id128;
  sd_locality_quality : Z;            (* double *)
  sd_transfer_estimate_seconds : Z;   (* double, -1 = not provided *)
  sd_recompute_estimate_seconds : Z;  (* double, -1 = not provided *)
  sd_provider_backed : bool;
  sd_compatibility : string
}.

Record ComputeTask := mkComputeTask {
  ct_id : Id128;
  ct_workload : Id128;
  ct_name : string;
  ct_task_class : TaskClass;
  ct_required_executor : ExecutorType;
  ct_min_compute_capability_major : Z;   (* int *)
  ct_min_compute_capability_minor : Z;   (* int *)
  ct_required_cpu_slots : Z;             (* uint32_t *)
  ct_required_gpu_slots : Z;             (* uint32_t *)
  ct_scratch_memory_bytes : Z;           (* uint64_t *)
  ct_dependencies : list Id128;
  ct_state_dependencies : list StateDependency;
  ct_expected_input_bytes : Z;           (* uint64_t *)
  ct_expected_output_bytes : Z;          (* uint64_t *)
  ct_estimated_duration_seconds : Z;     (* double *)
  ct_has_deadline : bool;
  ct_deadline_epoch_ms : Z;              (* int64_t *)
  ct_priority : Priority;
  ct_retry : RetryPolicy;
  ct_preferred_nodes : list Id128;
  ct_forbidden_nodes : list Id128;
  ct_required_tags : list string;
  ct_preferred_tags : list string;
  ct_anti_affinity_group : string;
  ct_same_node_as_task : option Id128;
  ct_different_node_from_task : option Id128;
  ct_expected_transfer_gb : Z;           (* double *)
  ct_expected_recompute_cost_seconds : Z; (* double *)
  ct_cost_estimate : Z;                  (* double *)
  ct_preemptible : bool;
  ct_kernel : KernelType;
  ct_kernel_param_n : Z;                 (* uint64_t *)
  ct_kernel_param_a : Z;                 (* uint64_t *)
  ct_kernel_param_b : Z;                 (* uint64_t *)
  ct_seed : Z;                           (* uint64_t *)
  ct_user_tags : gmap string string;
  ct_payload : bytes
}.

(** A task with the member initialisers of the struct, given its identity, its
    dependencies and its requirements. *)
Definition default_task (id : Id128) (deps : list Id128) : ComputeTask :=
  mkComputeTask id id_zero "" TC_Generic EX_Any_ 0 0 1 1 0 deps [] 0 0 f64_tenth false 0
    PR_Normal default_retry [] [] [] [] "" None None f64_0 f64_0 f64_0 false KT_None 0 0 0 0
    ∅ [].

Record Workload := mkWorkload {
  wl_id : Id128;
  wl_name : string;
  wl_user_tags : gmap string string
}.

(** One execution attempt. *)
Record ExecutionAttempt := mkExecutionAttempt {
  at_id : Id128;
  at_task_id : Id128;
  at_node_id : Id128;
  at_node_session : Id128;
  at_coordinator_epoch : Z;    (* uint64_t *)
  at_reservation_id : Id128;
  at_executor : ExecutorType;
  at_attempt_number : Z;       (* uint32_t *)
  at_dispatched_at_ms : Z;     (* int64_t *)
  at_started_at_ms : Z;        (* int64_t *)
  at_completed_at_ms : Z;      (* int64_t *)
  at_state : AttemptState;
  at_failure_kind : FailureKind;
  at_failure_reason : string;
  at_output_size : Z;          (* uint64_t *)
  at_output_integrity : string;
  at_cpu_millis : Z;           (* double *)
  at_bytes_transferred : Z;    (* uint64_t *)
  at_device : string;
  at_committed : bool
}.

(** ** Names parse back *)

Lemma parse_task_class_name_gen c :
  0 <= enum_to c <= 11 → enum_of (enum_to c) = c →
  parse_task_class (task_class_name c) = Some c.
Proof. apply parse_enum_name, names_distinct_inj. vm_compute. reflexivity. Qed.

Lemma parse_kernel_type_name_gen k :
  0 <= enum_to k <= 6 → enum_of (enum_to k) = k →
  parse_kernel_type (kernel_type_name k) = Some k.
Proof. apply parse_enum_name, names_distinct_inj. vm_compute. reflexivity. Qed.

Lemma parse_priority_name_gen p :
  0 <= enum_to p <= 4 → enum_of (enum_to p) = p →
  parse_priority (priority_name p) = Some p.
Proof. apply parse_enum_name, names_distinct_inj. vm_compute. reflexivity. Qed.
