(* ===== verification/Lifecycle.v ===== *)
(** * Lifecycle: the task state machine (task/lifecycle.h, task/lifecycle.cpp)

    [is_legal] is the transition table, [transition] the method of
    [TaskLifecycle], [legal_step] the step relation and [legal_trace] its
    finite runs. *)

From S2P Require Import Prelude Status Ids Float64 Task.

Local Open Scope Z_scope.

(** Task lifecycle state. *)
Inductive TaskState : Set :=
| TS_Submitted
| TS_Blocked
| TS_Ready
| TS_Planning
| TS_Reserved
| TS_Dispatching
| TS_Running
| TS_Succeeded
| TS_Failed
| TS_RetryPending
| TS_Cancelled
| TS_Lost
| TS_Preempted
| TS_Expired
| TS_raw (v : Z).

#[export] Instance TaskState_eq_dec : EqDecision TaskState.
Proof. solve_decision. Defined.

Definition TaskState_to_u8 (x : TaskState) : Z :=
  match x with
  | TS_Submitted => 0
  | TS_Blocked => 1
  | TS_Ready => 2
  | TS_Planning => 3
  | TS_Reserved => 4
  | TS_Dispatching => 5
  | TS_Running => 6
  | TS_Succeeded => 7
  | TS_Failed => 8
  | TS_RetryPending => 9
  | TS_Cancelled => 10
  | TS_Lost => 11
  | TS_Preempted => 12
  | TS_Expired => 13
  | TS_raw v => v
  end.

Definition TaskState_of_u8 (v : Z) : TaskState :=
  match v with
  | 0 => TS_Submitted
  | 1 => TS_Blocked
  | 2 => TS_Ready
  | 3 => TS_Planning
  | 4 => TS_Reserved
  | 5 => TS_Dispatching
  | 6 => TS_Running
  | 7 => TS_Succeeded
  | 8 => TS_Failed
  | 9 => TS_RetryPending
  | 10 => TS_Cancelled
  | 11 => TS_Lost
  | 12 => TS_Preempted
  | 13 => TS_Expired
  | _ => TS_raw v
  end.

#[export] Program Instance TaskState_enum : CEnum TaskState :=
  {| enum_to := TaskState_to_u8; enum_of := TaskState_of_u8 |}.
Next Obligation. intros v Hv. unfold TaskState_of_u8. repeat case_match; reflexivity. Qed.

Definition task_state_name (x : TaskState) : string :=
  match x with
  | TS_Submitted => "Submitted"
  | TS_Blocked => "Blocked"
  | TS_Ready => "Ready"
  | TS_Planning => "Planning"
  | TS_Reserved => "Reserved"
  | TS_Dispatching => "Dispatching"
  | TS_Running => "Running"
  | TS_Succeeded => "Succeeded"
  | TS_Failed => "Failed"
  | TS_RetryPending => "RetryPending"
  | TS_Cancelled => "Cancelled"
  | TS_Lost => "Lost"
  | TS_Preempted => "Preempted"
  | TS_Expired => "Expired"
  | TS_raw _ => "Unknown"
  end.

Definition parse_task_state : string → option TaskState :=
  parse_enum task_state_name (TaskState_to_u8 TS_Expired).

Definition is_terminal (s : TaskState) : bool :=
  match s with
  | TS_Succeeded | TS_Failed | TS_Cancelled | TS_Lost | TS_Preempted | TS_Expired => true
  | _ => false
  end.

Definition is_active (s : TaskState) : bool :=
  match s with
  | TS_Planning | TS_Reserved | TS_Dispatching | TS_Running => true
  | _ => false
  end.

(** ** The transition table *)

(** [TaskLifecycle::is_legal] *)
Definition is_legal (from to : TaskState) : bool :=
  if decide (from = to) then true else
  match from with
  | TS_Submitted =>
      match to with TS_Blocked | TS_Ready | TS_Cancelled | TS_Expired => true | _ => false end
  | TS_Blocked =>
      match to with TS_Ready | TS_Cancelled | TS_Expired => true | _ => false end
  | TS_Ready =>
      match to with TS_Planning | TS_Cancelled | TS_Expired => true | _ => false end
  | TS_Planning =>
      match to with
      | TS_Reserved | TS_Ready | TS_Cancelled | TS_Lost | TS_Expired => true
      | _ => false end
  | TS_Reserved =>
      match to with
      | TS_Dispatching | TS_Ready | TS_Cancelled | TS_Lost | TS_Preempted | TS_Expired => true
      | _ => false end
  | TS_Dispatching =>
      match to with
      | TS_Running | TS_Ready | TS_Lost | TS_Cancelled | TS_Preempted | TS_Expired => true
      | _ => false end
  | TS_Running =>
      match to with
      | TS_Succeeded | TS_Failed | TS_Lost | TS_Preempted | TS_RetryPending
      | TS_Cancelled | TS_Expired => true
      | _ => false end
  | TS_Failed => match to with TS_RetryPending => true | _ => false end
  | TS_Lost => match to with TS_RetryPending | TS_Failed => true | _ => false end
  | TS_Preempted =>
      match to with TS_RetryPending | TS_Ready | TS_Failed => true | _ => false end
  | TS_RetryPending =>
      match to with TS_Ready | TS_Cancelled | TS_Expired => true | _ => false end
  | TS_Succeeded | TS_Cancelled | TS_Expired | TS_raw _ => false
  end.

Definition illegal_transition_message (from to : TaskState) : string :=
  ("illegal task transition " +:+ task_state_name from +:+ " -> " +:+ task_state_name to)%string.

(** [TaskLifecycle::transition]: the result and the object's state afterwards. *)
Definition transition (state next : TaskState) : Result TaskState * TaskState :=
  if decide (state = next) then (Ok state, state)
  else if negb (is_legal state next) then
    (err EIllegalTransition (illegal_transition_message state next), state)
  else (Ok next, next).

(** ** Runs *)

Inductive legal_step : TaskState → TaskState → Prop :=
| legal_step_intro s t : is_legal s t = true → legal_step s t.

(** [legal_trace s l]: starting in [s], the states [l] are entered in turn. *)
Inductive legal_trace : TaskState → list TaskState → Prop :=
| legal_trace_nil s : legal_trace s []
| legal_trace_cons s t l : legal_step s t → legal_trace t l → legal_trace s (t :: l).

Fixpoint run_transitions (s : TaskState) (l : list TaskState) : TaskState :=
  match l with
  | [] => s
  | t :: l => run_transitions (transition s t).2 l
  end.

(** ** Facts *)

Lemma transition_spec s t :
  transition s t =
  if is_legal s t then (Ok t, t)
  else (err EIllegalTransition (illegal_transition_message s t), s).
Proof.
  unfold transition. destruct (decide (s = t)) as [->|Hne].
  - unfold is_legal. by rewrite decide_True.
  - by destruct (is_legal s t).
Qed.

Lemma is_legal_refl s : is_legal s s = true.
Proof. unfold is_legal. by rewrite decide_True. Qed.

(** The states a run can enter from nowhere but one other state. *)
Lemma is_legal_into_Succeeded s : is_legal s TS_Succeeded = true → s ≠ TS_Succeeded → s = TS_Running.
Proof. by destruct s. Qed.
Lemma is_legal_into_Running s : is_legal s TS_Running = true → s ≠ TS_Running → s = TS_Dispatching.
Proof. by destruct s. Qed.
Lemma is_legal_into_Dispatching s :
  is_legal s TS_Dispatching = true → s ≠ TS_Dispatching → s = TS_Reserved.
Proof. by destruct s. Qed.
Lemma is_legal_into_Reserved s : is_legal s TS_Reserved = true → s ≠ TS_Reserved → s = TS_Planning.
Proof. by destruct s. Qed.
Lemma is_legal_into_Planning s : is_legal s TS_Planning = true → s ≠ TS_Planning → s = TS_Ready.
Proof. by destruct s. Qed.

Lemma legal_trace_app_inv s l k : legal_trace s (l ++ k) → legal_trace s l.
Proof.
  revert s. induction l as [|t l IH]; intros s H; [constructor|].
  inversion H; subst. constructor; auto.
Qed.

(** A run that enters [x] from outside has entered [x]'s only predecessor before. *)
Lemma legal_trace_through s l x y :
  (∀ t, is_legal t x = true → t ≠ x → t = y) →
  legal_trace s l → s ≠ x → s ≠ y → x ∈ l →
  ∃ l1 l2, l = l1 ++ y :: l2 ∧ x ∈ l2.
Proof.
  intros Hpred Htr. revert s Htr.
  induction l as [|t l IH]; intros s Htr Hsx Hsy Hin; [by apply not_elem_of_nil in Hin|].
  inversion Htr as [|? ? ? Hstep Htl]; subst. inversion Hstep as [? ? Hleg]; subst.
  destruct (decide (t = x)) as [->|Htx].
  { by specialize (Hpred s Hleg Hsx). }
  assert (Hin' : x ∈ l) by set_solver.
  destruct (decide (t = y)) as [->|Hty].
  - by exists [], l.
  - destruct (IH t Htl Htx Hty Hin') as (l1 & l2 & -> & ?). by exists (t :: l1), l2.
Qed.

(** Chaining [legal_trace_through] backwards from [Succeeded]. *)
Lemma legal_trace_prefix_through s l x y k :
  (∀ t, is_legal t x = true → t ≠ x → t = y) →
  legal_trace s l → s ≠ x → s ≠ y → sublist (x :: k) l → sublist (y :: x :: k) l.
Proof.
  intros Hpred Htr Hsx Hsy Hsub.
  apply sublist_cons_l in Hsub as (l1 & l2 & -> & Hsub).
  assert (Htr1 : legal_trace s (l1 ++ [x])).
  { replace (l1 ++ x :: l2) with ((l1 ++ [x]) ++ l2) in Htr by (by rewrite <-(assoc_L (++))).
    by apply legal_trace_app_inv in Htr. }
  destruct (legal_trace_through s (l1 ++ [x]) x y Hpred Htr1 Hsx Hsy) as (m1 & m2 & E & Hin);
    [set_solver|].
  replace (l1 ++ x :: l2) with ((l1 ++ [x]) ++ l2) by (by rewrite <-(assoc_L (++))).
  rewrite E, <-(assoc_L (++)). simpl.
  apply sublist_inserts_l, sublist_skip.
  change (x :: k) with ([x] ++ k). apply sublist_app; [|done].
  by apply singleton_sublist_l.
Qed.

(** ** Claims *)

(** No shortcut to success.  Along every legal run of a submitted task, the
    task enters [Succeeded] only after having entered [Ready], [Planning],
    [Reserved], [Dispatching] and [Running], in that order. *)
Theorem success_pipeline (l : list TaskState) :
  legal_trace TS_Submitted l → TS_Succeeded ∈ l →
  [TS_Planning; TS_Reserved; TS_Dispatching; TS_Running; TS_Succeeded] `sublist_of` l ∧
  TS_Ready ∈ l.
Proof.
  intros Htr Hin.
  assert (H : [TS_Planning; TS_Reserved; TS_Dispatching; TS_Running; TS_Succeeded]
                `sublist_of` l).
  { apply (legal_trace_prefix_through _ _ _ _ _ is_legal_into_Reserved Htr); [done|done|].
    apply (legal_trace_prefix_through _ _ _ _ _ is_legal_into_Dispatching Htr); [done|done|].
    apply (legal_trace_prefix_through _ _ _ _ _ is_legal_into_Running Htr); [done|done|].
    apply (legal_trace_prefix_through _ _ _ _ _ is_legal_into_Succeeded Htr); [done|done|].
    by apply singleton_sublist_l. }
  split; [done|].
  destruct (legal_trace_through _ l TS_Planning TS_Ready is_legal_into_Planning Htr)
    as (l1 & l2 & -> & _); [done|done| |set_solver].
  apply singleton_sublist_l. etrans; [|exact H]. by apply sublist_skip, sublist_nil_l.
Qed.

Lemma success_pipeline_witness :
  [TS_Planning; TS_Reserved; TS_Dispatching; TS_Running; TS_Succeeded] `sublist_of`
    [TS_Ready; TS_Planning; TS_Reserved; TS_Dispatching; TS_Running; TS_Succeeded].
Proof.
  refine (proj1 (success_pipeline
    [TS_Ready; TS_Planning; TS_Reserved; TS_Dispatching; TS_Running; TS_Succeeded] _ _)).
  - repeat constructor.
  - set_solver.
Defined.

(** Final states are final, and the other terminal states only lead back
    into the retry path: from [Succeeded], [Cancelled] or [Expired] every sequence
    of [transition] calls leaves the state unchanged, each call to another state
    reporting [IllegalTransition]; from [Failed], [Lost] and [Preempted] the only
    ways out are [RetryPending], [Ready] and [Failed]. *)
Theorem terminal_states_final (s t : TaskState) (l : list TaskState) :
  is_terminal s = true →
  (s ∈ [TS_Succeeded; TS_Cancelled; TS_Expired] →
     run_transitions s l = s ∧
     (t ≠ s → (transition s t).1 = err EIllegalTransition (illegal_transition_message s t))) ∧
  (is_legal s t = true → t = s ∨ t ∈ [TS_RetryPending; TS_Ready; TS_Failed]).
Proof.
  intros Hterm.
  assert (Hfin : s ∈ [TS_Succeeded; TS_Cancelled; TS_Expired] → ∀ t, t ≠ s → is_legal s t = false).
  { intros Hs u Hu. unfold is_legal. rewrite decide_False by congruence. by destruct s; set_solver. }
  split.
  - intros Hs. split.
    + induction l as [|u l IH]; [done|]. simpl. rewrite transition_spec.
      destruct (decide (u = s)) as [->|Hu]; [by rewrite is_legal_refl|].
      by rewrite (Hfin Hs u Hu).
    + intros Ht. by rewrite transition_spec, (Hfin Hs t Ht).
  - intros Hl. destruct (decide (t = s)); [by left|right].
    unfold is_legal in Hl. rewrite decide_False in Hl by congruence.
    destruct s; try done; destruct t; try done; set_solver.
Qed.

Lemma terminal_states_witness : run_transitions TS_Succeeded [TS_Ready; TS_Running] = TS_Succeeded.
Proof.
  refine (proj1 (proj1 (terminal_states_final TS_Succeeded TS_Ready [TS_Ready; TS_Running] _) _));
    [reflexivity|set_solver].
Defined.
