(* ===== verification/Dag.v ===== *)
(** * Dag: the task dependency graph (task/dag.h, task/dag.cpp)

    [TaskGraph] with the four maps of the class.  [operator[]] on a map of sets
    creates the empty set: [at_default].  The depth-first search of
    [validate_dependencies] recurses through a [std::function]; [dfs] is that
    recursion with a fuel that bounds the number of nested calls, and
    [dfs_total] shows that the fuel [validate_dependencies] passes is enough. *)

From S2P Require Import Prelude Status Ids Float64 Task Lifecycle.

Record TaskGraph := mkTaskGraph {
  g_tasks : gmap Id128 ComputeTask;
  g_states : gmap Id128 TaskState;
  g_deps : gmap Id128 (gset Id128);        (* task -> deps *)
  g_dependents : gmap Id128 (gset Id128)   (* task -> users *)
}.

Definition empty_graph : TaskGraph := mkTaskGraph ∅ ∅ ∅ ∅.

(** [m[k]] on a map of sets, [m[k].insert(x)] and [m[k].erase(x)]. *)
Definition at_default (m : gmap Id128 (gset Id128)) (k : Id128) : gset Id128 :=
  default ∅ (m !! k).
Definition insert_at (m : gmap Id128 (gset Id128)) (k x : Id128) : gmap Id128 (gset Id128) :=
  <[k := {[x]} ∪ at_default m k]> m.
Definition erase_at (m : gmap Id128 (gset Id128)) (k x : Id128) : gmap Id128 (gset Id128) :=
  <[k := at_default m k ∖ {[x]}]> m.

(** ** Queries *)

Definition has_task (g : TaskGraph) (id : Id128) : bool := bool_decide (is_Some (g_tasks g !! id)).
Definition find_task (g : TaskGraph) (id : Id128) : option ComputeTask := g_tasks g !! id.

Definition dependencies (g : TaskGraph) (id : Id128) : list Id128 :=
  match g_deps g !! id with None => [] | Some X => set_in_order X end.
Definition dependents (g : TaskGraph) (id : Id128) : list Id128 :=
  match g_dependents g !! id with None => [] | Some X => set_in_order X end.

Definition task_ids (g : TaskGraph) : list Id128 := (in_order (g_tasks g)).*1.
Definition graph_size (g : TaskGraph) : nat := size (g_tasks g).

(** [TaskGraph::state] *)
Definition task_state (g : TaskGraph) (id : Id128) : TaskState :=
  match g_states g !! id with None => TS_Submitted | Some s => s end.

Definition dependencies_satisfied (g : TaskGraph) (id : Id128) : bool :=
  match g_deps g !! id with
  | None => true
  | Some X =>
      forallb (λ d, match g_states g !! d with
                    | Some TS_Succeeded => true
                    | _ => false
                    end) (set_in_order X)
  end.

Definition poisons (s : TaskState) : bool :=
  match s with TS_Failed | TS_Lost | TS_Cancelled | TS_Expired => true | _ => false end.

Definition dependency_poisoned (g : TaskGraph) (id : Id128) : bool :=
  match g_deps g !! id with
  | None => false
  | Some X =>
      existsb (λ d, match g_states g !! d with None => false | Some s => poisons s end)
        (set_in_order X)
  end.

(** ** Cycle detection *)

Inductive Color := White | Gray | Black.

#[export] Instance Color_eq_dec : EqDecision Color.
Proof. solve_decision. Defined.

Definition color_of (color : gmap Id128 Color) (x : Id128) : Color := default White (color !! x).

(** The [for] loop of the lambda over the successors, with the recursive call
    as a parameter: [Some (b, color)] is the result and the colours. *)
Fixpoint dfs_loop (visit : gmap Id128 Color → Id128 → option (bool * gmap Id128 Color))
    (ds : list Id128) (color : gmap Id128 Color) : option (bool * gmap Id128 Color) :=
  match ds with
  | [] => Some (false, color)
  | d :: ds =>
      match color_of color d with
      | Gray => Some (true, color)
      | White =>
          match visit color d with
          | Some (false, color) => dfs_loop visit ds color
          | r => r
          end
      | Black => dfs_loop visit ds color
      end
  end.

Definition successors (deps : gmap Id128 (gset Id128)) (cur : Id128) : list Id128 :=
  match deps !! cur with None => [] | Some X => set_in_order X end.

(** The lambda [dfs]; [None] means the fuel ran out. *)
Fixpoint dfs (fuel : nat) (deps : gmap Id128 (gset Id128)) (color : gmap Id128 Color)
    (cur : Id128) : option (bool * gmap Id128 Color) :=
  match fuel with
  | O => None
  | S fuel =>
      match dfs_loop (dfs fuel deps) (successors deps cur) (<[cur := Gray]> color) with
      | Some (false, color) => Some (false, <[cur := Black]> color)
      | r => r
      end
  end.

(** The nodes a search from [id] can visit. *)
Definition dag_nodes (deps : gmap Id128 (gset Id128)) (id : Id128) : gset Id128 :=
  {[id]} ∪ dom deps ∪ map_fold (λ _ X acc, X ∪ acc) ∅ deps.

Definition validate_dependencies (g : TaskGraph) (id : Id128) : Result unit :=
  match g_tasks g !! id with
  | None => err ETaskNotFound "task not found in graph"
  | Some _ =>
      match dfs (size (dag_nodes (g_deps g) id)) (g_deps g) ∅ id with
      | Some (false, _) => Ok tt
      | _ => err EDependencyCycle "dependency cycle detected"
      end
  end.

(** ** Updates: the new graph and the result *)

(** The two loops over [task.dependencies] in [add_task]. *)
Definition link_deps (id : Id128) (ds : list Id128)
    (m : gmap Id128 (gset Id128) * gmap Id128 (gset Id128)) :=
  foldl (λ acc d, (insert_at acc.1 id d, insert_at acc.2 d id)) m ds.
Definition unlink_deps (id : Id128) (ds : list Id128) (m : gmap Id128 (gset Id128)) :=
  foldl (λ acc d, erase_at acc d id) m ds.

Definition add_task (g : TaskGraph) (task : ComputeTask) : TaskGraph * Result unit :=
  let id := ct_id task in
  if has_task g id then (g, err EAlreadyExists "task already present in graph")
  else if bool_decide (id ∈ ct_dependencies task) then
    (g, err ESelfDependency "task depends on itself")
  else
    let '(deps, dependents) :=
      link_deps id (ct_dependencies task)
        (<[id := at_default (g_deps g) id]> (g_deps g), g_dependents g) in
    let g1 := mkTaskGraph (<[id := task]> (g_tasks g)) (<[id := TS_Submitted]> (g_states g))
                deps dependents in
    match validate_dependencies g1 id with
    | Ok _ => (g1, Ok tt)
    | Err e =>
        (mkTaskGraph (delete id (g_tasks g1)) (delete id (g_states g1))
           (delete id (g_deps g1))
           (delete id (unlink_deps id (ct_dependencies task) (g_dependents g1))), Err e)
    end.

Definition remove_task (g : TaskGraph) (id : Id128) : TaskGraph * Result unit :=
  match g_tasks g !! id with
  | None => (g, err ETaskNotFound "task not found")
  | Some _ =>
      let dependents := <[id := at_default (g_dependents g) id]> (g_dependents g) in
      if negb (bool_decide (at_default dependents id = ∅)) then
        (mkTaskGraph (g_tasks g) (g_states g) (g_deps g) dependents,
         err EInvalidState "task has dependents")
      else
        (mkTaskGraph (delete id (g_tasks g)) (delete id (g_states g)) (delete id (g_deps g))
           (delete id (unlink_deps id (set_in_order (at_default (g_deps g) id)) dependents)),
         Ok tt)
  end.

Definition set_state (g : TaskGraph) (id : Id128) (s : TaskState) : TaskGraph * Result unit :=
  match g_states g !! id with
  | None => (g, err ETaskNotFound "task not found")
  | Some cur =>
      if negb (is_legal cur s) then
        (g, err EIllegalTransition (illegal_transition_message cur s))
      else (mkTaskGraph (g_tasks g) (<[id := s]> (g_states g)) (g_deps g) (g_dependents g), Ok tt)
  end.

Definition restore_state (g : TaskGraph) (id : Id128) (s : TaskState) : TaskGraph :=
  match g_states g !! id with
  | None => g
  | Some _ => mkTaskGraph (g_tasks g) (<[id := s]> (g_states g)) (g_deps g) (g_dependents g)
  end.

(** ** The search is correct

    [edge deps x y]: task [x] depends on [y]. *)

Definition edge (deps : gmap Id128 (gset Id128)) (x y : Id128) : Prop := y ∈ at_default deps x.

Lemma elem_of_successors deps x y : y ∈ successors deps x ↔ edge deps x y.
Proof.
  unfold successors, edge, at_default. destruct (deps !! x) as [X|]; simpl.
  - apply elem_of_set_in_order.
  - set_solver.
Qed.

Lemma color_of_insert color x c y :
  color_of (<[x := c]> color) y = if decide (x = y) then c else color_of color y.
Proof.
  unfold color_of. destruct (decide (x = y)) as [->|].
  - by rewrite lookup_insert_eq.
  - by rewrite lookup_insert_ne.
Qed.

Section search.
Context (deps : gmap Id128 (gset Id128)).

Abbreviation acyclic_from := (Acc (λ y x, edge deps x y)).

(** What a completed (non-cyclic) visit does to the colours: the visited nodes
    are black afterwards, nothing else changes. *)
Definition grows (color color' : gmap Id128 Color) : Prop :=
  ∀ x, color_of color' x = color_of color x ∨
       (color_of color x = White ∧ color_of color' x = Black).

Lemma grows_refl color : grows color color.
Proof. intros x. by left. Qed.
Lemma grows_trans c1 c2 c3 : grows c1 c2 → grows c2 c3 → grows c1 c3.
Proof. intros H1 H2 x. specialize (H1 x). specialize (H2 x). naive_solver congruence. Qed.

Definition blacks_acyclic (color : gmap Id128 Color) : Prop :=
  ∀ x, color_of color x = Black → acyclic_from x.
Definition grays_reach (color : gmap Id128 Color) (cur : Id128) : Prop :=
  ∀ x, color_of color x = Gray → rtc (edge deps) x cur.

(** A cycle is reachable from [cur]. *)
Definition reaches_cycle (cur : Id128) : Prop :=
  ∃ z, rtc (edge deps) cur z ∧ tc (edge deps) z z.

(** The contract of one visit, which the loop and the recursion share. *)
Definition visit_ok (visit : gmap Id128 Color → Id128 → option (bool * gmap Id128 Color)) : Prop :=
  ∀ color cur b color', visit color cur = Some (b, color') → color_of color cur = White →
    if b then grays_reach color cur → reaches_cycle cur
    else grows color color' ∧ color_of color' cur = Black ∧
         (blacks_acyclic color → blacks_acyclic color').

Lemma dfs_loop_ok visit cur ds color b color' :
  visit_ok visit → (∀ d, d ∈ ds → edge deps cur d) →
  dfs_loop visit ds color = Some (b, color') →
  if b then grays_reach color cur → reaches_cycle cur
  else grows color color' ∧ (∀ d, d ∈ ds → color_of color' d = Black) ∧
       (blacks_acyclic color → blacks_acyclic color').
Proof.
  intros Hv. revert color. induction ds as [|d ds IH]; intros color Hds; simpl.
  { intros [= <- <-]. split; [apply grows_refl|]. set_solver. }
  destruct (color_of color d) eqn:Hd.
  - destruct (visit color d) as [[b1 c1]|] eqn:Hvis; [|done].
    pose proof (Hv _ _ _ _ Hvis Hd) as Hstep.
    destruct b1; [intros [= <- <-]|].
    + intros Hg. assert (Hcd : edge deps cur d) by (apply Hds; set_solver).
      destruct Hstep as (z & ? & ?).
      { intros x Hx. eapply rtc_r; [by apply Hg|done]. }
      exists z. split; [by eapply rtc_l|done].
    + intros Hl. destruct Hstep as (G1 & B1 & A1).
      specialize (IH c1 ltac:(set_solver) Hl). destruct b.
      * intros Hg. apply IH. intros x Hx. apply Hg. destruct (G1 x); naive_solver congruence.
      * destruct IH as (G2 & B2 & A2). split_and!; [by eapply grows_trans| |naive_solver].
        intros e [->|He]%elem_of_cons; [destruct (G2 d); naive_solver congruence|auto].
  - intros [= <- <-] Hg. assert (Hcd : edge deps cur d) by (apply Hds; set_solver).
    exists d. split; [by apply rtc_once|]. eapply tc_rtc_l; [by apply Hg|by apply tc_once].
  - intros Hl. specialize (IH color ltac:(set_solver) Hl). destruct b; [done|].
    destruct IH as (G & B & A). split_and!; [done| |done].
    intros e [->|He]%elem_of_cons; [destruct (G d); naive_solver congruence|auto].
Qed.

Lemma dfs_ok fuel : visit_ok (dfs fuel deps).
Proof.
  induction fuel as [|fuel IH]; intros color cur b color' Hdfs Hwhite; [done|].
  simpl in Hdfs.
  destruct (dfs_loop (dfs fuel deps) _ _) as [[b1 c1]|] eqn:Hl; [|done].
  pose proof (dfs_loop_ok _ cur _ _ _ _ IH
    (λ d Hd, proj1 (elem_of_successors _ _ _) Hd) Hl) as Hloop.
  destruct b1; injection Hdfs as <- <-.
  - intros Hg. apply Hloop. intros x. rewrite color_of_insert.
    case_decide; [by subst|apply Hg].
  - destruct Hloop as (G & B & A).
    assert (Hgr : grows color (<[cur:=Black]> c1)).
    { intros x. specialize (G x). rewrite color_of_insert in *.
      case_decide; [subst; by right|done]. }
    split_and!; [done|by rewrite color_of_insert, decide_True|].
    intros Hb x. rewrite color_of_insert. case_decide as E; [subst x; intros _|].
    + constructor. intros y Hy. apply A.
      * intros z. rewrite color_of_insert. case_decide; [done|apply Hb].
      * apply B. by apply elem_of_successors.
    + apply A. intros z. rewrite color_of_insert. case_decide; [done|apply Hb].
Qed.

(** Fuel: the number of white nodes of a closed set bounds the depth. *)
Definition whites (V : gset Id128) (color : gmap Id128 Color) : gset Id128 :=
  filter (λ x, color_of color x = White) V.

Lemma whites_grows V c1 c2 : grows c1 c2 → whites V c2 ⊆ whites V c1.
Proof.
  intros G x. unfold whites. rewrite !elem_of_filter.
  intros [Hw Hx]. split; [|done]. destruct (G x); naive_solver congruence.
Qed.

Lemma dfs_loop_total V fuel ds color :
  (∀ c d, size (whites V c) ≤ fuel → d ∈ V → color_of c d = White →
    is_Some (dfs fuel deps c d)) →
  (∀ d, d ∈ ds → d ∈ V) → size (whites V color) ≤ fuel →
  is_Some (dfs_loop (dfs fuel deps) ds color).
Proof.
  intros Hvis. revert color. induction ds as [|d ds IH]; intros color Hds Hf; simpl; [done|].
  destruct (color_of color d) eqn:Hd; [|done|apply IH; [set_solver|done]].
  destruct (Hvis color d Hf ltac:(set_solver) Hd) as [[b c] Hr]. rewrite Hr.
  destruct b; [done|]. apply IH; [set_solver|].
  pose proof (dfs_ok fuel _ _ _ _ Hr Hd) as (G & _).
  etrans; [by apply subseteq_size, whites_grows|done].
Qed.

Lemma dfs_total V fuel color cur :
  (∀ x y, x ∈ V → edge deps x y → y ∈ V) → size (whites V color) ≤ fuel →
  cur ∈ V → color_of color cur = White → is_Some (dfs fuel deps color cur).
Proof.
  intros HV. revert color cur. induction fuel as [|fuel IH]; intros color cur Hf Hc Hw.
  { assert (cur ∈ whites V color) by (by apply elem_of_filter).
    assert (whites V color = ∅) by (apply leibniz_equiv, size_empty_iff; lia). set_solver. }
  assert (is_Some (dfs_loop (dfs fuel deps) (successors deps cur) (<[cur:=Gray]> color)))
    as [[b c] Hr].
  { apply (dfs_loop_total V); [done| |].
    - intros d Hd. apply (HV cur); [done|]. by apply elem_of_successors.
    - apply Nat.lt_succ_r. eapply Nat.lt_le_trans; [|exact Hf]. apply subset_size.
      split; [|intros Hsub; specialize (Hsub cur); revert Hsub];
        unfold whites; [intros x|]; rewrite !elem_of_filter, ?color_of_insert.
      + case_decide; naive_solver.
      + rewrite decide_True by done. naive_solver. }
  simpl. rewrite Hr. by destruct b.
Qed.
End search.

Lemma elem_of_dag_nodes_range deps id x y : edge deps x y → y ∈ dag_nodes deps id.
Proof.
  unfold edge, at_default, dag_nodes. destruct (deps !! x) as [X|] eqn:HX; [|set_solver].
  simpl. intros Hy. apply elem_of_union_r. revert HX Hy.
  apply (map_fold_weak_ind (λ acc (m : gmap Id128 (gset Id128)),
    m !! x = Some X → y ∈ X → y ∈ acc)); [done|].
  intros i Z m acc _ IH [[-> <-]|[_ Hm]]%lookup_insert_Some Hy; set_solver.
Qed.

(** The search that [validate_dependencies] runs has enough fuel. *)
Lemma dfs_nodes_total deps id : is_Some (dfs (size (dag_nodes deps id)) deps ∅ id).
Proof.
  apply (dfs_total deps (dag_nodes deps id)).
  - intros x y _ Hxy. by eapply elem_of_dag_nodes_range.
  - apply subseteq_size. unfold whites. set_solver.
  - unfold dag_nodes. set_solver.
  - done.
Qed.

Lemma Acc_no_cycle {A} (R : relation A) x : Acc (λ y x, R x y) x → ∀ z, rtc R x z → ¬ tc R z z.
Proof.
  induction 1 as [x _ IH]. intros z Hxz Hzz.
  destruct Hxz as [x|x y z Hxy Hyz]; [|by eapply IH].
  inversion Hzz as [? ? Hxx|? y ? Hxy Hyx]; subst; [by eapply (IH x)|].
  apply (IH y Hxy x); [by apply tc_rtc|done].
Qed.

Lemma tc_rtc_split {A} (R : relation A) x z : tc R x z → ∃ y, R x y ∧ rtc R y z.
Proof. intros H. inversion H; subst; eauto using tc_rtc, rtc_refl. Qed.

Lemma rtc_tc_neq {A} (R : relation A) x z : rtc R x z → z ≠ x → tc R x z.
Proof. intros [|? y ? ? ?] ?; [done|]. by eapply tc_rtc_r; [apply tc_once|]. Qed.

Lemma validate_dependencies_spec g id :
  (validate_dependencies g id = err ETaskNotFound "task not found in graph" ∧
   g_tasks g !! id = None) ∨
  (validate_dependencies g id = Ok tt ∧ is_Some (g_tasks g !! id) ∧
   Acc (λ y x, edge (g_deps g) x y) id) ∨
  (validate_dependencies g id = err EDependencyCycle "dependency cycle detected" ∧
   is_Some (g_tasks g !! id) ∧ reaches_cycle (g_deps g) id).
Proof.
  unfold validate_dependencies. destruct (g_tasks g !! id) as [t|]; [right|by left].
  destruct (dfs_nodes_total (g_deps g) id) as [[b c] Hr]. rewrite Hr.
  pose proof (dfs_ok _ _ _ _ _ _ Hr eq_refl) as Hok. destruct b.
  - right. split_and!; [done|done|]. apply Hok. intros x. done.
  - left. destruct Hok as (_ & B & A). split_and!; [done|done|]. apply A; [|done]. intros x. done.
Qed.

(** ** The maps of the updates *)

Lemma at_default_insert m x X y :
  at_default (<[x := X]> m) y = if decide (x = y) then X else at_default m y.
Proof.
  unfold at_default. destruct (decide (x = y)) as [->|].
  - by rewrite lookup_insert_eq.
  - by rewrite lookup_insert_ne.
Qed.

Lemma at_default_delete m x y :
  at_default (delete x m) y = if decide (x = y) then ∅ else at_default m y.
Proof.
  unfold at_default. destruct (decide (x = y)) as [->|].
  - by rewrite lookup_delete_eq.
  - by rewrite lookup_delete_ne.
Qed.

Lemma link_deps_fst id ds m1 m2 X :
  m1 !! id = Some X → (link_deps id ds (m1, m2)).1 = <[id := list_to_set ds ∪ X]> m1.
Proof.
  unfold link_deps. revert m1 m2 X. induction ds as [|d ds IH]; intros m1 m2 X HX; simpl.
  - rewrite (left_id_L ∅ (∪)). by rewrite insert_id.
  - erewrite IH by apply lookup_insert_eq. unfold insert_at.
    rewrite insert_insert_eq. unfold at_default. rewrite HX. simpl. f_equal. set_solver.
Qed.

Lemma link_deps_snd id ds m1 m2 x :
  at_default (link_deps id ds (m1, m2)).2 x =
  if decide (x ∈ ds) then {[id]} ∪ at_default m2 x else at_default m2 x.
Proof.
  unfold link_deps. revert m1 m2. induction ds as [|d ds IH]; intros m1 m2; cbn [foldl].
  - destruct (decide (x ∈ [])); set_solver.
  - rewrite IH. unfold insert_at. rewrite at_default_insert.
    repeat case_decide; subst; set_solver.
Qed.

Lemma unlink_deps_lookup id ds m x :
  at_default (unlink_deps id ds m) x =
  if decide (x ∈ ds) then at_default m x ∖ {[id]} else at_default m x.
Proof.
  unfold unlink_deps. revert m. induction ds as [|d ds IH]; intros m; cbn [foldl].
  - destruct (decide (x ∈ [])); set_solver.
  - rewrite IH. unfold erase_at. rewrite at_default_insert.
    repeat case_decide; subst; set_solver.
Qed.

(** ** Invariant

    [graph_ok]: the maps agree on the tasks, the edges are the tasks' declared
    dependencies, every reverse edge has its edge, and no cycle exists.
    [reverse_complete]: every edge has its reverse edge. *)

Record graph_ok (g : TaskGraph) : Prop := {
  ok_states : dom (g_states g) = dom (g_tasks g);
  ok_deps_dom : dom (g_deps g) = dom (g_tasks g);
  ok_deps : ∀ id t, g_tasks g !! id = Some t →
    ct_id t = id ∧ at_default (g_deps g) id = list_to_set (ct_dependencies t);
  ok_reverse : ∀ x d, x ∈ at_default (g_dependents g) d → edge (g_deps g) x d;
  ok_acyclic : ∀ x, Acc (λ y x, edge (g_deps g) x y) x
}.

Definition reverse_complete (g : TaskGraph) : Prop :=
  ∀ x d, edge (g_deps g) x d → x ∈ at_default (g_dependents g) d.

(** Graphs the operations cannot tell apart: an empty set of dependents and a
    missing one are the same. *)
#[export] Instance graph_equiv : Equiv TaskGraph := λ g h,
  g_tasks g = g_tasks h ∧ g_states g = g_states h ∧ g_deps g = g_deps h ∧
  (∀ x, at_default (g_dependents g) x = at_default (g_dependents h) x).

#[export] Instance graph_equivalence : Equivalence (≡@{TaskGraph}).
Proof.
  split.
  - intros g. by split_and!.
  - intros g h (?&?&?&?). by split_and!.
  - intros g h k (?&?&?&E1) (?&?&?&E2). split_and!; try congruence.
Qed.

#[export] Instance graph_ok_proper : Proper ((≡) ==> iff) graph_ok.
Proof.
  assert (Himp : ∀ g h : TaskGraph, g ≡ h → graph_ok g → graph_ok h).
  { intros g h (E1&E2&E3&E4) [? ? ? Hr ?]. split; rewrite <-?E1, <-?E2, <-?E3; auto.
    intros x d. rewrite <-E4. apply Hr. }
  intros g h E. split; apply Himp; [done|by symmetry].
Qed.

#[export] Instance reverse_complete_proper : Proper ((≡) ==> iff) reverse_complete.
Proof.
  intros g h (E1&E2&E3&E4). unfold reverse_complete. rewrite E3.
  split; intros H x d ?; [rewrite <-E4|rewrite E4]; auto.
Qed.

Lemma edge_dom g x y : graph_ok g → edge (g_deps g) x y → x ∈ dom (g_tasks g).
Proof.
  intros Hg Hxy. rewrite <-(ok_deps_dom g Hg). apply elem_of_dom.
  unfold edge, at_default in Hxy. destruct (g_deps g !! x); set_solver.
Qed.

Lemma empty_graph_ok : graph_ok empty_graph ∧ reverse_complete empty_graph.
Proof.
  split; [split|]; done.
Qed.

(** ** Adding a task *)

(** The graph right after the insertions of [add_task], before validation. *)
Definition linked (g : TaskGraph) (task : ComputeTask) : TaskGraph :=
  let id := ct_id task in
  let m := link_deps id (ct_dependencies task)
             (<[id := at_default (g_deps g) id]> (g_deps g), g_dependents g) in
  mkTaskGraph (<[id := task]> (g_tasks g)) (<[id := TS_Submitted]> (g_states g)) m.1 m.2.

Section add.
Context (g : TaskGraph) (t : ComputeTask).
Context (Hg : graph_ok g) (Hnew : g_tasks g !! ct_id t = None).

Lemma deps_new : g_deps g !! ct_id t = None.
Proof using Hg Hnew.
  apply not_elem_of_dom. rewrite (ok_deps_dom g Hg). by apply not_elem_of_dom.
Qed.

Lemma linked_deps :
  g_deps (linked g t) = <[ct_id t := list_to_set (ct_dependencies t)]> (g_deps g).
Proof using Hg Hnew.
  unfold linked. simpl. erewrite link_deps_fst by apply lookup_insert_eq.
  rewrite insert_insert_eq. unfold at_default. rewrite deps_new. simpl.
  by rewrite (right_id_L ∅ (∪)).
Qed.

Lemma linked_edge x y :
  edge (g_deps (linked g t)) x y ↔
  (x = ct_id t ∧ y ∈ ct_dependencies t) ∨ (x ≠ ct_id t ∧ edge (g_deps g) x y).
Proof using Hg Hnew.
  rewrite linked_deps. unfold edge. rewrite at_default_insert.
  case_decide; subst; [rewrite elem_of_list_to_set|]; naive_solver.
Qed.

Lemma linked_edge_old x y : edge (g_deps g) x y → edge (g_deps (linked g t)) x y.
Proof using Hg Hnew.
  intros Hxy. apply linked_edge. right. split; [|done]. intros ->.
  apply edge_dom, elem_of_dom in Hxy; [|done]. rewrite Hnew in Hxy. by destruct Hxy.
Qed.

(** A linked graph is well formed as soon as the new task reaches no cycle. *)
Lemma linked_ok :
  Acc (λ y x, edge (g_deps (linked g t)) x y) (ct_id t) → graph_ok (linked g t).
Proof using Hg Hnew.
  intros Hacc. pose proof Hg as [Hs Hd Hdeps Hrev Hac]. split.
  - simpl. rewrite !dom_insert_L. by rewrite Hs.
  - rewrite linked_deps. simpl. rewrite !dom_insert_L. by rewrite Hd.
  - intros id t' Ht. simpl in Ht.
    apply lookup_insert_Some in Ht as [[<- <-]|[Hne Ht]]; split; try done.
    + rewrite linked_deps, at_default_insert. by rewrite decide_True.
    + by apply Hdeps.
    + rewrite linked_deps, at_default_insert, decide_False by done. by apply Hdeps.
  - intros x d Hx. simpl in Hx. rewrite link_deps_snd in Hx. case_decide.
    + apply elem_of_union in Hx as [->%elem_of_singleton|Hx].
      * apply linked_edge. by left.
      * apply linked_edge_old, Hrev, Hx.
    + apply linked_edge_old, Hrev, Hx.
  - intros x. induction (Hac x) as [x _ IH]. destruct (decide (x = ct_id t)) as [->|]; [done|].
    constructor. intros y [[? _]|[_ Hxy]]%linked_edge; [done|]. by apply IH.
Qed.

Lemma linked_reverse_complete : reverse_complete g → reverse_complete (linked g t).
Proof using Hg Hnew.
  intros Hrc x d. rewrite linked_edge. simpl. rewrite link_deps_snd.
  intros [[-> Hd]|[Hne Hxd]].
  - rewrite decide_True by done. set_solver.
  - case_decide; [apply elem_of_union_r|]; by apply Hrc.
Qed.

(** A walk of the linked graph is a walk of the old one up to its first visit
    of the new task. *)
Lemma linked_walk x z :
  rtc (edge (g_deps (linked g t))) x z →
  rtc (edge (g_deps g)) x z ∨
  (rtc (edge (g_deps g)) x (ct_id t) ∧ rtc (edge (g_deps (linked g t))) (ct_id t) z).
Proof using Hg Hnew.
  induction 1 as [x|x y z Hxy Hyz IH]; [by left|].
  pose proof Hxy as [[-> Hy]|[Hne Hold]]%linked_edge.
  - right. split; [done|]. by eapply rtc_l.
  - destruct IH as [IH|[IH1 IH2]]; [left; by eapply rtc_l|right; split; [by eapply rtc_l|done]].
Qed.

(** The linked graph has a cycle reachable from the new task iff some of its
    dependencies already reaches it. *)
Lemma linked_cycle :
  reaches_cycle (g_deps (linked g t)) (ct_id t) ↔
  ∃ d, d ∈ ct_dependencies t ∧ rtc (edge (g_deps g)) d (ct_id t).
Proof using Hg Hnew.
  split.
  - assert (Hfrom : ∀ z, rtc (edge (g_deps g)) z (ct_id t) →
      tc (edge (g_deps (linked g t))) (ct_id t) z →
      ∃ d, d ∈ ct_dependencies t ∧ rtc (edge (g_deps g)) d (ct_id t)).
    { intros z Hz (d & Hd & Hdz)%tc_rtc_split.
      apply linked_edge in Hd as [[_ Hd]|[? _]]; [|done]. exists d. split; [done|].
      destruct (linked_walk _ _ Hdz) as [?|[? _]]; [by etrans|done]. }
    intros (z & Hz & (y & Hzy & Hyz)%tc_rtc_split).
    destruct (decide (z = ct_id t)) as [->|Hne].
    { apply (Hfrom (ct_id t)); [done|]. by eapply tc_rtc_r; [apply tc_once|]. }
    apply linked_edge in Hzy as [[? _]|[_ Hold]]; [done|].
    destruct (linked_walk _ _ Hyz) as [Hcyc|[Hyid _]].
    + exfalso. eapply (Acc_no_cycle _ z); [apply (ok_acyclic g Hg)|done|].
      by eapply tc_rtc_r; [apply tc_once|].
    + apply (Hfrom z); [by eapply rtc_l|]. by apply rtc_tc_neq.
  - intros (d & Hd & Hpath). exists (ct_id t). split; [done|].
    apply tc_rtc_r with (y := d); [apply tc_once, linked_edge; by left|].
    revert Hpath. apply rtc_subrel. intros x y. apply linked_edge_old.
Qed.

(** The graph the rollback leaves: the old one without the reverse edges of
    the rejected task. *)
Lemma rollback_spec :
  mkTaskGraph (delete (ct_id t) (g_tasks (linked g t))) (delete (ct_id t) (g_states (linked g t)))
    (delete (ct_id t) (g_deps (linked g t)))
    (delete (ct_id t) (unlink_deps (ct_id t) (ct_dependencies t) (g_dependents (linked g t))))
  ≡ mkTaskGraph (g_tasks g) (g_states g) (g_deps g) (delete (ct_id t) (g_dependents g)).
Proof using Hg Hnew.
  assert (Hst : g_states g !! ct_id t = None).
  { apply not_elem_of_dom. rewrite (ok_states g Hg). by apply not_elem_of_dom. }
  split_and!; cbn [g_tasks g_states g_deps g_dependents].
  - unfold linked. simpl. by rewrite delete_insert_id.
  - unfold linked. simpl. by rewrite delete_insert_id.
  - rewrite linked_deps. rewrite delete_insert_id; [done|apply deps_new].
  - intros x. rewrite !at_default_delete. case_decide; [done|].
    rewrite unlink_deps_lookup. unfold linked. simpl. rewrite link_deps_snd.
    assert (ct_id t ∉ at_default (g_dependents g) x).
    { intros Hin%(ok_reverse g Hg). apply edge_dom, elem_of_dom in Hin; [|done].
      rewrite Hnew in Hin. by destruct Hin. }
    case_decide; set_solver.
Qed.
End add.

(** [add_task], branch by branch. *)
Lemma add_task_cases g t :
  graph_ok g →
  (is_Some (g_tasks g !! ct_id t) ∧
   add_task g t = (g, @err unit EAlreadyExists "task already present in graph")) ∨
  (g_tasks g !! ct_id t = None ∧ ct_id t ∈ ct_dependencies t ∧
   add_task g t = (g, err ESelfDependency "task depends on itself")) ∨
  (g_tasks g !! ct_id t = None ∧ (ct_id t ∉ ct_dependencies t) ∧
   Acc (λ y x, edge (g_deps (linked g t)) x y) (ct_id t) ∧
   add_task g t = (linked g t, Ok tt)) ∨
  (g_tasks g !! ct_id t = None ∧ (ct_id t ∉ ct_dependencies t) ∧
   (∃ d, d ∈ ct_dependencies t ∧ rtc (edge (g_deps g)) d (ct_id t)) ∧
   (add_task g t).2 = err EDependencyCycle "dependency cycle detected" ∧
   (add_task g t).1 ≡
     mkTaskGraph (g_tasks g) (g_states g) (g_deps g) (delete (ct_id t) (g_dependents g))).
Proof.
  intros Hg. unfold add_task, has_task. case_bool_decide as Hin; [by left|right].
  assert (Hnew : g_tasks g !! ct_id t = None) by (by apply eq_None_not_Some).
  case_bool_decide as Hself; [by left|right].
  pose proof (validate_dependencies_spec (linked g t) (ct_id t)) as Hv.
  pose proof (rollback_spec g t Hg Hnew) as Hroll.
  unfold linked in Hv, Hroll. unfold linked.
  destruct (link_deps _ _ _) as [m1 m2] eqn:Hl. simpl in *.
  destruct Hv as [[_ Hnone]|[(Hok & _ & Hacc)|(Hbad & _ & Hcyc)]].
  - by rewrite lookup_insert_eq in Hnone.
  - left. rewrite Hok. split_and!; try done.
  - right. rewrite Hbad. split_and!; try done.
    apply linked_cycle; [done..|]. unfold linked. by rewrite Hl.
Qed.

(** ** Removing a task *)

Lemma remove_task_cases g id :
  graph_ok g →
  (g_tasks g !! id = None ∧ remove_task g id = (g, err ETaskNotFound "task not found")) ∨
  (is_Some (g_tasks g !! id) ∧ at_default (g_dependents g) id ≠ ∅ ∧
   (remove_task g id).2 = err EInvalidState "task has dependents" ∧ (remove_task g id).1 ≡ g) ∨
  (is_Some (g_tasks g !! id) ∧ at_default (g_dependents g) id = ∅ ∧
   (remove_task g id).2 = Ok tt ∧
   g_tasks (remove_task g id).1 = delete id (g_tasks g) ∧
   g_states (remove_task g id).1 = delete id (g_states g) ∧
   g_deps (remove_task g id).1 = delete id (g_deps g) ∧
   (∀ x, at_default (g_dependents (remove_task g id).1) x = at_default (g_dependents g) x ∖ {[id]})).
Proof.
  intros Hg. unfold remove_task. destruct (g_tasks g !! id) as [t|] eqn:Ht; [right|by left].
  rewrite at_default_insert, decide_True by done.
  case_bool_decide as Hempty; [right|left]; simpl.
  - split_and!; try done. intros x. rewrite at_default_delete.
    case_decide as E; [subst x; rewrite Hempty; set_solver|].
    rewrite unlink_deps_lookup, at_default_insert, (decide_False (P := id = x)) by done.
    case_decide as Hx; [done|]. rewrite elem_of_set_in_order in Hx.
    assert (id ∉ at_default (g_dependents g) x) by (intros ?%(ok_reverse g Hg); done).
    set_solver.
  - split; [done|split; [done|split; [done|]]]. split_and!; [done..|]. intros x. simpl.
    rewrite at_default_insert. by case_decide; subst.
Qed.

Lemma remove_task_ok g id :
  graph_ok g → graph_ok (remove_task g id).1 ∧
  (reverse_complete g → reverse_complete (remove_task g id).1).
Proof.
  intros Hg. destruct (remove_task_cases g id Hg)
    as [[_ ->]|[(_ & _ & _ & ->)|(_ & Hempty & _ & E1 & E2 & E3 & E4)]]; [done|done|].
  destruct (remove_task g id) as [[ts ss ds rs] r]; simpl in *. subst ts ss ds.
  assert (Hsub : ∀ x y, edge (delete id (g_deps g)) x y ↔ x ≠ id ∧ edge (g_deps g) x y).
  { intros x y. unfold edge. rewrite at_default_delete. case_decide; set_solver. }
  pose proof Hg as [Hs Hd Hdeps Hrev Hac]. split; [split; simpl|].
  - by rewrite !dom_delete_L, Hs.
  - by rewrite !dom_delete_L, Hd.
  - intros i t [Hne Ht]%lookup_delete_Some. rewrite at_default_delete, decide_False by done.
    by apply Hdeps.
  - intros x d. rewrite E4. rewrite Hsub. intros [Hx ?]%elem_of_difference.
    split; [set_solver|by apply Hrev].
  - intros x. induction (Hac x) as [x _ IH]. constructor. intros y [_ Hy]%Hsub. by apply IH.
  - intros Hrc x d [Hx Hxd]%Hsub. simpl. rewrite E4. apply elem_of_difference.
    split; [by apply Hrc|set_solver].
Qed.

(** ** State updates *)

Lemma set_state_cases g id s :
  (set_state g id s).1 = g ∨
  (∃ cur, g_states g !! id = Some cur ∧ is_legal cur s = true ∧
     set_state g id s =
       (mkTaskGraph (g_tasks g) (<[id := s]> (g_states g)) (g_deps g) (g_dependents g), Ok tt)).
Proof.
  unfold set_state. destruct (g_states g !! id) as [cur|]; [|by left].
  destruct (is_legal cur s) eqn:Hl; simpl; [right; eauto|by left].
Qed.

Lemma update_states_ok g id s :
  is_Some (g_states g !! id) → graph_ok g →
  graph_ok (mkTaskGraph (g_tasks g) (<[id := s]> (g_states g)) (g_deps g) (g_dependents g)).
Proof.
  intros Hid [Hs Hd Hdeps Hrev Hac]. split; try done. simpl. rewrite dom_insert_L, <-Hs.
  apply elem_of_dom in Hid. set_solver.
Qed.

(** ** Every history of operations *)

Inductive GraphOp :=
| OpAdd (t : ComputeTask)
| OpRemove (id : Id128)
| OpSetState (id : Id128) (s : TaskState)
| OpRestore (id : Id128) (s : TaskState).

Definition graph_op (g : TaskGraph) (op : GraphOp) : TaskGraph * Result unit :=
  match op with
  | OpAdd t => add_task g t
  | OpRemove id => remove_task g id
  | OpSetState id s => set_state g id s
  | OpRestore id s => (restore_state g id s, Ok tt)
  end.

Definition run_ops (ops : list GraphOp) (g : TaskGraph) : TaskGraph :=
  foldl (λ g op, (graph_op g op).1) g ops.

Definition cycle_rejected (r : Result unit) : bool :=
  match r with Err e => bool_decide (err_code e = EDependencyCycle) | Ok _ => false end.

(** No operation of the history was an insertion refused because of a cycle. *)
Fixpoint no_cycle_rejected (ops : list GraphOp) (g : TaskGraph) : bool :=
  match ops with
  | [] => true
  | op :: ops => negb (cycle_rejected (graph_op g op).2) && no_cycle_rejected ops (graph_op g op).1
  end.

Lemma add_task_ok g t : graph_ok g → graph_ok (add_task g t).1.
Proof.
  intros Hg. destruct (add_task_cases g t Hg)
    as [[_ ->]|[(_ & _ & ->)|[(Hn & _ & Hacc & ->)|(Hn & _ & _ & _ & E)]]];
    [exact Hg|exact Hg|by apply linked_ok|].
  - rewrite E. pose proof Hg as [Hs Hd Hdeps Hrev Hac]. split; try done. simpl. intros x d.
    rewrite at_default_delete. case_decide; [set_solver|apply Hrev].
Qed.

Lemma add_task_reverse g t :
  graph_ok g → cycle_rejected (add_task g t).2 = false →
  reverse_complete g → reverse_complete (add_task g t).1.
Proof.
  intros Hg Hr Hrc. destruct (add_task_cases g t Hg)
    as [[_ ->]|[(_ & _ & ->)|[(Hn & _ & Hacc & ->)|(Hn & _ & _ & E & _)]]];
    [exact Hrc|exact Hrc|by apply linked_reverse_complete|].
  - by rewrite E in Hr.
Qed.

Lemma graph_op_ok g op : graph_ok g → graph_ok (graph_op g op).1.
Proof.
  intros Hg. destruct op as [t|id|id s|id s]; simpl.
  - by apply add_task_ok.
  - by apply remove_task_ok.
  - destruct (set_state_cases g id s) as [->|(cur & Hc & _ & ->)]; [done|].
    apply update_states_ok; [by eexists|done].
  - unfold restore_state. destruct (g_states g !! id) eqn:E; [|done].
    apply update_states_ok; [by eexists|done].
Qed.

Lemma graph_op_reverse g op :
  graph_ok g → cycle_rejected (graph_op g op).2 = false →
  reverse_complete g → reverse_complete (graph_op g op).1.
Proof.
  intros Hg Hr Hrc. destruct op as [t|id|id s|id s]; simpl in *.
  - by apply add_task_reverse.
  - by apply remove_task_ok.
  - by destruct (set_state_cases g id s) as [->|(cur & Hc & _ & ->)].
  - unfold restore_state. by destruct (g_states g !! id).
Qed.

Lemma graph_op_history ops : graph_ok (run_ops ops empty_graph).
Proof.
  assert (Hgen : ∀ ops g, graph_ok g → graph_ok (run_ops ops g)).
  { clear ops. induction ops as [|op ops IH]; intros g Hg; [done|]. by apply IH, graph_op_ok. }
  apply Hgen, empty_graph_ok.
Qed.

Lemma reverse_history ops :
  no_cycle_rejected ops empty_graph = true → reverse_complete (run_ops ops empty_graph).
Proof.
  assert (Hgen : ∀ ops g, no_cycle_rejected ops g = true → graph_ok g → reverse_complete g →
    reverse_complete (run_ops ops g)).
  { clear ops. induction ops as [|op ops IH]; intros g Hops Hg Hrc; [done|].
    simpl in Hops. apply andb_prop in Hops as [Hop Hops].
    apply IH; [done|by apply graph_op_ok|]. apply graph_op_reverse; [done| |done].
    by apply negb_true_iff. }
  intros. apply Hgen; [done|apply empty_graph_ok..].
Qed.

Lemma elem_of_dependents g x d : x ∈ dependents g d ↔ x ∈ at_default (g_dependents g) d.
Proof.
  unfold dependents, at_default. destruct (g_dependents g !! d); simpl;
    [apply elem_of_set_in_order|set_solver].
Qed.

Lemma elem_of_dependencies g x d : d ∈ dependencies g x ↔ edge (g_deps g) x d.
Proof.
  unfold dependencies, edge, at_default. destruct (g_deps g !! x); simpl;
    [apply elem_of_set_in_order|set_solver].
Qed.

(** ** Claims *)

(** C14: whatever the history of insertions, removals, lifecycle updates and
    recovery restores, failed ones included, the graph is well formed: the three
    maps hold the same tasks, the stored edges are exactly the declared
    dependencies, every reverse edge is an edge, and the graph is acyclic (so
    readiness propagation terminates). *)
Theorem graph_history_ok (ops : list GraphOp) : graph_ok (run_ops ops empty_graph).
Proof. apply graph_op_history. Qed.

(** C4: [add_task] accepts exactly the tasks that keep the graph acyclic: a new
    identifier, no self dependency, and no declared dependency from which the
    new task can already be reached (which forward references make possible). *)
Theorem add_task_accepts_iff (ops : list GraphOp) (t : ComputeTask) :
  let g := run_ops ops empty_graph in
  (add_task g t).2 = Ok tt ↔
  g_tasks g !! ct_id t = None ∧ (ct_id t ∉ ct_dependencies t) ∧
  ¬ ∃ d, d ∈ ct_dependencies t ∧ rtc (edge (g_deps g)) d (ct_id t).
Proof.
  intros g. pose proof (graph_op_history ops) as Hg. fold g in Hg.
  destruct (add_task_cases g t Hg)
    as [[[t' Ht'] ->]|[(Hn & Hself & ->)|[(Hn & Hself & Hacc & ->)|(Hn & Hself & Hpath & -> & _)]]].
  - split; [done|]. intros [Hn _]. congruence.
  - split; [done|]. naive_solver.
  - split; [|done]. intros _. split_and!; [done|done|].
    intros Hpath. apply linked_cycle in Hpath as (z & Hz & Hcyc); [|done..].
    by eapply Acc_no_cycle in Hcyc.
  - split; [done|]. naive_solver.
Qed.

(** As long as no insertion was rejected for a cycle, [dependents] is the
    exact inverse of the declared dependencies, so the propagation that follows a
    success reaches every dependent task. *)
Theorem dependents_exact (ops : list GraphOp) (x d : Id128) :
  no_cycle_rejected ops empty_graph = true →
  let g := run_ops ops empty_graph in
  x ∈ dependents g d ↔ ∃ t, g_tasks g !! x = Some t ∧ d ∈ ct_dependencies t.
Proof.
  intros Hops g. pose proof (graph_op_history ops) as Hg. fold g in Hg.
  pose proof (reverse_history ops Hops) as Hrc. fold g in Hrc.
  rewrite elem_of_dependents. split.
  - intros Hx%(ok_reverse g Hg).
    pose proof (edge_dom g x d Hg Hx) as [t Ht]%elem_of_dom. exists t. split; [done|].
    unfold edge in Hx. rewrite (proj2 (ok_deps g Hg x t Ht)) in Hx. set_solver.
  - intros (t & Ht & Hd). apply Hrc. unfold edge.
    rewrite (proj2 (ok_deps g Hg x t Ht)). set_solver.
Qed.

(** A cycle rejection is not a no-op.  Whenever [add_task] rejects a task
    for a cycle, some stored task depends on the rejected identifier and is
    listed among its dependents before the call, and the rollback's
    "dependents_.erase(task.id)" drops that list: if the identifier is added
    successfully later, its dependents are no longer reached from it. *)
Theorem cycle_rejection_drops_dependents (ops : list GraphOp) (t : ComputeTask) :
  no_cycle_rejected ops empty_graph = true →
  let g := run_ops ops empty_graph in
  cycle_rejected (add_task g t).2 = true →
  ∃ x, x ∈ dependents g (ct_id t) ∧ ct_id t ∈ dependencies (add_task g t).1 x ∧
       dependents (add_task g t).1 (ct_id t) = [].
Proof.
  intros Hops g Hrej. pose proof (graph_op_history ops) as Hg. fold g in Hg.
  pose proof (reverse_history ops Hops) as Hrc. fold g in Hrc.
  destruct (add_task_cases g t Hg)
    as [[_ E]|[(_ & _ & E)|[(_ & _ & _ & E)|(Hn & Hself & (d & Hd & Hpath) & _ & E)]]];
    [by rewrite E in Hrej..|].
  assert (Hlast : ∃ x, edge (g_deps g) x (ct_id t)).
  { destruct (rtc_inv_r _ _ Hpath) as [->|(x & _ & Hx)]; [done|by exists x]. }
  destruct Hlast as [x Hx]. exists x. destruct E as (_ & _ & Ed & Er). simpl in Ed, Er.
  split_and!.
  - apply elem_of_dependents. by apply Hrc.
  - apply elem_of_dependencies. by rewrite Ed.
  - apply elem_of_nil_inv. intros y Hy. apply elem_of_dependents in Hy.
    rewrite Er, at_default_delete, decide_True in Hy by done. revert Hy. apply not_elem_of_empty.
Qed.

Definition id_a : Id128 := mkId 0 1.
Definition id_b : Id128 := mkId 0 2.

Lemma dependents_exact_witness :
  let g := run_ops [OpAdd (default_task id_a [id_b]); OpAdd (default_task id_b [])] empty_graph in
  id_a ∈ dependents g id_b ↔ ∃ t, g_tasks g !! id_a = Some t ∧ id_b ∈ ct_dependencies t.
Proof.
  apply (dependents_exact [OpAdd (default_task id_a [id_b]); OpAdd (default_task id_b [])]).
  vm_compute. reflexivity.
Defined.

Lemma cycle_rejection_witness :
  let g := run_ops [OpAdd (default_task id_a [id_b])] empty_graph in
  let t := default_task id_b [id_a] in
  ∃ x, x ∈ dependents g id_b ∧ id_b ∈ dependencies (add_task g t).1 x ∧
       dependents (add_task g t).1 id_b = [].
Proof.
  apply (cycle_rejection_drops_dependents [OpAdd (default_task id_a [id_b])]
           (default_task id_b [id_a])); vm_compute; reflexivity.
Defined.
