(* ===== verification/TopoOrder.v ===== *)
(** * TopoOrder: [TaskGraph::topological_order] (task/dag.cpp)

    Kahn's algorithm on the graph of [Dag]: in-degrees, the lists of successors,
    and a [std::set] of ready tasks from which the least identifier is taken.
    The [while] loop has a fuel; [kahn_returns] shows that one more than the
    number of tasks is enough. *)

From S2P Require Import Prelude Status Ids Float64 Task Lifecycle Dag.

(** ** The algorithm *)

(** [out[d].push_back(id)] *)
Definition push_out (id : Id128) (out : gmap Id128 (list Id128)) (d : Id128) : gmap Id128 (list Id128) :=
  <[d := default [] (out !! d) ++ [id]]> out.

(** The first loop: [None] is the [std::out_of_range] of [deps_.at(id)]. *)
Fixpoint topo_tables (g : TaskGraph) (ids : list Id128) (indegree : gmap Id128 Z)
    (out : gmap Id128 (list Id128)) : option (gmap Id128 Z * gmap Id128 (list Id128)) :=
  match ids with
  | [] => Some (indegree, out)
  | id :: ids =>
      match g_deps g !! id with
      | None => None
      | Some X =>
          topo_tables g ids (<[id := i32 (Z.of_nat (size X))]> indegree)
            (foldl (push_out id) out (set_in_order X))
      end
  end.

Definition initial_ready (indegree : gmap Id128 Z) : gset Id128 :=
  foldl (λ ready p, if Z.eqb p.2 0 then {[p.1]} ∪ ready else ready) ∅ (in_order indegree).

(** [if (--indegree[nxt] == 0) ready.insert(nxt)] *)
Definition release (st : gmap Id128 Z * gset Id128) (nxt : Id128) : gmap Id128 Z * gset Id128 :=
  let deg := (default 0 (st.1 !! nxt) - 1)%Z in
  (<[nxt := deg]> st.1, if Z.eqb deg 0 then {[nxt]} ∪ st.2 else st.2).

Fixpoint kahn (fuel : nat) (out : gmap Id128 (list Id128)) (indegree : gmap Id128 Z)
    (ready : gset Id128) (order : list Id128) : option (list Id128) :=
  match set_in_order ready with
  | [] => Some order
  | cur :: _ =>
      match fuel with
      | O => None
      | S fuel =>
          let st := foldl release (indegree, ready ∖ {[cur]}) (default [] (out !! cur)) in
          kahn fuel out st.1 st.2 (order ++ [cur])
      end
  end.

(** The outer [option] is [None] when the code throws (or the fuel runs out). *)
Definition topological_order (g : TaskGraph) : option (Result (list Id128)) :=
  match topo_tables g (task_ids g) ∅ ∅ with
  | None => None
  | Some (indegree, out) =>
      match kahn (S (graph_size g)) out indegree (initial_ready indegree) [] with
      | None => None
      | Some order =>
          if Nat.eqb (length order) (graph_size g) then Some (Ok order)
          else Some (Err (mkError EDependencyCycle "cycle detected in task graph"))
      end
  end.

(** ** The specification: the least enabled task, one at a time *)

(** [x] may come after the tasks of [done]. *)
Definition enabled (g : TaskGraph) (done : list Id128) (x : Id128) : Prop :=
  x ∈ dom (g_tasks g) ∧ (x ∉ done) ∧ ∀ d, edge (g_deps g) x d → d ∈ done.

Definition least_first (g : TaskGraph) (order : list Id128) : Prop :=
  ∀ i x, order !! i = Some x →
    enabled g (take i order) x ∧ ∀ y, enabled g (take i order) y → key_le x y.

(** Every dependency of a task is a task of the graph (no forward reference). *)
Definition closed (g : TaskGraph) : Prop := ∀ x d, edge (g_deps g) x d → d ∈ dom (g_tasks g).

(** The numbers of dependencies are values of [int]. *)
Definition degrees_fit (g : TaskGraph) : Prop :=
  ∀ x, (Z.of_nat (size (at_default (g_deps g) x)) < 2147483648)%Z.

(** ** The tables *)

Lemma i32_small x : is_i32 x → i32 x = x.
Proof. intros Hx. rewrite <-(i32_u32 x Hx) at 2. unfold i32, u32. by rewrite Zmod_mod. Qed.

Section tables.
Context (g : TaskGraph) (Hg : graph_ok g) (Hfit : degrees_fit g).

Lemma deps_at id : id ∈ dom (g_tasks g) → g_deps g !! id = Some (at_default (g_deps g) id).
Proof.
  rewrite <-(ok_deps_dom g Hg). intros [X E]%elem_of_dom. unfold at_default. by rewrite E.
Qed.

Lemma push_outs id ds out d :
  NoDup ds →
  default [] (foldl (push_out id) out ds !! d) =
  default [] (out !! d) ++ (if decide (d ∈ ds) then [id] else []).
Proof.
  revert out. induction ds as [|e ds IH]; intros out Hnd; simpl.
  - by rewrite app_nil_r.
  - apply NoDup_cons in Hnd as [He Hnd]. rewrite IH by done. unfold push_out.
    destruct (decide (e = d)) as [->|Hne].
    + rewrite lookup_insert_eq. simpl. rewrite (decide_False (P := d ∈ ds)) by done.
      rewrite decide_True by set_solver. by rewrite app_nil_r.
    + rewrite lookup_insert_ne by done. f_equal.
      destruct (decide (d ∈ ds)); [rewrite decide_True by set_solver|rewrite decide_False by set_solver]; done.
Qed.

Lemma topo_tables_spec ids ind out :
  (∀ x, x ∈ ids → x ∈ dom (g_tasks g)) →
  ∃ ind' out', topo_tables g ids ind out = Some (ind', out') ∧
    (∀ x, ind' !! x = if decide (x ∈ ids)
       then Some (Z.of_nat (size (at_default (g_deps g) x))) else ind !! x) ∧
    (∀ d, default [] (out' !! d) =
       default [] (out !! d) ++ filter (λ x, d ∈ at_default (g_deps g) x) ids).
Proof.
  revert ind out. induction ids as [|id ids IH]; intros ind out Hids; simpl.
  { exists ind, out. split_and!; [done|done|]. intros d. by rewrite filter_nil, app_nil_r. }
  rewrite deps_at by set_solver.
  edestruct IH as (ind' & out' & -> & Hind & Hout); [set_solver|].
  exists ind', out'. split_and!; [done| |].
  - intros x. rewrite Hind. destruct (decide (x ∈ ids)) as [Hx|Hx].
    { by rewrite decide_True by set_solver. }
    destruct (decide (x = id)) as [->|Hne].
    + rewrite lookup_insert_eq, decide_True by set_solver. f_equal.
      specialize (Hfit id). apply i32_small. unfold is_i32. lia.
    + rewrite lookup_insert_ne by done. by rewrite decide_False by set_solver.
  - intros d. rewrite Hout, push_outs by apply NoDup_set_in_order.
    rewrite <-app_assoc. f_equal. rewrite filter_cons.
    destruct (decide (d ∈ at_default (g_deps g) id));
      [rewrite decide_True by (by apply elem_of_set_in_order)
      |rewrite decide_False by (by rewrite elem_of_set_in_order)]; done.
Qed.

End tables.

Lemma elem_of_initial_ready ind x : x ∈ initial_ready ind ↔ ind !! x = Some 0%Z.
Proof.
  unfold initial_ready.
  assert (Hgen : ∀ l (X : gset Id128), x ∈ foldl (λ ready p, if Z.eqb p.2 0 then {[p.1]} ∪ ready else ready) X l ↔
    x ∈ X ∨ (x, 0%Z) ∈ l).
  { induction l as [|[y n] l IH]; intros X; simpl; [set_solver|].
    rewrite IH. destruct (Z.eqb_spec n 0) as [->|]; set_solver. }
  rewrite Hgen, elem_of_in_order. set_solver.
Qed.

(** ** One task taken *)

Lemma release_all l ind ready :
  NoDup l →
  (∀ x, default 0%Z ((foldl release (ind, ready) l).1 !! x) =
        (default 0 (ind !! x) - if decide (x ∈ l) then 1 else 0)%Z) ∧
  (∀ x, x ∈ (foldl release (ind, ready) l).2 ↔
        x ∈ ready ∨ (x ∈ l ∧ default 0%Z (ind !! x) = 1%Z)).
Proof.
  revert ind ready. induction l as [|y l IH]; intros ind ready Hnd; simpl.
  { split; intros x; [|set_solver]. lia. }
  apply NoDup_cons in Hnd as [Hy Hnd].
  destruct (IH (<[y := (default 0 (ind !! y) - 1)%Z]> ind)
    (if Z.eqb (default 0 (ind !! y) - 1) 0 then {[y]} ∪ ready else ready)%Z Hnd) as [H1 H2].
  split; intros x.
  - unfold release at 2. simpl. rewrite H1. destruct (decide (x = y)) as [->|Hne].
    + rewrite lookup_insert_eq, (decide_False (P := y ∈ l)), decide_True by set_solver.
      simpl. lia.
    + rewrite lookup_insert_ne by done.
      destruct (decide (x ∈ l)); [rewrite decide_True by set_solver|rewrite decide_False by set_solver]; done.
  - unfold release at 2. simpl. rewrite H2. destruct (decide (x = y)) as [->|Hne].
    + rewrite lookup_insert_eq. simpl. destruct (Z.eqb_spec (default 0 (ind !! y) - 1)%Z 0);
        rewrite ?elem_of_cons, ?elem_of_union, ?elem_of_singleton; intuition (try lia; try done).
    + rewrite lookup_insert_ne by done.
      destruct (Z.eqb_spec (default 0 (ind !! y) - 1)%Z 0); set_solver.
Qed.

Lemma set_in_order_head (X : gset Id128) x l :
  set_in_order X = x :: l → x ∈ X ∧ ∀ y, y ∈ X → key_le x y.
Proof.
  intros E. pose proof (set_in_order_sorted X) as Hs. rewrite E in Hs.
  apply StronglySorted_inv in Hs as [_ Hs]. rewrite Forall_forall in Hs.
  split; [apply elem_of_set_in_order; rewrite E; set_solver|].
  intros y Hy. apply elem_of_set_in_order in Hy. rewrite E in Hy.
  apply elem_of_cons in Hy as [->|Hy]; [reflexivity|by apply Hs].
Qed.

(** ** The loop *)

Lemma take_elem {A} n (l : list A) x : x ∈ take n l → x ∈ l.
Proof. intros Hx. rewrite <-(take_drop n l). apply elem_of_app. by left. Qed.

Section loop.
Context (g : TaskGraph).

(** Between iterations: the order so far, the degrees that remain, the tasks
    that may come next. *)
Record kahn_inv (ind : gmap Id128 Z) (ready : gset Id128) (order : list Id128) : Prop := {
  k_least : least_first g order;
  k_degree : ∀ x, x ∈ dom (g_tasks g) →
    default 0%Z (ind !! x) = Z.of_nat (size (at_default (g_deps g) x ∖ list_to_set order));
  k_ready : ∀ x, x ∈ ready ↔ enabled g order x
}.

Lemma least_first_NoDup order : least_first g order → NoDup order.
Proof.
  intros Hl. apply NoDup_alt. intros i j x Hi Hj.
  destruct (Nat.lt_trichotomy i j) as [Hij|[->|Hij]]; [exfalso|done|exfalso].
  - destruct (Hl j x Hj) as [(_ & Hn & _) _]. apply Hn.
    apply list_elem_of_lookup. exists i. by rewrite lookup_take_lt.
  - destruct (Hl i x Hi) as [(_ & Hn & _) _]. apply Hn.
    apply list_elem_of_lookup. exists j. by rewrite lookup_take_lt.
Qed.

Lemma least_first_dom order x : least_first g order → x ∈ order → x ∈ dom (g_tasks g).
Proof. intros Hl [i Hi]%list_elem_of_lookup. by destruct (Hl i x Hi) as [(? & _) _]. Qed.

Lemma least_first_length order : least_first g order → length order ≤ graph_size g.
Proof.
  intros Hl. unfold graph_size. rewrite <-size_dom.
  rewrite <-(size_list_to_set (C := gset Id128) order) by by apply least_first_NoDup.
  apply subseteq_size. intros x Hx%elem_of_list_to_set. by apply (least_first_dom order).
Qed.

Lemma least_first_snoc order x :
  least_first g order → enabled g order x → (∀ y, enabled g order y → key_le x y) →
  least_first g (order ++ [x]).
Proof.
  intros Hl Hx Hmin i y Hi. apply lookup_app_Some in Hi as [Hi|[Hle Hi]].
  - rewrite take_app_le by (apply lookup_lt_Some in Hi; lia). by apply Hl.
  - apply list_lookup_singleton_Some in Hi as [Hi <-].
    rewrite take_app_length' by lia. done.
Qed.

(** The degree counts the dependencies that are not in the order yet. *)
Lemma degree_step x cur (order : list Id128) :
  cur ∉ order →
  Z.of_nat (size (at_default (g_deps g) x ∖ list_to_set (order ++ [cur]))) =
  (Z.of_nat (size (at_default (g_deps g) x ∖ list_to_set order)) -
   if decide (cur ∈ at_default (g_deps g) x) then 1 else 0)%Z.
Proof.
  intros Hcur. set (X := at_default (g_deps g) x).
  assert (E : X ∖ list_to_set (order ++ [cur]) = X ∖ list_to_set order ∖ {[cur]}) by set_solver.
  rewrite E. destruct (decide (cur ∈ X)).
  - rewrite size_difference by set_solver. rewrite size_singleton.
    assert (size (X ∖ list_to_set order) ≠ 0); [|lia].
    intros Hz%size_empty_inv. set_solver.
  - rewrite difference_disjoint_L by set_solver. lia.
Qed.

Lemma degree_zero x order :
  Z.of_nat (size (at_default (g_deps g) x ∖ list_to_set order)) = 0%Z ↔
  ∀ d, edge (g_deps g) x d → d ∈ order.
Proof.
  unfold edge. split.
  - intros Hz d Hd. assert (size (at_default (g_deps g) x ∖ list_to_set order) = 0) as E%size_empty_inv by lia.
    destruct (decide (d ∈ order)); [done|set_solver].
  - intros Hall. assert (at_default (g_deps g) x ∖ list_to_set order ≡ ∅) as -> by set_solver.
    by rewrite size_empty.
Qed.

Lemma elem_of_task_ids x : x ∈ task_ids g ↔ x ∈ dom (g_tasks g).
Proof.
  unfold task_ids. rewrite elem_of_dom. split.
  - intros ([y t] & -> & Hy)%list_elem_of_fmap. exists t. by apply elem_of_in_order.
  - intros [t Ht]. apply list_elem_of_fmap. exists (x, t). split; [done|by apply elem_of_in_order].
Qed.

Lemma task_ids_NoDup : NoDup (task_ids g).
Proof. apply NoDup_in_order_keys. Qed.

Context (out : gmap Id128 (list Id128)).
Context (Hout : ∀ d, default [] (out !! d) =
  filter (λ x, d ∈ at_default (g_deps g) x) (task_ids g)).

Lemma elem_of_out cur x :
  x ∈ default [] (out !! cur) ↔ x ∈ dom (g_tasks g) ∧ edge (g_deps g) x cur.
Proof. rewrite Hout, list_elem_of_filter, elem_of_task_ids. unfold edge. tauto. Qed.

Lemma out_NoDup cur : NoDup (default [] (out !! cur)).
Proof. rewrite Hout. apply NoDup_filter, task_ids_NoDup. Qed.

Lemma kahn_step ind ready order cur rest :
  kahn_inv ind ready order → set_in_order ready = cur :: rest →
  let st := foldl release (ind, ready ∖ {[cur]}) (default [] (out !! cur)) in
  kahn_inv st.1 st.2 (order ++ [cur]).
Proof.
  intros [Hl Hdeg Hready] Hhd st. apply set_in_order_head in Hhd as [Hcur Hmin].
  pose proof (proj1 (Hready cur) Hcur) as Hen. destruct Hen as (Hdom & Hfresh & Hdeps).
  destruct (release_all (default [] (out !! cur)) ind (ready ∖ {[cur]}) (out_NoDup cur))
    as [Hind Hrel]. fold st in Hind, Hrel.
  assert (Hdeg' : ∀ x, x ∈ dom (g_tasks g) → default 0%Z (st.1 !! x) =
    Z.of_nat (size (at_default (g_deps g) x ∖ list_to_set (order ++ [cur])))).
  { intros x Hx. rewrite Hind, Hdeg, degree_step by done.
    destruct (decide (x ∈ _)) as [Hin|Hin]; rewrite elem_of_out in Hin; unfold edge in Hin;
      [rewrite decide_True by tauto|rewrite decide_False by tauto]; done. }
  split; [|exact Hdeg'|].
  - apply least_first_snoc; [done|by apply Hready|]. intros y Hy. by apply Hmin, Hready.
  - intros x. rewrite Hrel, elem_of_difference, elem_of_singleton, elem_of_out, Hready. split.
    + intros [[(Hx & Hn & Hd) Hne]|[[Hx He] H1]].
      * split_and!; [done|set_solver|]. intros d Hd'. apply elem_of_app. left. by apply Hd.
      * assert (Hnx : x ∉ order).
        { intros [i Hi]%list_elem_of_lookup. destruct (Hl i x Hi) as [(_ & _ & Hall) _].
          apply Hfresh. apply (take_elem i). by apply Hall. }
        assert (x ≠ cur).
        { intros ->. by apply Hfresh, Hdeps. }
        split_and!; [done|set_solver|]. apply degree_zero.
        rewrite degree_step, <-Hdeg, H1, decide_True by done. done.
    + intros (Hx & Hn & Hd). destruct (decide (cur ∈ at_default (g_deps g) x)) as [He|He].
      * right. split; [done|]. apply degree_zero in Hd.
        rewrite degree_step, <-Hdeg, decide_True in Hd by done. lia.
      * left. split; [|set_solver]. split_and!; [done|set_solver|].
        intros d Hd'. specialize (Hd d Hd'). apply elem_of_app in Hd as [?|Hd]; [done|].
        apply list_elem_of_singleton in Hd as ->. done.
Qed.

(** The loop ends with an order to which nothing can be added. *)
Lemma kahn_returns fuel ind ready order :
  kahn_inv ind ready order → graph_size g < fuel + length order →
  ∃ order', kahn fuel out ind ready order = Some order' ∧ least_first g order' ∧
    ∀ x, ¬ enabled g order' x.
Proof.
  revert ind ready order. induction fuel as [|fuel IH]; intros ind ready order Hinv Hf.
  { pose proof (least_first_length order (k_least _ _ _ Hinv)). lia. }
  simpl. destruct (set_in_order ready) as [|cur rest] eqn:E.
  - exists order. split_and!; [done|apply Hinv|]. intros x Hx%(k_ready _ _ _ Hinv).
    apply elem_of_set_in_order in Hx. rewrite E in Hx. set_solver.
  - apply IH; [by eapply kahn_step|]. rewrite length_app. simpl. lia.
Qed.

End loop.

(** An order that cannot be extended holds every task, unless a dependency is
    no task of the graph. *)
Lemma stuck_complete g order :
  graph_ok g → closed g → least_first g order → (∀ x, ¬ enabled g order x) →
  ∀ x, x ∈ dom (g_tasks g) → x ∈ order.
Proof.
  intros Hg Hc Hl Hstuck x. induction (ok_acyclic g Hg x) as [x _ IH]. intros Hx.
  destruct (decide (x ∈ order)) as [|Hn]; [done|]. exfalso. apply (Hstuck x).
  split_and!; [done|done|]. intros d Hd. apply IH; [done|]. by eapply Hc.
Qed.

Lemma full_length g order :
  least_first g order → length order = graph_size g ↔ order ≡ₚ task_ids g.
Proof.
  intros Hl. assert (Hlen : length (task_ids g) = graph_size g).
  { unfold task_ids. by rewrite length_fmap, length_in_order. }
  split; [|intros ->; done]. intros E. apply submseteq_length_Permutation; [|lia].
  apply NoDup_submseteq; [by apply (least_first_NoDup g)|]. intros x Hx.
  apply elem_of_task_ids. by apply (least_first_dom g order).
Qed.

Lemma open_incomplete g order x d :
  graph_ok g → least_first g order → edge (g_deps g) x d → d ∉ dom (g_tasks g) → length order ≠ graph_size g.
Proof.
  intros Hg Hl He Hd E. apply full_length in E; [|done].
  assert (Hx : x ∈ order).
  { rewrite E, elem_of_task_ids. by eapply edge_dom. }
  apply list_elem_of_lookup in Hx as [i Hi]. destruct (Hl i x Hi) as [(_ & _ & Hall) _].
  apply Hd, (least_first_dom g order); [done|]. apply (take_elem i). by apply Hall.
Qed.

Lemma topological_order_cases g :
  graph_ok g → degrees_fit g →
  ∃ order, least_first g order ∧ (∀ x, ¬ enabled g order x) ∧
    topological_order g = Some
      (if Nat.eqb (length order) (graph_size g) then Ok order
       else Err (mkError EDependencyCycle "cycle detected in task graph")).
Proof.
  intros Hg Hfit. unfold topological_order.
  destruct (topo_tables_spec g Hg Hfit (task_ids g) ∅ ∅) as (ind & out & -> & Hind & Hout).
  { intros x. apply elem_of_task_ids. }
  assert (Hout' : ∀ d, default [] (out !! d) =
    filter (λ x, d ∈ at_default (g_deps g) x) (task_ids g)).
  { intros d. rewrite Hout. by rewrite lookup_empty. }
  destruct (kahn_returns g out Hout' (S (graph_size g)) ind (initial_ready ind) [])
    as (order & -> & Hl & Hstuck); [|simpl; lia|].
  - split.
    + intros i x Hi. by rewrite lookup_nil in Hi.
    + intros x Hx. rewrite Hind, decide_True by (by apply elem_of_task_ids). simpl.
      by rewrite difference_empty_L.
    + intros x. rewrite elem_of_initial_ready, Hind. unfold enabled.
      rewrite <-elem_of_task_ids. destruct (decide (x ∈ task_ids g)) as [Hx|Hx];
        [|split; [by rewrite lookup_empty|tauto]].
      pose proof (degree_zero g x []) as Hz. simpl in Hz. rewrite difference_empty_L in Hz.
      split; [intros [= E]; split_and!; [done|set_solver|by apply Hz]|].
      intros (_ & _ & Hd). f_equal. by apply Hz.
  - exists order. split_and!; [done|done|]. by destruct (Nat.eqb _ _).
Qed.

(** The specification determines the order. *)
Lemma least_first_unique g o1 o2 :
  least_first g o1 → least_first g o2 → length o1 = length o2 → o1 = o2.
Proof.
  intros H1 H2 Hlen.
  assert (Htake : ∀ n, take n o1 = take n o2).
  { induction n as [|n IH]; [done|].
    destruct (o1 !! n) as [x|] eqn:E1.
    - destruct (lookup_lt_is_Some_2 o2 n) as [y E2].
      { rewrite <-Hlen. by eapply lookup_lt_Some. }
      rewrite (take_S_r _ _ _ E1), (take_S_r _ _ _ E2), IH.
      destruct (H1 n x E1) as [Hx Hxm], (H2 n y E2) as [Hy Hym]. rewrite IH in Hx, Hxm.
      do 2 f_equal. apply (anti_symm key_le); auto.
    - apply lookup_ge_None in E1 as Hn1.
      rewrite !take_ge in IH by lia. rewrite !take_ge by lia. done. }
  specialize (Htake (length o1)). by rewrite !take_ge in Htake by lia.
Qed.

(** ** Claims *)

(** C32: on the graph of any history, [topological_order] always returns.  When
    every dependency is a task of the graph it returns all tasks, each once,
    every one after its dependencies, and at each place the least identifier
    among the tasks that may come there (so the result is unique).  When a task
    depends on one that is not in the graph (a forward reference, which
    [add_task] accepts) it reports a dependency cycle, though there is none. *)
Theorem topological_order_correct (ops : list GraphOp) :
  let g := run_ops ops empty_graph in
  degrees_fit g →
  (closed g → ∃ order, topological_order g = Some (Ok order) ∧
     order ≡ₚ task_ids g ∧ least_first g order) ∧
  ((∃ x d, edge (g_deps g) x d ∧ d ∉ dom (g_tasks g)) →
     topological_order g = Some (Err (mkError EDependencyCycle "cycle detected in task graph")) ∧
     ∀ x, ¬ tc (edge (g_deps g)) x x).
Proof.
  intros g Hfit. pose proof (graph_op_history ops) as Hg. fold g in Hg.
  destruct (topological_order_cases g Hg Hfit) as (order & Hl & Hstuck & ->). split.
  - intros Hc.
    assert (Hp : order ≡ₚ task_ids g).
    { apply NoDup_Permutation; [by apply (least_first_NoDup g)|apply task_ids_NoDup|].
      intros x. rewrite elem_of_task_ids. split; [by apply least_first_dom|].
      by apply stuck_complete. }
    exists order. apply (full_length g order Hl) in Hp as E. rewrite E, Nat.eqb_refl. done.
  - intros (x & d & He & Hd). split.
    + pose proof (open_incomplete g order x d Hg Hl He Hd) as Hne%Nat.eqb_neq. by rewrite Hne.
    + intros y. by apply (Acc_no_cycle _ y (ok_acyclic g Hg y) y).
Qed.

(** A diamond added out of order, and one dependency that never comes. *)
Definition diamond : list GraphOp :=
  [OpAdd (default_task (mkId 0 1) [mkId 0 2; mkId 0 3]);
   OpAdd (default_task (mkId 0 2) [mkId 0 4]);
   OpAdd (default_task (mkId 0 3) [mkId 0 4]); OpAdd (default_task (mkId 0 4) [])].

Lemma small_degrees g :
  forallb (λ p, bool_decide (Z.of_nat (size p.2) < 2147483648)%Z) (map_to_list (g_deps g)) = true →
  degrees_fit g.
Proof.
  intros Hall x. unfold at_default. destruct (g_deps g !! x) as [X|] eqn:E; [simpl|done].
  rewrite forallb_forall in Hall. specialize (Hall (x, X)). simpl in Hall.
  apply bool_decide_eq_true in Hall; [done|]. apply list_elem_of_In. by apply elem_of_map_to_list.
Qed.

Lemma topological_order_witness :
  (∃ order, topological_order (run_ops diamond empty_graph) = Some (Ok order)) ∧
  topological_order (run_ops (take 3 diamond) empty_graph) =
    Some (Err (mkError EDependencyCycle "cycle detected in task graph")).
Proof.
  split.
  - destruct (topological_order_correct diamond) as [Hc _];
      [apply small_degrees; vm_compute; reflexivity|].
    destruct Hc as (order & E & _); [|by exists order].
    intros x d He. apply (elem_of_dag_nodes_range _ (mkId 0 1)) in He.
    revert d He. assert (E : dag_nodes (g_deps (run_ops diamond empty_graph)) (mkId 0 1) =
      dom (g_tasks (run_ops diamond empty_graph))) by (vm_compute; reflexivity).
    rewrite E. done.
  - destruct (topological_order_correct (take 3 diamond)) as [_ Ho];
      [apply small_degrees; vm_compute; reflexivity|].
    apply Ho. exists (mkId 0 2), (mkId 0 4). split.
    + unfold edge. apply (bool_decide_eq_true_1 _). vm_compute. reflexivity.
    + apply (bool_decide_eq_true_1 _). vm_compute. reflexivity.
Defined.

Example diamond_order :
  topological_order (run_ops diamond empty_graph) =
  Some (Ok [mkId 0 4; mkId 0 2; mkId 0 3; mkId 0 1]).
Proof. vm_compute. reflexivity. Qed.
