(* ===== verification/Reservation.v ===== *)
(** * Reservation: node capacity and the reservation registry
    (resource/capacity.h, capacity.cpp, resource/reservation.h, reservation.cpp)

    The registry is the map [reservations_].  The usage counters are the
    source's loops, with the wrap-around of their accumulators; [active_sum] is
    the exact sum they are compared with.  [Id128::random()] and [now_millis()]
    are arguments of [try_reserve]. *)

From S2P Require Import Prelude Status Ids Float64 Task.

Local Open Scope Z_scope.

(** ** Capacity *)

(** Health state of a registered node. *)
Inductive NodeHealth : Set :=
| NH_Online
| NH_Suspect
| NH_Draining
| NH_Offline
| NH_raw (v : Z).

#[export] Instance NodeHealth_eq_dec : EqDecision NodeHealth.
Proof. solve_decision. Defined.

Definition NodeHealth_to_u8 (x : NodeHealth) : Z :=
  match x with
  | NH_Online => 0
  | NH_Suspect => 1
  | NH_Draining => 2
  | NH_Offline => 3
  | NH_raw v => v
  end.

Definition NodeHealth_of_u8 (v : Z) : NodeHealth :=
  match v with
  | 0 => NH_Online
  | 1 => NH_Suspect
  | 2 => NH_Draining
  | 3 => NH_Offline
  | _ => NH_raw v
  end.

#[export] Program Instance NodeHealth_enum : CEnum NodeHealth :=
  {| enum_to := NodeHealth_to_u8; enum_of := NodeHealth_of_u8 |}.
Next Obligation. intros v Hv. unfold NodeHealth_of_u8. repeat case_match; reflexivity. Qed.

Definition node_health_name (h : NodeHealth) : string :=
  match h with
  | NH_Online => "online"
  | NH_Suspect => "suspect"
  | NH_Draining => "draining"
  | NH_Offline => "offline"
  | NH_raw _ => "unknown"
  end.

Definition parse_node_health : string → option NodeHealth :=
  parse_enum node_health_name (NodeHealth_to_u8 NH_Offline).

Record ExecutorCapability := mkExecutorCapability {
  xc_type : ExecutorType;
  xc_name : string;
  xc_slots : Z;                 (* int32_t *)
  xc_major : Z;                 (* int32_t *)
  xc_minor : Z;                 (* int32_t *)
  xc_vendor : string;
  xc_architecture : string;
  xc_device_name : string;
  xc_device_memory_bytes : Z;   (* uint64_t *)
  xc_device_ids : list Z;       (* int32_t *)
  xc_relative_speed : Z;        (* double *)
  xc_healthy : bool;
  xc_supports_preemption : bool
}.

Record NodeCapacity := mkNodeCapacity {
  nc_cpu_worker_slots : Z;               (* int32_t *)
  nc_host_memory_scheduling_bytes : Z;   (* uint64_t *)
  nc_executors : list ExecutorCapability;
  nc_tags : gmap string string;
  nc_address : string;
  nc_label : string
}.

Record NodeRecord := mkNodeRecord {
  nr_id : Id128;
  nr_session : Id128;
  nr_epoch : Z;               (* uint64_t *)
  nr_session_epoch : Z;       (* uint64_t *)
  nr_health : NodeHealth;
  nr_capacity : NodeCapacity;
  nr_last_heartbeat_ms : Z;   (* int64_t *)
  nr_register_ms : Z;         (* int64_t *)
  nr_connected : bool
}.

(** ** Reservations *)

Record Reservation := mkReservation {
  rv_id : Id128;
  rv_task_id : Id128;
  rv_node_id : Id128;
  rv_session_id : Id128;
  rv_coordinator_epoch : Z;   (* uint64_t *)
  rv_session_epoch : Z;       (* uint64_t *)
  rv_executor : ExecutorType;
  rv_slots : Z;               (* uint32_t *)
  rv_scratch_bytes : Z;       (* uint64_t *)
  rv_created_at_ms : Z;       (* int64_t *)
  rv_released : bool
}.

Definition mark_released (r : Reservation) : Reservation :=
  mkReservation (rv_id r) (rv_task_id r) (rv_node_id r) (rv_session_id r)
    (rv_coordinator_epoch r) (rv_session_epoch r) (rv_executor r) (rv_slots r)
    (rv_scratch_bytes r) (rv_created_at_ms r) true.

Record ReservationResult := mkReservationResult {
  rr_reservation : option Reservation;
  rr_reasons : list string
}.

Abbreviation Registry := (gmap Id128 Reservation).

Definition find_executor (node : NodeRecord) (type : ExecutorType) : option ExecutorCapability :=
  snd <$> list_find (λ e, xc_type e = type) (nc_executors (nr_capacity node)).

Definition holds_slots (node_id : Id128) (executor : ExecutorType) (r : Reservation) : bool :=
  bool_decide (rv_node_id r = node_id) && bool_decide (rv_executor r = executor)
  && negb (rv_released r).
Definition active_on (node_id : Id128) (r : Reservation) : bool :=
  bool_decide (rv_node_id r = node_id) && negb (rv_released r).

(** [for (auto& [id, r] : reservations_) if (p(r)) acc += amount(r);] *)
Definition usage_loop (wrap : Z → Z) (p : Reservation → bool) (amount : Reservation → Z)
    (reg : Registry) : Z :=
  foldl (λ acc kv, if p kv.2 then wrap (acc + amount kv.2) else acc) 0 (in_order reg).

Definition used_executor_slots (reg : Registry) (node_id : Id128) (executor : ExecutorType) : Z :=
  usage_loop u32 (holds_slots node_id executor) rv_slots reg.
Definition used_cpu_slots (reg : Registry) (node_id : Id128) : Z :=
  usage_loop u32 (active_on node_id) rv_slots reg.
Definition used_scratch (reg : Registry) (node_id : Id128) : Z :=
  usage_loop u64 (active_on node_id) rv_scratch_bytes reg.

Definition refused (reason : string) (reg : Registry) : Registry * ReservationResult :=
  (reg, mkReservationResult None [reason]).

Definition try_reserve (reg : Registry) (node : NodeRecord) (epoch : Z) (task_id : Id128)
    (executor : ExecutorType) (slots scratch_bytes : Z) (random_id : Id128) (now : Z)
    : Registry * ReservationResult :=
  if bool_decide (nr_health node = NH_Offline) then refused "node offline" reg
  else if bool_decide (nr_health node = NH_Draining) then refused "node draining" reg
  else
    match find_executor node executor with
    | None => refused "requested executor not present on node" reg
    | Some cap =>
        if negb (xc_healthy cap) then refused "executor unhealthy" reg
        else if slots =? 0 then refused "zero slots requested" reg
        else
          let used := used_executor_slots reg (nr_id node) executor in
          if u32 (xc_slots cap) <? u32 (used + slots) then
            refused ("insufficient executor slots (" +:+ to_string slots +:+ " needed, "
                     +:+ to_string (u32 (xc_slots cap - used)) +:+ " free)") reg
          else if bool_decide (executor = EX_Cpu)
                  && (u32 (nc_cpu_worker_slots (nr_capacity node))
                      <? u32 (used_cpu_slots reg (nr_id node) + slots)) then
            refused "insufficient CPU worker slots" reg
          else
            let used_scr := used_scratch reg (nr_id node) in
            if (nc_host_memory_scheduling_bytes (nr_capacity node)
                <? u64 (used_scr + scratch_bytes)) && (0 <? scratch_bytes) then
              refused "scratch budget exceeded" reg
            else
              let r := mkReservation random_id task_id (nr_id node) (nr_session node) epoch
                         (nr_session_epoch node) executor slots scratch_bytes now false in
              (<[random_id := r]> reg, mkReservationResult (Some r) [])
    end.

Definition release (reg : Registry) (id : Id128) : Registry * Result unit :=
  match reg !! id with
  | None => (reg, err EReservationNotFound "reservation not found")
  | Some r =>
      if rv_released r then (reg, err EReservationNotFound "reservation already released")
      else (<[id := mark_released r]> reg, Ok tt)
  end.

Definition release_where (p : Reservation → bool) (reg : Registry) : Registry :=
  (λ r, if p r then mark_released r else r) <$> reg.
Definition count_where (p : Reservation → bool) (reg : Registry) : nat :=
  length (filter (λ kv, p kv.2 = true) (in_order reg)).

Definition release_all_for_node (reg : Registry) (node_id : Id128) : Registry :=
  release_where (λ r, bool_decide (rv_node_id r = node_id)) reg.

Definition stale_epoch (current : Z) (r : Reservation) : bool :=
  negb (rv_coordinator_epoch r =? current) && negb (rv_released r).
Definition invalidate_before (reg : Registry) (current_epoch : Z) : Registry * nat :=
  (release_where (stale_epoch current_epoch) reg, count_where (stale_epoch current_epoch) reg).

Definition of_session (node_id session : Id128) (r : Reservation) : bool :=
  bool_decide (rv_node_id r = node_id) && bool_decide (rv_session_id r = session)
  && negb (rv_released r).
Definition invalidate_session (reg : Registry) (node_id session : Id128) : Registry * nat :=
  (release_where (of_session node_id session) reg, count_where (of_session node_id session) reg).

Definition find_reservation (reg : Registry) (id : Id128) : option Reservation := reg !! id.

Definition active_for_node (reg : Registry) (node_id : Id128) : list Reservation :=
  filter (λ r, active_on node_id r = true) (in_order reg).*2.
Definition used_slots (reg : Registry) (node_id : Id128) (executor : ExecutorType) : Z :=
  used_executor_slots reg node_id executor.
Definition active_count (reg : Registry) : nat :=
  count_where (λ r, negb (rv_released r)) reg.
Definition all_active (reg : Registry) : list Reservation :=
  filter (λ r, negb (rv_released r) = true) (in_order reg).*2.

(** ** Exact usage *)

Definition active_sum (p : Reservation → bool) (amount : Reservation → Z) (reg : Registry) : Z :=
  sumZ (λ kv, if p kv.2 then amount kv.2 else 0) (map_to_list reg).

Section sums.
Context (p : Reservation → bool) (amount : Reservation → Z).

Lemma active_sum_insert reg k r :
  active_sum p amount (<[k := r]> reg) =
  (if p r then amount r else 0) + active_sum p amount (delete k reg).
Proof.
  rewrite <-insert_delete_eq. unfold active_sum.
  rewrite (sumZ_perm _ _ _ (map_to_list_insert _ k r (lookup_delete_eq _ _))). done.
Qed.

Lemma active_sum_delete reg k :
  active_sum p amount reg =
  (match reg !! k with Some r => if p r then amount r else 0 | None => 0 end)
  + active_sum p amount (delete k reg).
Proof.
  destruct (reg !! k) as [r|] eqn:E.
  - rewrite <-active_sum_insert. by rewrite insert_id.
  - by rewrite delete_id by done.
Qed.

Lemma usage_loop_mod (m : Z) (wrap : Z → Z) reg :
  0 < m → (∀ x, wrap x = x mod m) →
  usage_loop wrap p amount reg = active_sum p amount reg mod m.
Proof.
  intros Hm Hwrap. unfold usage_loop, active_sum.
  rewrite <-(sumZ_perm _ _ _ (in_order_perm reg)).
  rewrite <-(Z.mod_small 0 m) at 1 by lia.
  rewrite <-(Z.add_0_l (sumZ _ _)), <-foldl_mod_sumZ by done.
  generalize (in_order reg) as l. intros l.
  assert (Hgen : ∀ acc, 0 <= acc < m →
    foldl (λ acc kv, if p kv.2 then wrap (acc + amount kv.2) else acc) acc l =
    foldl (λ a x, (a + (if p x.2 then amount x.2 else 0)) mod m) acc l).
  { induction l as [|kv l IH]; intros acc Hacc; [done|]. simpl.
    destruct (p kv.2); [rewrite Hwrap|rewrite Z.add_0_r, (Z.mod_small acc) by done];
      apply IH; [apply Z.mod_pos_bound|]; lia. }
  apply Hgen, Z.mod_pos_bound. lia.
Qed.
End sums.

Definition amounts_ok (amount : Reservation → Z) (reg : Registry) : Prop :=
  ∀ k r, reg !! k = Some r → 0 <= amount r.

Lemma active_sum_mono p q amount reg reg' (f : Reservation → Reservation) :
  amounts_ok amount reg → reg' = f <$> reg →
  (∀ r, p (f r) = true → q r = true ∧ amount (f r) = amount r) →
  active_sum p amount reg' <= active_sum q amount reg.
Proof.
  intros Hnn -> Hpq. unfold active_sum. rewrite map_to_list_fmap.
  assert (Hl : Forall (λ kv, 0 <= amount kv.2) (map_to_list reg)).
  { apply Forall_forall. intros [k r] Hin%elem_of_map_to_list. by eapply Hnn. }
  induction Hl as [|[k r] l Hr _ IH]; [done|]. csimpl in *.
  specialize (Hpq r). destruct (p (f r)); [destruct Hpq as [-> ->]; [done|]|destruct (q r)]; lia.
Qed.

Lemma active_sum_nonneg p amount reg : amounts_ok amount reg → 0 <= active_sum p amount reg.
Proof.
  intros Hnn. apply sumZ_nonneg, Forall_forall. intros [k r] Hin%elem_of_map_to_list. simpl.
  specialize (Hnn k r Hin). destruct (p r); lia.
Qed.

Lemma active_sum_delete_le p amount reg k :
  amounts_ok amount reg → active_sum p amount (delete k reg) <= active_sum p amount reg.
Proof.
  intros Hnn. rewrite (active_sum_delete p amount reg k).
  destruct (reg !! k) as [r|] eqn:E; [|lia]. specialize (Hnn k r E). destruct (p r); lia.
Qed.

(** ** Histories of the registry *)

Inductive RegOp :=
| RReserve (node : NodeRecord) (epoch : Z) (task_id : Id128) (executor : ExecutorType)
    (slots scratch_bytes : Z) (random_id : Id128) (now : Z)
| RRelease (id : Id128)
| RReleaseNode (node_id : Id128)
| RInvalidateBefore (epoch : Z)
| RInvalidateSession (node_id session : Id128).

Definition reg_op (reg : Registry) (op : RegOp) : Registry :=
  match op with
  | RReserve node epoch task_id executor slots scratch rid now =>
      (try_reserve reg node epoch task_id executor slots scratch rid now).1
  | RRelease id => (release reg id).1
  | RReleaseNode node_id => release_all_for_node reg node_id
  | RInvalidateBefore epoch => (invalidate_before reg epoch).1
  | RInvalidateSession node_id session => (invalidate_session reg node_id session).1
  end.

Definition run_reg (ops : list RegOp) (reg : Registry) : Registry := foldl reg_op reg ops.

Lemma try_reserve_cases reg node epoch task_id executor slots scratch rid now :
  ((try_reserve reg node epoch task_id executor slots scratch rid now).1 = reg ∧
   rr_reservation (try_reserve reg node epoch task_id executor slots scratch rid now).2 = None) ∨
  (∃ cap, let r := mkReservation rid task_id (nr_id node) (nr_session node) epoch
                     (nr_session_epoch node) executor slots scratch now false in
   try_reserve reg node epoch task_id executor slots scratch rid now =
     (<[rid := r]> reg, mkReservationResult (Some r) []) ∧
   nr_health node ≠ NH_Offline ∧ nr_health node ≠ NH_Draining ∧
   find_executor node executor = Some cap ∧ xc_healthy cap = true ∧ slots ≠ 0 ∧
   u32 (used_executor_slots reg (nr_id node) executor + slots) <= u32 (xc_slots cap) ∧
   (executor = EX_Cpu → u32 (used_cpu_slots reg (nr_id node) + slots)
      <= u32 (nc_cpu_worker_slots (nr_capacity node))) ∧
   (0 < scratch → u64 (used_scratch reg (nr_id node) + scratch)
      <= nc_host_memory_scheduling_bytes (nr_capacity node))).
Proof.
  unfold try_reserve, refused.
  case_bool_decide; [by left|]. case_bool_decide; [by left|].
  destruct (find_executor node executor) as [cap|] eqn:Hcap; [|by left].
  destruct (xc_healthy cap) eqn:Hh; simpl; [|by left].
  destruct (Z.eqb_spec slots 0); [by left|].
  destruct (Z.ltb_spec (u32 (xc_slots cap))
    (u32 (used_executor_slots reg (nr_id node) executor + slots))); [by left|].
  destruct (bool_decide (executor = EX_Cpu) && _) eqn:Hcpu; [by left|].
  destruct ((_ <? _) && (0 <? scratch)) eqn:Hscr; [by left|]. right.
  exists cap. split_and!; try done.
  - intros ->. rewrite bool_decide_true in Hcpu by done. simpl in Hcpu. lia.
  - intros Hpos. rewrite andb_false_iff in Hscr. lia.
Qed.

(** ** No overcommitment

    [caps] gives the capacity under which each node reserves; a capacity is
    well formed when it lists each executor type once and its slot counts are
    non-negative and sum to less than 2^31, and a request is in range when
    adding it to a full node cannot wrap. *)

Definition capacity_wf (c : NodeCapacity) : Prop :=
  NoDup (xc_type <$> nc_executors c) ∧ Forall (λ e, 0 <= xc_slots e) (nc_executors c) ∧
  sumZ xc_slots (nc_executors c) < 2147483648 ∧ 0 <= nc_cpu_worker_slots c < 2147483648 ∧
  0 <= nc_host_memory_scheduling_bytes c < 9223372036854775808.

Section overcommit.
Context (caps : Id128 → NodeCapacity) (Hcaps : ∀ n, capacity_wf (caps n)).

Definition op_in_range (op : RegOp) : Prop :=
  match op with
  | RReserve node _ _ _ slots scratch _ _ =>
      nr_capacity node = caps (nr_id node) ∧
      0 <= slots < 2147483648 ∧ 0 <= scratch < 9223372036854775808
  | _ => True
  end.

Definition executor_of (c : NodeCapacity) (x : ExecutorType) : option ExecutorCapability :=
  snd <$> list_find (λ e, xc_type e = x) (nc_executors c).

(** What the active reservations of a node hold, against its capacity. *)
Record fits (reg : Registry) : Prop := {
  fit_slots_nonneg : amounts_ok rv_slots reg;
  fit_scratch_nonneg : amounts_ok rv_scratch_bytes reg;
  fit_known : ∀ k r, reg !! k = Some r → is_Some (executor_of (caps (rv_node_id r)) (rv_executor r));
  fit_executor : ∀ n x e, executor_of (caps n) x = Some e →
    active_sum (holds_slots n x) rv_slots reg <= xc_slots e;
  fit_cpu : ∀ n, active_sum (holds_slots n EX_Cpu) rv_slots reg <= nc_cpu_worker_slots (caps n);
  fit_scratch : ∀ n, active_sum (active_on n) rv_scratch_bytes reg
    <= nc_host_memory_scheduling_bytes (caps n)
}.

Lemma fits_empty : fits ∅.
Proof.
  assert (E : ∀ p f, active_sum p f ∅ = 0).
  { intros. unfold active_sum. by rewrite map_to_list_empty. }
  split; try done; intros; rewrite E.
  - destruct (Hcaps n) as (_ & Hs & _). rewrite Forall_forall in Hs. apply Hs.
    unfold executor_of in H. destruct (list_find _ _) as [[i e']|] eqn:Hf; simplify_eq/=.
    apply list_find_Some in Hf as (Hf & _). by eapply list_elem_of_lookup_2.
  - destruct (Hcaps n). naive_solver lia.
  - destruct (Hcaps n). naive_solver lia.
Qed.

(** Releasing keeps the registry within capacity. *)
Definition frees (reg reg' : Registry) : Prop :=
  (∀ k r', reg' !! k = Some r' → ∃ r, reg !! k = Some r ∧ (r' = r ∨ r' = mark_released r)) ∧
  (∀ p amount, amounts_ok amount reg → (∀ r, amount (mark_released r) = amount r) →
     (∀ r, p (mark_released r) = false) → active_sum p amount reg' <= active_sum p amount reg).

Lemma frees_fits reg reg' : frees reg reg' → fits reg → fits reg'.
Proof.
  intros [Hk Hsum] [Hs Hc Hx He Hcpu Hscr].
  assert (Hh : ∀ n x r, holds_slots n x (mark_released r) = false)
    by (intros; unfold holds_slots; simpl; by rewrite andb_false_r).
  assert (Ha : ∀ n r, active_on n (mark_released r) = false)
    by (intros; unfold active_on; simpl; by rewrite andb_false_r).
  split.
  - intros k r' (r & Hr & [->| ->])%Hk; exact (Hs k r Hr).
  - intros k r' (r & Hr & [->| ->])%Hk; exact (Hc k r Hr).
  - intros k r' (r & Hr & [->| ->])%Hk; exact (Hx k r Hr).
  - intros n x e Hcap. etrans; [by apply Hsum|by apply He].
  - intros n. etrans; [by apply Hsum|by apply Hcpu].
  - intros n. etrans; [by apply Hsum|by apply Hscr].
Qed.

Lemma frees_release_where q reg : frees reg (release_where q reg).
Proof.
  split.
  - intros k r'. unfold release_where. rewrite lookup_fmap.
    destruct (reg !! k) as [r|]; [|done]. intros [= <-]. exists r. destruct (q r); auto.
  - intros p amount Hnn Ham Hp. apply (active_sum_mono p p amount reg _ _ Hnn eq_refl).
    intros r. destruct (q r); [by rewrite Hp|done].
Qed.

Lemma frees_release id reg : frees reg (release reg id).1.
Proof.
  unfold release. destruct (reg !! id) as [r|] eqn:Hr; [destruct (rv_released r)|]; simpl;
    try (split; [eauto|done]). split.
  - intros k r' [[<- <-]|[_ Hk]]%lookup_insert_Some; eauto.
  - intros p amount Hnn Ham Hp. rewrite active_sum_insert, Hp. by apply active_sum_delete_le.
Qed.

Lemma executor_of_In n x e :
  executor_of (caps n) x = Some e → e ∈ nc_executors (caps n) ∧ xc_type e = x.
Proof.
  unfold executor_of. destruct (list_find _ _) as [[i e']|] eqn:Hf; [|done].
  intros [= ->]. apply list_find_Some in Hf as (Hf & Ht & _).
  split; [by eapply list_elem_of_lookup_2|done].
Qed.

Lemma In_executor_of n e :
  e ∈ nc_executors (caps n) → executor_of (caps n) (xc_type e) = Some e.
Proof using Hcaps.
  intros [i Hi]%list_elem_of_lookup_1. destruct (Hcaps n) as (Hnd & _).
  unfold executor_of.
  rewrite (proj2 (list_find_Some _ _ i e)); [done|]. split_and!; [done|done|].
  intros j y Hy Hlt Heq. assert (i = j); [|lia].
  eapply (NoDup_lookup _ _ _ (xc_type e) Hnd); rewrite list_lookup_fmap; [by rewrite Hi|].
  rewrite Hy. simpl. by rewrite Heq.
Qed.

(** The slots held on a node, summed over the executor types of a list. *)
Lemma node_slots_split reg n (tys : list ExecutorType) :
  amounts_ok rv_slots reg →
  active_sum (λ r, active_on n r && bool_decide (rv_executor r ∈ tys)) rv_slots reg
  <= sumZ (λ x, active_sum (holds_slots n x) rv_slots reg) tys.
Proof.
  intros Hnn. induction tys as [|x tys IH].
  - unfold active_sum. simpl.
    rewrite (sumZ_ext _ (λ _, 0)); [induction (map_to_list reg); simpl; lia|].
    intros kv _. rewrite andb_false_r. done.
  - simpl. etrans; [|apply Z.add_le_mono_l, IH]. unfold active_sum.
    rewrite <-sumZ_add. apply sumZ_le, Forall_forall.
    intros [k r] Hin%elem_of_map_to_list. simpl. specialize (Hnn k r Hin).
    unfold active_on, holds_slots.
    destruct (bool_decide (rv_node_id r = n)), (rv_released r); simpl; try lia;
      repeat case_bool_decide; simpl; try lia; set_solver.
Qed.

Lemma fits_node_total reg n :
  fits reg → active_sum (active_on n) rv_slots reg < 2147483648.
Proof using Hcaps.
  intros [Hs Hc Hx He Hcpu Hscr]. destruct (Hcaps n) as (_ & _ & Hsum & _).
  eapply Z.le_lt_trans; [|exact Hsum].
  transitivity (active_sum (λ r, active_on n r &&
    bool_decide (rv_executor r ∈ xc_type <$> nc_executors (caps n))) rv_slots reg).
  - apply Z.eq_le_incl, sumZ_ext. intros [k r] Hin%elem_of_map_to_list. simpl.
    unfold active_on. case_bool_decide as En; simpl; [|done].
    destruct (Hx k r Hin) as [e [Hin' <-]%executor_of_In]. subst n.
    rewrite bool_decide_true, andb_true_r; [done|]. by apply list_elem_of_fmap_2.
  - etrans; [by apply node_slots_split|].
    assert (Hall : ∀ es, es ⊆ nc_executors (caps n) →
      sumZ (λ x, active_sum (holds_slots n x) rv_slots reg) (xc_type <$> es) <= sumZ xc_slots es).
    { induction es as [|e es IH]; intros Hsub; csimpl; [done|].
      apply Z.add_le_mono; [|apply IH; set_solver].
      apply He, In_executor_of. set_solver. }
    by apply Hall.
Qed.

Lemma holds_slots_new n x r :
  rv_released r = false → holds_slots n x r = true → n = rv_node_id r ∧ x = rv_executor r.
Proof.
  unfold holds_slots. intros _ [[H1 H2]%andb_true_iff _]%andb_true_iff.
  by apply bool_decide_eq_true in H1, H2.
Qed.

Lemma fits_insert reg rid r :
  rv_released r = false →
  is_Some (executor_of (caps (rv_node_id r)) (rv_executor r)) →
  0 <= rv_slots r → 0 <= rv_scratch_bytes r →
  (∀ e, executor_of (caps (rv_node_id r)) (rv_executor r) = Some e →
     active_sum (holds_slots (rv_node_id r) (rv_executor r)) rv_slots reg + rv_slots r
     <= xc_slots e) →
  (rv_executor r = EX_Cpu → active_sum (active_on (rv_node_id r)) rv_slots reg + rv_slots r
     <= nc_cpu_worker_slots (caps (rv_node_id r))) →
  (0 < rv_scratch_bytes r →
     active_sum (active_on (rv_node_id r)) rv_scratch_bytes reg + rv_scratch_bytes r
     <= nc_host_memory_scheduling_bytes (caps (rv_node_id r))) →
  fits reg → fits (<[rid := r]> reg).
Proof.
  intros Hrel Hx Hs Hc He Hcpu Hscr [Fs Fc Fx Fe Fcpu Fscr].
  assert (Hdel : ∀ p amount, amounts_ok amount reg →
    active_sum p amount (delete rid reg) <= active_sum p amount reg)
    by (intros; by apply active_sum_delete_le).
  split.
  - intros k r' [[_ <-]|[_ Hk]]%lookup_insert_Some; [done|by eapply Fs].
  - intros k r' [[_ <-]|[_ Hk]]%lookup_insert_Some; [done|by eapply Fc].
  - intros k r' [[_ <-]|[_ Hk]]%lookup_insert_Some; [done|by eapply Fx].
  - intros n x e Hcap. rewrite active_sum_insert.
    specialize (Hdel (holds_slots n x) rv_slots Fs). specialize (Fe n x e Hcap).
    destruct (holds_slots n x r) eqn:Hh; [|lia].
    apply holds_slots_new in Hh as [-> ->]; [|done]. specialize (He e Hcap). lia.
  - intros n. rewrite active_sum_insert.
    specialize (Hdel (holds_slots n EX_Cpu) rv_slots Fs). specialize (Fcpu n).
    destruct (holds_slots n EX_Cpu r) eqn:Hh; [|lia].
    apply holds_slots_new in Hh as [-> E]; [|done]. specialize (Hcpu (eq_sym E)).
    assert (active_sum (holds_slots (rv_node_id r) EX_Cpu) rv_slots reg <=
      active_sum (active_on (rv_node_id r)) rv_slots reg); [|lia].
    apply (active_sum_mono _ _ _ _ _ id Fs); [by rewrite map_fmap_id|].
    intros r'. unfold holds_slots, active_on. simpl. intros H.
    repeat rewrite andb_true_iff in H. destruct H as [[-> _] ->]. done.
  - intros n. rewrite active_sum_insert.
    specialize (Hdel (active_on n) rv_scratch_bytes Fc). specialize (Fscr n).
    unfold active_on at 1. rewrite Hrel, andb_true_r.
    case_bool_decide; [subst n|lia]. destruct (decide (0 < rv_scratch_bytes r)); [|lia].
    specialize (Hscr l). lia.
Qed.

Lemma u32_small a b c : 0 <= a < 2147483648 → 0 <= b < 2147483648 → 0 <= c < 2147483648 →
  u32 (a mod 4294967296 + b) <= u32 c → a + b <= c.
Proof. intros Ha Hb Hc. unfold u32. rewrite (Z.mod_small a), !Z.mod_small by lia. done. Qed.

Lemma reserve_fits reg node epoch task_id executor slots scratch rid now :
  op_in_range (RReserve node epoch task_id executor slots scratch rid now) →
  fits reg → fits (try_reserve reg node epoch task_id executor slots scratch rid now).1.
Proof using Hcaps.
  intros (Hcap & Hs & Hscr) Hfit.
  destruct (try_reserve_cases reg node epoch task_id executor slots scratch rid now)
    as [[-> _]|(cap & -> & _ & _ & Hfind & _ & _ & Hex & Hcpu & Hmem)]; [done|]. simpl.
  assert (Hfind' : executor_of (caps (nr_id node)) executor = Some cap)
    by (unfold executor_of; by rewrite <-Hcap).
  rewrite Hcap in *.
  unfold used_executor_slots in Hex. rewrite (usage_loop_mod _ _ 4294967296) in Hex by done.
  unfold used_cpu_slots in Hcpu. rewrite (usage_loop_mod _ _ 4294967296) in Hcpu by done.
  unfold used_scratch in Hmem.
  rewrite (usage_loop_mod _ _ 18446744073709551616) in Hmem by done.
  pose proof (fits_node_total reg (nr_id node) Hfit) as Htot.
  destruct (Hcaps (nr_id node)) as (_ & Hnn & Hsum & Hw & Hh).
  pose proof (executor_of_In _ _ _ Hfind') as [Hin _].
  rewrite Forall_forall in Hnn. pose proof (Hnn cap Hin) as Hc0.
  assert (Hc1 : xc_slots cap < 2147483648).
  { eapply Z.le_lt_trans; [|exact Hsum]. apply sumZ_elem_le; [done|].
    apply Forall_forall, Hnn. }
  pose proof Hfit as [Fs Fc Fx Fe Fcpu Fscr].
  pose proof (active_sum_nonneg (active_on (nr_id node)) rv_slots reg Fs).
  pose proof (active_sum_nonneg (active_on (nr_id node)) rv_scratch_bytes reg Fc).
  pose proof (active_sum_nonneg (holds_slots (nr_id node) executor) rv_slots reg Fs).
  specialize (Fscr (nr_id node)). specialize (Fe _ _ _ Hfind').
  apply fits_insert; simpl; try done; try lia.
  - intros e He. rewrite Hfind' in He. injection He as <-. eapply u32_small; [..|exact Hex]; lia.
  - intros E. eapply u32_small; [..|by apply Hcpu]; lia.
  - intros Hpos. specialize (Hmem Hpos). unfold u64 in Hmem.
    rewrite (Z.mod_small (active_sum _ _ _)), Z.mod_small in Hmem by lia. lia.
Qed.

Lemma run_reg_fits ops : Forall op_in_range ops → fits (run_reg ops ∅).
Proof using Hcaps.
  assert (Hgen : ∀ ops reg, Forall op_in_range ops → fits reg → fits (run_reg ops reg)).
  { clear ops. induction ops as [|op ops IH]; intros reg Hops Hfit; [done|].
    apply Forall_cons in Hops as [Hop Hops]. apply IH; [done|].
    destruct op; [by apply reserve_fits|eapply frees_fits; [|done]..].
    - apply frees_release.
    - apply frees_release_where.
    - apply frees_release_where.
    - apply frees_release_where. }
  intros Hops. apply Hgen; [done|apply fits_empty].
Qed.
End overcommit.

(** ** Claims *)


Definition cpu_executor (slots : Z) : ExecutorCapability :=
  mkExecutorCapability EX_Cpu "cpu" slots 0 0 "" "" "" 0 [] f64_1 true false.
Definition cpu_capacity (slots : Z) : NodeCapacity :=
  mkNodeCapacity slots 1000 [cpu_executor slots] ∅ "" "".
Definition cpu_node (slots : Z) : NodeRecord :=
  mkNodeRecord (mkId 0 7) (mkId 0 8) 1 1 NH_Online (cpu_capacity slots) 0 0 true.

Definition sample_ops : list RegOp :=
  [RReserve (cpu_node 4) 1 (mkId 0 1) EX_Cpu 3 10 (mkId 0 100) 0;
   RReserve (cpu_node 4) 1 (mkId 0 2) EX_Cpu 2 10 (mkId 0 101) 1;
   RRelease (mkId 0 100);
   RReserve (cpu_node 4) 1 (mkId 0 2) EX_Cpu 2 10 (mkId 0 102) 2].


(** The slot check "used + slots > cap" wraps at 2^32.  On an online node
    whose CPU executor is healthy and already has [used] > 0 slots taken (all of
    them CPU slots), a request for 2^32 - used slots is accepted whatever the
    capacity, so the counters then stand at 0 while 2^32 slots are handed out. *)
Theorem slot_check_wraps (reg : Registry) (node : NodeRecord) (cap : ExecutorCapability)
    (epoch : Z) (task_id rid : Id128) (now : Z) :
  let used := used_executor_slots reg (nr_id node) EX_Cpu in
  nr_health node = NH_Online → find_executor node EX_Cpu = Some cap → xc_healthy cap = true →
  0 < used → used_cpu_slots reg (nr_id node) = used → reg !! rid = None →
  let '(reg', out) :=
    try_reserve reg node epoch task_id EX_Cpu (4294967296 - used) 0 rid now in
  is_Some (rr_reservation out) ∧ used_executor_slots reg' (nr_id node) EX_Cpu = 0.
Proof.
  intros used Hh Hf Hc Hpos Hcpu Hrid. unfold try_reserve. rewrite Hh, Hf, Hc. simpl.
  assert (Hu : 0 <= used < 4294967296).
  { subst used. unfold used_executor_slots. rewrite (usage_loop_mod _ _ 4294967296) by done.
    by apply Z.mod_pos_bound. }
  fold used. rewrite Hcpu.
  replace (4294967296 - used =? 0) with false by lia.
  replace (used + (4294967296 - used)) with 4294967296 by lia.
  change (u32 4294967296) with 0.
  assert (Hlt : ∀ x, (u32 x <? 0) = false) by (intros x; pose proof (u32_range x); int_solve).
  rewrite !Hlt. simpl. rewrite andb_false_r.
  split; [done|].
  subst used. clear - Hrid. unfold used_executor_slots.
  rewrite !(usage_loop_mod _ _ 4294967296) by done. rewrite active_sum_insert, delete_id by done. unfold holds_slots at 1. simpl.
  rewrite bool_decide_true by done. simpl.
  set (s := active_sum _ _ _) in *. rewrite Z.add_comm.
  rewrite Z.add_sub_assoc, (Z.mod_eq s) by done.
  replace (s + 4294967296 - (s - 4294967296 * (s / 4294967296)))
    with ((1 + s / 4294967296) * 4294967296) by ring.
  by apply Z.mod_mul.
Qed.

Definition three_taken : Registry :=
  run_reg [RReserve (cpu_node 4) 1 (mkId 0 1) EX_Cpu 3 0 (mkId 0 100) 0] ∅.

Lemma slot_check_wraps_witness :
  let used := used_executor_slots three_taken (nr_id (cpu_node 4)) EX_Cpu in
  used = 3 ∧
  let '(reg', out) :=
    try_reserve three_taken (cpu_node 4) 1 (mkId 0 2) EX_Cpu (4294967296 - used) 0
      (mkId 0 101) 1 in
  is_Some (rr_reservation out) ∧ used_executor_slots reg' (nr_id (cpu_node 4)) EX_Cpu = 0.
Proof.
  split; [vm_compute; reflexivity|].
  refine (slot_check_wraps three_taken (cpu_node 4) (cpu_executor 4) 1 (mkId 0 2) (mkId 0 101) 1
    _ _ _ _ _ _); vm_compute; reflexivity.
Defined.

Lemma length_filter_in_order (p : Reservation → bool) (reg : Registry) :
  count_where p reg = length (filter (λ kv, p kv.2 = true) (map_to_list reg)).
Proof. unfold count_where. by rewrite in_order_perm. Qed.

(** Epoch fencing.  After [invalidate_before e] no active reservation
    belongs to an epoch other than [e]; reservations of epoch [e] are untouched;
    the result is the number of active reservations the call released; and
    releasing one of them afterwards reports it as already released. *)
Theorem invalidate_before_fences (reg : Registry) (e : Z) :
  let '(reg', n) := invalidate_before reg e in
  (∀ r, r ∈ all_active reg' → rv_coordinator_epoch r = e) ∧
  (∀ k r, reg !! k = Some r → rv_coordinator_epoch r = e → reg' !! k = Some r) ∧
  (active_count reg = n + active_count reg')%nat ∧
  (∀ k r, reg !! k = Some r → stale_epoch e r = true →
     (release reg' k).2 = err EReservationNotFound "reservation already released").
Proof.
  simpl. split_and!.
  - intros r. unfold all_active. rewrite list_elem_of_filter, list_elem_of_fmap.
    intros [Hact ([k r'] & -> & Hin)]. simpl in *. apply elem_of_in_order in Hin.
    unfold release_where in Hin. rewrite lookup_fmap in Hin.
    destruct (reg !! k) as [r0|]; simplify_eq/=.
    unfold stale_epoch in *. destruct (Z.eqb_spec (rv_coordinator_epoch r0) e); simpl in *; [done|].
    by destruct (rv_released r0) eqn:E; simpl in *; rewrite ?E in Hact.
  - intros k r Hk He. unfold release_where. rewrite lookup_fmap, Hk. simpl.
    unfold stale_epoch. by rewrite He, Z.eqb_refl.
  - unfold active_count. rewrite !length_filter_in_order.
    unfold release_where. rewrite map_to_list_fmap.
    induction (map_to_list reg) as [|[k r] l IH]; [done|]. csimpl. rewrite !length_filter_bool. simpl.
    assert (stale_epoch e r = negb (rv_coordinator_epoch r =? e) && negb (rv_released r)) as ->
      by done.
    destruct (rv_coordinator_epoch r =? e), (rv_released r) eqn:E; simpl; rewrite ?E; simpl; lia.
  - intros k r Hk Hst. unfold release, release_where. rewrite lookup_fmap, Hk. simpl.
    by rewrite Hst.
Qed.
