(* ===== verification/Placement.v ===== *)
(** * Placement: the explainable placement decision
    (scheduler/placements.h, placements.cpp) *)

From S2P Require Import Prelude Status Ids Float64 Task.

Local Open Scope Z_scope.

Inductive SchedulerPolicy : Set :=
| SP_Baseline
| SP_CostAware
| SP_raw (v : Z).

#[export] Instance SchedulerPolicy_eq_dec : EqDecision SchedulerPolicy.
Proof. solve_decision. Defined.

Definition scheduler_policy_name (p : SchedulerPolicy) : string :=
  match p with
  | SP_Baseline => "baseline"
  | SP_CostAware => "cost_aware"
  | SP_raw _ => "unknown"
  end.

Definition parse_scheduler_policy (s : string) : option SchedulerPolicy :=
  if bool_decide (s = "baseline") then Some SP_Baseline
  else if bool_decide (s = "cost_aware") then Some SP_CostAware
  else None.

(** Every number but the identifiers is a [double]. *)
Record CandidateScore := mkCandidateScore {
  cs_node_id : Id128;
  cs_executor : ExecutorType;
  cs_device : string;
  cs_score : Z;
  cs_execution_cost : Z;
  cs_queue_cost : Z;
  cs_transfer_cost : Z;
  cs_recompute_cost : Z;
  cs_pressure_cost : Z;
  cs_affinity_cost : Z;
  cs_capability_cost : Z;
  cs_state_locality_score : Z;
  cs_resource_pressure_score : Z
}.

Record Exclusion := mkExclusion {
  ex_node_id : Id128;
  ex_reasons : list string
}.

Record PlacementDecision := mkPlacementDecision {
  pd_feasible : bool;
  pd_chosen_node : option Id128;
  pd_chosen_executor : option ExecutorType;
  pd_chosen_device : string;
  pd_candidates : list CandidateScore;
  pd_excluded : list Exclusion;
  pd_total_cost : Z;
  pd_execution_cost : Z;
  pd_queue_cost : Z;
  pd_transfer_cost : Z;
  pd_recompute_cost : Z;
  pd_pressure_cost : Z;
  pd_affinity_cost : Z;
  pd_capability_cost : Z;
  pd_state_locality_score : Z;
  pd_resource_pressure_score : Z;
  pd_reason : string
}.
