(* ===== verification/Wire.v ===== *)
(** * Wire: the big-endian binary writer and reader (protocol/wire.h, wire.cpp)

    A [BinaryWriter] only appends, so each [put_*] is the bytes it appends and a
    serializer is the concatenation of its puts.  A [BinaryReader] is its
    position [pos_] and the bytes from [data_ + pos_] on; [len_] is their sum.
    A reader method returns [None] where the source returns [false]; note that a
    failed [read_string] has already consumed its length prefix.  A
    deserializer is a [Parse]: it threads the reader and stops at the first
    error.

    [reads p bs a] says that [p] turns exactly the bytes [bs] into [a], whatever
    follows; [safe p P] says that [p] only moves forward inside the buffer and
    that every value it returns satisfies [P].  Both compose along [mbind]. *)

From S2P Require Import Prelude Status Ids Float64 Task.

Local Open Scope Z_scope.

(** ** Writer *)

Definition put_u8 (v : Z) : bytes := [v].
Definition put_u16 (v : Z) : bytes := be_bytes 2 v.
Definition put_u32 (v : Z) : bytes := be_bytes 4 v.
Definition put_u64 (v : Z) : bytes := be_bytes 8 v.
Definition put_i32 (v : Z) : bytes := put_u32 (u32 v).
Definition put_i64 (v : Z) : bytes := put_u64 (u64 v).
Definition put_f64 (bits : Z) : bytes := put_u64 bits.
Definition put_bool (b : bool) : bytes := put_u8 (if b then 1 else 0).
Definition put_bytes (bs : bytes) : bytes := bs.
Definition put_string (s : string) : bytes :=
  put_u32 (u32 (Z.of_nat (String.length s))) ++ put_bytes (bytes_of_string s).
Definition put_id (id : Id128) : bytes := to_bytes id.

(** [w.put_u32(xs.size()); for (x : xs) put(x);] *)
Definition put_list {A} (put : A → bytes) (xs : list A) : bytes :=
  put_u32 (u32 (Z.of_nat (length xs))) ++ flat_map put xs.
(** The same loop over a [std::map<std::string, std::string>]. *)
Definition put_tags (m : gmap string string) : bytes :=
  put_list (λ kv, put_string kv.1 ++ put_string kv.2) (in_order m).

(** ** Reader *)

Record Reader := mkReader { rd_pos : Z; rd_rest : bytes }.

Definition rd_len (r : Reader) : Z := rd_pos r + Z.of_nat (length (rd_rest r)).

(** [BinaryReader(v)] *)
Definition reader_of (v : bytes) : Reader := mkReader 0 v.

Abbreviation Read A := (Reader → option A * Reader).
Definition Parse (A : Type) : Type := Reader → Result A * Reader.

(** [if (pos_ + n > len_) return false; ... pos_ += n;] *)
Definition read_raw (n : nat) : Read bytes := λ r,
  if decide (n ≤ length (rd_rest r))%nat
  then (Some (take n (rd_rest r)), mkReader (rd_pos r + Z.of_nat n) (drop n (rd_rest r)))
  else (None, r).

Definition read_map {A B} (f : A → B) (m : Read A) : Read B := λ r,
  let '(v, r') := m r in (f <$> v, r').

Definition read_u8 : Read Z := read_map be_value (read_raw 1).
Definition read_u16 : Read Z := read_map be_value (read_raw 2).
Definition read_u32 : Read Z := read_map be_value (read_raw 4).
Definition read_u64 : Read Z := read_map be_value (read_raw 8).
Definition read_i32 : Read Z := read_map i32 read_u32.
Definition read_i64 : Read Z := read_map i64 read_u64.
Definition read_f64 : Read Z := read_u64.
Definition read_bool : Read bool := read_map (λ b, negb (b =? 0)) read_u8.
Definition read_raw_bytes (n : Z) : Read bytes := read_raw (Z.to_nat n).

(** [read_bytes], and [read_string] with its conversion. *)
Definition read_bytes (max_len : Z) : Read bytes := λ r,
  match read_u32 r with
  | (None, r) => (None, r)
  | (Some n, r) => if max_len <? n then (None, r) else read_raw (Z.to_nat n) r
  end.
Definition read_string (max_len : Z) : Read string := read_map string_of_bytes (read_bytes max_len).
Definition read_id : Read Id128 := read_map from_bytes (read_raw 16).
(** [skip(n)] for an [n] read from the buffer, so that [pos_ + n] does not wrap. *)
Definition skip (n : Z) : Reader → bool * Reader := λ r,
  let '(v, r') := read_raw (Z.to_nat n) r in (bool_decide (is_Some v), r').

(** [r.fail(what)] *)
Definition reader_fail (r : Reader) (what : string) : Error :=
  mkError EOutOfBounds (what +:+ " (reader at " +:+ to_string (rd_pos r) +:+ "/" +:+
                        to_string (rd_len r) +:+ ")").

(** ** Deserializers *)

#[export] Instance Parse_ret : MRet Parse := λ A a r, (Ok a, r).
#[export] Instance Parse_bind : MBind Parse := λ A B k m r,
  match m r with
  | (Ok a, r') => k a r'
  | (Err e, r') => (Err e, r')
  end.

(** [if (!r.read(...)) return r.fail(what);] *)
Definition expect {A} (m : Read A) (what : string) : Parse A := λ r,
  match m r with
  | (Some a, r') => (Ok a, r')
  | (None, r') => (Err (reader_fail r' what), r')
  end.

(** [if (!r.read_u32(n) || n > max) return r.fail(what);] *)
Definition read_count (max : Z) : Read Z := λ r,
  match read_u32 r with
  | (Some n, r') => if max <? n then (None, r') else (Some n, r')
  | (None, r') => (None, r')
  end.

(** [uint8_t x; if (!r.read_u8(x)) ...; v = static_cast<E>(x);] *)
Definition expect_enum {E} `{CEnum E} (what : string) : Parse E :=
  v ← expect read_u8 what; mret (enum_of v).

(** [for (i = 0; i < n; ++i) { ...p...; xs.push_back(x); }] *)
Fixpoint repeat_parse {A} (n : nat) (p : Parse A) : Parse (list A) :=
  match n with
  | O => mret []
  | S n => x ← p; xs ← repeat_parse n p; mret (x :: xs)
  end.
Definition read_list {A} (max : Z) (what : string) (p : Parse A) : Parse (list A) :=
  n ← expect (read_count max) what; repeat_parse (Z.to_nat n) p.

(** The loops that fill a map: [m[k] = v] keeps the last value of a key. *)
Definition read_pair (max : Z) (what : string) : Parse (string * string) :=
  k ← expect (read_string max) what; v ← expect (read_string max) what; mret (k, v).
Definition read_tags (max_list max_str : Z) (count_what what : string) : Parse (gmap string string) :=
  kvs ← read_list max_list count_what (read_pair max_str what);
  mret (foldl (λ m kv, <[kv.1 := kv.2]> m) ∅ kvs).

(** ** Round trips compose *)

Definition reads {A} (p : Parse A) (bs : bytes) (a : A) : Prop :=
  ∀ pos rest, p (mkReader pos (bs ++ rest)) =
              (Ok a, mkReader (pos + Z.of_nat (length bs)) rest).

Lemma reads_ret {A} (a : A) : reads (mret a) [] a.
Proof. intros pos rest. simpl. by rewrite Z.add_0_r. Qed.

Lemma reads_bind {A B} (p : Parse A) (k : A → Parse B) bs cs a b :
  reads p bs a → reads (k a) cs b → reads (p ≫= k) (bs ++ cs) b.
Proof.
  intros Hp Hk pos rest. unfold mbind, Parse_bind. rewrite <-app_assoc, Hp, Hk.
  rewrite length_app. f_equal. f_equal. lia.
Qed.

(** The last field: nothing is read after it. *)
Lemma reads_last {A B} (p : Parse A) (k : A → Parse B) bs a b :
  reads p bs a → k a = mret b → reads (p ≫= k) bs b.
Proof.
  intros Hp Hk. rewrite <-(app_nil_r bs). apply (reads_bind _ _ _ _ a); [done|].
  rewrite Hk. apply reads_ret.
Qed.

Lemma expect_read_raw {A} (m : Read A) (what : string) bs a :
  (∀ pos rest, m (mkReader pos (bs ++ rest)) =
               (Some a, mkReader (pos + Z.of_nat (length bs)) rest)) →
  reads (expect m what) bs a.
Proof. intros Hm pos rest. unfold expect. by rewrite Hm. Qed.

Lemma read_raw_app n bs pos rest :
  n = length bs →
  read_raw n (mkReader pos (bs ++ rest)) = (Some bs, mkReader (pos + Z.of_nat n) rest).
Proof.
  intros ->. unfold read_raw. simpl. rewrite decide_True by (rewrite length_app; lia).
  by rewrite take_app_length, drop_app_length.
Qed.

Lemma read_be_app n v pos rest :
  0 <= v < 2 ^ (8 * Z.of_nat n) →
  read_map be_value (read_raw n) (mkReader pos (be_bytes n v ++ rest)) =
  (Some v, mkReader (pos + Z.of_nat (length (be_bytes n v))) rest).
Proof.
  intros Hv. unfold read_map. rewrite read_raw_app by (by rewrite length_be_bytes).
  simpl. by rewrite be_value_be_bytes, length_be_bytes.
Qed.

Lemma reads_u16 v what : is_u16 v → reads (expect read_u16 what) (put_u16 v) v.
Proof. intros Hv. apply expect_read_raw. intros. by apply read_be_app. Qed.
Lemma reads_u32 v what : is_u32 v → reads (expect read_u32 what) (put_u32 v) v.
Proof. intros Hv. apply expect_read_raw. intros. by apply read_be_app. Qed.
Lemma reads_u64 v what : is_u64 v → reads (expect read_u64 what) (put_u64 v) v.
Proof. intros Hv. apply expect_read_raw. intros. by apply read_be_app. Qed.
Lemma reads_f64 v what : is_u64 v → reads (expect read_f64 what) (put_f64 v) v.
Proof. apply reads_u64. Qed.

Lemma read_map_Some {A B} (f : A → B) (m : Read A) r a r' :
  m r = (Some a, r') → read_map f m r = (Some (f a), r').
Proof. unfold read_map. by intros ->. Qed.

Lemma reads_i32 v what : is_i32 v → reads (expect read_i32 what) (put_i32 v) v.
Proof.
  intros Hv. apply expect_read_raw. intros. rewrite <-(i32_u32 v Hv) at 2.
  apply read_map_Some, read_be_app, u32_range.
Qed.
Lemma reads_i64 v what : is_i64 v → reads (expect read_i64 what) (put_i64 v) v.
Proof.
  intros Hv. apply expect_read_raw. intros. rewrite <-(i64_u64 v Hv) at 2.
  apply read_map_Some, read_be_app, u64_range.
Qed.

Lemma read_u8_app v pos rest :
  is_u8 v → read_u8 (mkReader pos (put_u8 v ++ rest)) = (Some v, mkReader (pos + 1) rest).
Proof.
  intros Hv. unfold read_u8, read_map, put_u8. rewrite read_raw_app by done. simpl.
  unfold be_value, of_digits. simpl. by rewrite Z.shiftl_0_l, Z.lor_0_l.
Qed.

Lemma reads_u8 v what : is_u8 v → reads (expect read_u8 what) (put_u8 v) v.
Proof. intros Hv. apply expect_read_raw. intros. by apply read_u8_app. Qed.

Lemma reads_bool b what : reads (expect read_bool what) (put_bool b) b.
Proof.
  apply expect_read_raw. intros pos rest. unfold put_bool.
  unfold read_bool. erewrite read_map_Some by (apply read_u8_app; by destruct b). by destruct b.
Qed.

Lemma reads_id id what : id_wf id → reads (expect read_id what) (put_id id) id.
Proof.
  intros Hid. apply expect_read_raw. intros pos rest. unfold put_id, read_id.
  pose proof (from_bytes_to_bytes id [] Hid) as E. rewrite app_nil_r in E.
  rewrite <-E at 2. apply read_map_Some. rewrite to_bytes_length.
  by apply read_raw_app; rewrite to_bytes_length.
Qed.

(** A length-prefixed string within the reader's limit. *)
Definition str_wf (max : Z) (s : string) : Prop := Z.of_nat (String.length s) <= max.

Lemma u32_len n max : 0 <= max < 4294967296 → Z.of_nat n <= max → u32 (Z.of_nat n) = Z.of_nat n.
Proof. intros. apply u32_id. int_solve. Qed.

Lemma reads_count n max what :
  0 <= max < 4294967296 → Z.of_nat n <= max →
  reads (expect (read_count max) what) (put_u32 (u32 (Z.of_nat n))) (Z.of_nat n).
Proof.
  intros Hmax Hn pos rest. rewrite (u32_len _ max) by done.
  pose proof (reads_u32 (Z.of_nat n) what ltac:(int_solve) pos rest) as H.
  unfold expect, read_count in *. destruct (read_u32 _) as [[v|] r]; [|done].
  injection H as -> ->. by replace (max <? Z.of_nat n) with false by lia.
Qed.

Lemma reads_string s max what :
  0 <= max < 4294967296 → str_wf max s → reads (expect (read_string max) what) (put_string s) s.
Proof.
  unfold str_wf. intros Hmax Hs. apply expect_read_raw. intros pos rest.
  unfold read_string. rewrite <-(string_of_bytes_of_string s) at 2. apply read_map_Some.
  unfold read_bytes, put_string, put_bytes.
  rewrite (u32_len _ max) by done. rewrite <-app_assoc. unfold read_u32, put_u32.
  rewrite read_be_app by lia.
  replace (max <? Z.of_nat (String.length s)) with false by lia.
  rewrite Nat2Z.id, read_raw_app by (by rewrite length_bytes_of_string).
  rewrite length_app, length_bytes_of_string. f_equal. f_equal. lia.
Qed.

Lemma reads_enum {E} `{CEnum E} (e : E) what :
  enum_wf e → reads (expect_enum what) (put_u8 (enum_to e)) e.
Proof.
  intros [Hu Hof]. unfold expect_enum. eapply reads_last; [by apply reads_u8|]. by rewrite Hof.
Qed.

Lemma reads_repeat {A} (p : Parse A) (put : A → bytes) xs :
  Forall (λ x, reads p (put x) x) xs → reads (repeat_parse (length xs) p) (flat_map put xs) xs.
Proof.
  induction 1 as [|x xs Hx _ IH]; simpl; [apply reads_ret|].
  eapply reads_bind; [done|]. by eapply reads_last.
Qed.

Lemma reads_list {A} (p : Parse A) (put : A → bytes) xs max what :
  0 <= max < 4294967296 → Z.of_nat (length xs) <= max → Forall (λ x, reads p (put x) x) xs →
  reads (read_list max what p) (put_list put xs) xs.
Proof.
  intros. unfold read_list, put_list. eapply reads_bind; [by apply reads_count|].
  rewrite Nat2Z.id. by apply reads_repeat.
Qed.

Definition tags_wf (max_list max_str : Z) (m : gmap string string) : Prop :=
  Z.of_nat (size m) <= max_list ∧ map_Forall (λ k v, str_wf max_str k ∧ str_wf max_str v) m.

Lemma reads_tags m max_list max_str what1 what2 :
  0 <= max_list < 4294967296 → 0 <= max_str < 4294967296 → tags_wf max_list max_str m →
  reads (read_tags max_list max_str what1 what2) (put_tags m) m.
Proof.
  intros Hl Hs [Hsize Hm]. unfold read_tags, put_tags.
  eapply (reads_last _ _ _ (in_order m)); [|by rewrite foldl_insert_in_order].
  apply reads_list; [done|by rewrite length_in_order|].
  apply Forall_forall. intros [k v] Hkv%elem_of_in_order. destruct (Hm k v Hkv).
  unfold read_pair. eapply reads_bind; [by apply reads_string|].
  eapply reads_last; [by apply reads_string|done].
Qed.

(** ** Safety composes *)

Definition safe {A} (p : Parse A) (P : A → Prop) : Prop :=
  ∀ r, are_bytes (rd_rest r) →
  ∃ res bs r', p r = (res, r') ∧ rd_rest r = bs ++ rd_rest r' ∧
    rd_pos r' = rd_pos r + Z.of_nat (length bs) ∧
    match res with Ok a => P a | Err e => err_code e = EOutOfBounds end.

Definition read_safe {A} (m : Read A) (P : A → Prop) : Prop :=
  ∀ r, are_bytes (rd_rest r) →
  ∃ v bs r', m r = (v, r') ∧ rd_rest r = bs ++ rd_rest r' ∧
    rd_pos r' = rd_pos r + Z.of_nat (length bs) ∧ (∀ a, v = Some a → P a).

Lemma safe_weaken {A} (p : Parse A) (P Q : A → Prop) : safe p P → (∀ a, P a → Q a) → safe p Q.
Proof.
  intros Hp HPQ r Hr. destruct (Hp r Hr) as (res & bs & r' & E & Hb & Hpos & HP).
  exists res, bs, r'. split_and!; [done..|]. destruct res; auto.
Qed.

Lemma safe_ret {A} (a : A) (P : A → Prop) : P a → safe (mret a) P.
Proof.
  intros HP r Hr. exists (Ok a), [], r. by split_and!; [done|done|simpl; lia|].
Qed.

Lemma safe_bind {A B} (p : Parse A) (k : A → Parse B) P Q :
  safe p P → (∀ a, P a → safe (k a) Q) → safe (p ≫= k) Q.
Proof.
  intros Hp Hk r Hr. destruct (Hp r Hr) as (res & bs & r1 & E & Hb & Hpos & HP).
  unfold mbind, Parse_bind. rewrite E. destruct res as [a|e].
  - rewrite Hb in Hr. apply are_bytes_app in Hr as [_ Hr1].
    destruct (Hk a HP r1 Hr1) as (res & cs & r2 & E2 & Hb2 & Hpos2 & HQ).
    exists res, (bs ++ cs), r2. split_and!; [done| | |done].
    + by rewrite <-app_assoc, <-Hb2.
    + rewrite Hpos2, Hpos, length_app. lia.
  - exists (Err e), bs, r1. by split_and!.
Qed.

Lemma read_map_safe {A B} (f : A → B) (m : Read A) (P : A → Prop) (Q : B → Prop) :
  read_safe m P → (∀ a, P a → Q (f a)) → read_safe (read_map f m) Q.
Proof.
  intros Hm HPQ r Hr. destruct (Hm r Hr) as (v & bs & r' & E & Hb & Hpos & HP).
  exists (f <$> v), bs, r'. unfold read_map. rewrite E. split_and!; [done..|].
  intros b Hb'. destruct v as [a|]; [|done]. injection Hb' as <-. auto.
Qed.

Lemma read_raw_safe n : read_safe (read_raw n) (λ bs, are_bytes bs ∧ length bs = n).
Proof.
  intros r Hr. unfold read_raw. case_decide as Hn.
  - exists (Some (take n (rd_rest r))), (take n (rd_rest r)), (mkReader (rd_pos r + Z.of_nat n)
      (drop n (rd_rest r))). simpl. rewrite take_drop, length_take.
    split_and!; [done|done|lia|]. intros a [= <-].
    split; [by apply Forall_take|rewrite length_take; lia].
  - exists None, [], r. split_and!; [done|done|simpl; lia|done].
Qed.

Lemma read_be_safe n (P : Z → Prop) :
  (∀ v, 0 <= v < 2 ^ (8 * Z.of_nat n) → P v) → read_safe (read_map be_value (read_raw n)) P.
Proof.
  intros HP. eapply read_map_safe; [apply read_raw_safe|]. intros bs [Hb <-]. apply HP.
  by apply of_digits_range.
Qed.

Lemma expect_safe {A} (m : Read A) what (P : A → Prop) : read_safe m P → safe (expect m what) P.
Proof.
  intros Hm r Hr. destruct (Hm r Hr) as (v & bs & r' & E & Hb & Hpos & HP).
  unfold expect. rewrite E. destruct v as [a|]; eexists _, bs, r'; split_and!; try done; by apply HP.
Qed.

Lemma safe_u8 what : safe (expect read_u8 what) is_u8.
Proof. by apply expect_safe, read_be_safe. Qed.
Lemma safe_u16 what : safe (expect read_u16 what) is_u16.
Proof. by apply expect_safe, read_be_safe. Qed.
Lemma safe_u32 what : safe (expect read_u32 what) is_u32.
Proof. by apply expect_safe, read_be_safe. Qed.
Lemma safe_u64 what : safe (expect read_u64 what) is_u64.
Proof. by apply expect_safe, read_be_safe. Qed.
Lemma safe_f64 what : safe (expect read_f64 what) is_u64.
Proof. apply safe_u64. Qed.
Lemma safe_i32 what : safe (expect read_i32 what) is_i32.
Proof. apply expect_safe, (read_map_safe _ _ (λ _, True)); [by apply read_be_safe|]. auto with cf. Qed.
Lemma safe_i64 what : safe (expect read_i64 what) is_i64.
Proof. apply expect_safe, (read_map_safe _ _ (λ _, True)); [by apply read_be_safe|]. auto with cf. Qed.
Lemma safe_bool what : safe (expect read_bool what) (λ _, True).
Proof. apply expect_safe, (read_map_safe _ _ (λ _, True)); [by apply read_be_safe|done]. Qed.
Lemma safe_id what : safe (expect read_id what) id_wf.
Proof.
  apply expect_safe. eapply read_map_safe; [apply read_raw_safe|].
  intros bs [Hb Hlen]. apply from_bytes_wf; [done|lia].
Qed.
Lemma safe_enum {E} `{CEnum E} what : safe (expect_enum (E:=E) what) enum_wf.
Proof. eapply safe_bind; [apply safe_u8|]. intros v Hv. by apply safe_ret, enum_of_wf. Qed.

Lemma read_count_safe max : read_safe (read_count max) (λ n, 0 <= n <= max).
Proof.
  intros r Hr. destruct (read_be_safe 4 (λ v, 0 <= v) (λ v, @proj1 _ _) r Hr)
    as (v & bs & r' & E & Hb & Hpos & HP).
  unfold read_count, read_u32. rewrite E. destruct v as [n|].
  - specialize (HP n eq_refl). destruct (Z.ltb_spec max n); eexists _, bs, r'; split_and!; try done.
    intros ? [= <-]. lia.
  - eexists _, bs, r'. by split_and!.
Qed.

Lemma read_bytes_safe max :
  read_safe (read_bytes max) (λ bs, are_bytes bs ∧ Z.of_nat (length bs) <= max).
Proof.
  intros r Hr. destruct (read_be_safe 4 (λ v, 0 <= v) (λ v, @proj1 _ _) r Hr)
    as (v & bs & r1 & E & Hb & Hpos & HP).
  unfold read_bytes, read_u32. rewrite E. destruct v as [n|]; [|by eexists _, bs, r1; split_and!].
  specialize (HP n eq_refl). destruct (Z.ltb_spec max n) as [|Hle]; [by eexists _, bs, r1; split_and!|].
  rewrite Hb in Hr. apply are_bytes_app in Hr as [_ Hr1].
  destruct (read_raw_safe (Z.to_nat n) r1 Hr1) as (v & cs & r2 & E2 & Hb2 & Hpos2 & HP2).
  exists v, (bs ++ cs), r2. split_and!; [done| | |].
  - by rewrite <-app_assoc, <-Hb2.
  - rewrite Hpos2, Hpos, length_app. lia.
  - intros a Ha. destruct (HP2 a Ha). split; [done|lia].
Qed.

Lemma safe_string max what : safe (expect (read_string max) what) (str_wf max).
Proof.
  apply expect_safe. eapply read_map_safe; [apply read_bytes_safe|].
  intros bs [Hb Hlen]. unfold str_wf.
  by rewrite <-length_bytes_of_string, bytes_of_string_of_bytes.
Qed.

Lemma safe_repeat {A} n (p : Parse A) P :
  safe p P → safe (repeat_parse n p) (λ xs, length xs = n ∧ Forall P xs).
Proof.
  intros Hp. induction n as [|n IH]; simpl; [by apply safe_ret|].
  eapply safe_bind; [done|]. intros x Hx. eapply safe_bind; [done|].
  intros xs [Hlen Hxs]. apply safe_ret. split; [simpl; lia|by constructor].
Qed.

Lemma safe_list {A} max what (p : Parse A) P :
  safe p P → safe (read_list max what p) (λ xs, Z.of_nat (length xs) <= max ∧ Forall P xs).
Proof.
  intros Hp. eapply safe_bind; [apply expect_safe, read_count_safe|]. intros n [Hn1 Hn2].
  eapply safe_weaken; [by apply safe_repeat|]. intros xs [Hlen Hxs]. split; [lia|done].
Qed.

Lemma foldl_insert_wf (P : string → string → Prop) kvs (m : gmap string string) :
  Forall (λ kv, P kv.1 kv.2) kvs → map_Forall P m →
  map_Forall P (foldl (λ m kv, <[kv.1 := kv.2]> m) m kvs) ∧
  (size (foldl (λ m kv, <[kv.1 := kv.2]> m) m kvs) <= size m + length kvs)%nat.
Proof.
  intros Hk. revert m. induction Hk as [|[k v] kvs Hkv _ IH]; intros m Hm; simpl; [split; [done|lia]|].
  destruct (IH (<[k := v]> m)) as [H1 H2]; [by apply map_Forall_insert_2|].
  split; [done|]. etrans; [exact H2|]. rewrite map_size_insert.
  destruct (m !! k); simpl; lia.
Qed.

Lemma safe_tags max_list max_str what1 what2 :
  safe (read_tags max_list max_str what1 what2) (tags_wf max_list max_str).
Proof.
  eapply safe_bind.
  - apply (safe_list _ _ _ (λ kv, str_wf max_str kv.1 ∧ str_wf max_str kv.2)).
    eapply safe_bind; [apply safe_string|]. intros k Hk.
    eapply safe_bind; [apply safe_string|]. intros v Hv. by apply safe_ret.
  - intros kvs [Hlen Hkvs]. apply safe_ret.
    destruct (foldl_insert_wf (λ k v, str_wf max_str k ∧ str_wf max_str v) kvs ∅) as [H1 H2];
      [done|done|]. split; [|done]. rewrite map_size_empty in H2. lia.
Qed.

(** ** Optional values, blobs and narrowed integers *)

(** [read_optional_id] and [write_optional_id] of serialize.cpp *)
Definition read_optional_id : Read (option Id128) := λ r,
  match read_u8 r with
  | (None, r) => (None, r)
  | (Some present, r) =>
      if negb (present =? 0) then read_map Some read_id r else (Some None, r)
  end.
Definition write_optional_id (v : option Id128) : bytes :=
  match v with
  | Some id => put_u8 1 ++ put_id id
  | None => put_u8 0
  end.

(** A flag byte with its own error message, then the value. *)
Definition expect_optional {A} (flag_what : string) (p : Parse A) : Parse (option A) :=
  flag ← expect read_u8 flag_what;
  if negb (flag =? 0) then (a ← p; mret (Some a)) else mret None.
Definition put_optional {A} (put : A → bytes) (v : option A) : bytes :=
  put_bool (bool_decide (is_Some v)) ++ match v with Some a => put a | None => [] end.

(** A counted blob read with [read_raw_bytes]. *)
Definition read_blob (max : Z) (len_what what : string) : Parse bytes :=
  n ← expect (read_count max) len_what; expect (read_raw_bytes n) what.
Definition put_blob (bs : bytes) : bytes :=
  put_u32 (u32 (Z.of_nat (length bs))) ++ put_bytes bs.

Definition list_wf {A} (max : Z) (P : A → Prop) (xs : list A) : Prop :=
  Z.of_nat (length xs) <= max ∧ Forall P xs.
Definition option_wf {A} (P : A → Prop) (v : option A) : Prop :=
  match v with Some a => P a | None => True end.

Definition blob_wf (max : Z) (bs : bytes) : Prop :=
  are_bytes bs ∧ Z.of_nat (length bs) <= max.

Lemma reads_list_wf {A} (p : Parse A) (put : A → bytes) (P : A → Prop) xs max what :
  0 <= max < 4294967296 → (∀ x, P x → reads p (put x) x) → list_wf max P xs →
  reads (read_list max what p) (put_list put xs) xs.
Proof. intros Hmax Hp [Hlen Hxs]. apply reads_list; [done..|]. by eapply Forall_impl. Qed.

Lemma reads_optional_id v what :
  option_wf id_wf v → reads (expect read_optional_id what) (write_optional_id v) v.
Proof.
  intros Hv. apply expect_read_raw. intros pos rest. unfold read_optional_id.
  unfold write_optional_id. destruct v as [id|].
  - rewrite <-app_assoc, read_u8_app by done. change (negb (1 =? 0)) with true. cbv iota.
    pose proof (reads_id id what Hv (pos + 1) rest) as H. unfold expect in H.
    destruct (read_id _) as [[v|] r] eqn:E; [|done]. injection H as -> ->.
    erewrite read_map_Some by exact E. rewrite length_app. f_equal. f_equal. simpl length. lia.
  - by rewrite read_u8_app.
Qed.

Lemma reads_optional {A} (p : Parse A) (put : A → bytes) v what (P : A → Prop) :
  (∀ a, P a → reads p (put a) a) → option_wf P v →
  reads (expect_optional what p) (put_optional put v) v.
Proof.
  intros Hp Hv. unfold expect_optional, put_optional, put_bool. destruct v as [a|];
    [change (bool_decide (is_Some (Some a))) with true
    |change (bool_decide (is_Some (@None A))) with false]; cbv iota.
  - eapply reads_bind; [by apply reads_u8|]. simpl. eapply reads_last; [by apply Hp|done].
  - eapply reads_bind; [by apply reads_u8|]. apply reads_ret.
Qed.

Lemma reads_blob bs max what1 what2 :
  0 <= max < 4294967296 → blob_wf max bs →
  reads (read_blob max what1 what2) (put_blob bs) bs.
Proof.
  intros Hmax [_ Hlen]. unfold read_blob, put_blob. eapply reads_bind; [by apply reads_count|].
  apply expect_read_raw. intros pos rest. unfold read_raw_bytes. rewrite Nat2Z.id.
  by apply read_raw_app.
Qed.

Lemma reads_u8_cast v what : is_u8 v → reads (expect read_u8 what) (put_u8 (u8 v)) v.
Proof. intros Hv. rewrite u8_id by done. by apply reads_u8. Qed.

Lemma read_optional_id_safe : read_safe read_optional_id (option_wf id_wf).
Proof.
  intros r Hr. destruct (read_be_safe 1 (λ _, True) (λ _ _, I) r Hr)
    as (v & bs & r1 & E & Hb & Hpos & _).
  unfold read_optional_id, read_u8. rewrite E.
  destruct v as [n|]; [|by eexists _, bs, r1; split_and!].
  destruct (negb (n =? 0)); [|eexists _, bs, r1; split_and!; try done; by intros ? [= <-]].
  rewrite Hb in Hr. apply are_bytes_app in Hr as [_ Hr1].
  assert (Hid : read_safe (read_map Some read_id) (option_wf id_wf)).
  { eapply read_map_safe; [|by intros id Hid; exact Hid].
    eapply read_map_safe; [apply read_raw_safe|]. intros cs [? ?]. apply from_bytes_wf; [done|lia]. }
  destruct (Hid r1 Hr1) as (v & cs & r2 & E2 & Hb2 & Hpos2 & HP2).
  exists v, (bs ++ cs), r2. split_and!; [done| | |done].
  - by rewrite <-app_assoc, <-Hb2.
  - rewrite Hpos2, Hpos, length_app. lia.
Qed.
Lemma safe_optional_id what : safe (expect read_optional_id what) (option_wf id_wf).
Proof. apply expect_safe, read_optional_id_safe. Qed.

Lemma safe_optional {A} (p : Parse A) what (P : A → Prop) :
  safe p P → safe (expect_optional what p) (option_wf P).
Proof.
  intros Hp. eapply safe_bind; [apply safe_u8|]. intros flag _.
  destruct (negb (flag =? 0)); [|by apply safe_ret].
  eapply safe_bind; [done|]. intros a Ha. by apply safe_ret.
Qed.

Lemma safe_blob max what1 what2 :
  safe (read_blob max what1 what2) (blob_wf max).
Proof.
  eapply safe_bind; [apply expect_safe, read_count_safe|]. intros n [Hn1 Hn2].
  apply expect_safe. intros r Hr.
  destruct (read_raw_safe (Z.to_nat n) r Hr) as (v & cs & r2 & E2 & Hb2 & Hpos2 & HP2).
  exists v, cs, r2. split_and!; [done..|]. intros a Ha. destruct (HP2 a Ha). split; [done|lia].
Qed.

(** ** Automation

    [wire_reads] proves a round trip field by field and [wire_safe] a safety
    statement; both use the database [wire], to which a component adds the
    lemmas of its own types. *)

Create HintDb wire.
#[export] Hint Resolve reads_u8 reads_u16 reads_u32 reads_u64 reads_f64 reads_i32 reads_i64
  reads_bool reads_id reads_string reads_enum reads_tags reads_optional_id reads_blob
  reads_u8_cast : wire.
#[export] Hint Resolve safe_u8 safe_u16 safe_u32 safe_u64 safe_f64 safe_i32 safe_i64 safe_bool
  safe_id safe_enum safe_string safe_list safe_tags safe_optional_id safe_optional safe_blob : wire.
#[export] Hint Extern 1 (0 <= _ < 4294967296) => vm_compute; split; congruence : wire.
#[export] Hint Extern 2 (reads (read_list _ _ _) _ _) => eapply reads_list_wf : wire.
#[export] Hint Extern 2 (reads (expect_optional _ _) _ _) => eapply reads_optional : wire.

Ltac wire_reads :=
  repeat lazymatch goal with
  | |- reads (_ ≫= _) (_ ++ _) _ => eapply reads_bind; [solve [eauto with wire]|]
  | |- reads (_ ≫= _) _ _ => eapply reads_last; [solve [eauto with wire]|]
  | |- reads (mret _) [] _ => apply reads_ret
  end.

Ltac wire_safe :=
  repeat lazymatch goal with
  | |- safe (_ ≫= _) _ => eapply safe_bind; [solve [eauto with wire]|]; intros ? ?
  | |- safe (mret _) _ => apply safe_ret
  end.

(** The two lemmas of a record type, from its definitions. *)
Tactic Notation "solve_reads" reference(wf) reference(ser) reference(des) :=
  unfold wf, ser, des; intros; destruct_and?; wire_reads;
  lazymatch goal with |- _ = mret ?m => by destruct m end.
Tactic Notation "solve_safe" reference(des) :=
  unfold des; wire_safe;
  lazymatch goal with |- ?wf _ => unfold wf end; simpl; by split_and?.

(** Well-formedness of concrete values, by evaluation. *)
Ltac range_solve := split; vm_compute; congruence.
Ltac wf_field :=
  lazymatch goal with
  | |- enum_wf _ => enum_wf_solve
  | |- id_wf _ => split; range_solve
  | |- str_wf _ _ => vm_compute; congruence
  | |- list_wf _ _ _ =>
      split; [vm_compute; congruence
             |repeat first [apply Forall_nil_2 | apply Forall_cons_2; [wf_field|]]]
  | |- tags_wf _ _ _ => split; [vm_compute; congruence|apply map_Forall_empty]
  | |- option_wf _ _ => first [exact I|unfold option_wf; cbn; wf_field]
  | |- blob_wf _ _ => split; [repeat constructor; range_solve|vm_compute; congruence]
  | |- _ => range_solve
  end.
