(* ===== verification/Frame.v ===== *)
(** * Frame: network framing (protocol/frame.h, frame.cpp)

    A header is 45 big-endian bytes whose last four are a CRC-32 of the other
    41 followed by four zero bytes; the payload has a CRC-32 of its own.  The
    pointer [p] of [decode_header] is the list of the bytes it still has in
    front of it. *)

From S2P Require Import Prelude Status Ids Digest Float64 Task Wire.

Local Open Scope Z_scope.

Definition kFrameMagic : Z := 0x434F4D50.
Definition kProtocolVersion : Z := 1.
Definition kMaxFramePayload : Z := 8388608.
Definition kHeaderSize : nat := 45.

Inductive SenderKind : Set :=
| SK_Node
| SK_Client
| SK_Coordinator
| SK_raw (v : Z).

#[export] Instance SenderKind_eq_dec : EqDecision SenderKind.
Proof. solve_decision. Defined.

Definition SenderKind_to_u8 (k : SenderKind) : Z :=
  match k with SK_Node => 1 | SK_Client => 2 | SK_Coordinator => 3 | SK_raw v => v end.
Definition SenderKind_of_u8 (v : Z) : SenderKind :=
  match v with 1 => SK_Node | 2 => SK_Client | 3 => SK_Coordinator | _ => SK_raw v end.

#[export] Program Instance SenderKind_enum : CEnum SenderKind :=
  {| enum_to := SenderKind_to_u8; enum_of := SenderKind_of_u8 |}.
Next Obligation. intros v Hv. unfold SenderKind_of_u8. repeat case_match; reflexivity. Qed.

Record FrameHeader := mkFrameHeader {
  fh_magic : Z;              (* uint32_t *)
  fh_version : Z;            (* uint16_t *)
  fh_message_type : Z;       (* uint16_t *)
  fh_request_id : Z;         (* uint64_t *)
  fh_sender_kind : SenderKind;
  fh_sender_id : Id128;
  fh_payload_length : Z;     (* uint32_t *)
  fh_payload_checksum : Z;   (* uint32_t *)
  fh_header_checksum : Z     (* uint32_t *)
}.

Record Frame := mkFrame { fr_header : FrameHeader; fr_payload : bytes }.

(** ** Encoding and decoding *)

Definition encode_header (h : FrameHeader) : bytes :=
  be_bytes 4 (fh_magic h) ++ be_bytes 2 (fh_version h) ++ be_bytes 2 (fh_message_type h)
  ++ be_bytes 8 (fh_request_id h) ++ [SenderKind_to_u8 (fh_sender_kind h)]
  ++ to_bytes (fh_sender_id h) ++ be_bytes 4 (fh_payload_length h)
  ++ be_bytes 4 (fh_payload_checksum h) ++ be_bytes 4 (fh_header_checksum h).

(** [get_be_u16], [get_be_u32], [get_be_u64] *)
Definition get_be (n : nat) (p : bytes) : option (Z * bytes) :=
  if decide (n ≤ length p)%nat then Some (be_value (take n p), drop n p) else None.

Definition get_field (n : nat) (what : string) (p : bytes) : Result (Z * bytes) :=
  match get_be n p with
  | Some vp => Ok vp
  | None => err EMalformedFrame what
  end.

(** [memset(tmp + kHeaderSize - 4, 0, 4)] *)
Definition clear_checksum (b : bytes) : bytes := take (kHeaderSize - 4) b ++ replicate 4 0.

Definition decode_header (inp : bytes) : Result FrameHeader :=
  if negb (Nat.eqb (length inp) kHeaderSize) then err EMalformedFrame "header size mismatch"
  else
    f1 <-- get_field 4 "truncated magic" inp ;;;
    f2 <-- get_field 2 "truncated version" f1.2 ;;;
    f3 <-- get_field 2 "truncated message type" f2.2 ;;;
    f4 <-- get_field 8 "truncated request id" f3.2 ;;;
    let sk := be_value (take 1 f4.2) in
    let p := drop 16 (drop 1 f4.2) in
    f5 <-- get_field 4 "truncated payload length" p ;;;
    f6 <-- get_field 4 "truncated payload checksum" f5.2 ;;;
    f7 <-- get_field 4 "truncated header checksum" f6.2 ;;;
    if negb (bool_decide (f7.2 = [])) then err EMalformedFrame "header trailing bytes"
    else if negb (f1.1 =? kFrameMagic) then err EMalformedFrame "bad magic"
    else if kMaxFramePayload <? f5.1 then
      err EMalformedFrame "payload exceeds maximum frame size"
    else if negb (crc32_compute (clear_checksum inp) =? f7.1) then
      err EMalformedFrame "header checksum mismatch"
    else
      Ok (mkFrameHeader f1.1 f2.1 f3.1 f4.1 (SenderKind_of_u8 sk)
            (from_bytes (take 16 (drop 17 inp))) f5.1 f6.1 f7.1).

Definition make_frame (message_type : Z) (sender_kind : SenderKind) (sender_id : Id128)
    (request_id : Z) (payload : bytes) : Frame :=
  let h0 := mkFrameHeader kFrameMagic kProtocolVersion message_type request_id sender_kind
              sender_id (u32 (Z.of_nat (length payload))) (crc32_compute payload) 0 in
  let sum := crc32_compute (clear_checksum (encode_header h0)) in
  mkFrame (mkFrameHeader kFrameMagic kProtocolVersion message_type request_id sender_kind
             sender_id (u32 (Z.of_nat (length payload))) (crc32_compute payload) sum)
          payload.

Definition validate_frame (f : Frame) : Result unit :=
  let h := fr_header f in
  if negb (fh_magic h =? kFrameMagic) then err EMalformedFrame "bad magic"
  else if negb (fh_version h =? kProtocolVersion) then
    err EProtocolVersionMismatch "unsupported protocol version"
  else if negb (fh_payload_length h =? Z.of_nat (length (fr_payload f))) then
    err EMalformedFrame "payload length mismatch"
  else if kMaxFramePayload <? fh_payload_length h then
    err EMalformedFrame "payload exceeds maximum frame size"
  else if negb (crc32_compute (fr_payload f) =? fh_payload_checksum h) then
    err EMalformedFrame "payload checksum mismatch"
  else Ok tt.

Definition frame_error_detail (r : Result unit) : string :=
  match r with Ok _ => "ok" | Err e => err_message e end.

(** ** Facts *)

Definition header_wf (h : FrameHeader) : Prop :=
  is_u32 (fh_magic h) ∧ is_u16 (fh_version h) ∧ is_u16 (fh_message_type h) ∧
  is_u64 (fh_request_id h) ∧ enum_wf (fh_sender_kind h) ∧ id_wf (fh_sender_id h) ∧
  is_u32 (fh_payload_length h) ∧ is_u32 (fh_payload_checksum h) ∧ is_u32 (fh_header_checksum h).

(** The 41 bytes before the checksum. *)
Definition header_body (h : FrameHeader) : bytes :=
  be_bytes 4 (fh_magic h) ++ be_bytes 2 (fh_version h) ++ be_bytes 2 (fh_message_type h)
  ++ be_bytes 8 (fh_request_id h) ++ [SenderKind_to_u8 (fh_sender_kind h)]
  ++ to_bytes (fh_sender_id h) ++ be_bytes 4 (fh_payload_length h)
  ++ be_bytes 4 (fh_payload_checksum h).

Lemma encode_header_body h : encode_header h = header_body h ++ be_bytes 4 (fh_header_checksum h).
Proof. unfold encode_header, header_body. by rewrite <-!app_assoc. Qed.

Lemma length_header_body h : length (header_body h) = 41%nat.
Proof. unfold header_body. by rewrite !length_app, !length_be_bytes, to_bytes_length. Qed.

Lemma length_encode_header h : length (encode_header h) = kHeaderSize.
Proof. by rewrite encode_header_body, length_app, length_header_body, length_be_bytes. Qed.

Lemma clear_checksum_app body sum :
  length body = 41%nat → clear_checksum (body ++ sum) = body ++ replicate 4 0.
Proof. intros Hl. unfold clear_checksum. by rewrite take_app_length' by (by rewrite Hl). Qed.

Lemma get_field_be n what v rest :
  0 <= v < 2 ^ (8 * Z.of_nat n) → get_field n what (be_bytes n v ++ rest) = Ok (v, rest).
Proof.
  intros Hv. unfold get_field, get_be.
  rewrite decide_True by (rewrite length_app, length_be_bytes; lia).
  rewrite take_app_length', drop_app_length' by (by rewrite length_be_bytes).
  by rewrite be_value_be_bytes.
Qed.

Arguments get_field : simpl never.
Arguments clear_checksum : simpl never.
Arguments crc32_compute : simpl never.

(** Decoding an encoded header checks the magic, the size bound and the checksum. *)
Lemma decode_encode_header h :
  header_wf h →
  decode_header (encode_header h) =
  if negb (fh_magic h =? kFrameMagic) then err EMalformedFrame "bad magic"
  else if kMaxFramePayload <? fh_payload_length h then
    err EMalformedFrame "payload exceeds maximum frame size"
  else if negb (crc32_compute (header_body h ++ replicate 4 0) =? fh_header_checksum h) then
    err EMalformedFrame "header checksum mismatch"
  else Ok h.
Proof.
  intros (H1 & H2 & H3 & H4 & [H5 H5'] & H6 & H7 & H8 & H9).
  unfold decode_header. rewrite length_encode_header, Nat.eqb_refl. cbn [negb].
  rewrite (encode_header_body h), clear_checksum_app by apply length_header_body.
  rewrite <-(encode_header_body h). set (crc := crc32_compute _).
  assert (Hid : from_bytes (take 16 (drop 17 (encode_header h))) = fh_sender_id h).
  { set (pre := be_bytes 4 (fh_magic h) ++ be_bytes 2 (fh_version h) ++
      be_bytes 2 (fh_message_type h) ++ be_bytes 8 (fh_request_id h) ++
      [SenderKind_to_u8 (fh_sender_kind h)]).
    assert (∃ post, encode_header h = pre ++ to_bytes (fh_sender_id h) ++ post) as [post ->].
    { eexists. unfold encode_header, pre. rewrite <-!app_assoc. reflexivity. }
    rewrite drop_app_length' by (unfold pre; by rewrite !length_app, !length_be_bytes).
    rewrite take_app_length' by (by rewrite to_bytes_length).
    rewrite <-(app_nil_r (to_bytes _)). by apply from_bytes_to_bytes. }
  rewrite Hid. unfold encode_header.
  do 4 (rewrite get_field_be by done; cbn [result_bind fst snd]).
  rewrite (take_app_length' [_]), (drop_app_length' [_]), drop_app_length'
    by (by rewrite ?to_bytes_length).
  do 2 (rewrite get_field_be by done; cbn [result_bind fst snd]).
  rewrite <-(app_nil_r (be_bytes 4 (fh_header_checksum h))), get_field_be by done.
  cbn [result_bind fst snd]. rewrite bool_decide_true by done. cbn [negb].
  assert (SenderKind_of_u8 (be_value [SenderKind_to_u8 (fh_sender_kind h)]) = fh_sender_kind h) as ->.
  { unfold be_value, of_digits. simpl. by rewrite Z.shiftl_0_l, Z.lor_0_l. }
  replace (mkFrameHeader _ _ _ _ _ _ _ _ _) with h by (by destruct h). reflexivity.
Qed.

Section made.
Context (message_type : Z) (kind : SenderKind) (sender : Id128) (request_id : Z) (payload : bytes).
Context (Htype : is_u16 message_type) (Hkind : enum_wf kind) (Hsender : id_wf sender)
  (Hreq : is_u64 request_id) (Hlen : Z.of_nat (length payload) <= kMaxFramePayload).

Abbreviation f := (make_frame message_type kind sender request_id payload).

Lemma made_length : u32 (Z.of_nat (length payload)) = Z.of_nat (length payload).
Proof using Hlen. apply u32_id. unfold kMaxFramePayload in Hlen. int_solve. Qed.

Lemma made_header_wf : header_wf (fr_header f).
Proof using Htype Hkind Hsender Hreq.
  unfold header_wf, make_frame. cbn [fr_header fh_magic fh_version fh_message_type fh_request_id
    fh_sender_kind fh_sender_id fh_payload_length fh_payload_checksum fh_header_checksum].
  split_and!; auto with cf; done.
Qed.

Lemma made_checksum :
  crc32_compute (header_body (fr_header f) ++ replicate 4 0) = fh_header_checksum (fr_header f).
Proof.
  unfold make_frame. cbn [fr_header fh_header_checksum].
  rewrite encode_header_body, clear_checksum_app by apply length_header_body. done.
Qed.

Lemma made_decodes : decode_header (encode_header (fr_header f)) = Ok (fr_header f).
Proof using Htype Hkind Hsender Hreq Hlen.
  rewrite decode_encode_header by apply made_header_wf.
  rewrite made_checksum.
  assert (fh_magic (fr_header f) = kFrameMagic) as -> by done.
  assert (fh_payload_length (fr_header f) = Z.of_nat (length payload)) as -> by apply made_length.
  rewrite !Z.eqb_refl. by replace (kMaxFramePayload <? _) with false by lia.
Qed.

Lemma made_validates : validate_frame f = Ok tt.
Proof using Hlen.
  unfold validate_frame, make_frame. cbn [fr_header fr_payload fh_magic fh_version
    fh_payload_length fh_payload_checksum]. rewrite made_length, !Z.eqb_refl.
  by replace (kMaxFramePayload <? _) with false by lia.
Qed.
End made.

(** What an accepted header satisfies, and that every rejection is
    [MalformedFrame]. *)
Lemma get_field_inv n what p v : get_field n what p = Ok v → v = (be_value (take n p), drop n p).
Proof. unfold get_field, get_be. case_decide; [|done]. by intros [= <-]. Qed.

Lemma decode_header_inv inp h :
  decode_header inp = Ok h →
  length inp = kHeaderSize ∧ crc32_compute (clear_checksum inp) = be_value (drop 41 inp).
Proof.
  unfold decode_header. destruct (Nat.eqb_spec (length inp) kHeaderSize) as [Hl|]; [|done].
  cbn [negb]. intros Hd. split; [done|].
  repeat match type of Hd with
  | result_bind (get_field ?n ?w ?p) _ = _ =>
      let E := fresh "E" in
      destruct (get_field n w p) as [?|] eqn:E; [|done]; cbn [result_bind] in Hd;
      apply get_field_inv in E; subst; cbn [fst snd] in Hd
  end.
  do 3 (case_match; [done|]). case_match eqn:Hc; [done|]. clear Hd.
  apply negb_false_iff, Z.eqb_eq in Hc. rewrite Hc. rewrite !drop_drop. f_equal.
  apply firstn_all2. rewrite length_drop, Hl. done.
Qed.

Lemma decode_header_err inp e :
  decode_header inp = Err e → ∃ msg, Err (A:=FrameHeader) e = err EMalformedFrame msg.
Proof.
  unfold decode_header, get_field. intros Hd.
  repeat (case_match; simpl in Hd; try (injection Hd as <-; by eexists)); done.
Qed.

(** ** Claims *)

(** Framing round trip.  The header of a frame built by [make_frame] decodes
    back to itself from its 45 encoded bytes, and the frame passes
    [validate_frame], for every payload up to the 8 MiB limit. *)
Theorem frame_roundtrip (message_type : Z) (kind : SenderKind) (sender : Id128)
    (request_id : Z) (payload : bytes) :
  is_u16 message_type → enum_wf kind → id_wf sender → is_u64 request_id →
  Z.of_nat (length payload) <= kMaxFramePayload →
  let f := make_frame message_type kind sender request_id payload in
  length (encode_header (fr_header f)) = kHeaderSize ∧
  decode_header (encode_header (fr_header f)) = Ok (fr_header f) ∧
  validate_frame f = Ok tt.
Proof.
  intros. split_and!; [apply length_encode_header|by apply made_decodes|by apply made_validates].
Qed.

Lemma frame_roundtrip_witness :
  let f := make_frame 10 SK_Client (mkId 1 2) 7 [1; 2; 3] in
  length (encode_header (fr_header f)) = kHeaderSize ∧
  decode_header (encode_header (fr_header f)) = Ok (fr_header f) ∧
  validate_frame f = Ok tt.
Proof.
  apply (frame_roundtrip 10 SK_Client (mkId 1 2) 7 [1; 2; 3]); try (vm_compute; split; congruence);
    [enum_wf_solve|split; vm_compute; split; congruence|vm_compute; congruence].
Defined.

(** C39: damage to a payload is detected.  Changing any run of at most four
    consecutive payload bytes of a frame that validates makes [validate_frame]
    report a payload checksum mismatch. *)
Theorem payload_damage_detected (h : FrameHeader) (pre bs bs' post : bytes) :
  validate_frame (mkFrame h (pre ++ bs ++ post)) = Ok tt →
  length bs = length bs' → (length bs <= 4)%nat → are_bytes bs → are_bytes bs' → bs ≠ bs' →
  validate_frame (mkFrame h (pre ++ bs' ++ post)) =
  err EMalformedFrame "payload checksum mismatch".
Proof.
  intros Hv Hlen H4 Hb Hb' Hne. unfold validate_frame in *. cbn [fr_header fr_payload] in *.
  rewrite !length_app, <-Hlen in *.
  repeat (case_match; [discriminate Hv|]). clear Hv.
  destruct (Z.eqb_spec (crc32_compute (pre ++ bs' ++ post)) (fh_payload_checksum h)) as [E|]; [|done].
  exfalso. apply Hne. apply (crc32_burst pre _ _ post); try done.
  rewrite E. apply Z.eqb_eq. by apply negb_false_iff.
Qed.

Lemma payload_damage_witness :
  validate_frame (mkFrame (fr_header (make_frame 10 SK_Client (mkId 1 2) 7 [1; 2; 3])) [1; 9; 3]) =
  err EMalformedFrame "payload checksum mismatch".
Proof.
  apply (payload_damage_detected (fr_header (make_frame 10 SK_Client (mkId 1 2) 7 [1; 2; 3]))
           [1] [2] [9] [3]); try (vm_compute; reflexivity); try (simpl; lia); try congruence;
    repeat constructor; vm_compute; congruence.
Defined.

(** Damage to a header is detected.  Replacing a run of at most four
    consecutive bytes among the 41 protected bytes of a header that decodes, or
    its checksum field, by different bytes makes [decode_header] fail with
    [MalformedFrame]; a damaged header is never decoded as another one. *)
Theorem header_damage_detected (pre bs bs' post sum sum' : bytes) (h : FrameHeader) :
  decode_header (pre ++ bs ++ post ++ sum) = Ok h →
  length (pre ++ bs ++ post) = 41%nat → length bs = length bs' → (length bs <= 4)%nat →
  length sum = length sum' →
  are_bytes bs → are_bytes bs' → are_bytes sum → are_bytes sum' →
  (bs ≠ bs' ∧ sum = sum') ∨ (bs = bs' ∧ sum ≠ sum') →
  ∃ msg, decode_header (pre ++ bs' ++ post ++ sum') = err EMalformedFrame msg.
Proof.
  intros Hd H41 Hlen H4 Hslen Hb Hb' Hs Hs' Hdiff.
  destruct (decode_header_inv _ _ Hd) as (Htot & Hsum).
  destruct (decode_header (pre ++ bs' ++ post ++ sum')) as [h'|e] eqn:Hd'.
  - exfalso. destruct (decode_header_inv _ _ Hd') as (_ & Hsum').
    assert (H41' : length (pre ++ bs' ++ post) = 41%nat)
      by (rewrite !length_app in *; lia).
    assert (Hassoc : ∀ b s, pre ++ b ++ post ++ s = (pre ++ b ++ post) ++ s)
      by (intros; by rewrite <-!app_assoc).
    rewrite !Hassoc in Hsum, Hsum', Htot.
    rewrite clear_checksum_app, drop_app_length' in Hsum, Hsum' by done.
    destruct Hdiff as [[Hne <-]|[<- Hne]]; apply Hne.
    + rewrite <-Hsum' in Hsum. rewrite <-!app_assoc in Hsum. by apply crc32_burst in Hsum.
    + rewrite Hsum in Hsum'. rewrite <-(be_bytes_be_value sum), <-(be_bytes_be_value sum') by done.
      by rewrite Hslen, Hsum'.
  - destruct (decode_header_err _ _ Hd') as [msg ->]. by exists msg.
Qed.

Definition sample_header : FrameHeader := fr_header (make_frame 10 SK_Client (mkId 1 2) 7 [1; 2; 3]).
Definition sample_bytes : bytes := Eval vm_compute in encode_header sample_header.

Lemma header_damage_witness :
  ∃ msg, decode_header (take 8 sample_bytes ++ [255] ++ drop 9 (take 41 sample_bytes)
                        ++ drop 41 sample_bytes) = err EMalformedFrame msg.
Proof.
  apply (header_damage_detected (take 8 sample_bytes) [0] [255] (drop 9 (take 41 sample_bytes))
           (drop 41 sample_bytes) (drop 41 sample_bytes) sample_header);
    try (vm_compute; reflexivity); try (simpl; lia);
    try (repeat constructor; vm_compute; congruence).
Defined.
