(* ===== verification/Socket.v ===== *)
(** * Socket: sockets (net/socket.h, net/socket.cpp)

    The operating system is the environment: what the coming calls of [::recv] and
    [::send] return is data of the socket ([RecvEvent], [SendEvent]), in the cases
    the POSIX branches of the source distinguish; [::send] appends what it accepts
    to [sk_written].  The readings of [now_millis] are a function of their number.
    The handle's life is a state machine shared by the threads that use a socket
    ([SocketState]): an operation is counted while it runs, and closing waits for
    the count to reach zero. *)

From S2P Require Import Prelude Status.

Local Open Scope Z_scope.

(** ** The life of a handle *)

Abbreviation SocketHandle := Z (only parsing).

Record SocketState := mkSocketState {
  ss_handle : option SocketHandle;    (* [None]: kInvalid *)
  ss_active_operations : nat;
  ss_closing : bool
}.

Definition new_state (h : SocketHandle) : SocketState := mkSocketState (Some h) 0 false.

(** The constructor of [ActiveSocketOperation]: [None] when it is not acquired. *)
Definition begin_operation (s : SocketState) : option (SocketHandle * SocketState) :=
  match ss_handle s with
  | Some h =>
      if ss_closing s then None
      else Some (h, mkSocketState (Some h) (S (ss_active_operations s)) false)
  | None => None
  end.

(** Its destructor. *)
Definition end_operation (s : SocketState) : SocketState :=
  mkSocketState (ss_handle s) (pred (ss_active_operations s)) (ss_closing s).

(** The first critical section of [close_state]: [None] when another thread closes
    or has closed the handle. *)
Definition close_begin (s : SocketState) : option (SocketHandle * SocketState) :=
  match ss_handle s with
  | Some h =>
      if ss_closing s then None
      else Some (h, mkSocketState (Some h) (ss_active_operations s) true)
  | None => None
  end.

(** The last one, entered when no operation is active, with [native_close]. *)
Definition close_end (s : SocketState) : option SocketState :=
  if Nat.eqb (ss_active_operations s) 0 then Some (mkSocketState None 0 false) else None.

Definition state_valid (s : SocketState) : bool :=
  negb (ss_closing s) && bool_decide (is_Some (ss_handle s)).
Definition state_handle (s : SocketState) : option SocketHandle :=
  if ss_closing s then None else ss_handle s.

(** Threads that share the socket: the handles the running operations hold, the
    handle a thread is closing, the [native_close] calls made. *)
Record SocketSystem := mkSystem {
  sy_state : SocketState;
  sy_using : list SocketHandle;
  sy_closing : option SocketHandle;
  sy_closed : list SocketHandle
}.

Inductive socket_step : SocketSystem → SocketSystem → Prop :=
| step_begin s u c k h s' :
    begin_operation s = Some (h, s') →
    socket_step (mkSystem s u c k) (mkSystem s' (h :: u) c k)
| step_end s u1 h u2 c k :
    socket_step (mkSystem s (u1 ++ h :: u2) c k) (mkSystem (end_operation s) (u1 ++ u2) c k)
| step_close_begin s u c k h s' :
    close_begin s = Some (h, s') →
    socket_step (mkSystem s u c k) (mkSystem s' u (Some h) k)
| step_close_end s u h k s' :
    close_end s = Some s' →
    socket_step (mkSystem s u (Some h) k) (mkSystem s' u None (k ++ [h])).

Record system_ok (h : SocketHandle) (y : SocketSystem) : Prop := {
  sok_count : ss_active_operations (sy_state y) = length (sy_using y);
  sok_using : Forall (λ x, x = h) (sy_using y);
  sok_life : (ss_handle (sy_state y) = Some h ∧ sy_closed y = [] ∧
              sy_closing y = (if ss_closing (sy_state y) then Some h else None)) ∨
             (ss_handle (sy_state y) = None ∧ sy_closed y = [h] ∧ sy_using y = [] ∧
              sy_closing y = None ∧ ss_closing (sy_state y) = false)
}.

Lemma socket_step_ok h y y' : socket_step y y' → system_ok h y → system_ok h y'.
Proof.
  intros Hs [Hc Hu Hl]. destruct Hs as [s u c k g s' E|s u1 g u2 c k|s u c k g s' E|s u g k s' E];
    cbn [sy_state sy_using sy_closing sy_closed] in *.
  - unfold begin_operation in E. destruct (ss_handle s) as [g'|] eqn:Eh; [|done].
    destruct (ss_closing s) eqn:Ec; [done|]. injection E as <- <-.
    destruct Hl as [([= ->] & Hk & Hcl)|(? & _)]; [|done].
    split; cbn; [by rewrite Hc|by constructor|left; done].
  - apply Forall_app in Hu as [Hu1 [-> Hu2]%Forall_cons].
    split; cbn [end_operation sy_state sy_using sy_closing sy_closed ss_handle ss_active_operations ss_closing].
    + rewrite Hc, !length_app. cbn [length]. lia.
    + by apply Forall_app.
    + destruct Hl as [?|(_ & _ & Hnil & _)]; [by left|]. by destruct u1.
  - unfold close_begin in E. destruct (ss_handle s) as [g'|] eqn:Eh; [|done].
    destruct (ss_closing s) eqn:Ec; [done|]. injection E as <- <-.
    destruct Hl as [([= ->] & Hk & Hcl)|(? & _)]; [|done]. split; cbn; [done..|by left].
  - unfold close_end in E. destruct (Nat.eqb_spec (ss_active_operations s) 0) as [E0|]; [|done].
    injection E as <-. assert (u = []) as -> by (apply nil_length_inv; lia).
    destruct Hl as [(Eh & -> & Hcl)|(_ & _ & _ & ? & _)]; [|done].
    destruct (ss_closing s); [|done]. injection Hcl as ->. split; cbn; [done..|by right].
Qed.

(** ** Input and output *)

(** What a call of [::recv] returns. *)
Inductive RecvEvent :=
| RE_Bytes (b : bytes)      (* n > 0 bytes are there; empty: n = 0, the peer closed *)
| RE_Interrupted            (* EINTR *)
| RE_Again                  (* EAGAIN, EWOULDBLOCK: the timeout passed *)
| RE_Reset                  (* ECONNRESET, ENOTCONN *)
| RE_Other (what : string)  (* any other errno *)
| RE_NoTimeout (what : string).  (* setsockopt failed *)

(** What a call of [::send] returns. *)
Inductive SendEvent :=
| SE_Sent (n : nat)
| SE_Interrupted
| SE_Again
| SE_Reset                  (* EPIPE, ECONNRESET, ENOTCONN *)
| SE_Other (what : string)
| SE_NoTimeout (what : string).

Record Socket := mkSocket {
  sk_state : SocketState;
  sk_recv : list RecvEvent;
  sk_send : list SendEvent;
  sk_written : bytes
}.

Definition set_recv (r : list RecvEvent) (s : Socket) : Socket :=
  mkSocket (sk_state s) r (sk_send s) (sk_written s).
Definition socket_valid (s : Socket) : bool := state_valid (sk_state s).

(** [TcpSocket::close], alone on the socket. *)
Definition socket_close (s : Socket) : Socket :=
  mkSocket (mkSocketState None 0 false) (sk_recv s) (sk_send s) (sk_written s).

Section clock.
Context (clock : nat → Z).

(** The loop of [send_all]; a socket with no more events accepts nothing more. *)
Fixpoint send_loop (events : list SendEvent) (data : bytes) (deadline : Z) (written : bytes)
    (ticks : nat) : Result unit * list SendEvent * bytes * nat :=
  match data with
  | [] => (Ok tt, events, written, ticks)
  | _ =>
      if deadline - clock ticks <=? 0 then (err ETimeout "send timeout", events, written, S ticks)
      else
        match events with
        | [] => (err ETimeout "send timeout", [], written, S ticks)
        | SE_NoTimeout what :: events =>
            (err ENetworkError ("failed to configure send timeout: " +:+ what), events, written, S ticks)
        | SE_Sent n :: events =>
            if Nat.eqb n 0 then
              (err EConnectionClosed "connection closed during send", events, written, S ticks)
            else
              send_loop events (drop n data) deadline (written ++ take n data) (S ticks)
        | SE_Interrupted :: events => send_loop events data deadline written (S ticks)
        | SE_Again :: events => (err ETimeout "send timeout", events, written, S ticks)
        | SE_Reset :: events =>
            (err EConnectionClosed "connection closed during send", events, written, S ticks)
        | SE_Other what :: events =>
            (err ENetworkError ("send failed: " +:+ what), events, written, S ticks)
        end
  end.

Definition send_all (s : Socket) (data : bytes) (timeout_ms : Z) (ticks : nat)
    : Result unit * Socket * nat :=
  if negb (socket_valid s) then (err ENotConnected "socket not connected", s, ticks)
  else
    match data with
    | [] => (Ok tt, s, ticks)
    | _ =>
        if timeout_ms <=? 0 then (err ETimeout "send timeout", s, ticks)
        else
          let '(r, events, written, ticks) :=
            send_loop (sk_send s) data (clock ticks + timeout_ms) (sk_written s) (S ticks) in
          (r, mkSocket (sk_state s) (sk_recv s) events written, ticks)
    end.

(** The bytes received are the result; with no more events the call times out. *)
Definition recv_some (s : Socket) (cap : nat) : Result bytes * Socket :=
  if Nat.eqb cap 0 then (Ok [], s)
  else if negb (socket_valid s) then (err ENotConnected "socket not connected", s)
  else
    let cap := Z.to_nat (Z.min (Z.of_nat cap) 0x7FFFFFFF) in
    match sk_recv s with
    | [] => (err ETimeout "recv timeout", s)
    | RE_NoTimeout what :: rest =>
        (err ENetworkError ("failed to configure receive timeout: " +:+ what), set_recv rest s)
    | RE_Bytes [] :: rest => (err EConnectionClosed "connection closed", set_recv rest s)
    | RE_Bytes b :: rest =>
        (Ok (take cap b), set_recv (match drop cap b with
                                    | [] => rest
                                    | b => RE_Bytes b :: rest
                                    end) s)
    | RE_Interrupted :: rest => (err ETimeout "recv interrupted", set_recv rest s)
    | RE_Again :: rest => (err ETimeout "recv timeout", set_recv rest s)
    | RE_Reset :: rest => (err EConnectionClosed "connection reset", set_recv rest s)
    | RE_Other what :: rest => (err ENetworkError ("recv failed: " +:+ what), set_recv rest s)
    end.

(** ** What is written *)

Lemma send_loop_written events data deadline written ticks :
  let '(r, _, written', _) := send_loop events data deadline written ticks in
  ∃ sent rest, data = sent ++ rest ∧ written' = written ++ sent ∧ (r = Ok tt ↔ rest = []).
Proof.
  revert data written ticks. induction events as [|ev events IH]; intros data written ticks;
    cbn [send_loop]; (destruct data as [|b data]; [exists [], []; by rewrite !app_nil_r|]).
  all: assert (Hstop : ∀ r : Result unit, r ≠ Ok tt → ∃ sent rest, b :: data = sent ++ rest ∧
      written = written ++ sent ∧ (r = Ok tt ↔ rest = []))
    by (intros r Hr; exists [], (b :: data); by rewrite app_nil_r).
  all: destruct (_ <=? _); [by apply Hstop|].
  - by apply Hstop.
  - destruct ev as [n| | | | |]; try (by apply Hstop); [|apply IH].
    destruct (Nat.eqb n 0); [by apply Hstop|].
    specialize (IH (drop n (b :: data)) (written ++ take n (b :: data)) (S ticks)).
    destruct (send_loop events _ _ _ _) as [[[r evs] w] tk]. destruct IH as (sent & rest & E & -> & Hr).
    exists (take n (b :: data) ++ sent), rest. rewrite <-!app_assoc, <-E, take_drop. done.
Qed.

(** All of the data is written or an error is reported; what is written is always
    the beginning of the data. *)
Lemma send_all_written s data timeout ticks :
  let '(r, s', _) := send_all s data timeout ticks in
  sk_recv s' = sk_recv s ∧ sk_state s' = sk_state s ∧
  ∃ sent rest, data = sent ++ rest ∧ sk_written s' = sk_written s ++ sent ∧ (r = Ok tt → rest = []).
Proof.
  assert (Hstop : ∀ r : Result unit, (r = Ok tt → data = []) →
    ∃ sent rest, data = sent ++ rest ∧ sk_written s = sk_written s ++ sent ∧ (r = Ok tt → rest = [])).
  { intros r Hr. exists [], data. by rewrite app_nil_r. }
  unfold send_all. destruct (socket_valid s); cbn [negb]; [|split_and!; [done..|by apply Hstop]].
  destruct data as [|b data]; [split_and!; [done..|by apply Hstop]|].
  destruct (_ <=? _); [split_and!; [done..|by apply Hstop]|].
  pose proof (send_loop_written (sk_send s) (b :: data) (clock ticks + timeout) (sk_written s) (S ticks)) as H.
  destruct (send_loop _ _ _ _ _) as [[[r evs] w] tk]. destruct H as (sent & rest & E & Ew & Hr).
  split_and!; [done..|]. exists sent, rest. split_and!; [done..|]. by intros ?%Hr.
Qed.
End clock.

(** ** Claims *)


