(* ===== verification/SocketOpen.v ===== *)
(** * SocketOpen: connecting, listening and accepting (net/socket.cpp)

    [TcpSocket::connect], [TcpSocket::from_raw], [TcpListener::bind] and
    [TcpListener::accept] of the POSIX build.  The table of the process's descriptors,
    with the options the code sets, is state; whether a system call fails and what
    the network and the resolver answer is data, indexed by the number of the call.
    An action returns [None] when its behaviour is undefined ([FD_SET] of a
    descriptor that does not fit) or when the fuel of [accept]'s loop is exhausted. *)

From S2P Require Import Prelude Status Socket.

Local Open Scope Z_scope.

Inductive NetErrno := NE_InProgress | NE_WouldBlock | NE_Interrupted | NE_Other (code : Z).

#[export] Instance NetErrno_eq_dec : EqDecision NetErrno.
Proof. solve_decision. Defined.

Record Timeval := mkTimeval { tv_sec : Z; tv_usec : Z }.

(** A descriptor; a timeout of zero means none. *)
Record Fd := mkFd {
  fd_nonblock : bool;
  fd_receive_timeout : Timeval;
  fd_send_timeout : Timeval;
  fd_nodelay : bool;
  fd_reuseaddr : bool;
  fd_bound : option (Z * Z);       (* address and port asked for *)
  fd_listening : bool
}.
Definition no_timeout : Timeval := mkTimeval 0 0.
Definition new_fd : Fd := mkFd false no_timeout no_timeout false false None false.

Record NetHost := mkNetHost {
  nh_fds : gmap Z Fd;
  nh_calls : nat;
  nh_ticks : nat
}.

Record NetEnv := mkNetEnv {
  n_clock : nat → Z;
  n_errno : nat → option NetErrno;               (* does this call fail? *)
  n_handle : nat → Z;                            (* the descriptor [socket] or [accept] returns *)
  n_select : nat → Z;                            (* what [select] returns *)
  n_soerror : nat → Z;                           (* SO_ERROR *)
  n_port : nat → Z;                              (* the port [getsockname] tells *)
  n_resolves : string → Z → bool;                (* [getaddrinfo] finds an address *)
  n_pton : string → option Z;                    (* [inet_pton] *)
  n_inherit : bool;                              (* an accepted socket takes the listener's non-blocking mode *)
  n_others : nat → SocketState → SocketState;    (* what other threads do to a shared state meanwhile *)
  n_strerror : NetErrno → string
}.

Definition NAct (A : Type) : Type := NetHost → option (A * NetHost).
#[export] Instance nact_ret : MRet NAct := λ A a h, Some (a, h).
#[export] Instance nact_bind : MBind NAct := λ A B k m h,
  match m h with None => None | Some (a, h') => k a h' end.

Record TcpSocket := mkTcpSocket { ts_state : SocketState; ts_peer : string }.
Record TcpListener := mkTcpListener { tl_state : SocketState; tl_port : Z }.

Section net.
Context (env : NetEnv).

(** ** System calls *)

Definition next_call (fds : gmap Z Fd) (h : NetHost) : NetHost := mkNetHost fds (S (nh_calls h)) (nh_ticks h).
(** A call that changes the table when it succeeds. *)
Definition sys (change : gmap Z Fd → gmap Z Fd) : NAct (option NetErrno) := λ h,
  match n_errno env (nh_calls h) with
  | Some e => Some (Some e, next_call (nh_fds h) h)
  | None => Some (None, next_call (change (nh_fds h)) h)
  end.
Definition net_now : NAct Z := λ h,
  Some (n_clock env (nh_ticks h), mkNetHost (nh_fds h) (nh_calls h) (S (nh_ticks h))).

Definition os_socket : NAct (Z + NetErrno) := λ h,
  match n_errno env (nh_calls h) with
  | Some e => Some (inr e, next_call (nh_fds h) h)
  | None => Some (inl (n_handle env (nh_calls h)), next_call (<[n_handle env (nh_calls h) := new_fd]> (nh_fds h)) h)
  end.
Definition os_accept (listener : Z) : NAct (Z + NetErrno) := λ h,
  match n_errno env (nh_calls h) with
  | Some e => Some (inr e, next_call (nh_fds h) h)
  | None =>
      let nonblock := n_inherit env && match nh_fds h !! listener with Some f => fd_nonblock f | None => false end in
      let fd := mkFd nonblock no_timeout no_timeout false false None false in
      Some (inl (n_handle env (nh_calls h)), next_call (<[n_handle env (nh_calls h) := fd]> (nh_fds h)) h)
  end.
Definition native_close (fd : Z) : NAct unit := λ h, Some (tt, next_call (delete fd (nh_fds h)) h).
Definition os_select : NAct (Z * NetErrno) := λ h,
  Some ((n_select env (nh_calls h), default (NE_Other 0) (n_errno env (nh_calls h))), next_call (nh_fds h) h).
Definition get_soerror : NAct (option NetErrno * Z) := λ h,
  Some ((n_errno env (nh_calls h), n_soerror env (nh_calls h)), next_call (nh_fds h) h).
(** [fcntl(h, F_GETFL, 0)]: the non-blocking flag *)
Definition get_flags (fd : Z) : NAct (bool + NetErrno) := λ h,
  match n_errno env (nh_calls h) with
  | Some e => Some (inr e, next_call (nh_fds h) h)
  | None => Some (inl (match nh_fds h !! fd with Some f => fd_nonblock f | None => false end), next_call (nh_fds h) h)
  end.
Definition set_flags (fd : Z) (nonblock : bool) : NAct (option NetErrno) :=
  sys (alter (λ f, mkFd nonblock (fd_receive_timeout f) (fd_send_timeout f) (fd_nodelay f) (fd_reuseaddr f)
                     (fd_bound f) (fd_listening f)) fd).

(** ** Options *)

Definition to_timeval (ms : Z) : Timeval := mkTimeval (Z.quot ms 1000) (Z.rem ms 1000 * 1000).

(** The error of the last call goes with [false]. *)
Definition set_receive_timeout (fd timeout_ms : Z) : NAct (option NetErrno) :=
  let timeout_ms := if timeout_ms <=? 0 then 1 else timeout_ms in
  sys (alter (λ f, mkFd (fd_nonblock f) (to_timeval timeout_ms) (fd_send_timeout f) (fd_nodelay f) (fd_reuseaddr f)
                     (fd_bound f) (fd_listening f)) fd).
Definition set_send_timeout (fd timeout_ms : Z) : NAct (option NetErrno) :=
  let timeout_ms := if timeout_ms <=? 0 then 1 else timeout_ms in
  sys (alter (λ f, mkFd (fd_nonblock f) (fd_receive_timeout f) (to_timeval timeout_ms) (fd_nodelay f) (fd_reuseaddr f)
                     (fd_bound f) (fd_listening f)) fd).
Definition set_socket_timeouts (fd timeout_ms : Z) : NAct (option NetErrno) :=
  r ← set_receive_timeout fd timeout_ms;
  match r with Some e => mret (Some e) | None => set_send_timeout fd timeout_ms end.
(** Its failure is ignored. *)
Definition set_nodelay (fd : Z) : NAct unit :=
  _ ← sys (alter (λ f, mkFd (fd_nonblock f) (fd_receive_timeout f) (fd_send_timeout f) true (fd_reuseaddr f)
                         (fd_bound f) (fd_listening f)) fd); mret tt.

(** The recurring error return: the descriptor is closed before. *)
Definition close_and_fail {A} (fd : Z) (code : ErrorCode) (message : string) : NAct (Result A) :=
  _ ← native_close fd; mret (err code message).
Definition close_with {A} (fd : Z) (what : string) (e : NetErrno) : NAct (Result A) :=
  close_and_fail fd ENetworkError (what +:+ ": " +:+ n_strerror env e).

(** ** Sockets *)

Definition from_raw (fd : Z) (peer : string) : NAct (Result TcpSocket) :=
  if fd =? -1 then mret (err ENotConnected "invalid accepted socket")
  else
    r ← set_socket_timeouts fd 5000;
    match r with
    | Some e => close_with fd "failed to configure accepted socket timeouts" e
    | None => _ ← set_nodelay fd; mret (Ok (mkTcpSocket (new_state fd) peer))
    end.

Definition FD_SETSIZE : Z := 1024.
Definition endpoint (host : string) (port : Z) : string := host +:+ ":" +:+ to_string port.

(** The wait for a connection in progress: an error, or go on. *)
Definition await_connect (fd : Z) (host : string) (port : Z) : NAct (option Error) :=
  if negb ((0 <=? fd) && (fd <? FD_SETSIZE)) then λ _, None
  else
    '(sel, e) ← os_select;
    if sel =? 0 then
      _ ← native_close fd; mret (Some (mkError ETimeout ("connect timed out to " +:+ endpoint host port)))
    else if sel <? 0 then
      _ ← native_close fd;
      mret (Some (mkError ENetworkError ("connect readiness wait failed: " +:+ n_strerror env e)))
    else
      '(r, soerr) ← get_soerror;
      match r with
      | Some e =>
          _ ← native_close fd;
          mret (Some (mkError ENetworkError ("connect completion query failed: " +:+ n_strerror env e)))
      | None =>
          if negb (soerr =? 0) then
            _ ← native_close fd; mret (Some (mkError ENetworkError ("connect() failed on " +:+ host)))
          else mret None
      end.

(** Back to blocking mode, timeouts, and the socket. *)
Definition finish_connect (fd : Z) (host : string) (port : Z) : NAct (Result TcpSocket) :=
  flags ← get_flags fd;
  match flags with
  | inr e => close_with fd "failed to read socket flags after connect" e
  | inl _ =>
      r ← set_flags fd false;
      match r with
      | Some e => close_with fd "failed to restore socket blocking mode" e
      | None =>
          r ← set_socket_timeouts fd 5000;
          match r with
          | Some e => close_with fd "failed to configure connected socket timeouts" e
          | None => _ ← set_nodelay fd; mret (Ok (mkTcpSocket (new_state fd) (endpoint host port)))
          end
      end
  end.

Definition connect (host : string) (port timeout_ms : Z) : NAct (Result TcpSocket) :=
  if negb (n_resolves env (if bool_decide (host = "") then "127.0.0.1" else host) port) then
    mret (err ENetworkError ("cannot resolve " +:+ host))
  else
    s ← os_socket;
    match s with
    | inr e => mret (err ENetworkError ("socket() failed: " +:+ n_strerror env e))
    | inl fd =>
        flags ← get_flags fd;
        match flags with
        | inr e => close_with fd "failed to read socket flags before connect" e
        | inl _ =>
            r ← set_flags fd true;
            match r with
            | Some e => close_with fd "failed to set socket non-blocking" e
            | None =>
                rc ← sys id;
                match rc with
                | None => finish_connect fd host port
                | Some e =>
                    if bool_decide (e = NE_InProgress) || bool_decide (e = NE_WouldBlock) then
                      failed ← await_connect fd host port;
                      match failed with
                      | Some e => mret (Err e)
                      | None => finish_connect fd host port
                      end
                    else close_with fd "connect() failed" e
                end
            end
        end
    end.

(** ** Listeners *)

Definition INADDR_ANY : Z := 0.
(** [inet_pton] leaves the address alone when it fails, and its result is not looked at. *)
Definition listen_address (host : string) : Z :=
  if bool_decide (host = "0.0.0.0") || bool_decide (host = "") then INADDR_ANY
  else default INADDR_ANY (n_pton env host).

Definition set_bound (address port : Z) (f : Fd) : Fd :=
  mkFd (fd_nonblock f) (fd_receive_timeout f) (fd_send_timeout f) (fd_nodelay f) (fd_reuseaddr f)
    (Some (address, port)) (fd_listening f).
Definition set_listening (f : Fd) : Fd :=
  mkFd (fd_nonblock f) (fd_receive_timeout f) (fd_send_timeout f) (fd_nodelay f) (fd_reuseaddr f) (fd_bound f) true.
Definition set_reuseaddr (f : Fd) : Fd :=
  mkFd (fd_nonblock f) (fd_receive_timeout f) (fd_send_timeout f) (fd_nodelay f) true (fd_bound f) (fd_listening f).

(** [fl < 0 || fcntl(h, F_SETFL, fl | O_NONBLOCK) != 0] *)
Definition make_nonblocking (fd : Z) : NAct (option NetErrno) :=
  fl ← get_flags fd;
  match fl with inr e => mret (Some e) | inl _ => set_flags fd true end.
Definition get_port : NAct (Z + NetErrno) := λ h,
  Some (match n_errno env (nh_calls h) with Some e => inr e | None => inl (n_port env (nh_calls h)) end,
        next_call (nh_fds h) h).

(** From [::bind] to the listener. *)
Definition listen_on (fd : Z) (host : string) (port : Z) : NAct (Result TcpListener) :=
  r ← sys (alter (set_bound (listen_address host) port) fd);
  match r with
  | Some e => close_with fd ("bind failed on port " +:+ to_string port) e
  | None =>
      r ← sys (alter set_listening fd);
      match r with
      | Some e => close_with fd "listen failed" e
      | None =>
          r ← make_nonblocking fd;
          match r with
          | Some e => close_with fd "failed to set listener non-blocking" e
          | None =>
              got ← get_port;
              match got with
              | inr e => close_with fd "failed to query listener address" e
              | inl port => mret (Ok (mkTcpListener (new_state fd) port))
              end
          end
      end
  end.
Definition bind (host : string) (port : Z) : NAct (Result TcpListener) :=
  s ← os_socket;
  match s with
  | inr e => mret (err ENetworkError ("socket() failed: " +:+ n_strerror env e))
  | inl fd => _ ← sys (alter set_reuseaddr fd); listen_on fd host port
  end.

(** One pass of [accept]'s loop; [inr] goes round again.  Other threads use and
    close the listener between the critical sections. *)
Definition others : SocketState → NAct SocketState := λ st h, Some (n_others env (nh_calls h + nh_ticks h) st, h).
Definition accept_pass (deadline : Z) (st : SocketState) : NAct ((Result TcpSocket + unit) * SocketState) :=
  st ← others st;
  match begin_operation st with
  | None => mret (inl (err EConnectionClosed "listener closed"), st)
  | Some (listener, st) =>
      c ← os_accept listener;
      r ← match c with
          | inl fd => s ← from_raw fd "accepted"; mret (inl s)
          | inr NE_WouldBlock =>
              now ← net_now;
              mret (if deadline <=? now then inl (err ETimeout "accept timeout") else inr tt)
          | inr NE_Interrupted => mret (inl (err EConnectionClosed "accept interrupted"))
          | inr e => mret (inl (err ENetworkError ("accept failed: " +:+ n_strerror env e)))
          end;
      st ← others st;
      mret (r, end_operation st)
  end.
Fixpoint accept_loop (fuel : nat) (deadline : Z) (st : SocketState) : NAct (Result TcpSocket * SocketState) :=
  match fuel with
  | O => λ _, None
  | S fuel =>
      '(r, st) ← accept_pass deadline st;
      match r with inl r => mret (r, st) | inr _ => accept_loop fuel deadline st end
  end.
Definition accept (fuel : nat) (timeout_ms : Z) (st : SocketState) : NAct (Result TcpSocket * SocketState) :=
  now ← net_now; accept_loop fuel (now + timeout_ms) st.
End net.

(** ** Descriptors are accounted for *)

Definition ndoes {A} (m : NAct A) (h : NetHost) (Q : A → NetHost → Prop) : Prop :=
  ∃ a h', m h = Some (a, h') ∧ Q a h'.

Lemma ndoes_ret {A} (a : A) h (Q : A → NetHost → Prop) : Q a h → ndoes (mret a) h Q.
Proof. intros. by exists a, h. Qed.

Lemma ndoes_bind {A B} (m : NAct A) (k : A → NAct B) h Q :
  ndoes m h (λ a h', ndoes (k a) h' Q) → ndoes (m ≫= k) h Q.
Proof.
  intros (a & h' & E & b & h2 & E2 & HQ). exists b, h2. split; [|done].
  unfold mbind, nact_bind. by rewrite E.
Qed.

Lemma ndoes_mono {A} (m : NAct A) h (Q Q' : A → NetHost → Prop) :
  ndoes m h Q → (∀ a h', Q a h' → Q' a h') → ndoes m h Q'.
Proof. intros (a & h' & E & HQ) HQQ. exists a, h'. auto. Qed.

Section accounts.
Context (env : NetEnv) (fds : gmap Z Fd) (fd : Z) (Hfresh : fds !! fd = None).

(** The table is [fds] with the descriptor [fd] in state [f]. *)
Definition holds (f : Fd) (h : NetHost) : Prop := nh_fds h = <[fd := f]> fds.

(** The end of an operation that opened [fd]: it is closed again, or it is in a
    state that fits. *)
Definition opened {A} (P : A → Fd → Prop) (r : Result A) (h' : NetHost) : Prop :=
  match r with
  | Err _ => nh_fds h' = fds
  | Ok a => ∃ f, holds f h' ∧ P a f
  end.

Lemma sys_alter f g h (Q : option NetErrno → NetHost → Prop) :
  holds f h → (∀ e h', holds f h' → Q (Some e) h') → (∀ h', holds (g f) h' → Q None h') →
  ndoes (sys env (alter g fd)) h Q.
Proof.
  unfold holds. intros Hh He Hn. unfold ndoes, sys. destruct (n_errno env (nh_calls h)) as [e|].
  - eexists _, _. split; [done|]. by apply He.
  - eexists _, _. split; [done|]. apply Hn. cbn. rewrite Hh. by rewrite alter_insert_eq.
Qed.

Lemma close_and_fail_does {A} (P : A → Fd → Prop) f code message h :
  holds f h → ndoes (close_and_fail fd code message) h (opened P).
Proof.
  unfold holds. intros Hh. eexists _, _. split; [done|]. cbn. rewrite Hh. by rewrite delete_insert_id.
Qed.

Lemma get_flags_does f h (Q : bool + NetErrno → NetHost → Prop) :
  holds f h → (∀ r h', holds f h' → Q r h') → ndoes (get_flags env fd) h Q.
Proof.
  unfold holds. intros Hh HQ. unfold ndoes, get_flags.
  destruct (n_errno env (nh_calls h)); eexists _, _; (split; [done|by apply HQ]).
Qed.

(** Both timeouts are set, to at least a millisecond, in microseconds. *)
Definition timed (f : Fd) (ms : Z) : Prop :=
  let us tv := tv_sec tv * 1000000 + tv_usec tv in
  us (fd_receive_timeout f) = 1000 * Z.max 1 ms ∧ us (fd_send_timeout f) = 1000 * Z.max 1 ms.

Lemma to_timeval_us ms :
  let tv := to_timeval (if ms <=? 0 then 1 else ms) in
  tv_sec tv * 1000000 + tv_usec tv = 1000 * Z.max 1 ms.
Proof.
  cbn. replace (if ms <=? 0 then 1 else ms) with (Z.max 1 ms) by (destruct (Z.leb_spec ms 0); lia).
  pose proof (Z.quot_rem' (Z.max 1 ms) 1000). lia.
Qed.

Lemma set_socket_timeouts_does f ms h (Q : option NetErrno → NetHost → Prop) :
  holds f h → (∀ e f' h', holds f' h' → Q (Some e) h') →
  (∀ f' h', holds f' h' → timed f' ms → fd_nonblock f' = fd_nonblock f → Q None h') →
  ndoes (set_socket_timeouts env fd ms) h Q.
Proof.
  intros Hh He Hn. apply ndoes_bind. eapply sys_alter; [exact Hh| |]; cbv zeta.
  - intros e h' Hh'. apply ndoes_ret. by eapply He.
  - intros h1 H1. eapply sys_alter; [exact H1| |].
    + intros e h' Hh'. by eapply He.
    + intros h' Hh'. eapply Hn; [exact Hh'| |done]. split; apply to_timeval_us.
Qed.

(** A socket ready for bounded blocking input and output. *)
Definition blocking_io (peer : string) (s : TcpSocket) (f : Fd) : Prop :=
  ts_state s = new_state fd ∧ ts_peer s = peer ∧ fd_nonblock f = false ∧ timed f 5000.

Lemma set_nodelay_does f h (Q : unit → NetHost → Prop) :
  holds f h →
  (∀ f' h', holds f' h' → fd_nonblock f' = fd_nonblock f → (∀ ms, timed f ms → timed f' ms) → Q tt h') →
  ndoes (set_nodelay env fd) h Q.
Proof.
  intros Hh HQ. apply ndoes_bind. eapply sys_alter; [exact Hh| |].
  - intros e h' Hh'. apply ndoes_ret. by eapply HQ.
  - intros h' Hh'. apply ndoes_ret. by eapply HQ.
Qed.

Lemma finish_connect_does host port f h :
  holds f h → ndoes (finish_connect env fd host port) h (opened (blocking_io (endpoint host port))).
Proof.
  intros Hh. apply ndoes_bind. eapply get_flags_does; [exact Hh|]. intros [b|e] h1 H1; [|by eapply close_and_fail_does].
  apply ndoes_bind. eapply sys_alter; [exact H1| |]; [intros e h2 H2; by eapply close_and_fail_does|].
  intros h2 H2. apply ndoes_bind. eapply set_socket_timeouts_does; [exact H2| |].
  { intros e f3 h3 H3. by eapply close_and_fail_does. }
  intros f3 h3 H3 T3 B3. apply ndoes_bind. eapply set_nodelay_does; [exact H3|]. intros f4 h4 H4 B4 T4.
  apply ndoes_ret. exists f4. split; [done|]. split_and!; [done|done|by rewrite B4, B3|auto].
Qed.

Lemma await_connect_does host port f h :
  0 <= fd < FD_SETSIZE → holds f h →
  ndoes (await_connect env fd host port) h (λ r h', match r with Some _ => nh_fds h' = fds | None => holds f h' end).
Proof.
  intros Hfd Hh. unfold await_connect.
  rewrite (proj2 (Z.leb_le 0 fd)), (proj2 (Z.ltb_lt fd FD_SETSIZE)) by lia. cbn [andb negb].
  assert (Hclose : ∀ (x : option Error) h', nh_fds h' = nh_fds h → is_Some x →
    ndoes (_ ← native_close fd; mret x) h'
      (λ r h', match r with Some _ => nh_fds h' = fds | None => holds f h' end)).
  { intros x h' E [y ->]. apply ndoes_bind. eexists _, _. split; [done|]. apply ndoes_ret. cbn.
    rewrite E. unfold holds in Hh. rewrite Hh. by rewrite delete_insert_id. }
  apply ndoes_bind. eexists _, _. split; [done|]. cbv beta iota.
  destruct (_ =? 0); [by apply Hclose|]. destruct (_ <? 0); [by apply Hclose|].
  apply ndoes_bind. eexists _, _. split; [done|]. cbv beta iota.
  destruct (n_errno env _); [by apply Hclose|]. destruct (negb _); [by apply Hclose|]. by apply ndoes_ret.
Qed.

Lemma from_raw_does peer f h :
  fd ≠ -1 → holds f h →
  ndoes (from_raw env fd peer) h
    (opened (λ s f', ts_state s = new_state fd ∧ ts_peer s = peer ∧ fd_nonblock f' = fd_nonblock f ∧ timed f' 5000)).
Proof.
  intros Hne Hh. unfold from_raw. destruct (Z.eqb_spec fd (-1)); [done|].
  apply ndoes_bind. eapply set_socket_timeouts_does; [exact Hh| |].
  { intros e f1 h1 H1. by eapply close_and_fail_does. }
  intros f1 h1 H1 T1 B1. apply ndoes_bind. eapply set_nodelay_does; [exact H1|]. intros f2 h2 H2 B2 T2.
  apply ndoes_ret. exists f2. split; [done|]. split_and!; [done|done|congruence|auto].
Qed.
End accounts.

(** The operating system never returns a descriptor that is open, nor more than fit
    in an [fd_set]. *)
Definition fresh_handles (env : NetEnv) (fds : gmap Z Fd) : Prop :=
  ∀ n, fds !! n_handle env n = None ∧ 0 <= n_handle env n < FD_SETSIZE.

(** One descriptor more, in a state that fits, or none. *)
Definition gained {A} (fds : gmap Z Fd) (P : Z → A → Fd → Prop) (r : Result A) (h' : NetHost) : Prop :=
  match r with
  | Err _ => nh_fds h' = fds
  | Ok a => ∃ fd f, fds !! fd = None ∧ nh_fds h' = <[fd := f]> fds ∧ P fd a f
  end.

Lemma opened_gained {A} fds fd (P : Z → A → Fd → Prop) r h' :
  fds !! fd = None → opened fds fd (P fd) r h' → gained fds P r h'.
Proof. intros Hf. destruct r as [a|e]; [|done]. intros (f & Hh & HP). by exists fd, f. Qed.

Lemma connect_does env host port timeout h :
  fresh_handles env (nh_fds h) →
  ndoes (connect env host port timeout) h (gained (nh_fds h) (λ fd, blocking_io fd (endpoint host port))).
Proof.
  intros Hf. unfold connect. destruct (negb _); [by apply ndoes_ret|]. apply ndoes_bind. unfold ndoes at 1, os_socket.
  destruct (n_errno env (nh_calls h)) as [e|]; [eexists _, _; split; [done|]; by apply ndoes_ret|].
  destruct (Hf (nh_calls h)) as [Hn Hr]. set (fd := n_handle env (nh_calls h)) in *. set (fds := nh_fds h) in *.
  eexists _, _. split; [done|]. cbv beta iota. set (h1 := next_call _ h).
  eapply ndoes_mono; [|intros r h'; by apply (opened_gained fds fd (λ fd, blocking_io fd (endpoint host port)))].
  assert (H1 : holds fds fd new_fd h1) by done. clearbody h1 fd. apply ndoes_bind.
  eapply get_flags_does; [exact H1|]. intros [b|e] h2 H2; [|by eapply close_and_fail_does].
  apply ndoes_bind. eapply sys_alter; [exact H2| |]; [intros e h3 H3; by eapply close_and_fail_does|].
  intros h3 H3. apply ndoes_bind. unfold ndoes at 1, sys.
  destruct (n_errno env (nh_calls h3)) as [e|]; (eexists _, _; split; [done|]); [|by eapply finish_connect_does].
  cbv beta iota. destruct (bool_decide _ || _); [|by eapply close_and_fail_does]. apply ndoes_bind.
  eapply ndoes_mono; [eapply (await_connect_does env fds fd Hn); [done|exact H3]|].
  intros [e'|] h4 H4; [by apply ndoes_ret|by eapply finish_connect_does].
Qed.

(** A listener that [accept] can poll. *)
Definition polled_listener (address port : Z) (fd : Z) (l : TcpListener) (f : Fd) : Prop :=
  tl_state l = new_state fd ∧ fd_nonblock f = true ∧ fd_listening f = true ∧ fd_bound f = Some (address, port).

Lemma listen_on_does env fds fd host port f h :
  fds !! fd = None → holds fds fd f h →
  ndoes (listen_on env fd host port) h (opened fds fd (polled_listener (listen_address env host) port fd)).
Proof.
  intros Hn H2. apply ndoes_bind.
  eapply sys_alter; [exact H2| |]; [intros e h3 H3; by eapply close_and_fail_does|]. intros h3 H3. apply ndoes_bind.
  eapply sys_alter; [exact H3| |]; [intros e h4 H4; by eapply close_and_fail_does|]. intros h4 H4. apply ndoes_bind.
  apply ndoes_bind. eapply get_flags_does; [exact H4|].
  intros [b|e] h5 H5; [|apply ndoes_ret; by eapply close_and_fail_does].
  eapply sys_alter; [exact H5| |]; [intros e h6 H6; by eapply close_and_fail_does|].
  intros h6 H6. apply ndoes_bind. eexists _, _. split; [done|]. cbv beta iota.
  destruct (n_errno env _) as [e|]; [by eapply close_and_fail_does|].
  apply ndoes_ret. eexists. split; [exact H6|]. done.
Qed.

Lemma bind_does env host port h :
  fresh_handles env (nh_fds h) →
  ndoes (bind env host port) h (gained (nh_fds h) (polled_listener (listen_address env host) port)).
Proof.
  intros Hf. unfold bind. apply ndoes_bind. unfold ndoes at 1, os_socket.
  destruct (n_errno env (nh_calls h)) as [e|]; [eexists _, _; split; [done|]; by apply ndoes_ret|].
  destruct (Hf (nh_calls h)) as [Hn _]. eexists _, _. split; [done|]. cbv beta iota.
  eapply ndoes_mono; [|intros r h'; by apply opened_gained].
  apply ndoes_bind. eapply sys_alter; [done| |]; intros; by eapply listen_on_does.
Qed.

(** What [accept] may return for a listener in state [st]. *)
Definition accepted (env : NetEnv) (fd : Z) (s : TcpSocket) (f : Fd) : Prop :=
  ts_state s = new_state fd ∧ ts_peer s = "accepted" ∧ timed f 5000 ∧
  (n_inherit env = false → fd_nonblock f = false).

(** What a pass leaves, when the table was [fds] and the clock about to be read [t]. *)
Definition pass_outcome (env : NetEnv) (deadline : Z) (fds : gmap Z Fd) (t : nat) (r : Result TcpSocket + unit)
    (h' : NetHost) : Prop :=
  match r with
  | inl r => gained fds (accepted env) r h'
  | inr _ => nh_fds h' = fds ∧ nh_ticks h' = S t ∧ n_clock env t < deadline
  end.

Lemma accept_pass_does env deadline st h :
  fresh_handles env (nh_fds h) →
  ndoes (accept_pass env deadline st) h (λ x h',
    pass_outcome env deadline (nh_fds h) (nh_ticks h) x.1 h' ∧ ((∀ k s, n_others env k s = s) → x.2 = st)).
Proof.
  intros Hf. unfold accept_pass. apply ndoes_bind. eexists _, h. split; [done|]. cbv beta.
  set (st0 := n_others env _ st).
  destruct (begin_operation st0) as [[listener st1]|] eqn:Eb; [|apply ndoes_ret; split; [done|intros Ho; apply Ho]].
  assert (Hend : ∀ st2, st2 = st1 → end_operation st2 = st0).
  { intros st2 ->. unfold begin_operation in Eb. destruct st0 as [[g|] n c]; cbn in *; [|done].
    destruct c; [done|]. injection Eb as <- <-. done. }
  assert (Hst : (∀ k s, n_others env k s = s) → ∀ k, end_operation (n_others env k st1) = st).
  { intros Ho k. rewrite (Hend _ (Ho k st1)). apply Ho. }
  assert (Hfin : ∀ r h1, pass_outcome env deadline (nh_fds h) (nh_ticks h) r h1 →
    ndoes (st ← others env st1; mret (r, end_operation st)) h1 (λ x h',
      pass_outcome env deadline (nh_fds h) (nh_ticks h) x.1 h' ∧ ((∀ k s, n_others env k s = s) → x.2 = st))).
  { intros r h1 HQ. apply ndoes_bind. eexists _, h1. split; [done|]. apply ndoes_ret. split; [exact HQ|].
    intros Ho. by apply Hst. }
  apply ndoes_bind. unfold ndoes at 1, os_accept.
  destruct (n_errno env (nh_calls h)) as [e|]; (eexists _, _; split; [done|]); apply ndoes_bind.
  - destruct e; try (apply ndoes_ret; by apply Hfin).
    apply ndoes_bind. eexists _, _. split; [done|]. apply ndoes_ret. apply Hfin. cbn.
    by destruct (Z.leb_spec deadline (n_clock env (nh_ticks h))).
  - destruct (Hf (nh_calls h)) as [Hn Hr]. apply ndoes_bind.
    eapply ndoes_mono; [eapply (from_raw_does env (nh_fds h)); [exact Hn|lia|done]|].
    intros s h1 Hs. apply ndoes_ret. apply Hfin. apply (opened_gained _ _ (accepted env) _ _ Hn).
    destruct s as [s|]; [|done]. destruct Hs as (f & Hh & E1 & E2 & E3 & E4). exists f. split; [done|].
    split_and!; [done|done|done|]. intros Hi. rewrite E3. cbn. by rewrite Hi.
Qed.

Lemma accept_loop_does env fuel deadline st h :
  fresh_handles env (nh_fds h) → (0 < fuel)%nat → deadline <= n_clock env (nh_ticks h + pred fuel) →
  ndoes (accept_loop env fuel deadline st) h (λ x h',
    gained (nh_fds h) (accepted env) x.1 h' ∧ ((∀ k s, n_others env k s = s) → x.2 = st)).
Proof.
  revert st h. induction fuel as [|fuel IH]; intros st h Hf H0 Hd; [lia|]. cbn [accept_loop pred] in *.
  apply ndoes_bind. eapply ndoes_mono; [by apply accept_pass_does|]. intros [[r|[]] st1] h1 [Hr Hst]; cbn [fst snd] in *.
  { by apply ndoes_ret. }
  destruct Hr as (E1 & E2 & Hlt).
  assert (0 < fuel)%nat by (destruct fuel; [rewrite Nat.add_0_r in Hd; lia|lia]).
  eapply ndoes_mono; [apply IH; [by rewrite E1|done|]|].
  - rewrite E2. replace (S (nh_ticks h) + pred fuel)%nat with (nh_ticks h + fuel)%nat by lia. done.
  - intros x h2 [Hg Hs]. rewrite E1 in Hg. split; [exact Hg|]. intros Ho. rewrite (Hs Ho). auto.
Qed.


(** A machine with two open descriptors where the connection takes a while. *)
Definition sample_net (fails_at : nat) (e : NetErrno) : NetEnv :=
  mkNetEnv (λ i, 100 * Z.of_nat i) (λ n, if (n =? fails_at)%nat then Some e else None) (λ n, 5 + Z.of_nat (n mod 1000))
    (λ _, 1) (λ _, 0) (λ _, 40000) (λ host _, bool_decide (host ≠ "nowhere"))
    (λ host, if bool_decide (host = "127.0.0.1") then Some 2130706433 else None) false (λ _ s, s) (λ _, "error").
Definition sample_net_host : NetHost := mkNetHost {[3 := new_fd; 4 := new_fd]} 0 0.

Lemma sample_net_fresh n e : fresh_handles (sample_net n e) (nh_fds sample_net_host).
Proof.
  intros k. cbn [sample_net n_handle]. pose proof (Nat.mod_upper_bound k 1000 ltac:(lia)). unfold FD_SETSIZE.
  split; [|lia]. cbn [sample_net_host nh_fds]. rewrite lookup_insert_ne by lia. apply lookup_singleton_ne. lia.
Qed.


(** A host name that is not an address makes a listener on every interface. *)
Example listen_everywhere : listen_address (sample_net 0 NE_InProgress) "localhost" = INADDR_ANY.
Proof. reflexivity. Qed.
