(* ===== verification/Channel.v ===== *)
(** * Channel: frames over a byte stream (net/channel.h, net/channel.cpp)

    [recv_frame] keeps the bytes of an incomplete frame in [recv_buffer_] between
    calls.  Its loop runs until a frame is complete, an error occurs or the
    deadline has passed; every turn that goes on has received a byte, so the number
    of bytes the socket will ever deliver bounds the turns ([recv_fuel]).  The two
    mutexes make every call atomic. *)

From S2P Require Import Prelude Status Ids Digest Float64 Task Wire Frame Socket.

Local Open Scope Z_scope.

Record Channel := mkChannel {
  ch_socket : Socket;
  ch_recv_buffer : bytes
}.

Definition new_channel (s : Socket) : Channel := mkChannel s [].
Definition channel_valid (c : Channel) : bool := socket_valid (ch_socket c).
Definition channel_close (c : Channel) : Channel := mkChannel (socket_close (ch_socket c)) [].
Definition set_buffer (b : bytes) (c : Channel) : Channel := mkChannel (ch_socket c) b.

(** The bytes of a frame on the wire. *)
Definition wire (f : Frame) : bytes := encode_header (fr_header f) ++ fr_payload f.

Section clock.
Context (clock : nat → Z).

Definition send_frame (c : Channel) (f : Frame) (timeout_ms : Z) (ticks : nat)
    : Result unit * Channel * nat :=
  if negb (channel_valid c) then (err ENotConnected "channel closed", c, ticks)
  else
    let '(r, s, ticks) := send_all clock (ch_socket c) (wire f) timeout_ms ticks in
    (r, mkChannel s (ch_recv_buffer c), ticks).

Definition send_message (c : Channel) (message_type : Z) (kind : SenderKind) (sender_id : Id128)
    (request_id : Z) (payload : bytes) (timeout_ms : Z) (ticks : nat) : Result unit * Channel * nat :=
  send_frame c (make_frame message_type kind sender_id request_id payload) timeout_ms ticks.

(** What the buffer holds: an error, a complete frame, or the size to wait for. *)
Inductive Buffered :=
| B_Error (e : Error)
| B_Frame (f : Frame)
| B_Need (required_size : nat).

Definition buffered (buffer : bytes) (max_frame_bytes : Z) : Buffered :=
  if (length buffer <? kHeaderSize)%nat then B_Need kHeaderSize
  else
    match decode_header (take kHeaderSize buffer) with
    | Err e => B_Error e
    | Ok h =>
        if max_frame_bytes <? fh_payload_length h then
          B_Error (mkError EMalformedFrame "payload exceeds channel frame limit")
        else
          let required_size := (kHeaderSize + Z.to_nat (fh_payload_length h))%nat in
          if Nat.eqb (length buffer) required_size then
            let f := mkFrame h (drop kHeaderSize buffer) in
            match validate_frame f with Err e => B_Error e | Ok _ => B_Frame f end
          else B_Need required_size
    end.

(** The loop; [None] when the fuel is exhausted. *)
Fixpoint recv_loop (fuel : nat) (c : Channel) (deadline max_frame_bytes : Z) (ticks : nat)
    : option (Result Frame * Channel * nat) :=
  match fuel with
  | O => None
  | S fuel =>
      match buffered (ch_recv_buffer c) max_frame_bytes with
      | B_Error e => Some (Err e, set_buffer [] c, ticks)
      | B_Frame f => Some (Ok f, set_buffer [] c, ticks)
      | B_Need required_size =>
          if deadline - clock ticks <=? 0 then Some (err ETimeout "recv timeout", c, S ticks)
          else
            let needed := (required_size - length (ch_recv_buffer c))%nat in
            let '(received, s) := recv_some (ch_socket c) needed in
            match received with
            | Err e =>
                let buffer := if bool_decide (err_code e = ETimeout) then ch_recv_buffer c else [] in
                Some (Err e, mkChannel s buffer, S ticks)
            | Ok b => recv_loop fuel (mkChannel s (ch_recv_buffer c ++ b)) deadline max_frame_bytes (S ticks)
            end
      end
  end.

Definition event_bytes (e : RecvEvent) : bytes := match e with RE_Bytes b => b | _ => [] end.
Definition incoming (s : Socket) : bytes := flat_map event_bytes (sk_recv s).
Definition recv_fuel (c : Channel) : nat := S (length (incoming (ch_socket c))).

Definition recv_frame (c : Channel) (timeout_ms max_frame_bytes : Z) (ticks : nat)
    : option (Result Frame * Channel * nat) :=
  if negb (channel_valid c) then Some (err ENotConnected "channel closed", c, ticks)
  else
    let bounded_timeout := if 0 <? timeout_ms then timeout_ms else 1 in
    recv_loop (recv_fuel c) c (clock ticks + bounded_timeout) max_frame_bytes (S ticks).
End clock.

(** ** The loop returns *)

Lemma recv_some_spec s cap :
  let '(r, s') := recv_some s (S cap) in
  sk_state s' = sk_state s ∧
  match r with
  | Ok b => b ≠ [] ∧ (length b <= S cap)%nat ∧ incoming s = b ++ incoming s' ∧
            (length (incoming s') < length (incoming s))%nat
  | Err _ => incoming s' = incoming s
  end.
Proof.
  unfold recv_some. cbn [Nat.eqb]. destruct (socket_valid s); cbn [negb]; [|done].
  destruct (sk_recv s) as [|ev rest] eqn:E; [done|]. unfold incoming.
  destruct ev as [[|x b]| | | | |]; rewrite E; cbn [flat_map event_bytes set_recv sk_recv sk_state]; try done.
  set (n := Z.to_nat _). assert (Hn : (0 < n <= S cap)%nat) by (unfold n; lia).
  assert (Hin : flat_map event_bytes (match drop n (x :: b) with [] => rest | b' => RE_Bytes b' :: rest end)
                = drop n (x :: b) ++ flat_map event_bytes rest) by (by destruct (drop n (x :: b))).
  split; [done|]. rewrite Hin. split_and!.
  - by destruct n; [lia|].
  - rewrite length_take. lia.
  - by rewrite app_assoc, take_drop.
  - rewrite !length_app, length_drop. cbn [length]. lia.
Qed.

(** A buffer never holds more than the frame it is filled for. *)
Definition fits (b : bytes) : Prop := ∀ max k, buffered b max = B_Need k → (length b < k)%nat.

Lemma fits_nil : fits [].
Proof. intros max k [= <-]. unfold kHeaderSize. cbn [length]. lia. Qed.

Lemma need_inj k k' : B_Need k = B_Need k' → k = k'.
Proof. by intros [=]. Qed.

Lemma fits_extend b r max k :
  buffered b max = B_Need k → (length b + length r <= k)%nat → fits (b ++ r).
Proof.
  intros Hb Hr max' k' Hk. unfold buffered in Hb, Hk. rewrite length_app in Hk |- *.
  destruct (Nat.ltb_spec (length b + length r) kHeaderSize); [apply need_inj in Hk; by subst k'|].
  destruct (Nat.ltb_spec (length b) kHeaderSize) as [Hlt|Hge].
  - apply need_inj in Hb. subst k. assert (El : (length b + length r = kHeaderSize)%nat) by lia.
    destruct (decode_header _) as [h|]; [|done]. destruct (_ <? _); [done|].
    destruct (Nat.eqb_spec (length b + length r) (kHeaderSize + Z.to_nat (fh_payload_length h)));
      [by destruct (validate_frame _)|]. apply need_inj in Hk. lia.
  - rewrite take_app_le in Hk by done. destruct (decode_header _) as [h|]; [|done].
    destruct (max <? fh_payload_length h); [done|]. destruct (max' <? fh_payload_length h); [done|].
    destruct (Nat.eqb_spec (length b) (kHeaderSize + Z.to_nat (fh_payload_length h)));
      [by destruct (validate_frame _)|]. apply need_inj in Hb. subst k.
    destruct (Nat.eqb_spec (length b + length r) (kHeaderSize + Z.to_nat (fh_payload_length h)));
      [by destruct (validate_frame _)|]. apply need_inj in Hk. lia.
Qed.

Lemma recv_loop_returns clock fuel c deadline max ticks :
  fits (ch_recv_buffer c) → (length (incoming (ch_socket c)) < fuel)%nat →
  ∃ r c' ticks', recv_loop clock fuel c deadline max ticks = Some (r, c', ticks') ∧
    fits (ch_recv_buffer c').
Proof.
  revert c ticks. induction fuel as [|fuel IH]; intros c ticks Hf Hlen; [lia|]. cbn [recv_loop].
  destruct (buffered (ch_recv_buffer c) max) as [e|f|k] eqn:Hb;
    [eexists _, _, _; split; [done|apply fits_nil]..|].
  destruct (_ <=? _); [by eexists _, _, _|].
  pose proof (Hf max k Hb) as Hk. destruct (k - length (ch_recv_buffer c))%nat as [|n] eqn:En; [lia|].
  pose proof (recv_some_spec (ch_socket c) n) as Hr.
  destruct (recv_some (ch_socket c) (S n)) as [[b|e] s'].
  - destruct Hr as (_ & _ & Hle & _ & Hlt). apply IH; cbn [ch_socket ch_recv_buffer]; [|lia].
    apply (fits_extend _ _ max k Hb). lia.
  - eexists _, _, _. split; [done|]. cbn [ch_recv_buffer]. by case_bool_decide; [|apply fits_nil].
Qed.

(** Calls read the clock forwards. *)
Lemma recv_loop_ticks clock fuel c deadline max ticks r c' ticks' :
  recv_loop clock fuel c deadline max ticks = Some (r, c', ticks') → (ticks <= ticks')%nat.
Proof.
  revert c ticks. induction fuel as [|fuel IH]; intros c ticks; cbn [recv_loop]; [done|].
  destruct (buffered _ _); [by intros [= _ _ <-]..|]. destruct (_ <=? _); [intros [= _ _ <-]; lia|].
  destruct (recv_some _ _) as [[b|e] s']; [|intros [= _ _ <-]; lia]. intros H%IH. lia.
Qed.

Lemma recv_frame_ticks clock c timeout max ticks r c' ticks' :
  recv_frame clock c timeout max ticks = Some (r, c', ticks') → (ticks <= ticks')%nat.
Proof.
  unfold recv_frame. destruct (channel_valid c); cbn [negb]; [|by intros [= _ _ <-]].
  intros H%recv_loop_ticks. lia.
Qed.

Lemma recv_frame_returns clock c timeout max ticks :
  fits (ch_recv_buffer c) →
  ∃ r c' ticks', recv_frame clock c timeout max ticks = Some (r, c', ticks') ∧
    fits (ch_recv_buffer c') ∧ (ticks <= ticks')%nat.
Proof.
  intros Hf. unfold recv_frame. destruct (channel_valid c); cbn [negb]; [|by eexists _, _, _].
  destruct (recv_loop_returns clock (recv_fuel c) c (clock ticks + (if 0 <? timeout then timeout else 1)) max
    (S ticks) Hf) as (r & c' & tk & E & Hf'); [unfold recv_fuel; lia|].
  exists r, c', tk. split_and!; [done..|]. apply recv_loop_ticks in E. lia.
Qed.

Lemma send_loop_ticks clock events data deadline written ticks :
  (ticks <= (send_loop clock events data deadline written ticks).2)%nat.
Proof.
  revert data written ticks. induction events as [|ev events IH]; intros data written ticks;
    cbn [send_loop]; (destruct data; [done|]); (destruct (_ <=? _); [cbn; lia|]); [cbn; lia|].
  destruct ev; try (cbn; lia); [case_match; [cbn; lia|]|];
    (eapply Nat.le_trans; [|apply IH]; lia).
Qed.

Lemma send_frame_keeps clock c f timeout ticks :
  let '(_, c', ticks') := send_frame clock c f timeout ticks in
  ch_recv_buffer c' = ch_recv_buffer c ∧ channel_valid c' = channel_valid c ∧
  sk_recv (ch_socket c') = sk_recv (ch_socket c) ∧ (ticks <= ticks')%nat.
Proof.
  unfold send_frame. destruct (channel_valid c) eqn:Ev; cbn [negb]; [|done]. unfold send_all.
  destruct (socket_valid _) eqn:Es; cbn [negb]; [|done]. destruct (wire f) as [|x w]; [done|].
  destruct (_ <=? _); [done|].
  pose proof (send_loop_ticks clock (sk_send (ch_socket c)) (x :: w) (clock ticks + timeout)
    (sk_written (ch_socket c)) (S ticks)) as Ht.
  destruct (send_loop _ _ _ _ _ _) as [[[r evs] wr] tk]. cbn [snd] in Ht.
  cbn [ch_recv_buffer ch_socket]. split_and!; [done..|lia].
Qed.

(** ** Delivery *)

(** A frame a channel accepts, as [make_frame] builds them. *)
Record deliverable (max : Z) (f : Frame) : Prop := {
  dl_header : decode_header (encode_header (fr_header f)) = Ok (fr_header f);
  dl_length : fh_payload_length (fr_header f) = Z.of_nat (length (fr_payload f));
  dl_limit : fh_payload_length (fr_header f) <= max;
  dl_valid : validate_frame f = Ok tt
}.

Lemma length_wire f : length (wire f) = (kHeaderSize + length (fr_payload f))%nat.
Proof. unfold wire. by rewrite length_app, length_encode_header. Qed.

Lemma buffered_prefix max f b r :
  deliverable max f → wire f = b ++ r →
  (r = [] ∧ buffered b max = B_Frame f) ∨
  (∃ k, buffered b max = B_Need k ∧ (length b < k <= length (wire f))%nat).
Proof.
  intros [Hh Hl Hm Hv] E. pose proof (length_wire f) as Hw. unfold buffered.
  assert (Elen : length (wire f) = (length b + length r)%nat) by (by rewrite E, length_app).
  destruct (Nat.ltb_spec (length b) kHeaderSize) as [Hlt|Hge].
  { right. exists kHeaderSize. split; [done|]. lia. }
  assert (Et : take kHeaderSize b = encode_header (fr_header f)).
  { rewrite <-(take_app_le b r) by done. rewrite <-E. unfold wire.
    apply take_app_length'. by rewrite length_encode_header. }
  rewrite Et, Hh. replace (max <? fh_payload_length (fr_header f)) with false by lia.
  assert (Ek : (kHeaderSize + Z.to_nat (fh_payload_length (fr_header f)) = length (wire f))%nat) by lia.
  rewrite Ek. destruct (Nat.eqb_spec (length b) (length (wire f))) as [Eb|Hne].
  - left. assert (Er : r = []) by (apply nil_length_inv; lia). split; [done|].
    assert (Ed : drop kHeaderSize b = fr_payload f).
    { rewrite Er, app_nil_r in E. rewrite <-E. unfold wire.
      apply drop_app_length'. by rewrite length_encode_header. }
    rewrite Ed. destruct f as [h p]. cbn [fr_header fr_payload] in *. by rewrite Hv.
  - right. exists (length (wire f)). split; [done|]. lia.
Qed.

(** Events after which the stream goes on. *)
Definition transient (ev : RecvEvent) : Prop :=
  match ev with RE_Bytes b => b ≠ [] | RE_Interrupted | RE_Again => True | _ => False end.
Definition is_pause (ev : RecvEvent) : bool :=
  match ev with RE_Interrupted | RE_Again => true | _ => false end.
Definition pauses (s : Socket) : nat := length (List.filter is_pause (sk_recv s)).

Lemma recv_some_transient s n :
  socket_valid s = true → Forall transient (sk_recv s) →
  let '(r, s') := recv_some s (S n) in
  Forall transient (sk_recv s') ∧
  match r with
  | Ok b => pauses s' = pauses s
  | Err e => err_code e = ETimeout ∧ (S (pauses s') = pauses s ∨ (incoming s = [] ∧ s' = s))
  end.
Proof.
  intros Hv Ht. unfold recv_some, pauses. cbn [Nat.eqb]. rewrite Hv. cbn [negb].
  destruct (sk_recv s) as [|ev rest] eqn:E.
  { split; [by rewrite E|]. cbn. split; [done|]. right. unfold incoming. by rewrite E. }
  apply Forall_cons in Ht as [Hev Ht].
  destruct ev as [[|x b]| | | | |]; try done; cbn [set_recv sk_recv].
  - destruct (drop _ (x :: b)) as [|y b'] eqn:Ed; [done|]. split; [by constructor|done].
  - split; [done|]. split; [done|]. by left.
  - split; [done|]. split; [done|]. by left.
Qed.

(** The channel still has [fs] to deliver. *)
Record delivering (max : Z) (fs : list Frame) (c : Channel) : Prop := {
  dg_frames : Forall (deliverable max) fs;
  dg_events : Forall transient (sk_recv (ch_socket c));
  dg_valid : channel_valid c = true;
  dg_bytes : ch_recv_buffer c ++ incoming (ch_socket c) = flat_map wire fs;
  dg_buffer : match fs with
              | [] => ch_recv_buffer c = []
              | f :: _ => (length (ch_recv_buffer c) <= length (wire f))%nat
              end
}.

Lemma delivering_buffer max f fs c :
  delivering max (f :: fs) c →
  ∃ r, wire f = ch_recv_buffer c ++ r ∧ incoming (ch_socket c) = r ++ flat_map wire fs.
Proof.
  intros [_ _ _ E Hl]. cbn [flat_map] in E.
  destruct (app_eq_inv _ _ _ _ E) as [(k & Ek & Er)|(k & Ek & Er)].
  - (* the buffer reaches beyond the frame *)
    assert (k = []) as -> by (apply nil_length_inv; rewrite Ek, length_app in Hl; lia).
    exists []. rewrite app_nil_r in Ek. rewrite app_nil_r, Ek. by rewrite Er.
  - by exists k.
Qed.

(** One call: the next frame, or a timeout that loses nothing. *)
Inductive call_outcome (clock : nat → Z) (deadline max : Z) (fs : list Frame) (c : Channel)
    : Result Frame → Channel → Prop :=
| call_frame f fs' c' :
    fs = f :: fs' → delivering max fs' c' → (pauses (ch_socket c') <= pauses (ch_socket c))%nat →
    call_outcome clock deadline max fs c (Ok f) c'
| call_timeout msg c' :
    delivering max fs c' →
    (∃ i, deadline <= clock i) ∨ (pauses (ch_socket c') < pauses (ch_socket c))%nat ∨ fs = [] →
    call_outcome clock deadline max fs c (err ETimeout msg) c'.

Lemma call_outcome_pauses clock deadline max fs c c1 r c' :
  (pauses (ch_socket c1) <= pauses (ch_socket c))%nat →
  call_outcome clock deadline max fs c1 r c' → call_outcome clock deadline max fs c r c'.
Proof.
  intros Hp [f fs' c'' -> Hd Hle|msg c'' Hd Hw].
  - eapply call_frame; [done..|lia].
  - apply call_timeout; [done|]. destruct Hw as [?|[?|?]]; [by left|right; left; lia|by right; right].
Qed.

Lemma recv_loop_delivers clock fuel c deadline max ticks fs :
  delivering max fs c → (length (incoming (ch_socket c)) < fuel)%nat →
  ∃ r c' ticks', recv_loop clock fuel c deadline max ticks = Some (r, c', ticks') ∧
    call_outcome clock deadline max fs c r c'.
Proof.
  revert c ticks. induction fuel as [|fuel IH]; intros c ticks Hd Hfuel; [lia|]. cbn [recv_loop].
  assert (Hcases : (∃ f fs', fs = f :: fs' ∧ incoming (ch_socket c) = flat_map wire fs' ∧
      buffered (ch_recv_buffer c) max = B_Frame f) ∨
    (∃ k, buffered (ch_recv_buffer c) max = B_Need k ∧ (length (ch_recv_buffer c) < k)%nat ∧
       match fs with [] => True | f :: _ => (k <= length (wire f))%nat end)).
  { destruct fs as [|f fs].
    - right. rewrite (dg_buffer _ _ _ Hd). exists kHeaderSize. split_and!; [done|vm_compute; lia|done].
    - destruct (delivering_buffer max f fs c Hd) as (r & Ew & Ei).
      pose proof (dg_frames _ _ _ Hd) as [Hf _]%Forall_cons.
      destruct (buffered_prefix max f _ r Hf Ew) as [[-> Hb]|(k & Hb & Hk)].
      + left. by exists f, fs.
      + right. exists k. split_and!; [done|lia..]. }
  destruct Hcases as [(f & fs' & -> & Ei & ->)|(k & -> & Hk & Hkw)].
  - eexists _, _, _. split; [done|]. apply (call_frame _ _ _ _ _ f fs'); [done| |done].
    destruct Hd as [Hf He Hv _ _]. apply Forall_cons in Hf as [_ Hf].
    split; [done..|by rewrite <-Ei|]. destruct fs'; [done|]. cbn [set_buffer ch_recv_buffer length]. lia.
  - destruct (Z.leb_spec (deadline - clock ticks) 0) as [Hlate|_].
    { eexists _, _, _. split; [done|]. apply call_timeout; [done|]. left. exists ticks. lia. }
    destruct (k - length (ch_recv_buffer c))%nat as [|n] eqn:En; [lia|].
    pose proof (recv_some_spec (ch_socket c) n) as Hs.
    pose proof (recv_some_transient (ch_socket c) n (dg_valid _ _ _ Hd) (dg_events _ _ _ Hd)) as Ht.
    destruct (recv_some (ch_socket c) (S n)) as [[b|e] s'].
    + destruct Hs as (Est & Hne & Hle & Ei & Hlt). destruct Ht as [He Hp].
      assert (Hd' : delivering max fs (mkChannel s' (ch_recv_buffer c ++ b))).
      { destruct Hd as [Hf _ Hv Hb Hbuf]. split; [done|done| | |]; cbn [ch_socket ch_recv_buffer].
        - unfold channel_valid, socket_valid in *. cbn [ch_socket]. by rewrite Est.
        - by rewrite <-app_assoc, <-Ei.
        - destruct fs as [|f fs].
          + rewrite Hbuf, Ei in Hb. cbn in Hb. by destruct b.
          + rewrite length_app. lia. }
      destruct (IH _ (S ticks) Hd') as (r & c' & tk & Er & Ho); [cbn [ch_socket]; lia|].
      eexists _, _, _. split; [done|]. eapply call_outcome_pauses; [|done].
      cbn [ch_socket]. by rewrite Hp.
    + destruct Hs as [Est Ei]. destruct Ht as (He & Hto & Hp).
      eexists _, _, _. split; [done|]. rewrite bool_decide_true by done.
      destruct e as [code msg]. cbn [err_code] in Hto. subst code. apply call_timeout.
      * destruct Hd as [Hf _ Hv Hb Hbuf]. split; [done|done| | |]; cbn [ch_socket ch_recv_buffer].
        -- unfold channel_valid, socket_valid in *. cbn [ch_socket]. by rewrite Est.
        -- by rewrite Ei.
        -- done.
      * right. cbn [ch_socket]. destruct Hp as [Hp|[Hnil _]]; [left; lia|]. right.
        destruct fs as [|f fs]; [done|]. exfalso.
        pose proof (dg_bytes _ _ _ Hd) as Hb. rewrite Hnil, app_nil_r in Hb. cbn [flat_map] in Hb.
        rewrite Hb, length_app in Hk. lia.
Qed.

(** Repeated calls: the results, and the channel afterwards. *)
Fixpoint recv_many (clock : nat → Z) (n : nat) (c : Channel) (timeout max : Z) (ticks : nat)
    : option (list (Result Frame) * Channel) :=
  match n with
  | O => Some ([], c)
  | S n =>
      '(r, c, ticks) ← recv_frame clock c timeout max ticks;
      '(rs, c) ← recv_many clock n c timeout max ticks;
      Some (r :: rs, c)
  end.

Definition received (rs : list (Result Frame)) : list Frame :=
  flat_map (λ r, match r with Ok f => [f] | Err _ => [] end) rs.

Lemma recv_frame_delivers clock c timeout max ticks fs :
  delivering max fs c →
  ∃ r c' ticks', recv_frame clock c timeout max ticks = Some (r, c', ticks') ∧
    call_outcome clock (clock ticks + (if 0 <? timeout then timeout else 1)) max fs c r c'.
Proof.
  intros Hd. unfold recv_frame. rewrite (dg_valid _ _ _ Hd). cbn [negb].
  apply recv_loop_delivers; [done|]. unfold recv_fuel. lia.
Qed.

Definition punctual (clock : nat → Z) (timeout : Z) : Prop :=
  ∀ i j, clock j < clock i + (if 0 <? timeout then timeout else 1).
Definition ok_or_timeout (r : Result Frame) : Prop :=
  match r with Ok _ => True | Err e => err_code e = ETimeout end.

Lemma recv_many_delivers clock n c timeout max ticks fs :
  delivering max fs c →
  ∃ rs c', recv_many clock n c timeout max ticks = Some (rs, c') ∧
    received rs `prefix_of` fs ∧ Forall ok_or_timeout rs ∧
    (punctual clock timeout → (length fs + pauses (ch_socket c) <= n)%nat → received rs = fs).
Proof.
  revert c ticks fs. induction n as [|n IH]; intros c ticks fs Hd; cbn [recv_many].
  - exists [], c. split_and!; [done|apply prefix_nil|done|]. intros _ Hn.
    destruct fs; [done|]. cbn [length] in Hn. lia.
  - destruct (recv_frame_delivers clock c timeout max ticks fs Hd) as (r & c1 & tk & -> & Ho).
    cbn [mbind option_bind]. destruct Ho as [f fs' c1 -> Hd1 Hp|msg c1 Hd1 Hw].
    + destruct (IH c1 tk fs' Hd1) as (rs & c' & -> & Hpre & Hall & Hfull).
      eexists _, _. split; [done|]. cbn [received flat_map]. split_and!.
      * by apply prefix_cons.
      * by constructor.
      * intros Hc Hn. cbn [length] in Hn. cbn [app]. f_equal. apply Hfull; [done|lia].
    + destruct (IH c1 tk fs Hd1) as (rs & c' & -> & Hpre & Hall & Hfull).
      eexists _, _. split; [done|]. cbn [received flat_map app]. split_and!; [done|by constructor|].
      intros Hc Hn. destruct Hw as [(i & Hi)|[Hlt|Hnil]].
      * specialize (Hc ticks i). lia.
      * apply Hfull; [done|lia].
      * subst fs. by destruct Hpre as [k Hk%eq_sym%app_nil]; destruct Hk.
Qed.

(** Sending frames one after the other, as long as each call succeeds. *)
Fixpoint send_many (clock : nat → Z) (c : Channel) (fs : list Frame) (timeout : Z) (ticks : nat)
    : option Channel :=
  match fs with
  | [] => Some c
  | f :: fs =>
      match send_frame clock c f timeout ticks with
      | (Ok _, c, ticks) => send_many clock c fs timeout ticks
      | (Err _, _, _) => None
      end
  end.

Lemma send_many_written clock c fs timeout ticks c' :
  send_many clock c fs timeout ticks = Some c' →
  sk_written (ch_socket c') = sk_written (ch_socket c) ++ flat_map wire fs.
Proof.
  revert c ticks. induction fs as [|f fs IH]; intros c ticks; cbn [send_many flat_map].
  - intros [= ->]. by rewrite app_nil_r.
  - unfold send_frame. destruct (channel_valid c); cbn [negb]; [|done].
    pose proof (send_all_written clock (ch_socket c) (wire f) timeout ticks) as H.
    destruct (send_all _ _ _ _ _) as [[[[]|e] s] tk]; [|done].
    destruct H as (_ & _ & sent & rest & E & Ew & Hr). rewrite (Hr eq_refl), app_nil_r in E. subst sent.
    intros ->%IH. cbn [ch_socket]. by rewrite Ew, app_assoc.
Qed.

Lemma made_deliverable mt kind sender rid payload max :
  is_u16 mt → enum_wf kind → id_wf sender → is_u64 rid →
  Z.of_nat (length payload) <= kMaxFramePayload → Z.of_nat (length payload) <= max →
  deliverable max (make_frame mt kind sender rid payload).
Proof.
  intros. split; [by apply made_decodes|..|by apply made_validates]; cbn [make_frame fr_header
    fh_payload_length fr_payload]; rewrite made_length by done; done.
Qed.

(** ** Claims *)

(** C21: the transport is transparent.  Frames that one side has sent
    successfully, in order, arrive at the other side in order and unaltered, in
    whatever pieces the network delivers the bytes and however often the reader is
    interrupted or times out in between: what repeated [recv_frame] calls return
    is always a prefix of the frames sent, with nothing but timeouts in between
    (every call returns), and all of them once the reader has called often
    enough, if the clock leaves every call some time. *)
Theorem channel_transparent (clock clock' : nat → Z) (sender sender' : Channel) (fs : list Frame)
    (s : Socket) (timeout timeout' max : Z) (n : nat) :
  Forall (deliverable max) fs →
  sk_written (ch_socket sender) = [] → send_many clock sender fs timeout 0 = Some sender' →
  socket_valid s = true → Forall transient (sk_recv s) →
  incoming s = sk_written (ch_socket sender') →
  ∃ rs c', recv_many clock' n (new_channel s) timeout' max 0 = Some (rs, c') ∧
    received rs `prefix_of` fs ∧ Forall ok_or_timeout rs ∧
    (punctual clock' timeout' → (length fs + pauses s <= n)%nat → received rs = fs).
Proof.
  intros Hf Hw Hs%send_many_written Hv Ht Hi. rewrite Hw in Hs. cbn [app] in Hs.
  apply recv_many_delivers. split; cbn [new_channel ch_socket ch_recv_buffer]; try done.
  - cbn [app]. by rewrite Hi.
  - destruct fs; [done|]. cbn [length]. lia.
Qed.

(** Two frames, the first sent in two pieces; on the other side the bytes arrive in
    three pieces that do not respect the frames, with a pause. *)
Definition sample_frames : list Frame :=
  [make_frame 10 SK_Client (mkId 1 2) 7 [1; 2; 3]; make_frame 11 SK_Client (mkId 1 2) 8 []].
Definition sending_channel : Channel :=
  new_channel (mkSocket (new_state 3) [] [SE_Sent 20; SE_Interrupted; SE_Sent 28; SE_Sent 45] []).
Definition receiving_socket : Socket :=
  let b := flat_map wire sample_frames in
  mkSocket (new_state 4)
    [RE_Bytes (take 30 b); RE_Again; RE_Bytes (take 25 (drop 30 b)); RE_Bytes (drop 55 b)] [] [].

Lemma sample_deliverable : Forall (deliverable 100) sample_frames.
Proof.
  repeat (apply Forall_cons_2; [apply made_deliverable; (vm_compute; split; congruence) ||
    (vm_compute; congruence) || enum_wf_solve || (split; vm_compute; split; congruence)|]).
  apply Forall_nil_2.
Qed.

Lemma channel_transparent_witness :
  ∃ rs c', recv_many (λ _, 0) 3 (new_channel receiving_socket) 5 100 0 = Some (rs, c') ∧
    received rs = sample_frames.
Proof.
  assert (Hsend : ∃ c, send_many (λ _, 0) sending_channel sample_frames 5 0 = Some c ∧
    sk_written (ch_socket c) = incoming receiving_socket).
  { eexists. split; vm_compute; reflexivity. }
  destruct Hsend as (sender' & Hs & Hw).
  destruct (channel_transparent (λ _, 0) (λ _, 0) sending_channel sender' sample_frames
    receiving_socket 5 5 100 3 sample_deliverable eq_refl Hs eq_refl) as (rs & c' & E & _ & _ & Hall).
  - repeat (apply Forall_cons_2; [vm_compute; first [done|discriminate]|]). apply Forall_nil_2.
  - done.
  - exists rs, c'. split; [exact E|]. apply Hall; [intros i j; reflexivity|]. vm_compute. lia.
Defined.
