(* ===== verification/Serialize.v ===== *)
(** * Serialize: the domain types on the wire and in the store
    (protocol/serialize.h, serialize.cpp)

    For each type: the serializer, the deserializer with its error messages,
    the predicate [.._wf] of the values that survive a round trip (field widths
    and the reader's length limits), and the two lemmas that put the type into
    the database [wire]. *)

From S2P Require Import Prelude Status Ids Float64 Task Placement Wire.

Local Open Scope Z_scope.

Definition kMaxString : Z := 1048576.
Definition kMaxList : Z := 65536.

Definition serialize_retry_policy (p : RetryPolicy) : bytes :=
  put_u32 (rp_max_attempts p) ++ put_bool (rp_retry_on_node_loss p)
  ++ put_bool (rp_retry_on_executor_failure p) ++ put_bool (rp_retry_on_timeout p)
  ++ put_u64 (rp_retry_backoff_ms p).

Definition deserialize_retry_policy : Parse RetryPolicy :=
  max_attempts ← expect read_u32 "retry max_attempts";
  retry_on_node_loss ← expect read_bool "retry on_node_loss";
  retry_on_executor_failure ← expect read_bool "retry on_executor_failure";
  retry_on_timeout ← expect read_bool "retry on_timeout";
  retry_backoff_ms ← expect read_u64 "retry backoff";
  mret (mkRetryPolicy max_attempts retry_on_node_loss retry_on_executor_failure retry_on_timeout
    retry_backoff_ms).

Definition retry_policy_wf (p : RetryPolicy) : Prop :=
  is_u32 (rp_max_attempts p) ∧ is_u64 (rp_retry_backoff_ms p).

Lemma retry_policy_reads p :
  retry_policy_wf p → reads deserialize_retry_policy (serialize_retry_policy p) p.
Proof. solve_reads retry_policy_wf serialize_retry_policy deserialize_retry_policy. Qed.
Lemma retry_policy_safe : safe deserialize_retry_policy retry_policy_wf.
Proof. solve_safe deserialize_retry_policy. Qed.
#[export] Hint Resolve retry_policy_reads retry_policy_safe : wire.

Definition serialize_state_dep (d : StateDependency) : bytes :=
  put_string (sd_state_id d) ++ put_string (sd_generation d) ++ put_u64 (sd_size_bytes d)
  ++ put_list put_id (sd_resident_nodes d) ++ put_f64 (sd_locality_quality d)
  ++ put_f64 (sd_transfer_estimate_seconds d) ++ put_f64 (sd_recompute_estimate_seconds d)
  ++ put_bool (sd_provider_backed d) ++ put_string (sd_compatibility d).

Definition deserialize_state_dep : Parse StateDependency :=
  state_id ← expect (read_string kMaxString) "state id";
  generation ← expect (read_string kMaxString) "state generation";
  size_bytes ← expect read_u64 "state size";
  resident_nodes ← read_list kMaxList "state resident count" (expect read_id "state resident node");
  locality_quality ← expect read_f64 "state locality";
  transfer_estimate_seconds ← expect read_f64 "state transfer";
  recompute_estimate_seconds ← expect read_f64 "state recompute";
  provider_backed ← expect read_bool "state provider";
  compatibility ← expect (read_string kMaxString) "state compat";
  mret (mkStateDependency state_id generation size_bytes resident_nodes locality_quality
    transfer_estimate_seconds recompute_estimate_seconds provider_backed compatibility).

Definition state_dep_wf (d : StateDependency) : Prop :=
  str_wf kMaxString (sd_state_id d) ∧ str_wf kMaxString (sd_generation d) ∧
  is_u64 (sd_size_bytes d) ∧ list_wf kMaxList id_wf (sd_resident_nodes d) ∧
  is_u64 (sd_locality_quality d) ∧ is_u64 (sd_transfer_estimate_seconds d) ∧
  is_u64 (sd_recompute_estimate_seconds d) ∧ str_wf kMaxString (sd_compatibility d).

Lemma state_dep_reads d :
  state_dep_wf d → reads deserialize_state_dep (serialize_state_dep d) d.
Proof. solve_reads state_dep_wf serialize_state_dep deserialize_state_dep. Qed.
Lemma state_dep_safe : safe deserialize_state_dep state_dep_wf.
Proof. solve_safe deserialize_state_dep. Qed.
#[export] Hint Resolve state_dep_reads state_dep_safe : wire.

Definition serialize_task (t : ComputeTask) : bytes :=
  put_id (ct_id t) ++ put_id (ct_workload t) ++ put_string (ct_name t)
  ++ put_u8 (enum_to (ct_task_class t)) ++ put_u8 (enum_to (ct_required_executor t))
  ++ put_u8 (u8 (ct_min_compute_capability_major t))
  ++ put_u8 (u8 (ct_min_compute_capability_minor t)) ++ put_u32 (ct_required_cpu_slots t)
  ++ put_u32 (ct_required_gpu_slots t) ++ put_u64 (ct_scratch_memory_bytes t)
  ++ put_list put_id (ct_dependencies t) ++ put_list serialize_state_dep (ct_state_dependencies t)
  ++ put_u64 (ct_expected_input_bytes t) ++ put_u64 (ct_expected_output_bytes t)
  ++ put_f64 (ct_estimated_duration_seconds t) ++ put_bool (ct_has_deadline t)
  ++ put_i64 (ct_deadline_epoch_ms t) ++ put_u8 (enum_to (ct_priority t))
  ++ serialize_retry_policy (ct_retry t) ++ put_list put_id (ct_preferred_nodes t)
  ++ put_list put_id (ct_forbidden_nodes t) ++ put_list put_string (ct_required_tags t)
  ++ put_list put_string (ct_preferred_tags t) ++ put_string (ct_anti_affinity_group t)
  ++ write_optional_id (ct_same_node_as_task t)
  ++ write_optional_id (ct_different_node_from_task t) ++ put_f64 (ct_expected_transfer_gb t)
  ++ put_f64 (ct_expected_recompute_cost_seconds t) ++ put_f64 (ct_cost_estimate t)
  ++ put_bool (ct_preemptible t) ++ put_u8 (enum_to (ct_kernel t))
  ++ put_u64 (ct_kernel_param_n t) ++ put_u64 (ct_kernel_param_a t)
  ++ put_u64 (ct_kernel_param_b t) ++ put_u64 (ct_seed t) ++ put_tags (ct_user_tags t)
  ++ put_blob (ct_payload t).

Definition deserialize_task : Parse ComputeTask :=
  id ← expect read_id "task id";
  workload ← expect read_id "task workload";
  name ← expect (read_string kMaxString) "task name";
  task_class ← expect_enum "task class";
  required_executor ← expect_enum "task executor";
  min_compute_capability_major ← expect read_u8 "task cap";
  min_compute_capability_minor ← expect read_u8 "task cap";
  required_cpu_slots ← expect read_u32 "task cpu slots";
  required_gpu_slots ← expect read_u32 "task gpu slots";
  scratch_memory_bytes ← expect read_u64 "task scratch";
  dependencies ← read_list kMaxList "task dep count" (expect read_id "task dep");
  state_dependencies ← read_list kMaxList "task state count" deserialize_state_dep;
  expected_input_bytes ← expect read_u64 "task input bytes";
  expected_output_bytes ← expect read_u64 "task output bytes";
  estimated_duration_seconds ← expect read_f64 "task duration";
  has_deadline ← expect read_bool "task deadline flag";
  deadline_epoch_ms ← expect read_i64 "task deadline";
  priority ← expect_enum "task priority";
  retry ← deserialize_retry_policy;
  preferred_nodes ← read_list kMaxList "task pref count" (expect read_id "task pref node");
  forbidden_nodes ← read_list kMaxList "task forbid count" (expect read_id "task forbid node");
  required_tags ← read_list kMaxList "task req tags" (expect (read_string kMaxString) "task req tag");
  preferred_tags ← read_list kMaxList "task pref tags" (expect (read_string kMaxString) "task pref tag");
  anti_affinity_group ← expect (read_string kMaxString) "task anti-aff";
  same_node_as_task ← expect read_optional_id "task same_node";
  different_node_from_task ← expect read_optional_id "task diff_node";
  expected_transfer_gb ← expect read_f64 "task xfer gb";
  expected_recompute_cost_seconds ← expect read_f64 "task recompute";
  cost_estimate ← expect read_f64 "task cost";
  preemptible ← expect read_bool "task preemptible";
  kernel ← expect_enum "task kernel";
  kernel_param_n ← expect read_u64 "task kn";
  kernel_param_a ← expect read_u64 "task ka";
  kernel_param_b ← expect read_u64 "task kb";
  seed ← expect read_u64 "task seed";
  user_tags ← read_tags kMaxList kMaxString "task user tags" "task user tag";
  payload ← read_blob kMaxString "task payload len" "task payload";
  mret (mkComputeTask id workload name task_class required_executor min_compute_capability_major
    min_compute_capability_minor required_cpu_slots required_gpu_slots scratch_memory_bytes
    dependencies state_dependencies expected_input_bytes expected_output_bytes
    estimated_duration_seconds has_deadline deadline_epoch_ms priority retry preferred_nodes
    forbidden_nodes required_tags preferred_tags anti_affinity_group same_node_as_task
    different_node_from_task expected_transfer_gb expected_recompute_cost_seconds cost_estimate
    preemptible kernel kernel_param_n kernel_param_a kernel_param_b seed user_tags payload).

Definition task_wf (t : ComputeTask) : Prop :=
  id_wf (ct_id t) ∧ id_wf (ct_workload t) ∧ str_wf kMaxString (ct_name t) ∧
  enum_wf (ct_task_class t) ∧ enum_wf (ct_required_executor t) ∧
  is_u8 (ct_min_compute_capability_major t) ∧ is_u8 (ct_min_compute_capability_minor t) ∧
  is_u32 (ct_required_cpu_slots t) ∧ is_u32 (ct_required_gpu_slots t) ∧
  is_u64 (ct_scratch_memory_bytes t) ∧ list_wf kMaxList id_wf (ct_dependencies t) ∧
  list_wf kMaxList state_dep_wf (ct_state_dependencies t) ∧ is_u64 (ct_expected_input_bytes t) ∧
  is_u64 (ct_expected_output_bytes t) ∧ is_u64 (ct_estimated_duration_seconds t) ∧
  is_i64 (ct_deadline_epoch_ms t) ∧ enum_wf (ct_priority t) ∧ retry_policy_wf (ct_retry t) ∧
  list_wf kMaxList id_wf (ct_preferred_nodes t) ∧ list_wf kMaxList id_wf (ct_forbidden_nodes t) ∧
  list_wf kMaxList (str_wf kMaxString) (ct_required_tags t) ∧
  list_wf kMaxList (str_wf kMaxString) (ct_preferred_tags t) ∧
  str_wf kMaxString (ct_anti_affinity_group t) ∧ option_wf id_wf (ct_same_node_as_task t) ∧
  option_wf id_wf (ct_different_node_from_task t) ∧ is_u64 (ct_expected_transfer_gb t) ∧
  is_u64 (ct_expected_recompute_cost_seconds t) ∧ is_u64 (ct_cost_estimate t) ∧
  enum_wf (ct_kernel t) ∧ is_u64 (ct_kernel_param_n t) ∧ is_u64 (ct_kernel_param_a t) ∧
  is_u64 (ct_kernel_param_b t) ∧ is_u64 (ct_seed t) ∧
  tags_wf kMaxList kMaxString (ct_user_tags t) ∧ blob_wf kMaxString (ct_payload t).

Lemma task_reads t :
  task_wf t → reads deserialize_task (serialize_task t) t.
Proof. solve_reads task_wf serialize_task deserialize_task. Qed.
Lemma task_safe : safe deserialize_task task_wf.
Proof. solve_safe deserialize_task. Qed.
#[export] Hint Resolve task_reads task_safe : wire.

Definition serialize_workload (w : Workload) : bytes :=
  put_id (wl_id w) ++ put_string (wl_name w) ++ put_tags (wl_user_tags w).

Definition deserialize_workload : Parse Workload :=
  id ← expect read_id "workload id";
  name ← expect (read_string kMaxString) "workload name";
  user_tags ← read_tags kMaxList kMaxString "workload tag count" "workload tag";
  mret (mkWorkload id name user_tags).

Definition workload_wf (w : Workload) : Prop :=
  id_wf (wl_id w) ∧ str_wf kMaxString (wl_name w) ∧ tags_wf kMaxList kMaxString (wl_user_tags w).

Lemma workload_reads w :
  workload_wf w → reads deserialize_workload (serialize_workload w) w.
Proof. solve_reads workload_wf serialize_workload deserialize_workload. Qed.
Lemma workload_safe : safe deserialize_workload workload_wf.
Proof. solve_safe deserialize_workload. Qed.
#[export] Hint Resolve workload_reads workload_safe : wire.

Definition serialize_attempt (a : ExecutionAttempt) : bytes :=
  put_id (at_id a) ++ put_id (at_task_id a) ++ put_id (at_node_id a) ++ put_id (at_node_session a)
  ++ put_u64 (at_coordinator_epoch a) ++ put_id (at_reservation_id a)
  ++ put_u8 (enum_to (at_executor a)) ++ put_u32 (at_attempt_number a)
  ++ put_i64 (at_dispatched_at_ms a) ++ put_i64 (at_started_at_ms a)
  ++ put_i64 (at_completed_at_ms a) ++ put_u8 (enum_to (at_state a))
  ++ put_u8 (enum_to (at_failure_kind a)) ++ put_string (at_failure_reason a)
  ++ put_u64 (at_output_size a) ++ put_string (at_output_integrity a) ++ put_f64 (at_cpu_millis a)
  ++ put_u64 (at_bytes_transferred a) ++ put_string (at_device a) ++ put_bool (at_committed a).

Definition deserialize_attempt : Parse ExecutionAttempt :=
  id ← expect read_id "attempt id";
  task_id ← expect read_id "attempt task";
  node_id ← expect read_id "attempt node";
  node_session ← expect read_id "attempt session";
  coordinator_epoch ← expect read_u64 "attempt epoch";
  reservation_id ← expect read_id "attempt reservation";
  executor ← expect_enum "attempt executor";
  attempt_number ← expect read_u32 "attempt number";
  dispatched_at_ms ← expect read_i64 "attempt dispatched";
  started_at_ms ← expect read_i64 "attempt started";
  completed_at_ms ← expect read_i64 "attempt completed";
  state ← expect_enum "attempt state";
  failure_kind ← expect_enum "attempt failure kind";
  failure_reason ← expect (read_string kMaxString) "attempt fail reason";
  output_size ← expect read_u64 "attempt out size";
  output_integrity ← expect (read_string kMaxString) "attempt integrity";
  cpu_millis ← expect read_f64 "attempt cpu ms";
  bytes_transferred ← expect read_u64 "attempt bytes";
  device ← expect (read_string kMaxString) "attempt device";
  committed ← expect read_bool "attempt committed";
  mret (mkExecutionAttempt id task_id node_id node_session coordinator_epoch reservation_id
    executor attempt_number dispatched_at_ms started_at_ms completed_at_ms state failure_kind
    failure_reason output_size output_integrity cpu_millis bytes_transferred device committed).

Definition attempt_wf (a : ExecutionAttempt) : Prop :=
  id_wf (at_id a) ∧ id_wf (at_task_id a) ∧ id_wf (at_node_id a) ∧ id_wf (at_node_session a) ∧
  is_u64 (at_coordinator_epoch a) ∧ id_wf (at_reservation_id a) ∧ enum_wf (at_executor a) ∧
  is_u32 (at_attempt_number a) ∧ is_i64 (at_dispatched_at_ms a) ∧ is_i64 (at_started_at_ms a) ∧
  is_i64 (at_completed_at_ms a) ∧ enum_wf (at_state a) ∧ enum_wf (at_failure_kind a) ∧
  str_wf kMaxString (at_failure_reason a) ∧ is_u64 (at_output_size a) ∧
  str_wf kMaxString (at_output_integrity a) ∧ is_u64 (at_cpu_millis a) ∧
  is_u64 (at_bytes_transferred a) ∧ str_wf kMaxString (at_device a).

Lemma attempt_reads a :
  attempt_wf a → reads deserialize_attempt (serialize_attempt a) a.
Proof. solve_reads attempt_wf serialize_attempt deserialize_attempt. Qed.
Lemma attempt_safe : safe deserialize_attempt attempt_wf.
Proof. solve_safe deserialize_attempt. Qed.
#[export] Hint Resolve attempt_reads attempt_safe : wire.

(** The loop bodies over the candidates and the exclusions of a placement. *)
Definition serialize_candidate (c : CandidateScore) : bytes :=
  put_id (cs_node_id c) ++ put_u8 (enum_to (cs_executor c)) ++ put_string (cs_device c)
  ++ put_f64 (cs_score c) ++ put_f64 (cs_execution_cost c) ++ put_f64 (cs_queue_cost c)
  ++ put_f64 (cs_transfer_cost c) ++ put_f64 (cs_recompute_cost c) ++ put_f64 (cs_pressure_cost c)
  ++ put_f64 (cs_affinity_cost c) ++ put_f64 (cs_capability_cost c)
  ++ put_f64 (cs_state_locality_score c) ++ put_f64 (cs_resource_pressure_score c).

Definition deserialize_candidate : Parse CandidateScore :=
  node_id ← expect read_id "placement cand node";
  executor ← expect_enum "placement cand exec";
  device ← expect (read_string kMaxString) "placement cand device";
  score ← expect read_f64 "placement cand score";
  execution_cost ← expect read_f64 "placement cand exec cost";
  queue_cost ← expect read_f64 "placement cand queue cost";
  transfer_cost ← expect read_f64 "placement cand xfer cost";
  recompute_cost ← expect read_f64 "placement cand recompute";
  pressure_cost ← expect read_f64 "placement cand pressure";
  affinity_cost ← expect read_f64 "placement cand affinity";
  capability_cost ← expect read_f64 "placement cand cap";
  state_locality_score ← expect read_f64 "placement cand locality";
  resource_pressure_score ← expect read_f64 "placement cand pressure";
  mret (mkCandidateScore node_id executor device score execution_cost queue_cost transfer_cost
    recompute_cost pressure_cost affinity_cost capability_cost state_locality_score
    resource_pressure_score).

Definition candidate_wf (c : CandidateScore) : Prop :=
  id_wf (cs_node_id c) ∧ enum_wf (cs_executor c) ∧ str_wf kMaxString (cs_device c) ∧
  is_u64 (cs_score c) ∧ is_u64 (cs_execution_cost c) ∧ is_u64 (cs_queue_cost c) ∧
  is_u64 (cs_transfer_cost c) ∧ is_u64 (cs_recompute_cost c) ∧ is_u64 (cs_pressure_cost c) ∧
  is_u64 (cs_affinity_cost c) ∧ is_u64 (cs_capability_cost c) ∧
  is_u64 (cs_state_locality_score c) ∧ is_u64 (cs_resource_pressure_score c).

Lemma candidate_reads c :
  candidate_wf c → reads deserialize_candidate (serialize_candidate c) c.
Proof. solve_reads candidate_wf serialize_candidate deserialize_candidate. Qed.
Lemma candidate_safe : safe deserialize_candidate candidate_wf.
Proof. solve_safe deserialize_candidate. Qed.
#[export] Hint Resolve candidate_reads candidate_safe : wire.

Definition serialize_exclusion (e : Exclusion) : bytes :=
  put_id (ex_node_id e) ++ put_list put_string (ex_reasons e).

Definition deserialize_exclusion : Parse Exclusion :=
  node_id ← expect read_id "placement excl node";
  reasons ← read_list kMaxList "placement excl reason count" (expect (read_string kMaxString) "placement excl reason");
  mret (mkExclusion node_id reasons).

Definition exclusion_wf (e : Exclusion) : Prop :=
  id_wf (ex_node_id e) ∧ list_wf kMaxList (str_wf kMaxString) (ex_reasons e).

Lemma exclusion_reads e :
  exclusion_wf e → reads deserialize_exclusion (serialize_exclusion e) e.
Proof. solve_reads exclusion_wf serialize_exclusion deserialize_exclusion. Qed.
Lemma exclusion_safe : safe deserialize_exclusion exclusion_wf.
Proof. solve_safe deserialize_exclusion. Qed.
#[export] Hint Resolve exclusion_reads exclusion_safe : wire.

Definition serialize_placement (d : PlacementDecision) : bytes :=
  put_bool (pd_feasible d) ++ put_optional put_id (pd_chosen_node d)
  ++ put_optional (λ e, put_u8 (enum_to e)) (pd_chosen_executor d)
  ++ put_string (pd_chosen_device d) ++ put_list serialize_candidate (pd_candidates d)
  ++ put_list serialize_exclusion (pd_excluded d) ++ put_f64 (pd_total_cost d)
  ++ put_f64 (pd_execution_cost d) ++ put_f64 (pd_queue_cost d) ++ put_f64 (pd_transfer_cost d)
  ++ put_f64 (pd_recompute_cost d) ++ put_f64 (pd_pressure_cost d) ++ put_f64 (pd_affinity_cost d)
  ++ put_f64 (pd_capability_cost d) ++ put_f64 (pd_state_locality_score d)
  ++ put_f64 (pd_resource_pressure_score d) ++ put_string (pd_reason d).

Definition deserialize_placement : Parse PlacementDecision :=
  feasible ← expect read_bool "placement feasible";
  chosen_node ← expect_optional "placement node flag" (expect read_id "placement node");
  chosen_executor ← expect_optional "placement exec flag" (expect_enum "placement exec");
  chosen_device ← expect (read_string kMaxString) "placement device";
  candidates ← read_list kMaxList "placement cand count" deserialize_candidate;
  excluded ← read_list kMaxList "placement excl count" deserialize_exclusion;
  total_cost ← expect read_f64 "placement total";
  execution_cost ← expect read_f64 "placement exec";
  queue_cost ← expect read_f64 "placement queue";
  transfer_cost ← expect read_f64 "placement xfer";
  recompute_cost ← expect read_f64 "placement recompute";
  pressure_cost ← expect read_f64 "placement pressure";
  affinity_cost ← expect read_f64 "placement affinity";
  capability_cost ← expect read_f64 "placement cap";
  state_locality_score ← expect read_f64 "placement locality";
  resource_pressure_score ← expect read_f64 "placement pressure";
  reason ← expect (read_string kMaxString) "placement reason";
  mret (mkPlacementDecision feasible chosen_node chosen_executor chosen_device candidates excluded
    total_cost execution_cost queue_cost transfer_cost recompute_cost pressure_cost affinity_cost
    capability_cost state_locality_score resource_pressure_score reason).

Definition placement_wf (d : PlacementDecision) : Prop :=
  option_wf id_wf (pd_chosen_node d) ∧ option_wf enum_wf (pd_chosen_executor d) ∧
  str_wf kMaxString (pd_chosen_device d) ∧ list_wf kMaxList candidate_wf (pd_candidates d) ∧
  list_wf kMaxList exclusion_wf (pd_excluded d) ∧ is_u64 (pd_total_cost d) ∧
  is_u64 (pd_execution_cost d) ∧ is_u64 (pd_queue_cost d) ∧ is_u64 (pd_transfer_cost d) ∧
  is_u64 (pd_recompute_cost d) ∧ is_u64 (pd_pressure_cost d) ∧ is_u64 (pd_affinity_cost d) ∧
  is_u64 (pd_capability_cost d) ∧ is_u64 (pd_state_locality_score d) ∧
  is_u64 (pd_resource_pressure_score d) ∧ str_wf kMaxString (pd_reason d).

Lemma placement_reads d :
  placement_wf d → reads deserialize_placement (serialize_placement d) d.
Proof. solve_reads placement_wf serialize_placement deserialize_placement. Qed.
Lemma placement_safe : safe deserialize_placement placement_wf.
Proof. solve_safe deserialize_placement. Qed.
#[export] Hint Resolve placement_reads placement_safe : wire.

