(* ===== verification/Messages.v ===== *)
(** * Messages: the control-plane protocol (protocol/messages.h, messages.cpp)

    One record per message struct, its serializer (the bytes in the order the
    source writes them) and its deserializer (reads in the order of the source,
    with its error messages), the predicate of the values within the protocol's
    limits, and the two lemmas [.._reads] and [.._safe] of the database [wire].
    [Message] is the sum of all messages with their wire type. *)

From S2P Require Import Prelude Status Ids Float64 Task Lifecycle Placement Reservation Wire Frame Serialize.

Local Open Scope Z_scope.

Definition kMaxStr : Z := 1048576.
Definition kMaxMsgList : Z := 65536.

(** ** Message types *)

Definition kHello : Z := 1.
Definition kNodeRegister : Z := 2.
Definition kNodeRegisterAck : Z := 3.
Definition kNodeHeartbeat : Z := 4.
Definition kNodeHeartbeatAck : Z := 5.
Definition kNodeShutdown : Z := 6.
Definition kNodeShutdownAck : Z := 7.
Definition kTaskSubmit : Z := 10.
Definition kTaskSubmitResponse : Z := 11.
Definition kTaskInspect : Z := 12.
Definition kTaskInspectResponse : Z := 13.
Definition kTaskList : Z := 14.
Definition kTaskListResponse : Z := 15.
Definition kTaskCancel : Z := 16.
Definition kTaskCancelResponse : Z := 17.
Definition kWorkloadInspect : Z := 18.
Definition kWorkloadInspectResponse : Z := 19.
Definition kFabricStatus : Z := 20.
Definition kFabricStatusResponse : Z := 21.
Definition kPlacementQuery : Z := 22.
Definition kPlacementResponse : Z := 23.
Definition kNodeList : Z := 24.
Definition kNodeListResponse : Z := 25.
Definition kNodeDrain : Z := 26.
Definition kNodeDrainResponse : Z := 27.
Definition kCoordinatorShutdown : Z := 28.
Definition kCoordinatorShutdownResponse : Z := 29.
Definition kDispatchAttempt : Z := 30.
Definition kDispatchAck : Z := 31.
Definition kAttemptStarted : Z := 32.
Definition kAttemptProgress : Z := 33.
Definition kAttemptComplete : Z := 34.
Definition kAttemptCompleteAck : Z := 35.
Definition kAttemptFailed : Z := 36.
Definition kAttemptFailedAck : Z := 37.
Definition kAttemptCancelled : Z := 38.
Definition kAttemptCancel : Z := 39.
Definition kAttemptCancelAck : Z := 40.
Definition kReservationGrant : Z := 41.
Definition kReservationRelease : Z := 42.
Definition kReservationReleaseAck : Z := 43.
Definition kErrorResponse : Z := 999.

Definition message_type_name (t : Z) : string :=
  if t =? kHello then "hello"
  else if t =? kNodeRegister then "node_register"
  else if t =? kNodeRegisterAck then "node_register_ack"
  else if t =? kNodeHeartbeat then "node_heartbeat"
  else if t =? kNodeHeartbeatAck then "node_heartbeat_ack"
  else if t =? kNodeShutdown then "node_shutdown"
  else if t =? kNodeShutdownAck then "node_shutdown_ack"
  else if t =? kTaskSubmit then "task_submit"
  else if t =? kTaskSubmitResponse then "task_submit_response"
  else if t =? kTaskInspect then "task_inspect"
  else if t =? kTaskInspectResponse then "task_inspect_response"
  else if t =? kTaskList then "task_list"
  else if t =? kTaskListResponse then "task_list_response"
  else if t =? kTaskCancel then "task_cancel"
  else if t =? kTaskCancelResponse then "task_cancel_response"
  else if t =? kWorkloadInspect then "workload_inspect"
  else if t =? kWorkloadInspectResponse then "workload_inspect_response"
  else if t =? kFabricStatus then "fabric_status"
  else if t =? kFabricStatusResponse then "fabric_status_response"
  else if t =? kPlacementQuery then "placement_query"
  else if t =? kPlacementResponse then "placement_response"
  else if t =? kNodeList then "node_list"
  else if t =? kNodeListResponse then "node_list_response"
  else if t =? kNodeDrain then "node_drain"
  else if t =? kNodeDrainResponse then "node_drain_response"
  else if t =? kCoordinatorShutdown then "coordinator_shutdown"
  else if t =? kCoordinatorShutdownResponse then "coordinator_shutdown_response"
  else if t =? kDispatchAttempt then "dispatch_attempt"
  else if t =? kDispatchAck then "dispatch_ack"
  else if t =? kAttemptStarted then "attempt_started"
  else if t =? kAttemptProgress then "attempt_progress"
  else if t =? kAttemptComplete then "attempt_complete"
  else if t =? kAttemptCompleteAck then "attempt_complete_ack"
  else if t =? kAttemptFailed then "attempt_failed"
  else if t =? kAttemptFailedAck then "attempt_failed_ack"
  else if t =? kAttemptCancelled then "attempt_cancelled"
  else if t =? kAttemptCancel then "attempt_cancel"
  else if t =? kAttemptCancelAck then "attempt_cancel_ack"
  else if t =? kReservationGrant then "reservation_grant"
  else if t =? kReservationRelease then "reservation_release"
  else if t =? kReservationReleaseAck then "reservation_release_ack"
  else if t =? kErrorResponse then "error_response"
  else "unknown".

(** ** Capacity *)

Definition serialize_executor_cap (e : ExecutorCapability) : bytes :=
  put_u8 (enum_to (xc_type e)) ++ put_string (xc_name e) ++ put_i32 (xc_slots e)
  ++ put_i32 (xc_major e) ++ put_i32 (xc_minor e) ++ put_string (xc_vendor e)
  ++ put_string (xc_architecture e) ++ put_string (xc_device_name e)
  ++ put_u64 (xc_device_memory_bytes e) ++ put_list put_i32 (xc_device_ids e)
  ++ put_f64 (xc_relative_speed e) ++ put_bool (xc_healthy e)
  ++ put_bool (xc_supports_preemption e).

Definition deserialize_executor_cap : Parse ExecutorCapability :=
  type ← expect_enum "executor type";
  name ← expect (read_string kMaxStr) "executor name";
  slots ← expect read_i32 "executor slots";
  major ← expect read_i32 "executor major";
  minor ← expect read_i32 "executor minor";
  vendor ← expect (read_string kMaxStr) "executor vendor";
  architecture ← expect (read_string kMaxStr) "executor arch";
  device_name ← expect (read_string kMaxStr) "executor device";
  device_memory_bytes ← expect read_u64 "executor mem";
  device_ids ← read_list kMaxMsgList "executor device count" (expect read_i32 "executor device id");
  relative_speed ← expect read_f64 "executor speed";
  healthy ← expect read_bool "executor healthy";
  supports_preemption ← expect read_bool "executor preempt";
  mret (mkExecutorCapability type name slots major minor vendor architecture device_name
    device_memory_bytes device_ids relative_speed healthy supports_preemption).

Definition executor_cap_wf (e : ExecutorCapability) : Prop :=
  enum_wf (xc_type e) ∧ str_wf kMaxStr (xc_name e) ∧ is_i32 (xc_slots e) ∧ is_i32 (xc_major e) ∧
  is_i32 (xc_minor e) ∧ str_wf kMaxStr (xc_vendor e) ∧ str_wf kMaxStr (xc_architecture e) ∧
  str_wf kMaxStr (xc_device_name e) ∧ is_u64 (xc_device_memory_bytes e) ∧
  list_wf kMaxMsgList is_i32 (xc_device_ids e) ∧ is_u64 (xc_relative_speed e).

Lemma executor_cap_reads e :
  executor_cap_wf e → reads deserialize_executor_cap (serialize_executor_cap e) e.
Proof. solve_reads executor_cap_wf serialize_executor_cap deserialize_executor_cap. Qed.
Lemma executor_cap_safe : safe deserialize_executor_cap executor_cap_wf.
Proof. solve_safe deserialize_executor_cap. Qed.
#[export] Hint Resolve executor_cap_reads executor_cap_safe : wire.

Definition serialize_capacity (c : NodeCapacity) : bytes :=
  put_i32 (nc_cpu_worker_slots c) ++ put_u64 (nc_host_memory_scheduling_bytes c)
  ++ put_list serialize_executor_cap (nc_executors c) ++ put_tags (nc_tags c)
  ++ put_string (nc_address c) ++ put_string (nc_label c).

Definition deserialize_capacity : Parse NodeCapacity :=
  cpu_worker_slots ← expect read_i32 "capacity cpu slots";
  host_memory_scheduling_bytes ← expect read_u64 "capacity mem";
  executors ← read_list kMaxMsgList "capacity executors" deserialize_executor_cap;
  tags ← read_tags kMaxMsgList kMaxStr "capacity tags" "capacity tag";
  address ← expect (read_string kMaxStr) "capacity address";
  label ← expect (read_string kMaxStr) "capacity label";
  mret (mkNodeCapacity cpu_worker_slots host_memory_scheduling_bytes executors tags address
    label).

Definition capacity_wf (c : NodeCapacity) : Prop :=
  is_i32 (nc_cpu_worker_slots c) ∧ is_u64 (nc_host_memory_scheduling_bytes c) ∧
  list_wf kMaxMsgList executor_cap_wf (nc_executors c) ∧ tags_wf kMaxMsgList kMaxStr (nc_tags c) ∧
  str_wf kMaxStr (nc_address c) ∧ str_wf kMaxStr (nc_label c).

Lemma capacity_reads c :
  capacity_wf c → reads deserialize_capacity (serialize_capacity c) c.
Proof. solve_reads capacity_wf serialize_capacity deserialize_capacity. Qed.
Lemma capacity_safe : safe deserialize_capacity capacity_wf.
Proof. solve_safe deserialize_capacity. Qed.
#[export] Hint Resolve capacity_reads capacity_safe : wire.

(** ** Messages *)

Record Hello := mkHello {
  hl_protocol_version : Z;
  hl_role : string
}.

Definition serialize_hello (m : Hello) : bytes :=
  put_u16 (hl_protocol_version m) ++ put_string (hl_role m).

Definition deserialize_hello : Parse Hello :=
  protocol_version ← expect read_u16 "hello version";
  role ← expect (read_string kMaxStr) "hello role";
  mret (mkHello protocol_version role).

Definition hello_wf (m : Hello) : Prop :=
  is_u16 (hl_protocol_version m) ∧ str_wf kMaxStr (hl_role m).

Lemma hello_reads m :
  hello_wf m → reads deserialize_hello (serialize_hello m) m.
Proof. solve_reads hello_wf serialize_hello deserialize_hello. Qed.
Lemma hello_safe : safe deserialize_hello hello_wf.
Proof. solve_safe deserialize_hello. Qed.
#[export] Hint Resolve hello_reads hello_safe : wire.

Record NodeRegister := mkNodeRegister {
  nreg_node_id : Id128;
  nreg_label : string;
  nreg_address : string;
  nreg_capacity : NodeCapacity
}.

Definition serialize_node_register (m : NodeRegister) : bytes :=
  put_id (nreg_node_id m) ++ put_string (nreg_label m) ++ put_string (nreg_address m)
  ++ serialize_capacity (nreg_capacity m).

Definition deserialize_node_register : Parse NodeRegister :=
  node_id ← expect read_id "register node id";
  label ← expect (read_string kMaxStr) "register label";
  address ← expect (read_string kMaxStr) "register address";
  capacity ← deserialize_capacity;
  mret (mkNodeRegister node_id label address capacity).

Definition node_register_wf (m : NodeRegister) : Prop :=
  id_wf (nreg_node_id m) ∧ str_wf kMaxStr (nreg_label m) ∧ str_wf kMaxStr (nreg_address m) ∧
  capacity_wf (nreg_capacity m).

Lemma node_register_reads m :
  node_register_wf m → reads deserialize_node_register (serialize_node_register m) m.
Proof. solve_reads node_register_wf serialize_node_register deserialize_node_register. Qed.
Lemma node_register_safe : safe deserialize_node_register node_register_wf.
Proof. solve_safe deserialize_node_register. Qed.
#[export] Hint Resolve node_register_reads node_register_safe : wire.

Record NodeRegisterAck := mkNodeRegisterAck {
  nack_node_id : Id128;
  nack_session_id : Id128;
  nack_coordinator_epoch : Z;
  nack_session_epoch : Z;
  nack_error : string
}.

Definition serialize_node_register_ack (m : NodeRegisterAck) : bytes :=
  put_id (nack_node_id m) ++ put_id (nack_session_id m) ++ put_u64 (nack_coordinator_epoch m)
  ++ put_u64 (nack_session_epoch m) ++ put_string (nack_error m).

Definition deserialize_node_register_ack : Parse NodeRegisterAck :=
  node_id ← expect read_id "ack node id";
  session_id ← expect read_id "ack session id";
  coordinator_epoch ← expect read_u64 "ack epoch";
  session_epoch ← expect read_u64 "ack session epoch";
  error ← expect (read_string kMaxStr) "ack error";
  mret (mkNodeRegisterAck node_id session_id coordinator_epoch session_epoch error).

Definition node_register_ack_wf (m : NodeRegisterAck) : Prop :=
  id_wf (nack_node_id m) ∧ id_wf (nack_session_id m) ∧ is_u64 (nack_coordinator_epoch m) ∧
  is_u64 (nack_session_epoch m) ∧ str_wf kMaxStr (nack_error m).

Lemma node_register_ack_reads m :
  node_register_ack_wf m → reads deserialize_node_register_ack (serialize_node_register_ack m) m.
Proof. solve_reads node_register_ack_wf serialize_node_register_ack deserialize_node_register_ack. Qed.
Lemma node_register_ack_safe : safe deserialize_node_register_ack node_register_ack_wf.
Proof. solve_safe deserialize_node_register_ack. Qed.
#[export] Hint Resolve node_register_ack_reads node_register_ack_safe : wire.

(** The loop body over the executors of a heartbeat. *)
Record ExecutorRuntimeSnapshot := mkExecutorRuntimeSnapshot {
  ers_name : string;
  ers_active : Z
}.

Definition serialize_executor_snapshot (m : ExecutorRuntimeSnapshot) : bytes :=
  put_string (ers_name m) ++ put_u32 (ers_active m).

Definition deserialize_executor_snapshot : Parse ExecutorRuntimeSnapshot :=
  name ← expect (read_string kMaxStr) "hb exec name";
  active ← expect read_u32 "hb exec active";
  mret (mkExecutorRuntimeSnapshot name active).

Definition executor_snapshot_wf (m : ExecutorRuntimeSnapshot) : Prop :=
  str_wf kMaxStr (ers_name m) ∧ is_u32 (ers_active m).

Lemma executor_snapshot_reads m :
  executor_snapshot_wf m → reads deserialize_executor_snapshot (serialize_executor_snapshot m) m.
Proof. solve_reads executor_snapshot_wf serialize_executor_snapshot deserialize_executor_snapshot. Qed.
Lemma executor_snapshot_safe : safe deserialize_executor_snapshot executor_snapshot_wf.
Proof. solve_safe deserialize_executor_snapshot. Qed.
#[export] Hint Resolve executor_snapshot_reads executor_snapshot_safe : wire.

Record NodeHeartbeat := mkNodeHeartbeat {
  hb_node_id : Id128;
  hb_session_id : Id128;
  hb_session_epoch : Z;
  hb_coordinator_epoch : Z;
  hb_active_cpu_slots : Z;
  hb_active_gpu_slots : Z;
  hb_executors : list ExecutorRuntimeSnapshot
}.

Definition serialize_node_heartbeat (m : NodeHeartbeat) : bytes :=
  put_id (hb_node_id m) ++ put_id (hb_session_id m) ++ put_u64 (hb_session_epoch m)
  ++ put_u64 (hb_coordinator_epoch m) ++ put_u32 (hb_active_cpu_slots m)
  ++ put_u32 (hb_active_gpu_slots m) ++ put_list serialize_executor_snapshot (hb_executors m).

Definition deserialize_node_heartbeat : Parse NodeHeartbeat :=
  node_id ← expect read_id "hb node id";
  session_id ← expect read_id "hb session id";
  session_epoch ← expect read_u64 "hb session epoch";
  coordinator_epoch ← expect read_u64 "hb epoch";
  active_cpu_slots ← expect read_u32 "hb cpu";
  active_gpu_slots ← expect read_u32 "hb gpu";
  executors ← read_list kMaxMsgList "hb executors" deserialize_executor_snapshot;
  mret (mkNodeHeartbeat node_id session_id session_epoch coordinator_epoch active_cpu_slots
    active_gpu_slots executors).

Definition node_heartbeat_wf (m : NodeHeartbeat) : Prop :=
  id_wf (hb_node_id m) ∧ id_wf (hb_session_id m) ∧ is_u64 (hb_session_epoch m) ∧
  is_u64 (hb_coordinator_epoch m) ∧ is_u32 (hb_active_cpu_slots m) ∧
  is_u32 (hb_active_gpu_slots m) ∧ list_wf kMaxMsgList executor_snapshot_wf (hb_executors m).

Lemma node_heartbeat_reads m :
  node_heartbeat_wf m → reads deserialize_node_heartbeat (serialize_node_heartbeat m) m.
Proof. solve_reads node_heartbeat_wf serialize_node_heartbeat deserialize_node_heartbeat. Qed.
Lemma node_heartbeat_safe : safe deserialize_node_heartbeat node_heartbeat_wf.
Proof. solve_safe deserialize_node_heartbeat. Qed.
#[export] Hint Resolve node_heartbeat_reads node_heartbeat_safe : wire.

Record NodeHeartbeatAck := mkNodeHeartbeatAck {
  hba_accepted : bool;
  hba_error : string
}.

Definition serialize_node_heartbeat_ack (m : NodeHeartbeatAck) : bytes :=
  put_bool (hba_accepted m) ++ put_string (hba_error m).

Definition deserialize_node_heartbeat_ack : Parse NodeHeartbeatAck :=
  accepted ← expect read_bool "hb ack accepted";
  error ← expect (read_string kMaxStr) "hb ack error";
  mret (mkNodeHeartbeatAck accepted error).

Definition node_heartbeat_ack_wf (m : NodeHeartbeatAck) : Prop :=
  str_wf kMaxStr (hba_error m).

Lemma node_heartbeat_ack_reads m :
  node_heartbeat_ack_wf m → reads deserialize_node_heartbeat_ack (serialize_node_heartbeat_ack m) m.
Proof. solve_reads node_heartbeat_ack_wf serialize_node_heartbeat_ack deserialize_node_heartbeat_ack. Qed.
Lemma node_heartbeat_ack_safe : safe deserialize_node_heartbeat_ack node_heartbeat_ack_wf.
Proof. solve_safe deserialize_node_heartbeat_ack. Qed.
#[export] Hint Resolve node_heartbeat_ack_reads node_heartbeat_ack_safe : wire.

Record NodeShutdown := mkNodeShutdown {
  nsd_node_id : Id128;
  nsd_session_id : Id128
}.

Definition serialize_node_shutdown (m : NodeShutdown) : bytes :=
  put_id (nsd_node_id m) ++ put_id (nsd_session_id m).

Definition deserialize_node_shutdown : Parse NodeShutdown :=
  node_id ← expect read_id "shutdown node id";
  session_id ← expect read_id "shutdown session id";
  mret (mkNodeShutdown node_id session_id).

Definition node_shutdown_wf (m : NodeShutdown) : Prop :=
  id_wf (nsd_node_id m) ∧ id_wf (nsd_session_id m).

Lemma node_shutdown_reads m :
  node_shutdown_wf m → reads deserialize_node_shutdown (serialize_node_shutdown m) m.
Proof. solve_reads node_shutdown_wf serialize_node_shutdown deserialize_node_shutdown. Qed.
Lemma node_shutdown_safe : safe deserialize_node_shutdown node_shutdown_wf.
Proof. solve_safe deserialize_node_shutdown. Qed.
#[export] Hint Resolve node_shutdown_reads node_shutdown_safe : wire.

Record NodeShutdownAck := mkNodeShutdownAck {
  nsda_accepted : bool
}.

Definition serialize_node_shutdown_ack (m : NodeShutdownAck) : bytes :=
  put_bool (nsda_accepted m).

Definition deserialize_node_shutdown_ack : Parse NodeShutdownAck :=
  accepted ← expect read_bool "shutdown ack";
  mret (mkNodeShutdownAck accepted).

Definition node_shutdown_ack_wf (m : NodeShutdownAck) : Prop :=
  True.

Lemma node_shutdown_ack_reads m :
  node_shutdown_ack_wf m → reads deserialize_node_shutdown_ack (serialize_node_shutdown_ack m) m.
Proof. solve_reads node_shutdown_ack_wf serialize_node_shutdown_ack deserialize_node_shutdown_ack. Qed.
Lemma node_shutdown_ack_safe : safe deserialize_node_shutdown_ack node_shutdown_ack_wf.
Proof. solve_safe deserialize_node_shutdown_ack. Qed.
#[export] Hint Resolve node_shutdown_ack_reads node_shutdown_ack_safe : wire.

Record TaskSubmit := mkTaskSubmit {
  tsub_workload_id : Id128;
  tsub_workload_name : string;
  tsub_task : ComputeTask
}.

Definition serialize_task_submit (m : TaskSubmit) : bytes :=
  put_id (tsub_workload_id m) ++ put_string (tsub_workload_name m) ++ serialize_task (tsub_task m).

Definition deserialize_task_submit : Parse TaskSubmit :=
  workload_id ← expect read_id "submit workload";
  workload_name ← expect (read_string kMaxStr) "submit workload name";
  task ← deserialize_task;
  mret (mkTaskSubmit workload_id workload_name task).

Definition task_submit_wf (m : TaskSubmit) : Prop :=
  id_wf (tsub_workload_id m) ∧ str_wf kMaxStr (tsub_workload_name m) ∧ task_wf (tsub_task m).

Lemma task_submit_reads m :
  task_submit_wf m → reads deserialize_task_submit (serialize_task_submit m) m.
Proof. solve_reads task_submit_wf serialize_task_submit deserialize_task_submit. Qed.
Lemma task_submit_safe : safe deserialize_task_submit task_submit_wf.
Proof. solve_safe deserialize_task_submit. Qed.
#[export] Hint Resolve task_submit_reads task_submit_safe : wire.

Record TaskSubmitResponse := mkTaskSubmitResponse {
  tsr_accepted : bool;
  tsr_task_id : Id128;
  tsr_error : string
}.

Definition serialize_task_submit_response (m : TaskSubmitResponse) : bytes :=
  put_bool (tsr_accepted m) ++ put_id (tsr_task_id m) ++ put_string (tsr_error m).

Definition deserialize_task_submit_response : Parse TaskSubmitResponse :=
  accepted ← expect read_bool "submit resp accepted";
  task_id ← expect read_id "submit resp task";
  error ← expect (read_string kMaxStr) "submit resp error";
  mret (mkTaskSubmitResponse accepted task_id error).

Definition task_submit_response_wf (m : TaskSubmitResponse) : Prop :=
  id_wf (tsr_task_id m) ∧ str_wf kMaxStr (tsr_error m).

Lemma task_submit_response_reads m :
  task_submit_response_wf m → reads deserialize_task_submit_response (serialize_task_submit_response m) m.
Proof. solve_reads task_submit_response_wf serialize_task_submit_response deserialize_task_submit_response. Qed.
Lemma task_submit_response_safe : safe deserialize_task_submit_response task_submit_response_wf.
Proof. solve_safe deserialize_task_submit_response. Qed.
#[export] Hint Resolve task_submit_response_reads task_submit_response_safe : wire.

Record TaskInspect := mkTaskInspect {
  tin_task_id : Id128
}.

Definition serialize_task_inspect (m : TaskInspect) : bytes :=
  put_id (tin_task_id m).

Definition deserialize_task_inspect : Parse TaskInspect :=
  task_id ← expect read_id "inspect task id";
  mret (mkTaskInspect task_id).

Definition task_inspect_wf (m : TaskInspect) : Prop :=
  id_wf (tin_task_id m).

Lemma task_inspect_reads m :
  task_inspect_wf m → reads deserialize_task_inspect (serialize_task_inspect m) m.
Proof. solve_reads task_inspect_wf serialize_task_inspect deserialize_task_inspect. Qed.
Lemma task_inspect_safe : safe deserialize_task_inspect task_inspect_wf.
Proof. solve_safe deserialize_task_inspect. Qed.
#[export] Hint Resolve task_inspect_reads task_inspect_safe : wire.

Record TaskInspectResponse := mkTaskInspectResponse {
  tir_found : bool;
  tir_task_id : Id128;
  tir_name : string;
  tir_task_class : TaskClass;
  tir_state : TaskState;
  tir_error : string;
  tir_attempts : list ExecutionAttempt;
  tir_retry_count : Z;
  tir_workload_id_hex : string
}.

Definition serialize_task_inspect_response (m : TaskInspectResponse) : bytes :=
  put_bool (tir_found m) ++ put_id (tir_task_id m) ++ put_string (tir_name m)
  ++ put_u8 (enum_to (tir_task_class m)) ++ put_u8 (enum_to (tir_state m))
  ++ put_string (tir_error m) ++ put_list serialize_attempt (tir_attempts m)
  ++ put_u32 (tir_retry_count m) ++ put_string (tir_workload_id_hex m).

Definition deserialize_task_inspect_response : Parse TaskInspectResponse :=
  found ← expect read_bool "inspect found";
  task_id ← expect read_id "inspect task id";
  name ← expect (read_string kMaxStr) "inspect name";
  task_class ← expect_enum "inspect class";
  state ← expect_enum "inspect state";
  error ← expect (read_string kMaxStr) "inspect error";
  attempts ← read_list kMaxMsgList "inspect attempts" deserialize_attempt;
  retry_count ← expect read_u32 "inspect retry";
  workload_id_hex ← expect (read_string kMaxStr) "inspect workload";
  mret (mkTaskInspectResponse found task_id name task_class state error attempts retry_count
    workload_id_hex).

Definition task_inspect_response_wf (m : TaskInspectResponse) : Prop :=
  id_wf (tir_task_id m) ∧ str_wf kMaxStr (tir_name m) ∧ enum_wf (tir_task_class m) ∧
  enum_wf (tir_state m) ∧ str_wf kMaxStr (tir_error m) ∧
  list_wf kMaxMsgList attempt_wf (tir_attempts m) ∧ is_u32 (tir_retry_count m) ∧
  str_wf kMaxStr (tir_workload_id_hex m).

Lemma task_inspect_response_reads m :
  task_inspect_response_wf m → reads deserialize_task_inspect_response (serialize_task_inspect_response m) m.
Proof. solve_reads task_inspect_response_wf serialize_task_inspect_response deserialize_task_inspect_response. Qed.
Lemma task_inspect_response_safe : safe deserialize_task_inspect_response task_inspect_response_wf.
Proof. solve_safe deserialize_task_inspect_response. Qed.
#[export] Hint Resolve task_inspect_response_reads task_inspect_response_safe : wire.

Record TaskList := mkTaskList {
  tl_filter_state : string
}.

Definition serialize_task_list (m : TaskList) : bytes :=
  put_string (tl_filter_state m).

Definition deserialize_task_list : Parse TaskList :=
  filter_state ← expect (read_string kMaxStr) "task list filter";
  mret (mkTaskList filter_state).

Definition task_list_wf (m : TaskList) : Prop :=
  str_wf kMaxStr (tl_filter_state m).

Lemma task_list_reads m :
  task_list_wf m → reads deserialize_task_list (serialize_task_list m) m.
Proof. solve_reads task_list_wf serialize_task_list deserialize_task_list. Qed.
Lemma task_list_safe : safe deserialize_task_list task_list_wf.
Proof. solve_safe deserialize_task_list. Qed.
#[export] Hint Resolve task_list_reads task_list_safe : wire.

Record TaskListEntry := mkTaskListEntry {
  tle_task_id : Id128;
  tle_name : string;
  tle_state : TaskState;
  tle_task_class : TaskClass;
  tle_priority : Priority
}.

Definition serialize_task_list_entry (m : TaskListEntry) : bytes :=
  put_id (tle_task_id m) ++ put_string (tle_name m) ++ put_u8 (enum_to (tle_state m))
  ++ put_u8 (enum_to (tle_task_class m)) ++ put_u8 (enum_to (tle_priority m)).

Definition deserialize_task_list_entry : Parse TaskListEntry :=
  task_id ← expect read_id "list entry id";
  name ← expect (read_string kMaxStr) "list entry name";
  state ← expect_enum "list entry state";
  task_class ← expect_enum "list entry state";
  priority ← expect_enum "list entry state";
  mret (mkTaskListEntry task_id name state task_class priority).

Definition task_list_entry_wf (m : TaskListEntry) : Prop :=
  id_wf (tle_task_id m) ∧ str_wf kMaxStr (tle_name m) ∧ enum_wf (tle_state m) ∧
  enum_wf (tle_task_class m) ∧ enum_wf (tle_priority m).

Lemma task_list_entry_reads m :
  task_list_entry_wf m → reads deserialize_task_list_entry (serialize_task_list_entry m) m.
Proof. solve_reads task_list_entry_wf serialize_task_list_entry deserialize_task_list_entry. Qed.
Lemma task_list_entry_safe : safe deserialize_task_list_entry task_list_entry_wf.
Proof. solve_safe deserialize_task_list_entry. Qed.
#[export] Hint Resolve task_list_entry_reads task_list_entry_safe : wire.

Record TaskListResponse := mkTaskListResponse {
  tlr_tasks : list TaskListEntry
}.

Definition serialize_task_list_response (m : TaskListResponse) : bytes :=
  put_list serialize_task_list_entry (tlr_tasks m).

Definition deserialize_task_list_response : Parse TaskListResponse :=
  tasks ← read_list kMaxMsgList "list resp count" deserialize_task_list_entry;
  mret (mkTaskListResponse tasks).

Definition task_list_response_wf (m : TaskListResponse) : Prop :=
  list_wf kMaxMsgList task_list_entry_wf (tlr_tasks m).

Lemma task_list_response_reads m :
  task_list_response_wf m → reads deserialize_task_list_response (serialize_task_list_response m) m.
Proof. solve_reads task_list_response_wf serialize_task_list_response deserialize_task_list_response. Qed.
Lemma task_list_response_safe : safe deserialize_task_list_response task_list_response_wf.
Proof. solve_safe deserialize_task_list_response. Qed.
#[export] Hint Resolve task_list_response_reads task_list_response_safe : wire.

Record TaskCancel := mkTaskCancel {
  tcl_task_id : Id128
}.

Definition serialize_task_cancel (m : TaskCancel) : bytes :=
  put_id (tcl_task_id m).

Definition deserialize_task_cancel : Parse TaskCancel :=
  task_id ← expect read_id "cancel task id";
  mret (mkTaskCancel task_id).

Definition task_cancel_wf (m : TaskCancel) : Prop :=
  id_wf (tcl_task_id m).

Lemma task_cancel_reads m :
  task_cancel_wf m → reads deserialize_task_cancel (serialize_task_cancel m) m.
Proof. solve_reads task_cancel_wf serialize_task_cancel deserialize_task_cancel. Qed.
Lemma task_cancel_safe : safe deserialize_task_cancel task_cancel_wf.
Proof. solve_safe deserialize_task_cancel. Qed.
#[export] Hint Resolve task_cancel_reads task_cancel_safe : wire.

Record TaskCancelResponse := mkTaskCancelResponse {
  tcr_found : bool;
  tcr_cancelled : bool;
  tcr_error : string
}.

Definition serialize_task_cancel_response (m : TaskCancelResponse) : bytes :=
  put_bool (tcr_found m) ++ put_bool (tcr_cancelled m) ++ put_string (tcr_error m).

Definition deserialize_task_cancel_response : Parse TaskCancelResponse :=
  found ← expect read_bool "cancel found";
  cancelled ← expect read_bool "cancel flag";
  error ← expect (read_string kMaxStr) "cancel error";
  mret (mkTaskCancelResponse found cancelled error).

Definition task_cancel_response_wf (m : TaskCancelResponse) : Prop :=
  str_wf kMaxStr (tcr_error m).

Lemma task_cancel_response_reads m :
  task_cancel_response_wf m → reads deserialize_task_cancel_response (serialize_task_cancel_response m) m.
Proof. solve_reads task_cancel_response_wf serialize_task_cancel_response deserialize_task_cancel_response. Qed.
Lemma task_cancel_response_safe : safe deserialize_task_cancel_response task_cancel_response_wf.
Proof. solve_safe deserialize_task_cancel_response. Qed.
#[export] Hint Resolve task_cancel_response_reads task_cancel_response_safe : wire.

Record WorkloadInspect := mkWorkloadInspect {
  wi_workload_id : Id128
}.

Definition serialize_workload_inspect (m : WorkloadInspect) : bytes :=
  put_id (wi_workload_id m).

Definition deserialize_workload_inspect : Parse WorkloadInspect :=
  workload_id ← expect read_id "workload inspect id";
  mret (mkWorkloadInspect workload_id).

Definition workload_inspect_wf (m : WorkloadInspect) : Prop :=
  id_wf (wi_workload_id m).

Lemma workload_inspect_reads m :
  workload_inspect_wf m → reads deserialize_workload_inspect (serialize_workload_inspect m) m.
Proof. solve_reads workload_inspect_wf serialize_workload_inspect deserialize_workload_inspect. Qed.
Lemma workload_inspect_safe : safe deserialize_workload_inspect workload_inspect_wf.
Proof. solve_safe deserialize_workload_inspect. Qed.
#[export] Hint Resolve workload_inspect_reads workload_inspect_safe : wire.

Record WorkloadInspectResponse := mkWorkloadInspectResponse {
  wir_found : bool;
  wir_workload_id : Id128;
  wir_name : string;
  wir_tasks : list TaskListEntry;
  wir_error : string
}.

Definition serialize_workload_inspect_response (m : WorkloadInspectResponse) : bytes :=
  put_bool (wir_found m) ++ put_id (wir_workload_id m) ++ put_string (wir_name m)
  ++ put_list serialize_task_list_entry (wir_tasks m) ++ put_string (wir_error m).

Definition deserialize_workload_inspect_response : Parse WorkloadInspectResponse :=
  found ← expect read_bool "workload found";
  workload_id ← expect read_id "workload id";
  name ← expect (read_string kMaxStr) "workload name";
  tasks ← read_list kMaxMsgList "workload tasks" deserialize_task_list_entry;
  error ← expect (read_string kMaxStr) "workload error";
  mret (mkWorkloadInspectResponse found workload_id name tasks error).

Definition workload_inspect_response_wf (m : WorkloadInspectResponse) : Prop :=
  id_wf (wir_workload_id m) ∧ str_wf kMaxStr (wir_name m) ∧
  list_wf kMaxMsgList task_list_entry_wf (wir_tasks m) ∧ str_wf kMaxStr (wir_error m).

Lemma workload_inspect_response_reads m :
  workload_inspect_response_wf m → reads deserialize_workload_inspect_response (serialize_workload_inspect_response m) m.
Proof. solve_reads workload_inspect_response_wf serialize_workload_inspect_response deserialize_workload_inspect_response. Qed.
Lemma workload_inspect_response_safe : safe deserialize_workload_inspect_response workload_inspect_response_wf.
Proof. solve_safe deserialize_workload_inspect_response. Qed.
#[export] Hint Resolve workload_inspect_response_reads workload_inspect_response_safe : wire.

Record FabricStatus := mkFabricStatus {
  fs_detail : string
}.

Definition serialize_fabric_status (m : FabricStatus) : bytes :=
  put_string (fs_detail m).

Definition deserialize_fabric_status : Parse FabricStatus :=
  detail ← expect (read_string kMaxStr) "fabric detail";
  mret (mkFabricStatus detail).

Definition fabric_status_wf (m : FabricStatus) : Prop :=
  str_wf kMaxStr (fs_detail m).

Lemma fabric_status_reads m :
  fabric_status_wf m → reads deserialize_fabric_status (serialize_fabric_status m) m.
Proof. solve_reads fabric_status_wf serialize_fabric_status deserialize_fabric_status. Qed.
Lemma fabric_status_safe : safe deserialize_fabric_status fabric_status_wf.
Proof. solve_safe deserialize_fabric_status. Qed.
#[export] Hint Resolve fabric_status_reads fabric_status_safe : wire.

Record NodeStatusEntry := mkNodeStatusEntry {
  nse_node_id : Id128;
  nse_label : string;
  nse_address : string;
  nse_health : NodeHealth;
  nse_connected : bool;
  nse_cpu_slots : Z;
  nse_cpu_used : Z;
  nse_session_epoch : Z;
  nse_executors : list string
}.

Definition serialize_node_status_entry (m : NodeStatusEntry) : bytes :=
  put_id (nse_node_id m) ++ put_string (nse_label m) ++ put_string (nse_address m)
  ++ put_u8 (enum_to (nse_health m)) ++ put_bool (nse_connected m) ++ put_u32 (nse_cpu_slots m)
  ++ put_u32 (nse_cpu_used m) ++ put_u64 (nse_session_epoch m)
  ++ put_list put_string (nse_executors m).

Definition deserialize_node_status_entry : Parse NodeStatusEntry :=
  node_id ← expect read_id "node status id";
  label ← expect (read_string kMaxStr) "node status label";
  address ← expect (read_string kMaxStr) "node status address";
  health ← expect_enum "node status health";
  connected ← expect read_bool "node status connected";
  cpu_slots ← expect read_u32 "node status cpu slots";
  cpu_used ← expect read_u32 "node status cpu used";
  session_epoch ← expect read_u64 "node status session epoch";
  executors ← read_list kMaxMsgList "node status executors" (expect (read_string kMaxStr) "node status executor");
  mret (mkNodeStatusEntry node_id label address health connected cpu_slots cpu_used session_epoch
    executors).

Definition node_status_entry_wf (m : NodeStatusEntry) : Prop :=
  id_wf (nse_node_id m) ∧ str_wf kMaxStr (nse_label m) ∧ str_wf kMaxStr (nse_address m) ∧
  enum_wf (nse_health m) ∧ is_u32 (nse_cpu_slots m) ∧ is_u32 (nse_cpu_used m) ∧
  is_u64 (nse_session_epoch m) ∧ list_wf kMaxMsgList (str_wf kMaxStr) (nse_executors m).

Lemma node_status_entry_reads m :
  node_status_entry_wf m → reads deserialize_node_status_entry (serialize_node_status_entry m) m.
Proof. solve_reads node_status_entry_wf serialize_node_status_entry deserialize_node_status_entry. Qed.
Lemma node_status_entry_safe : safe deserialize_node_status_entry node_status_entry_wf.
Proof. solve_safe deserialize_node_status_entry. Qed.
#[export] Hint Resolve node_status_entry_reads node_status_entry_safe : wire.

Record FabricStatusResponse := mkFabricStatusResponse {
  fsr_coordinator_epoch : Z;
  fsr_policy : string;
  fsr_node_count : Z;
  fsr_task_count : Z;
  fsr_running_count : Z;
  fsr_reserved_count : Z;
  fsr_completed_count : Z;
  fsr_nodes : list NodeStatusEntry;
  fsr_error : string
}.

Definition serialize_fabric_status_response (m : FabricStatusResponse) : bytes :=
  put_u64 (fsr_coordinator_epoch m) ++ put_string (fsr_policy m) ++ put_u32 (fsr_node_count m)
  ++ put_u32 (fsr_task_count m) ++ put_u32 (fsr_running_count m) ++ put_u32 (fsr_reserved_count m)
  ++ put_u32 (fsr_completed_count m) ++ put_list serialize_node_status_entry (fsr_nodes m)
  ++ put_string (fsr_error m).

Definition deserialize_fabric_status_response : Parse FabricStatusResponse :=
  coordinator_epoch ← expect read_u64 "status epoch";
  policy ← expect (read_string kMaxStr) "status policy";
  node_count ← expect read_u32 "status nodes";
  task_count ← expect read_u32 "status tasks";
  running_count ← expect read_u32 "status running";
  reserved_count ← expect read_u32 "status reserved";
  completed_count ← expect read_u32 "status completed";
  nodes ← read_list kMaxMsgList "status node list" deserialize_node_status_entry;
  error ← expect (read_string kMaxStr) "status error";
  mret (mkFabricStatusResponse coordinator_epoch policy node_count task_count running_count
    reserved_count completed_count nodes error).

Definition fabric_status_response_wf (m : FabricStatusResponse) : Prop :=
  is_u64 (fsr_coordinator_epoch m) ∧ str_wf kMaxStr (fsr_policy m) ∧ is_u32 (fsr_node_count m) ∧
  is_u32 (fsr_task_count m) ∧ is_u32 (fsr_running_count m) ∧ is_u32 (fsr_reserved_count m) ∧
  is_u32 (fsr_completed_count m) ∧ list_wf kMaxMsgList node_status_entry_wf (fsr_nodes m) ∧
  str_wf kMaxStr (fsr_error m).

Lemma fabric_status_response_reads m :
  fabric_status_response_wf m → reads deserialize_fabric_status_response (serialize_fabric_status_response m) m.
Proof. solve_reads fabric_status_response_wf serialize_fabric_status_response deserialize_fabric_status_response. Qed.
Lemma fabric_status_response_safe : safe deserialize_fabric_status_response fabric_status_response_wf.
Proof. solve_safe deserialize_fabric_status_response. Qed.
#[export] Hint Resolve fabric_status_response_reads fabric_status_response_safe : wire.

Record PlacementQuery := mkPlacementQuery {
  pq_task : ComputeTask
}.

Definition serialize_placement_query (m : PlacementQuery) : bytes :=
  serialize_task (pq_task m).

Definition deserialize_placement_query : Parse PlacementQuery :=
  task ← deserialize_task;
  mret (mkPlacementQuery task).

Definition placement_query_wf (m : PlacementQuery) : Prop :=
  task_wf (pq_task m).

Lemma placement_query_reads m :
  placement_query_wf m → reads deserialize_placement_query (serialize_placement_query m) m.
Proof. solve_reads placement_query_wf serialize_placement_query deserialize_placement_query. Qed.
Lemma placement_query_safe : safe deserialize_placement_query placement_query_wf.
Proof. solve_safe deserialize_placement_query. Qed.
#[export] Hint Resolve placement_query_reads placement_query_safe : wire.

Record PlacementResponse := mkPlacementResponse {
  pres_found : bool;
  pres_decision : PlacementDecision;
  pres_error : string
}.

Definition serialize_placement_response (m : PlacementResponse) : bytes :=
  put_bool (pres_found m) ++ serialize_placement (pres_decision m) ++ put_string (pres_error m).

Definition deserialize_placement_response : Parse PlacementResponse :=
  found ← expect read_bool "placement found";
  decision ← deserialize_placement;
  error ← expect (read_string kMaxStr) "placement error";
  mret (mkPlacementResponse found decision error).

Definition placement_response_wf (m : PlacementResponse) : Prop :=
  placement_wf (pres_decision m) ∧ str_wf kMaxStr (pres_error m).

Lemma placement_response_reads m :
  placement_response_wf m → reads deserialize_placement_response (serialize_placement_response m) m.
Proof. solve_reads placement_response_wf serialize_placement_response deserialize_placement_response. Qed.
Lemma placement_response_safe : safe deserialize_placement_response placement_response_wf.
Proof. solve_safe deserialize_placement_response. Qed.
#[export] Hint Resolve placement_response_reads placement_response_safe : wire.

Inductive NodeList : Set := mkNodeList.

Definition serialize_node_list (m : NodeList) : bytes := [].

Definition deserialize_node_list : Parse NodeList := mret mkNodeList.

Definition node_list_wf (m : NodeList) : Prop := True.

Lemma node_list_reads m : node_list_wf m → reads deserialize_node_list (serialize_node_list m) m.
Proof. intros _. destruct m. apply reads_ret. Qed.
Lemma node_list_safe : safe deserialize_node_list node_list_wf.
Proof. by apply safe_ret. Qed.
#[export] Hint Resolve node_list_reads node_list_safe : wire.

Record NodeListResponse := mkNodeListResponse {
  nlr_nodes : list NodeStatusEntry
}.

Definition serialize_node_list_response (m : NodeListResponse) : bytes :=
  put_list serialize_node_status_entry (nlr_nodes m).

Definition deserialize_node_list_response : Parse NodeListResponse :=
  nodes ← read_list kMaxMsgList "node list count" deserialize_node_status_entry;
  mret (mkNodeListResponse nodes).

Definition node_list_response_wf (m : NodeListResponse) : Prop :=
  list_wf kMaxMsgList node_status_entry_wf (nlr_nodes m).

Lemma node_list_response_reads m :
  node_list_response_wf m → reads deserialize_node_list_response (serialize_node_list_response m) m.
Proof. solve_reads node_list_response_wf serialize_node_list_response deserialize_node_list_response. Qed.
Lemma node_list_response_safe : safe deserialize_node_list_response node_list_response_wf.
Proof. solve_safe deserialize_node_list_response. Qed.
#[export] Hint Resolve node_list_response_reads node_list_response_safe : wire.

Record NodeDrain := mkNodeDrain {
  nd_node_id : Id128;
  nd_drain : bool
}.

Definition serialize_node_drain (m : NodeDrain) : bytes :=
  put_id (nd_node_id m) ++ put_bool (nd_drain m).

Definition deserialize_node_drain : Parse NodeDrain :=
  node_id ← expect read_id "drain node id";
  drain ← expect read_bool "drain flag";
  mret (mkNodeDrain node_id drain).

Definition node_drain_wf (m : NodeDrain) : Prop :=
  id_wf (nd_node_id m).

Lemma node_drain_reads m :
  node_drain_wf m → reads deserialize_node_drain (serialize_node_drain m) m.
Proof. solve_reads node_drain_wf serialize_node_drain deserialize_node_drain. Qed.
Lemma node_drain_safe : safe deserialize_node_drain node_drain_wf.
Proof. solve_safe deserialize_node_drain. Qed.
#[export] Hint Resolve node_drain_reads node_drain_safe : wire.

Record NodeDrainResponse := mkNodeDrainResponse {
  ndr_found : bool;
  ndr_accepted : bool;
  ndr_error : string
}.

Definition serialize_node_drain_response (m : NodeDrainResponse) : bytes :=
  put_bool (ndr_found m) ++ put_bool (ndr_accepted m) ++ put_string (ndr_error m).

Definition deserialize_node_drain_response : Parse NodeDrainResponse :=
  found ← expect read_bool "drain found";
  accepted ← expect read_bool "drain accepted";
  error ← expect (read_string kMaxStr) "drain error";
  mret (mkNodeDrainResponse found accepted error).

Definition node_drain_response_wf (m : NodeDrainResponse) : Prop :=
  str_wf kMaxStr (ndr_error m).

Lemma node_drain_response_reads m :
  node_drain_response_wf m → reads deserialize_node_drain_response (serialize_node_drain_response m) m.
Proof. solve_reads node_drain_response_wf serialize_node_drain_response deserialize_node_drain_response. Qed.
Lemma node_drain_response_safe : safe deserialize_node_drain_response node_drain_response_wf.
Proof. solve_safe deserialize_node_drain_response. Qed.
#[export] Hint Resolve node_drain_response_reads node_drain_response_safe : wire.

Inductive CoordinatorShutdown : Set := mkCoordinatorShutdown.

Definition serialize_coordinator_shutdown (m : CoordinatorShutdown) : bytes := [].

Definition deserialize_coordinator_shutdown : Parse CoordinatorShutdown := mret mkCoordinatorShutdown.

Definition coordinator_shutdown_wf (m : CoordinatorShutdown) : Prop := True.

Lemma coordinator_shutdown_reads m : coordinator_shutdown_wf m → reads deserialize_coordinator_shutdown (serialize_coordinator_shutdown m) m.
Proof. intros _. destruct m. apply reads_ret. Qed.
Lemma coordinator_shutdown_safe : safe deserialize_coordinator_shutdown coordinator_shutdown_wf.
Proof. by apply safe_ret. Qed.
#[export] Hint Resolve coordinator_shutdown_reads coordinator_shutdown_safe : wire.

Record CoordinatorShutdownResponse := mkCoordinatorShutdownResponse {
  csr_accepted : bool;
  csr_error : string
}.

Definition serialize_coordinator_shutdown_response (m : CoordinatorShutdownResponse) : bytes :=
  put_bool (csr_accepted m) ++ put_string (csr_error m).

Definition deserialize_coordinator_shutdown_response : Parse CoordinatorShutdownResponse :=
  accepted ← expect read_bool "cood shutdown accepted";
  error ← expect (read_string kMaxStr) "coor shutdown error";
  mret (mkCoordinatorShutdownResponse accepted error).

Definition coordinator_shutdown_response_wf (m : CoordinatorShutdownResponse) : Prop :=
  str_wf kMaxStr (csr_error m).

Lemma coordinator_shutdown_response_reads m :
  coordinator_shutdown_response_wf m → reads deserialize_coordinator_shutdown_response (serialize_coordinator_shutdown_response m) m.
Proof. solve_reads coordinator_shutdown_response_wf serialize_coordinator_shutdown_response deserialize_coordinator_shutdown_response. Qed.
Lemma coordinator_shutdown_response_safe : safe deserialize_coordinator_shutdown_response coordinator_shutdown_response_wf.
Proof. solve_safe deserialize_coordinator_shutdown_response. Qed.
#[export] Hint Resolve coordinator_shutdown_response_reads coordinator_shutdown_response_safe : wire.

Record DispatchAttempt := mkDispatchAttempt {
  da_task : ComputeTask;
  da_attempt_id : Id128;
  da_reservation_id : Id128;
  da_coordinator_epoch : Z;
  da_attempt_number : Z
}.

Definition serialize_dispatch_attempt (m : DispatchAttempt) : bytes :=
  serialize_task (da_task m) ++ put_id (da_attempt_id m) ++ put_id (da_reservation_id m)
  ++ put_u64 (da_coordinator_epoch m) ++ put_u32 (da_attempt_number m).

Definition deserialize_dispatch_attempt : Parse DispatchAttempt :=
  task ← deserialize_task;
  attempt_id ← expect read_id "dispatch attempt id";
  reservation_id ← expect read_id "dispatch reservation";
  coordinator_epoch ← expect read_u64 "dispatch epoch";
  attempt_number ← expect read_u32 "dispatch attempt num";
  mret (mkDispatchAttempt task attempt_id reservation_id coordinator_epoch attempt_number).

Definition dispatch_attempt_wf (m : DispatchAttempt) : Prop :=
  task_wf (da_task m) ∧ id_wf (da_attempt_id m) ∧ id_wf (da_reservation_id m) ∧
  is_u64 (da_coordinator_epoch m) ∧ is_u32 (da_attempt_number m).

Lemma dispatch_attempt_reads m :
  dispatch_attempt_wf m → reads deserialize_dispatch_attempt (serialize_dispatch_attempt m) m.
Proof. solve_reads dispatch_attempt_wf serialize_dispatch_attempt deserialize_dispatch_attempt. Qed.
Lemma dispatch_attempt_safe : safe deserialize_dispatch_attempt dispatch_attempt_wf.
Proof. solve_safe deserialize_dispatch_attempt. Qed.
#[export] Hint Resolve dispatch_attempt_reads dispatch_attempt_safe : wire.

Record DispatchAck := mkDispatchAck {
  dak_attempt_id : Id128;
  dak_accepted : bool;
  dak_error : string
}.

Definition serialize_dispatch_ack (m : DispatchAck) : bytes :=
  put_id (dak_attempt_id m) ++ put_bool (dak_accepted m) ++ put_string (dak_error m).

Definition deserialize_dispatch_ack : Parse DispatchAck :=
  attempt_id ← expect read_id "dispatch ack id";
  accepted ← expect read_bool "dispatch ack flag";
  error ← expect (read_string kMaxStr) "dispatch ack error";
  mret (mkDispatchAck attempt_id accepted error).

Definition dispatch_ack_wf (m : DispatchAck) : Prop :=
  id_wf (dak_attempt_id m) ∧ str_wf kMaxStr (dak_error m).

Lemma dispatch_ack_reads m :
  dispatch_ack_wf m → reads deserialize_dispatch_ack (serialize_dispatch_ack m) m.
Proof. solve_reads dispatch_ack_wf serialize_dispatch_ack deserialize_dispatch_ack. Qed.
Lemma dispatch_ack_safe : safe deserialize_dispatch_ack dispatch_ack_wf.
Proof. solve_safe deserialize_dispatch_ack. Qed.
#[export] Hint Resolve dispatch_ack_reads dispatch_ack_safe : wire.

Record AttemptStarted := mkAttemptStarted {
  ast_attempt_id : Id128;
  ast_started_at_ms : Z;
  ast_device : string
}.

Definition serialize_attempt_started (m : AttemptStarted) : bytes :=
  put_id (ast_attempt_id m) ++ put_i64 (ast_started_at_ms m) ++ put_string (ast_device m).

Definition deserialize_attempt_started : Parse AttemptStarted :=
  attempt_id ← expect read_id "started id";
  started_at_ms ← expect read_i64 "started at";
  device ← expect (read_string kMaxStr) "started device";
  mret (mkAttemptStarted attempt_id started_at_ms device).

Definition attempt_started_wf (m : AttemptStarted) : Prop :=
  id_wf (ast_attempt_id m) ∧ is_i64 (ast_started_at_ms m) ∧ str_wf kMaxStr (ast_device m).

Lemma attempt_started_reads m :
  attempt_started_wf m → reads deserialize_attempt_started (serialize_attempt_started m) m.
Proof. solve_reads attempt_started_wf serialize_attempt_started deserialize_attempt_started. Qed.
Lemma attempt_started_safe : safe deserialize_attempt_started attempt_started_wf.
Proof. solve_safe deserialize_attempt_started. Qed.
#[export] Hint Resolve attempt_started_reads attempt_started_safe : wire.

Record AttemptProgress := mkAttemptProgress {
  apr_attempt_id : Id128;
  apr_percent : Z
}.

Definition serialize_attempt_progress (m : AttemptProgress) : bytes :=
  put_id (apr_attempt_id m) ++ put_u32 (apr_percent m).

Definition deserialize_attempt_progress : Parse AttemptProgress :=
  attempt_id ← expect read_id "progress id";
  percent ← expect read_u32 "progress pct";
  mret (mkAttemptProgress attempt_id percent).

Definition attempt_progress_wf (m : AttemptProgress) : Prop :=
  id_wf (apr_attempt_id m) ∧ is_u32 (apr_percent m).

Lemma attempt_progress_reads m :
  attempt_progress_wf m → reads deserialize_attempt_progress (serialize_attempt_progress m) m.
Proof. solve_reads attempt_progress_wf serialize_attempt_progress deserialize_attempt_progress. Qed.
Lemma attempt_progress_safe : safe deserialize_attempt_progress attempt_progress_wf.
Proof. solve_safe deserialize_attempt_progress. Qed.
#[export] Hint Resolve attempt_progress_reads attempt_progress_safe : wire.

Record AttemptComplete := mkAttemptComplete {
  acm_attempt_id : Id128;
  acm_task_id : Id128;
  acm_reservation_id : Id128;
  acm_coordinator_epoch : Z;
  acm_result_code : Z;
  acm_output_size : Z;
  acm_output_integrity : string;
  acm_duration_ms : Z;
  acm_cpu_millis : Z;
  acm_bytes_transferred : Z;
  acm_device : string;
  acm_notes : list string
}.

Definition serialize_attempt_complete (m : AttemptComplete) : bytes :=
  put_id (acm_attempt_id m) ++ put_id (acm_task_id m) ++ put_id (acm_reservation_id m)
  ++ put_u64 (acm_coordinator_epoch m) ++ put_u8 (acm_result_code m)
  ++ put_u64 (acm_output_size m) ++ put_string (acm_output_integrity m)
  ++ put_f64 (acm_duration_ms m) ++ put_f64 (acm_cpu_millis m)
  ++ put_u64 (acm_bytes_transferred m) ++ put_string (acm_device m)
  ++ put_list put_string (acm_notes m).

Definition deserialize_attempt_complete : Parse AttemptComplete :=
  attempt_id ← expect read_id "complete id";
  task_id ← expect read_id "complete task";
  reservation_id ← expect read_id "complete resv";
  coordinator_epoch ← expect read_u64 "complete epoch";
  result_code ← expect read_u8 "complete code";
  output_size ← expect read_u64 "complete size";
  output_integrity ← expect (read_string kMaxStr) "complete integrity";
  duration_ms ← expect read_f64 "complete duration";
  cpu_millis ← expect read_f64 "complete cpu";
  bytes_transferred ← expect read_u64 "complete bytes";
  device ← expect (read_string kMaxStr) "complete device";
  notes ← read_list kMaxMsgList "complete notes" (expect (read_string kMaxStr) "complete note");
  mret (mkAttemptComplete attempt_id task_id reservation_id coordinator_epoch result_code
    output_size output_integrity duration_ms cpu_millis bytes_transferred device notes).

Definition attempt_complete_wf (m : AttemptComplete) : Prop :=
  id_wf (acm_attempt_id m) ∧ id_wf (acm_task_id m) ∧ id_wf (acm_reservation_id m) ∧
  is_u64 (acm_coordinator_epoch m) ∧ is_u8 (acm_result_code m) ∧ is_u64 (acm_output_size m) ∧
  str_wf kMaxStr (acm_output_integrity m) ∧ is_u64 (acm_duration_ms m) ∧
  is_u64 (acm_cpu_millis m) ∧ is_u64 (acm_bytes_transferred m) ∧ str_wf kMaxStr (acm_device m) ∧
  list_wf kMaxMsgList (str_wf kMaxStr) (acm_notes m).

Lemma attempt_complete_reads m :
  attempt_complete_wf m → reads deserialize_attempt_complete (serialize_attempt_complete m) m.
Proof. solve_reads attempt_complete_wf serialize_attempt_complete deserialize_attempt_complete. Qed.
Lemma attempt_complete_safe : safe deserialize_attempt_complete attempt_complete_wf.
Proof. solve_safe deserialize_attempt_complete. Qed.
#[export] Hint Resolve attempt_complete_reads attempt_complete_safe : wire.

Record AttemptFailed := mkAttemptFailed {
  afl_attempt_id : Id128;
  afl_task_id : Id128;
  afl_reservation_id : Id128;
  afl_coordinator_epoch : Z;
  afl_failure_kind : Z;
  afl_failure_reason : string;
  afl_duration_ms : Z
}.

Definition serialize_attempt_failed (m : AttemptFailed) : bytes :=
  put_id (afl_attempt_id m) ++ put_id (afl_task_id m) ++ put_id (afl_reservation_id m)
  ++ put_u64 (afl_coordinator_epoch m) ++ put_u8 (afl_failure_kind m)
  ++ put_string (afl_failure_reason m) ++ put_f64 (afl_duration_ms m).

Definition deserialize_attempt_failed : Parse AttemptFailed :=
  attempt_id ← expect read_id "fail id";
  task_id ← expect read_id "fail task";
  reservation_id ← expect read_id "fail resv";
  coordinator_epoch ← expect read_u64 "fail epoch";
  failure_kind ← expect read_u8 "fail kind";
  failure_reason ← expect (read_string kMaxStr) "fail reason";
  duration_ms ← expect read_f64 "fail duration";
  mret (mkAttemptFailed attempt_id task_id reservation_id coordinator_epoch failure_kind
    failure_reason duration_ms).

Definition attempt_failed_wf (m : AttemptFailed) : Prop :=
  id_wf (afl_attempt_id m) ∧ id_wf (afl_task_id m) ∧ id_wf (afl_reservation_id m) ∧
  is_u64 (afl_coordinator_epoch m) ∧ is_u8 (afl_failure_kind m) ∧
  str_wf kMaxStr (afl_failure_reason m) ∧ is_u64 (afl_duration_ms m).

Lemma attempt_failed_reads m :
  attempt_failed_wf m → reads deserialize_attempt_failed (serialize_attempt_failed m) m.
Proof. solve_reads attempt_failed_wf serialize_attempt_failed deserialize_attempt_failed. Qed.
Lemma attempt_failed_safe : safe deserialize_attempt_failed attempt_failed_wf.
Proof. solve_safe deserialize_attempt_failed. Qed.
#[export] Hint Resolve attempt_failed_reads attempt_failed_safe : wire.

Record AttemptCancelled := mkAttemptCancelled {
  acd_attempt_id : Id128;
  acd_task_id : Id128;
  acd_reservation_id : Id128;
  acd_coordinator_epoch : Z;
  acd_reason : string
}.

Definition serialize_attempt_cancelled (m : AttemptCancelled) : bytes :=
  put_id (acd_attempt_id m) ++ put_id (acd_task_id m) ++ put_id (acd_reservation_id m)
  ++ put_u64 (acd_coordinator_epoch m) ++ put_string (acd_reason m).

Definition deserialize_attempt_cancelled : Parse AttemptCancelled :=
  attempt_id ← expect read_id "cancelled id";
  task_id ← expect read_id "cancelled task";
  reservation_id ← expect read_id "cancelled resv";
  coordinator_epoch ← expect read_u64 "cancelled epoch";
  reason ← expect (read_string kMaxStr) "cancelled reason";
  mret (mkAttemptCancelled attempt_id task_id reservation_id coordinator_epoch reason).

Definition attempt_cancelled_wf (m : AttemptCancelled) : Prop :=
  id_wf (acd_attempt_id m) ∧ id_wf (acd_task_id m) ∧ id_wf (acd_reservation_id m) ∧
  is_u64 (acd_coordinator_epoch m) ∧ str_wf kMaxStr (acd_reason m).

Lemma attempt_cancelled_reads m :
  attempt_cancelled_wf m → reads deserialize_attempt_cancelled (serialize_attempt_cancelled m) m.
Proof. solve_reads attempt_cancelled_wf serialize_attempt_cancelled deserialize_attempt_cancelled. Qed.
Lemma attempt_cancelled_safe : safe deserialize_attempt_cancelled attempt_cancelled_wf.
Proof. solve_safe deserialize_attempt_cancelled. Qed.
#[export] Hint Resolve attempt_cancelled_reads attempt_cancelled_safe : wire.

Record AttemptCancel := mkAttemptCancel {
  acl_attempt_id : Id128;
  acl_reason : string
}.

Definition serialize_attempt_cancel (m : AttemptCancel) : bytes :=
  put_id (acl_attempt_id m) ++ put_string (acl_reason m).

Definition deserialize_attempt_cancel : Parse AttemptCancel :=
  attempt_id ← expect read_id "cancel attempt id";
  reason ← expect (read_string kMaxStr) "cancel attempt reason";
  mret (mkAttemptCancel attempt_id reason).

Definition attempt_cancel_wf (m : AttemptCancel) : Prop :=
  id_wf (acl_attempt_id m) ∧ str_wf kMaxStr (acl_reason m).

Lemma attempt_cancel_reads m :
  attempt_cancel_wf m → reads deserialize_attempt_cancel (serialize_attempt_cancel m) m.
Proof. solve_reads attempt_cancel_wf serialize_attempt_cancel deserialize_attempt_cancel. Qed.
Lemma attempt_cancel_safe : safe deserialize_attempt_cancel attempt_cancel_wf.
Proof. solve_safe deserialize_attempt_cancel. Qed.
#[export] Hint Resolve attempt_cancel_reads attempt_cancel_safe : wire.

Record AttemptCancelAck := mkAttemptCancelAck {
  aca_attempt_id : Id128;
  aca_accepted : bool
}.

Definition serialize_attempt_cancel_ack (m : AttemptCancelAck) : bytes :=
  put_id (aca_attempt_id m) ++ put_bool (aca_accepted m).

Definition deserialize_attempt_cancel_ack : Parse AttemptCancelAck :=
  attempt_id ← expect read_id "cancel ack id";
  accepted ← expect read_bool "cancel ack flag";
  mret (mkAttemptCancelAck attempt_id accepted).

Definition attempt_cancel_ack_wf (m : AttemptCancelAck) : Prop :=
  id_wf (aca_attempt_id m).

Lemma attempt_cancel_ack_reads m :
  attempt_cancel_ack_wf m → reads deserialize_attempt_cancel_ack (serialize_attempt_cancel_ack m) m.
Proof. solve_reads attempt_cancel_ack_wf serialize_attempt_cancel_ack deserialize_attempt_cancel_ack. Qed.
Lemma attempt_cancel_ack_safe : safe deserialize_attempt_cancel_ack attempt_cancel_ack_wf.
Proof. solve_safe deserialize_attempt_cancel_ack. Qed.
#[export] Hint Resolve attempt_cancel_ack_reads attempt_cancel_ack_safe : wire.

Record AttemptAck := mkAttemptAck {
  aak_attempt_id : Id128;
  aak_accepted : bool;
  aak_error : string
}.

Definition serialize_attempt_ack (m : AttemptAck) : bytes :=
  put_id (aak_attempt_id m) ++ put_bool (aak_accepted m) ++ put_string (aak_error m).

Definition deserialize_attempt_ack : Parse AttemptAck :=
  attempt_id ← expect read_id "ack id";
  accepted ← expect read_bool "ack flag";
  error ← expect (read_string kMaxStr) "ack error";
  mret (mkAttemptAck attempt_id accepted error).

Definition attempt_ack_wf (m : AttemptAck) : Prop :=
  id_wf (aak_attempt_id m) ∧ str_wf kMaxStr (aak_error m).

Lemma attempt_ack_reads m :
  attempt_ack_wf m → reads deserialize_attempt_ack (serialize_attempt_ack m) m.
Proof. solve_reads attempt_ack_wf serialize_attempt_ack deserialize_attempt_ack. Qed.
Lemma attempt_ack_safe : safe deserialize_attempt_ack attempt_ack_wf.
Proof. solve_safe deserialize_attempt_ack. Qed.
#[export] Hint Resolve attempt_ack_reads attempt_ack_safe : wire.

Record ReservationGrant := mkReservationGrant {
  rg_reservation_id : Id128;
  rg_task_id : Id128;
  rg_executor : ExecutorType;
  rg_slots : Z
}.

Definition serialize_reservation_grant (m : ReservationGrant) : bytes :=
  put_id (rg_reservation_id m) ++ put_id (rg_task_id m) ++ put_u8 (enum_to (rg_executor m))
  ++ put_u32 (rg_slots m).

Definition deserialize_reservation_grant : Parse ReservationGrant :=
  reservation_id ← expect read_id "grant resv";
  task_id ← expect read_id "grant task";
  executor ← expect_enum "grant executor";
  slots ← expect read_u32 "grant slots";
  mret (mkReservationGrant reservation_id task_id executor slots).

Definition reservation_grant_wf (m : ReservationGrant) : Prop :=
  id_wf (rg_reservation_id m) ∧ id_wf (rg_task_id m) ∧ enum_wf (rg_executor m) ∧
  is_u32 (rg_slots m).

Lemma reservation_grant_reads m :
  reservation_grant_wf m → reads deserialize_reservation_grant (serialize_reservation_grant m) m.
Proof. solve_reads reservation_grant_wf serialize_reservation_grant deserialize_reservation_grant. Qed.
Lemma reservation_grant_safe : safe deserialize_reservation_grant reservation_grant_wf.
Proof. solve_safe deserialize_reservation_grant. Qed.
#[export] Hint Resolve reservation_grant_reads reservation_grant_safe : wire.

Record ReservationRelease := mkReservationRelease {
  rel_reservation_id : Id128;
  rel_task_id : Id128;
  rel_node_id : Id128;
  rel_session_id : Id128;
  rel_coordinator_epoch : Z
}.

Definition serialize_reservation_release (m : ReservationRelease) : bytes :=
  put_id (rel_reservation_id m) ++ put_id (rel_task_id m) ++ put_id (rel_node_id m)
  ++ put_id (rel_session_id m) ++ put_u64 (rel_coordinator_epoch m).

Definition deserialize_reservation_release : Parse ReservationRelease :=
  reservation_id ← expect read_id "release resv";
  task_id ← expect read_id "release task";
  node_id ← expect read_id "release node";
  session_id ← expect read_id "release session";
  coordinator_epoch ← expect read_u64 "release epoch";
  mret (mkReservationRelease reservation_id task_id node_id session_id coordinator_epoch).

Definition reservation_release_wf (m : ReservationRelease) : Prop :=
  id_wf (rel_reservation_id m) ∧ id_wf (rel_task_id m) ∧ id_wf (rel_node_id m) ∧
  id_wf (rel_session_id m) ∧ is_u64 (rel_coordinator_epoch m).

Lemma reservation_release_reads m :
  reservation_release_wf m → reads deserialize_reservation_release (serialize_reservation_release m) m.
Proof. solve_reads reservation_release_wf serialize_reservation_release deserialize_reservation_release. Qed.
Lemma reservation_release_safe : safe deserialize_reservation_release reservation_release_wf.
Proof. solve_safe deserialize_reservation_release. Qed.
#[export] Hint Resolve reservation_release_reads reservation_release_safe : wire.

Record ReservationReleaseAck := mkReservationReleaseAck {
  rra_reservation_id : Id128;
  rra_accepted : bool;
  rra_error : string
}.

Definition serialize_reservation_release_ack (m : ReservationReleaseAck) : bytes :=
  put_id (rra_reservation_id m) ++ put_bool (rra_accepted m) ++ put_string (rra_error m).

Definition deserialize_reservation_release_ack : Parse ReservationReleaseAck :=
  reservation_id ← expect read_id "release ack resv";
  accepted ← expect read_bool "release ack flag";
  error ← expect (read_string kMaxStr) "release ack error";
  mret (mkReservationReleaseAck reservation_id accepted error).

Definition reservation_release_ack_wf (m : ReservationReleaseAck) : Prop :=
  id_wf (rra_reservation_id m) ∧ str_wf kMaxStr (rra_error m).

Lemma reservation_release_ack_reads m :
  reservation_release_ack_wf m → reads deserialize_reservation_release_ack (serialize_reservation_release_ack m) m.
Proof. solve_reads reservation_release_ack_wf serialize_reservation_release_ack deserialize_reservation_release_ack. Qed.
Lemma reservation_release_ack_safe : safe deserialize_reservation_release_ack reservation_release_ack_wf.
Proof. solve_safe deserialize_reservation_release_ack. Qed.
#[export] Hint Resolve reservation_release_ack_reads reservation_release_ack_safe : wire.

Record ErrorResponse := mkErrorResponse {
  er_for_message_type : Z;
  er_error : string
}.

Definition serialize_error_response (m : ErrorResponse) : bytes :=
  put_u16 (er_for_message_type m) ++ put_string (er_error m).

Definition deserialize_error_response : Parse ErrorResponse :=
  for_message_type ← expect read_u16 "error for type";
  error ← expect (read_string kMaxStr) "error msg";
  mret (mkErrorResponse for_message_type error).

Definition error_response_wf (m : ErrorResponse) : Prop :=
  is_u16 (er_for_message_type m) ∧ str_wf kMaxStr (er_error m).

Lemma error_response_reads m :
  error_response_wf m → reads deserialize_error_response (serialize_error_response m) m.
Proof. solve_reads error_response_wf serialize_error_response deserialize_error_response. Qed.
Lemma error_response_safe : safe deserialize_error_response error_response_wf.
Proof. solve_safe deserialize_error_response. Qed.
#[export] Hint Resolve error_response_reads error_response_safe : wire.

(** ** All messages

    A frame's message type selects the struct that its payload holds; the two
    outcome acknowledgements share one struct. *)

(** "BinaryReader r(frame.payload); deserialize_...(r)", as all readers of frames
    do. *)
Definition parse_payload {A} (p : Parse A) (frame : Frame) : Result A := (p (reader_of (fr_payload frame))).1.

Inductive Message :=
| MHello (m : Hello)
| MNodeRegister (m : NodeRegister)
| MNodeRegisterAck (m : NodeRegisterAck)
| MNodeHeartbeat (m : NodeHeartbeat)
| MNodeHeartbeatAck (m : NodeHeartbeatAck)
| MNodeShutdown (m : NodeShutdown)
| MNodeShutdownAck (m : NodeShutdownAck)
| MTaskSubmit (m : TaskSubmit)
| MTaskSubmitResponse (m : TaskSubmitResponse)
| MTaskInspect (m : TaskInspect)
| MTaskInspectResponse (m : TaskInspectResponse)
| MTaskList (m : TaskList)
| MTaskListResponse (m : TaskListResponse)
| MTaskCancel (m : TaskCancel)
| MTaskCancelResponse (m : TaskCancelResponse)
| MWorkloadInspect (m : WorkloadInspect)
| MWorkloadInspectResponse (m : WorkloadInspectResponse)
| MFabricStatus (m : FabricStatus)
| MFabricStatusResponse (m : FabricStatusResponse)
| MPlacementQuery (m : PlacementQuery)
| MPlacementResponse (m : PlacementResponse)
| MNodeList (m : NodeList)
| MNodeListResponse (m : NodeListResponse)
| MNodeDrain (m : NodeDrain)
| MNodeDrainResponse (m : NodeDrainResponse)
| MCoordinatorShutdown (m : CoordinatorShutdown)
| MCoordinatorShutdownResponse (m : CoordinatorShutdownResponse)
| MDispatchAttempt (m : DispatchAttempt)
| MDispatchAck (m : DispatchAck)
| MAttemptStarted (m : AttemptStarted)
| MAttemptProgress (m : AttemptProgress)
| MAttemptComplete (m : AttemptComplete)
| MAttemptCompleteAck (m : AttemptAck)
| MAttemptFailed (m : AttemptFailed)
| MAttemptFailedAck (m : AttemptAck)
| MAttemptCancelled (m : AttemptCancelled)
| MAttemptCancel (m : AttemptCancel)
| MAttemptCancelAck (m : AttemptCancelAck)
| MReservationGrant (m : ReservationGrant)
| MReservationRelease (m : ReservationRelease)
| MReservationReleaseAck (m : ReservationReleaseAck)
| MErrorResponse (m : ErrorResponse).

Definition message_type (msg : Message) : Z :=
  match msg with
  | MHello _ => kHello
  | MNodeRegister _ => kNodeRegister
  | MNodeRegisterAck _ => kNodeRegisterAck
  | MNodeHeartbeat _ => kNodeHeartbeat
  | MNodeHeartbeatAck _ => kNodeHeartbeatAck
  | MNodeShutdown _ => kNodeShutdown
  | MNodeShutdownAck _ => kNodeShutdownAck
  | MTaskSubmit _ => kTaskSubmit
  | MTaskSubmitResponse _ => kTaskSubmitResponse
  | MTaskInspect _ => kTaskInspect
  | MTaskInspectResponse _ => kTaskInspectResponse
  | MTaskList _ => kTaskList
  | MTaskListResponse _ => kTaskListResponse
  | MTaskCancel _ => kTaskCancel
  | MTaskCancelResponse _ => kTaskCancelResponse
  | MWorkloadInspect _ => kWorkloadInspect
  | MWorkloadInspectResponse _ => kWorkloadInspectResponse
  | MFabricStatus _ => kFabricStatus
  | MFabricStatusResponse _ => kFabricStatusResponse
  | MPlacementQuery _ => kPlacementQuery
  | MPlacementResponse _ => kPlacementResponse
  | MNodeList _ => kNodeList
  | MNodeListResponse _ => kNodeListResponse
  | MNodeDrain _ => kNodeDrain
  | MNodeDrainResponse _ => kNodeDrainResponse
  | MCoordinatorShutdown _ => kCoordinatorShutdown
  | MCoordinatorShutdownResponse _ => kCoordinatorShutdownResponse
  | MDispatchAttempt _ => kDispatchAttempt
  | MDispatchAck _ => kDispatchAck
  | MAttemptStarted _ => kAttemptStarted
  | MAttemptProgress _ => kAttemptProgress
  | MAttemptComplete _ => kAttemptComplete
  | MAttemptCompleteAck _ => kAttemptCompleteAck
  | MAttemptFailed _ => kAttemptFailed
  | MAttemptFailedAck _ => kAttemptFailedAck
  | MAttemptCancelled _ => kAttemptCancelled
  | MAttemptCancel _ => kAttemptCancel
  | MAttemptCancelAck _ => kAttemptCancelAck
  | MReservationGrant _ => kReservationGrant
  | MReservationRelease _ => kReservationRelease
  | MReservationReleaseAck _ => kReservationReleaseAck
  | MErrorResponse _ => kErrorResponse
  end.

Definition serialize_message (msg : Message) : bytes :=
  match msg with
  | MHello m => serialize_hello m
  | MNodeRegister m => serialize_node_register m
  | MNodeRegisterAck m => serialize_node_register_ack m
  | MNodeHeartbeat m => serialize_node_heartbeat m
  | MNodeHeartbeatAck m => serialize_node_heartbeat_ack m
  | MNodeShutdown m => serialize_node_shutdown m
  | MNodeShutdownAck m => serialize_node_shutdown_ack m
  | MTaskSubmit m => serialize_task_submit m
  | MTaskSubmitResponse m => serialize_task_submit_response m
  | MTaskInspect m => serialize_task_inspect m
  | MTaskInspectResponse m => serialize_task_inspect_response m
  | MTaskList m => serialize_task_list m
  | MTaskListResponse m => serialize_task_list_response m
  | MTaskCancel m => serialize_task_cancel m
  | MTaskCancelResponse m => serialize_task_cancel_response m
  | MWorkloadInspect m => serialize_workload_inspect m
  | MWorkloadInspectResponse m => serialize_workload_inspect_response m
  | MFabricStatus m => serialize_fabric_status m
  | MFabricStatusResponse m => serialize_fabric_status_response m
  | MPlacementQuery m => serialize_placement_query m
  | MPlacementResponse m => serialize_placement_response m
  | MNodeList m => serialize_node_list m
  | MNodeListResponse m => serialize_node_list_response m
  | MNodeDrain m => serialize_node_drain m
  | MNodeDrainResponse m => serialize_node_drain_response m
  | MCoordinatorShutdown m => serialize_coordinator_shutdown m
  | MCoordinatorShutdownResponse m => serialize_coordinator_shutdown_response m
  | MDispatchAttempt m => serialize_dispatch_attempt m
  | MDispatchAck m => serialize_dispatch_ack m
  | MAttemptStarted m => serialize_attempt_started m
  | MAttemptProgress m => serialize_attempt_progress m
  | MAttemptComplete m => serialize_attempt_complete m
  | MAttemptCompleteAck m => serialize_attempt_ack m
  | MAttemptFailed m => serialize_attempt_failed m
  | MAttemptFailedAck m => serialize_attempt_ack m
  | MAttemptCancelled m => serialize_attempt_cancelled m
  | MAttemptCancel m => serialize_attempt_cancel m
  | MAttemptCancelAck m => serialize_attempt_cancel_ack m
  | MReservationGrant m => serialize_reservation_grant m
  | MReservationRelease m => serialize_reservation_release m
  | MReservationReleaseAck m => serialize_reservation_release_ack m
  | MErrorResponse m => serialize_error_response m
  end.

Definition message_wf (msg : Message) : Prop :=
  match msg with
  | MHello m => hello_wf m
  | MNodeRegister m => node_register_wf m
  | MNodeRegisterAck m => node_register_ack_wf m
  | MNodeHeartbeat m => node_heartbeat_wf m
  | MNodeHeartbeatAck m => node_heartbeat_ack_wf m
  | MNodeShutdown m => node_shutdown_wf m
  | MNodeShutdownAck m => node_shutdown_ack_wf m
  | MTaskSubmit m => task_submit_wf m
  | MTaskSubmitResponse m => task_submit_response_wf m
  | MTaskInspect m => task_inspect_wf m
  | MTaskInspectResponse m => task_inspect_response_wf m
  | MTaskList m => task_list_wf m
  | MTaskListResponse m => task_list_response_wf m
  | MTaskCancel m => task_cancel_wf m
  | MTaskCancelResponse m => task_cancel_response_wf m
  | MWorkloadInspect m => workload_inspect_wf m
  | MWorkloadInspectResponse m => workload_inspect_response_wf m
  | MFabricStatus m => fabric_status_wf m
  | MFabricStatusResponse m => fabric_status_response_wf m
  | MPlacementQuery m => placement_query_wf m
  | MPlacementResponse m => placement_response_wf m
  | MNodeList m => node_list_wf m
  | MNodeListResponse m => node_list_response_wf m
  | MNodeDrain m => node_drain_wf m
  | MNodeDrainResponse m => node_drain_response_wf m
  | MCoordinatorShutdown m => coordinator_shutdown_wf m
  | MCoordinatorShutdownResponse m => coordinator_shutdown_response_wf m
  | MDispatchAttempt m => dispatch_attempt_wf m
  | MDispatchAck m => dispatch_ack_wf m
  | MAttemptStarted m => attempt_started_wf m
  | MAttemptProgress m => attempt_progress_wf m
  | MAttemptComplete m => attempt_complete_wf m
  | MAttemptCompleteAck m => attempt_ack_wf m
  | MAttemptFailed m => attempt_failed_wf m
  | MAttemptFailedAck m => attempt_ack_wf m
  | MAttemptCancelled m => attempt_cancelled_wf m
  | MAttemptCancel m => attempt_cancel_wf m
  | MAttemptCancelAck m => attempt_cancel_ack_wf m
  | MReservationGrant m => reservation_grant_wf m
  | MReservationRelease m => reservation_release_wf m
  | MReservationReleaseAck m => reservation_release_ack_wf m
  | MErrorResponse m => error_response_wf m
  end.

(** [deserialize_*] by type; the readers drop a frame of any other type. *)
Definition deserialize_message (t : Z) : option (Parse Message) :=
  if t =? kHello then Some (m ← deserialize_hello; mret (MHello m))
  else if t =? kNodeRegister then Some (m ← deserialize_node_register; mret (MNodeRegister m))
  else if t =? kNodeRegisterAck then Some (m ← deserialize_node_register_ack; mret (MNodeRegisterAck m))
  else if t =? kNodeHeartbeat then Some (m ← deserialize_node_heartbeat; mret (MNodeHeartbeat m))
  else if t =? kNodeHeartbeatAck then Some (m ← deserialize_node_heartbeat_ack; mret (MNodeHeartbeatAck m))
  else if t =? kNodeShutdown then Some (m ← deserialize_node_shutdown; mret (MNodeShutdown m))
  else if t =? kNodeShutdownAck then Some (m ← deserialize_node_shutdown_ack; mret (MNodeShutdownAck m))
  else if t =? kTaskSubmit then Some (m ← deserialize_task_submit; mret (MTaskSubmit m))
  else if t =? kTaskSubmitResponse then Some (m ← deserialize_task_submit_response; mret (MTaskSubmitResponse m))
  else if t =? kTaskInspect then Some (m ← deserialize_task_inspect; mret (MTaskInspect m))
  else if t =? kTaskInspectResponse then Some (m ← deserialize_task_inspect_response; mret (MTaskInspectResponse m))
  else if t =? kTaskList then Some (m ← deserialize_task_list; mret (MTaskList m))
  else if t =? kTaskListResponse then Some (m ← deserialize_task_list_response; mret (MTaskListResponse m))
  else if t =? kTaskCancel then Some (m ← deserialize_task_cancel; mret (MTaskCancel m))
  else if t =? kTaskCancelResponse then Some (m ← deserialize_task_cancel_response; mret (MTaskCancelResponse m))
  else if t =? kWorkloadInspect then Some (m ← deserialize_workload_inspect; mret (MWorkloadInspect m))
  else if t =? kWorkloadInspectResponse then Some (m ← deserialize_workload_inspect_response; mret (MWorkloadInspectResponse m))
  else if t =? kFabricStatus then Some (m ← deserialize_fabric_status; mret (MFabricStatus m))
  else if t =? kFabricStatusResponse then Some (m ← deserialize_fabric_status_response; mret (MFabricStatusResponse m))
  else if t =? kPlacementQuery then Some (m ← deserialize_placement_query; mret (MPlacementQuery m))
  else if t =? kPlacementResponse then Some (m ← deserialize_placement_response; mret (MPlacementResponse m))
  else if t =? kNodeList then Some (m ← deserialize_node_list; mret (MNodeList m))
  else if t =? kNodeListResponse then Some (m ← deserialize_node_list_response; mret (MNodeListResponse m))
  else if t =? kNodeDrain then Some (m ← deserialize_node_drain; mret (MNodeDrain m))
  else if t =? kNodeDrainResponse then Some (m ← deserialize_node_drain_response; mret (MNodeDrainResponse m))
  else if t =? kCoordinatorShutdown then Some (m ← deserialize_coordinator_shutdown; mret (MCoordinatorShutdown m))
  else if t =? kCoordinatorShutdownResponse then Some (m ← deserialize_coordinator_shutdown_response; mret (MCoordinatorShutdownResponse m))
  else if t =? kDispatchAttempt then Some (m ← deserialize_dispatch_attempt; mret (MDispatchAttempt m))
  else if t =? kDispatchAck then Some (m ← deserialize_dispatch_ack; mret (MDispatchAck m))
  else if t =? kAttemptStarted then Some (m ← deserialize_attempt_started; mret (MAttemptStarted m))
  else if t =? kAttemptProgress then Some (m ← deserialize_attempt_progress; mret (MAttemptProgress m))
  else if t =? kAttemptComplete then Some (m ← deserialize_attempt_complete; mret (MAttemptComplete m))
  else if t =? kAttemptCompleteAck then Some (m ← deserialize_attempt_ack; mret (MAttemptCompleteAck m))
  else if t =? kAttemptFailed then Some (m ← deserialize_attempt_failed; mret (MAttemptFailed m))
  else if t =? kAttemptFailedAck then Some (m ← deserialize_attempt_ack; mret (MAttemptFailedAck m))
  else if t =? kAttemptCancelled then Some (m ← deserialize_attempt_cancelled; mret (MAttemptCancelled m))
  else if t =? kAttemptCancel then Some (m ← deserialize_attempt_cancel; mret (MAttemptCancel m))
  else if t =? kAttemptCancelAck then Some (m ← deserialize_attempt_cancel_ack; mret (MAttemptCancelAck m))
  else if t =? kReservationGrant then Some (m ← deserialize_reservation_grant; mret (MReservationGrant m))
  else if t =? kReservationRelease then Some (m ← deserialize_reservation_release; mret (MReservationRelease m))
  else if t =? kReservationReleaseAck then Some (m ← deserialize_reservation_release_ack; mret (MReservationReleaseAck m))
  else if t =? kErrorResponse then Some (m ← deserialize_error_response; mret (MErrorResponse m))
  else None.

Lemma message_reads msg :
  message_wf msg →
  ∃ p, deserialize_message (message_type msg) = Some p ∧ reads p (serialize_message msg) msg.
Proof.
  destruct msg; simpl; intros; eexists; (split; [reflexivity|]);
    (eapply reads_last; [eauto with wire|reflexivity]).
Qed.

Lemma message_safe t p : deserialize_message t = Some p → safe p message_wf.
Proof.
  unfold deserialize_message. intros Hp.
  repeat (case_match; [injection Hp as <-; eapply safe_bind; [solve [eauto with wire]|];
                       intros; by apply safe_ret|]).
  discriminate Hp.
Qed.

(** ** Claims *)


Definition sample_message : Message :=
  MTaskCancelResponse (mkTaskCancelResponse true false "already terminal").


(** C38: hostile payloads are harmless.  On any bytes, the deserializer a type
    selects consumes a prefix of the payload and never reads past its end; it
    either returns a message within the protocol's limits or fails with
    [OutOfBounds]. *)
Theorem message_parse_safe (t : Z) (p : Parse Message) (payload : bytes) :
  deserialize_message t = Some p → are_bytes payload →
  ∃ res consumed rest,
    p (reader_of payload) = (res, mkReader (Z.of_nat (length consumed)) rest) ∧
    payload = consumed ++ rest ∧
    match res with Ok msg => message_wf msg | Err e => err_code e = EOutOfBounds end.
Proof.
  intros Hp Hb. destruct (message_safe t p Hp (reader_of payload) Hb)
    as (res & bs & [pos rest] & E & Hrest & Hpos & HP).
  exists res, bs, rest. simpl in *. by rewrite E, Hpos, Hrest.
Qed.

Lemma message_parse_safe_witness :
  ∃ p res consumed rest,
    deserialize_message kTaskSubmit = Some p ∧
    p (reader_of [1; 2; 3]) = (res, mkReader (Z.of_nat (length consumed)) rest) ∧
    [1; 2; 3] = consumed ++ rest ∧
    match res with Ok msg => message_wf msg | Err e => err_code e = EOutOfBounds end.
Proof.
  destruct (message_parse_safe kTaskSubmit (m ← deserialize_task_submit; mret (MTaskSubmit m))
    [1; 2; 3]) as (res & bs & rest & H); [reflexivity|repeat constructor; vm_compute; congruence|].
  eexists _, res, bs, rest. split; [reflexivity|exact H].
Defined.
