(* ===== verification/Client.v ===== *)
(** * Client: the blocking client of the control plane (net/client.h, net/client.cpp)

    A request sends one frame and waits for the frame that carries its request id.
    The wait runs until the clock passes the deadline; [fuel] bounds its passes. *)

From S2P Require Import Prelude Status Ids Digest Float64 Task Wire Frame Socket Channel Serialize Messages.

Local Open Scope Z_scope.

Record FabricClient := mkClient {
  fc_host : string;
  fc_port : Z;
  fc_channel : option Channel;
  fc_client_id : Id128;
  fc_next_request_id : Z;     (* uint64_t *)
  fc_ticks : nat              (* readings of the clock *)
}.

Definition new_client (host : string) (port : Z) : FabricClient := mkClient host port None id_zero 1 0.
Definition with_channel (ch : option Channel) (ticks : nat) (c : FabricClient) : FabricClient :=
  mkClient (fc_host c) (fc_port c) ch (fc_client_id c) (fc_next_request_id c) ticks.

(** [close], also the destructor. *)
Definition client_close (c : FabricClient) : FabricClient := with_channel None (fc_ticks c) c.
Definition client_connected (c : FabricClient) : bool :=
  match fc_channel c with Some ch => channel_valid ch | None => false end.

(** [static_cast<int>(remaining > INT_MAX ? INT_MAX : remaining)] *)
Definition clamp_int (ms : Z) : Z := if 2147483647 <? ms then 2147483647 else ms.

Section client.
Context (clock : nat → Z).
Implicit Types (c : FabricClient).

(** [connected] is what [TcpSocket::connect] returns, [new_client_id] a random id. *)
Definition client_connect (connected : Result Socket) (new_client_id : Id128) (timeout_ms : Z) c
    : Result unit * FabricClient :=
  let c := client_close c in
  if timeout_ms <=? 0 then (err ETimeout "connect deadline elapsed", c)
  else
    let deadline := clock (fc_ticks c) + timeout_ms in
    let c := with_channel None (S (fc_ticks c)) c in
    match connected with
    | Err e => (Err e, c)
    | Ok sock =>
        let remaining := deadline - clock (fc_ticks c) in
        let c := with_channel None (S (fc_ticks c)) c in
        if remaining <=? 0 then (err ETimeout "connect deadline elapsed before Hello", c)
        else
          let '(sent, ch, ticks) :=
            send_message clock (new_channel sock) kHello SK_Client new_client_id 0
              (serialize_hello (mkHello kProtocolVersion "client")) (clamp_int remaining) (fc_ticks c) in
          match sent with
          | Err e => (Err e, with_channel None ticks c)
          | Ok _ => (Ok tt, mkClient (fc_host c) (fc_port c) (Some ch) new_client_id 1 ticks)
          end
    end.

(** The loop of [request]: the frames with another id are skipped. *)
Fixpoint request_loop (fuel : nat) (deadline req : Z) (ch : Channel) c : option (Result Frame * FabricClient) :=
  match fuel with
  | O => None
  | S fuel =>
      if deadline <=? clock (fc_ticks c) then
        Some (err ETimeout "no response from coordinator", with_channel None (S (fc_ticks c)) c)
      else
        let remaining := deadline - clock (S (fc_ticks c)) in
        let receive_timeout := if remaining <? 500 then i32 remaining else 500 in
        match recv_frame clock ch receive_timeout kMaxFramePayload (S (S (fc_ticks c))) with
        | None => None
        | Some (Err e, ch, ticks) =>
            if bool_decide (err_code e = ETimeout) then
              request_loop fuel deadline req ch (with_channel (Some ch) ticks c)
            else Some (Err e, with_channel None ticks c)
        | Some (Ok frame, ch, ticks) =>
            let c := with_channel (Some ch) ticks c in
            if fh_request_id (fr_header frame) =? req then
              if fh_message_type (fr_header frame) =? kErrorResponse then
                match parse_payload deserialize_error_response frame with
                | Ok e => Some (err EInternal (er_error e), c)
                | Err _ => Some (Ok frame, c)
                end
              else Some (Ok frame, c)
            else request_loop fuel deadline req ch c
        end
  end.

Definition request (fuel : nat) (message_type : Z) (payload : bytes) (timeout_ms : Z) c
    : option (Result Frame * FabricClient) :=
  match fc_channel c with
  | None => Some (err ENotConnected "client not connected", c)
  | Some ch =>
      if negb (channel_valid ch) then Some (err ENotConnected "client not connected", c)
      else if timeout_ms <=? 0 then Some (err ETimeout "request deadline elapsed", client_close c)
      else
        let deadline := clock (fc_ticks c) + timeout_ms in
        let req := fc_next_request_id c in
        let c := mkClient (fc_host c) (fc_port c) (fc_channel c) (fc_client_id c) (u64 (req + 1))
                   (S (fc_ticks c)) in
        let '(r, ch, ticks) := send_message clock ch message_type SK_Client (fc_client_id c) req payload
                                 (clamp_int timeout_ms) (fc_ticks c) in
        match r with
        | Err e => Some (Err e, with_channel None ticks c)
        | Ok _ => request_loop fuel deadline req ch (with_channel (Some ch) ticks c)
        end
  end.

(** Serialize, request, deserialize. *)
Definition call {A} (fuel : nat) (m : Message) (response : Parse A) (timeout_ms : Z) c
    : option (Result A * FabricClient) :=
  '(f, c) ← request fuel (message_type m) (serialize_message m) timeout_ms c;
  Some (match f with Err e => Err e | Ok frame => parse_payload response frame end, c).

Definition submit (fuel : nat) (workload : Id128) (workload_name : string) (task : ComputeTask) c :=
  call fuel (MTaskSubmit (mkTaskSubmit workload workload_name task)) deserialize_task_submit_response 10000 c.
Definition inspect (fuel : nat) (id : Id128) c :=
  call fuel (MTaskInspect (mkTaskInspect id)) deserialize_task_inspect_response 10000 c.
Definition client_list (fuel : nat) (filter_state : string) c :=
  call fuel (MTaskList (mkTaskList filter_state)) deserialize_task_list_response 10000 c.
Definition cancel (fuel : nat) (id : Id128) c :=
  call fuel (MTaskCancel (mkTaskCancel id)) deserialize_task_cancel_response 10000 c.
Definition workload_inspect (fuel : nat) (id : Id128) c :=
  call fuel (MWorkloadInspect (mkWorkloadInspect id)) deserialize_workload_inspect_response 10000 c.
Definition status (fuel : nat) (timeout_ms : Z) c :=
  call fuel (MFabricStatus (mkFabricStatus "")) deserialize_fabric_status_response timeout_ms c.
Definition placement_query (fuel : nat) (task : ComputeTask) c :=
  call fuel (MPlacementQuery (mkPlacementQuery task)) deserialize_placement_response 10000 c.
Definition nodes (fuel : nat) c :=
  call fuel (MNodeList mkNodeList) deserialize_node_list_response 10000 c.
Definition drain (fuel : nat) (id : Id128) (drain_flag : bool) c :=
  call fuel (MNodeDrain (mkNodeDrain id drain_flag)) deserialize_node_drain_response 10000 c.
Definition shutdown_coordinator (fuel : nat) (timeout_ms : Z) c :=
  call fuel (MCoordinatorShutdown mkCoordinatorShutdown) deserialize_coordinator_shutdown_response timeout_ms c.

Definition tick c : Z * FabricClient := (clock (fc_ticks c), with_channel (fc_channel c) (S (fc_ticks c)) c).

(** The loop of [wait_for_nodes]. *)
Fixpoint wait_loop (fuel inner : nat) (n deadline : Z) c : option (bool * FabricClient) :=
  match fuel with
  | O => None
  | S fuel =>
      let '(now, c) := tick c in
      if deadline <=? now then Some (false, c)
      else
        let '(now, c) := tick c in
        '(s, c) ← status inner (deadline - now) c;
        if match s with Ok st => n <=? fsr_node_count st | Err _ => false end then Some (true, c)
        else if negb (client_connected c) then Some (false, c)
        else wait_loop fuel inner n deadline c
  end.
Definition wait_for_nodes (fuel : nat) (n timeout_ms : Z) c : option (bool * FabricClient) :=
  let '(now, c) := tick c in wait_loop fuel fuel n (now + timeout_ms) c.
End client.

(** ** What a request returns *)

(** The stream still delivers when a frame has been sent on it. *)
Lemma send_delivering clock max fs ch f timeout ticks :
  delivering max fs ch →
  let '(_, ch', ticks') := send_frame clock ch f timeout ticks in
  delivering max fs ch' ∧ (ticks <= ticks')%nat.
Proof.
  intros [Hf He Hv Hb Hbuf]. pose proof (send_frame_keeps clock ch f timeout ticks) as Hk.
  destruct (send_frame _ _ _ _ _) as [[r ch'] tk]. destruct Hk as (Eb & Ev & Er & Ht).
  split; [|done]. split; [done|by rewrite Er|by rewrite Ev| |by rewrite Eb].
  unfold incoming. by rewrite Eb, Er.
Qed.

(** The response to request [req] among the frames [fs], and what follows it. *)
Definition response_in (fs : list Frame) (req : Z) (f : Frame) (post : list Frame) : Prop :=
  ∃ pre, fs = pre ++ f :: post ∧ fh_request_id (fr_header f) = req ∧
    Forall (λ x, fh_request_id (fr_header x) ≠ req) pre.

(** What a request with the given id can return on a stream that delivers [fs]. *)
Definition request_outcome (fs : list Frame) (req : Z) (r : Result Frame) (c : FabricClient) : Prop :=
  match r with
  | Ok f => ∃ post ch, response_in fs req f post ∧ fc_channel c = Some ch ∧
              delivering kMaxFramePayload post ch
  | Err e => fc_channel c = None ∨
      ∃ f post ch m, response_in fs req f post ∧ fc_channel c = Some ch ∧
        delivering kMaxFramePayload post ch ∧
        fh_message_type (fr_header f) = kErrorResponse ∧
        parse_payload deserialize_error_response f = Ok m ∧ e = mkError EInternal (er_error m)
  end.

Lemma response_skip f fs req g post :
  fh_request_id (fr_header f) ≠ req → response_in fs req g post → response_in (f :: fs) req g post.
Proof. intros Hf (pre & -> & Hg & Hp). exists (f :: pre). split_and!; [done..|]. by constructor. Qed.

Lemma outcome_skip f fs req r c :
  fh_request_id (fr_header f) ≠ req → request_outcome fs req r c → request_outcome (f :: fs) req r c.
Proof.
  intros Hf. destruct r as [g|e]; cbn [request_outcome].
  - intros (post & ch & Hr & ?). exists post, ch. split; [by apply response_skip|done].
  - intros [?|(g & post & ch & m & Hr & ?)]; [by left|]. right. exists g, post, ch, m.
    split; [by apply response_skip|done].
Qed.

Lemma request_loop_returns clock N fuel deadline req fs ch c :
  (∀ i, (N <= i)%nat → deadline <= clock i) → (N < fc_ticks c + fuel)%nat → (0 < fuel)%nat →
  delivering kMaxFramePayload fs ch →
  ∃ r c', request_loop clock fuel deadline req ch c = Some (r, c') ∧ request_outcome fs req r c' ∧
    fc_next_request_id c' = fc_next_request_id c ∧ (fc_ticks c <= fc_ticks c')%nat.
Proof.
  intros HN. revert fs ch c. induction fuel as [|fuel IH]; intros fs ch c Hf H0 Hd; [lia|]. cbn [request_loop].
  destruct (Z.leb_spec deadline (clock (fc_ticks c))) as [Hle|Hlt].
  { eexists _, _. split_and!; [done|by left|done|cbn; lia]. }
  destruct (decide (N <= fc_ticks c)%nat) as [Hn|Hn]; [specialize (HN (fc_ticks c)); lia|].
  set (ms := if _ : bool then _ else _).
  destruct (recv_frame_delivers clock ch ms kMaxFramePayload (S (S (fc_ticks c))) fs Hd) as (r & ch' & tk & E & Ho).
  assert (Htk : (S (S (fc_ticks c)) <= tk)%nat) by exact (recv_frame_ticks _ _ _ _ _ _ _ _ E).
  rewrite E. set (c1 := with_channel (Some ch') tk c).
  assert (Hgo : ∀ fs', delivering kMaxFramePayload fs' ch' →
    ∃ r c', request_loop clock fuel deadline req ch' c1 = Some (r, c') ∧ request_outcome fs' req r c' ∧
      fc_next_request_id c' = fc_next_request_id c ∧ (fc_ticks c <= fc_ticks c')%nat).
  { intros fs' Hd'. destruct (IH fs' ch' c1) as (r' & c' & E' & Ho' & Hid & Ht); [cbn; lia|destruct fuel; lia|done|].
    exists r', c'. split_and!; [done..|]. cbn in Ht. lia. }
  assert (Hc1 : fc_next_request_id c1 = fc_next_request_id c ∧ (fc_ticks c <= fc_ticks c1)%nat) by (split; [done|cbn; lia]).
  destruct Ho as [f fs' ch' -> Hd' _|msg ch' Hd' _].
  - destruct (Z.eqb_spec (fh_request_id (fr_header f)) req) as [Eq|Hne].
    + assert (Hr : response_in (f :: fs') req f fs') by (by exists []).
      assert (Hok : request_outcome (f :: fs') req (Ok f) c1) by (by exists fs', ch').
      destruct (Z.eqb_spec (fh_message_type (fr_header f)) kErrorResponse) as [Et|]; [|by exists (Ok f), c1].
      destruct (parse_payload deserialize_error_response f) as [m|] eqn:Em; [|by exists (Ok f), c1].
      eexists _, c1. split_and!; [done|right; by exists f, fs', ch', m|apply Hc1..].
    + destruct (Hgo fs' Hd') as (r' & c' & E' & Ho' & Hrest). exists r', c'. split_and!; [done| |apply Hrest..].
      by apply outcome_skip.
  - unfold err at 1. rewrite bool_decide_true by done. by apply Hgo.
Qed.

(** *** On any connection *)

(** The channel of a client, if it has one, is in order. *)
Definition client_fits (c : FabricClient) : Prop :=
  match fc_channel c with Some ch => fits (ch_recv_buffer ch) | None => True end.

Lemma request_loop_total clock N fuel deadline req ch c :
  (∀ i, (N <= i)%nat → deadline <= clock i) → (N < fc_ticks c + fuel)%nat → (0 < fuel)%nat →
  fits (ch_recv_buffer ch) →
  ∃ r c', request_loop clock fuel deadline req ch c = Some (r, c') ∧ client_fits c' ∧
    (fc_ticks c <= fc_ticks c')%nat.
Proof.
  intros HN. revert ch c. induction fuel as [|fuel IH]; intros ch c Hf H0 Hd; [lia|]. cbn [request_loop].
  destruct (Z.leb_spec deadline (clock (fc_ticks c))) as [Hle|Hlt].
  { eexists _, _. split_and!; [done|done|cbn; lia]. }
  destruct (decide (N <= fc_ticks c)%nat) as [Hn|Hn]; [specialize (HN (fc_ticks c)); lia|].
  destruct (recv_frame_returns clock ch (if deadline - clock (S (fc_ticks c)) <? 500
    then i32 (deadline - clock (S (fc_ticks c))) else 500) kMaxFramePayload (S (S (fc_ticks c))) Hd)
    as (r & ch' & tk & E & Hf' & Ht).
  rewrite E. set (c1 := with_channel (Some ch') tk c).
  assert (Hgo : ∃ r c', request_loop clock fuel deadline req ch' c1 = Some (r, c') ∧ client_fits c' ∧
    (fc_ticks c <= fc_ticks c')%nat).
  { destruct (IH ch' c1) as (r' & c' & E' & Hc' & Ht'); [cbn; lia|destruct fuel; lia|done|].
    exists r', c'. split_and!; [done..|]. cbn in Ht'. lia. }
  destruct r as [f|e]; [|destruct (bool_decide _); [exact Hgo|eexists _, _; split_and!; [done|done|cbn; lia]]].
  destruct (_ =? req); [|exact Hgo].
  assert (Hc1 : client_fits c1 ∧ (fc_ticks c <= fc_ticks c1)%nat) by (split; [exact Hf'|cbn; lia]).
  destruct (_ =? _); [|by exists (Ok f), c1].
  destruct (parse_payload _ _); [by eexists _, c1|by exists (Ok f), c1].
Qed.

(** Within [fuel] readings of the clock [timeout_ms] pass: the request returns. *)
Lemma request_total clock fuel mt payload timeout_ms c :
  (∀ i j, (i <= j)%nat → clock i <= clock j) → (∀ i, clock i + timeout_ms <= clock (i + fuel)%nat) →
  client_fits c →
  ∃ r c', request clock fuel mt payload timeout_ms c = Some (r, c') ∧ client_fits c' ∧
    (fc_ticks c <= fc_ticks c')%nat.
Proof.
  intros Hmono Hspan Hc. unfold request. unfold client_fits in Hc.
  destruct (fc_channel c) as [ch|] eqn:Ech; [|eexists _, c; split_and!; [done|unfold client_fits; by rewrite Ech|done]].
  destruct (channel_valid ch); cbn [negb];
    [|eexists _, c; split_and!; [done|unfold client_fits; by rewrite Ech|done]].
  destruct (Z.leb_spec timeout_ms 0); [eexists _, _; by split_and!|]. unfold send_message. cbn [fc_client_id fc_ticks].
  pose proof (send_frame_keeps clock ch (make_frame mt SK_Client (fc_client_id c) (fc_next_request_id c) payload)
    (clamp_int timeout_ms) (S (fc_ticks c))) as Hk.
  destruct (send_frame _ _ _ _ _) as [[r ch'] tk]. destruct Hk as (Eb & _ & _ & Ht).
  destruct r as [[]|e]; [|eexists _, _; split_and!; [done|done|cbn; lia]].
  set (c1 := with_channel _ _ _).
  destruct (request_loop_total clock (fc_ticks c + fuel)%nat fuel (clock (fc_ticks c) + timeout_ms)
    (fc_next_request_id c) ch' c1) as (r & c' & E & Hf & Ht'); [|cbn; lia| |by rewrite Eb|].
  - intros i Hi. etrans; [apply Hspan|by apply Hmono].
  - destruct fuel; [|lia]. specialize (Hspan 0%nat). cbn in Hspan. lia.
  - exists r, c'. split_and!; [done..|]. cbn in Ht'. lia.
Qed.

Lemma call_total {A} clock fuel m (response : Parse A) timeout_ms c :
  (∀ i j, (i <= j)%nat → clock i <= clock j) → (∀ i, clock i + timeout_ms <= clock (i + fuel)%nat) →
  client_fits c →
  ∃ r c', call clock fuel m response timeout_ms c = Some (r, c') ∧ client_fits c' ∧
    (fc_ticks c <= fc_ticks c')%nat.
Proof.
  intros Hmono Hspan Hc.
  destruct (request_total clock fuel (message_type m) (serialize_message m) timeout_ms c Hmono Hspan Hc)
    as (r & c' & E & ?). unfold call. rewrite E. by eexists _, c'.
Qed.

Lemma client_connect_fits clock connected id timeout_ms c :
  let '(_, c') := client_connect clock connected id timeout_ms c in
  client_fits c' ∧ (fc_ticks c <= fc_ticks c')%nat.
Proof.
  unfold client_connect. destruct (_ <=? 0); [done|]. destruct connected as [sock|e]; [|split; [done|cbn; lia]].
  destruct (_ <=? 0); [split; [done|cbn; lia]|]. unfold send_message. cbn [fc_ticks with_channel client_close].
  pose proof (send_frame_keeps clock (new_channel sock) (make_frame kHello SK_Client id 0
    (serialize_hello (mkHello kProtocolVersion "client")))
    (clamp_int (clock (fc_ticks c) + timeout_ms - clock (S (fc_ticks c)))) (S (S (fc_ticks c)))) as Hk.
  destruct (send_frame _ _ _ _ _) as [[r ch'] tk]. destruct Hk as (Eb & _ & _ & Ht).
  destruct r; (split; [|cbn; lia]); [|done]. unfold client_fits. cbn [fc_channel]. rewrite Eb. apply fits_nil.
Qed.

(** ** Claims *)

(** A request gets the response to it.  On a connection that delivers the
    frames [fs], with a clock that does not run backwards and does not stand still, a
    request returns.  A frame it returns is the first one that carries the id of
    the request, whatever came before it, and the connection goes on with what
    follows; an error leaves the client disconnected, so that a late response can
    never be taken for another one, unless it is the coordinator's own error
    response with that id.  The id is used up either way. *)
Theorem request_answered (clock : nat → Z) (c : FabricClient) (ch : Channel) (fs : list Frame)
    (message_type : Z) (payload : bytes) (timeout_ms : Z) :
  (∀ i j, (i <= j)%nat → clock i <= clock j) → (∀ t, ∃ i, t <= clock i) →
  fc_channel c = Some ch → delivering kMaxFramePayload fs ch → 0 < timeout_ms →
  ∃ fuel r c', request clock fuel message_type payload timeout_ms c = Some (r, c') ∧
    request_outcome fs (fc_next_request_id c) r c' ∧
    fc_next_request_id c' = u64 (fc_next_request_id c + 1).
Proof.
  intros Hmono Hgoes Hc Hd Ht. destruct (Hgoes (clock (fc_ticks c) + timeout_ms)) as [N HN].
  exists (S N). unfold request. rewrite Hc, (dg_valid _ _ _ Hd). cbn [negb].
  destruct (Z.leb_spec timeout_ms 0); [lia|]. unfold send_message. cbn [fc_client_id fc_ticks].
  set (f := make_frame _ _ _ _ _).
  pose proof (send_delivering clock _ _ ch f (clamp_int timeout_ms) (S (fc_ticks c)) Hd) as Hs.
  destruct (send_frame _ _ _ _ _) as [[r ch'] tk]. destruct Hs as [Hd' Htk].
  destruct r as [[]|e]; [|eexists _, _; split_and!; [done|by left|done]].
  set (c1 := with_channel _ _ _).
  destruct (request_loop_returns clock N (S N) (clock (fc_ticks c) + timeout_ms) (fc_next_request_id c) fs ch' c1)
    as (r & c' & E & Ho & Hid & _); [|cbn; lia|lia|done|by exists r, c'].
  intros i Hi. etrans; [exact HN|by apply Hmono].
Qed.

(** Sample: the response comes after one to an earlier request. *)
Definition response_frames : list Frame :=
  [make_frame kTaskCancelResponse SK_Coordinator id_zero 4 [];
   make_frame kTaskCancelResponse SK_Coordinator id_zero 7
     (serialize_task_cancel_response (mkTaskCancelResponse true false ""))].
Definition response_channel : Channel :=
  let b := flat_map wire response_frames in
  new_channel (mkSocket (new_state 4) [RE_Bytes (take 50 b); RE_Again; RE_Bytes (drop 50 b)]
                 [SE_Sent 500] []).
Definition waiting_client : FabricClient := mkClient "127.0.0.1" 7001 (Some response_channel) (mkId 5 5) 7 0.

Lemma response_delivering : delivering kMaxFramePayload response_frames response_channel.
Proof.
  split; [|repeat constructor; vm_compute; congruence|done|vm_compute; reflexivity|cbn [response_frames length]; vm_compute; lia].
  repeat (apply Forall_cons_2; [apply made_deliverable; (vm_compute; split; congruence) ||
    (vm_compute; congruence) || enum_wf_solve || (split; vm_compute; split; congruence)|]).
  apply Forall_nil_2.
Qed.

Lemma request_answered_witness :
  ∃ fuel r c', request Z.of_nat fuel kTaskCancel [] 1000 waiting_client = Some (r, c') ∧
    fc_next_request_id c' = 8.
Proof.
  destruct (request_answered Z.of_nat waiting_client response_channel response_frames kTaskCancel [] 1000)
    as (fuel & r & c' & E & _ & Hid).
  - intros i j. lia.
  - intros t. exists (Z.to_nat t). lia.
  - reflexivity.
  - apply response_delivering.
  - lia.
  - by exists fuel, r, c'.
Defined.

Example cancel_run :
  fst <$> cancel Z.of_nat 5 (mkId 1 1) waiting_client = Some (Ok (mkTaskCancelResponse true false "")).
Proof. vm_compute. reflexivity. Qed.
