(* ===== verification/Launcher.v ===== *)
(** * Launcher: the processes of a local fabric (launcher/launcher.h, launcher/launcher.cpp)

    [LocalFabric] starts a coordinator and node processes, polls and reaps them.
    The model is the POSIX build.  The operating system's table of the children of
    this process is part of the state ([Host]); what only the environment decides,
    when a child exits, which call is interrupted or fails, the process ids, the
    ports and the connections, is data ([Env]), indexed by the number of the call.
    An action is a state transformer on [Host]; it returns [None] only when the
    fuel of a loop is exhausted. *)

From S2P Require Import Prelude Status Ids Digest Float64 Task Wire Frame Socket Channel Serialize Messages Client.

Local Open Scope Z_scope.

(** ** The operating system *)

Inductive Errno := EINTR | ECHILD | ESRCH | E_Errno (code : Z).

#[export] Instance Errno_eq_dec : EqDecision Errno.
Proof. solve_decision. Defined.

(** A status of [waitpid]: [WIFEXITED], [WIFSIGNALED] or neither. *)
Inductive WaitStatus := WS_Exited (code : Z) | WS_Signaled (sig : Z) | WS_Other.

(** A child: running, with or without a [SIGKILL] pending, or exited and not reaped. *)
Inductive Proc := P_Running (killed : bool) | P_Zombie (st : WaitStatus).

Record Env := mkEnv {
  e_clock : nat → Z;                              (* [now_millis()], reading by reading *)
  e_exits : nat → Z → bool → option WaitStatus;   (* at this call, does this child exit? *)
  e_wait_errno : nat → option Errno;              (* failures of [waitpid] and [kill] *)
  e_kill_errno : nat → option Errno;
  e_spawn : nat → Z + Errno;                      (* [posix_spawn] *)
  e_port : nat → Z;                               (* the port bound by [TcpListener::bind], 0: failed *)
  e_connect : nat → Result Socket;                (* [TcpSocket::connect] *)
  e_id : nat → Id128;                             (* random client ids *)
  e_strerror : Errno → string
}.

Record Host := mkHost {
  h_procs : gmap Z Proc;
  h_ticks : nat;          (* readings of the clock *)
  h_calls : nat           (* other system calls *)
}.

Definition Act (A : Type) : Type := Host → option (A * Host).
#[export] Instance act_ret : MRet Act := λ A a h, Some (a, h).
#[export] Instance act_bind : MBind Act := λ A B k m h,
  match m h with None => None | Some (a, h') => k a h' end.
#[export] Instance act_fmap : FMap Act := λ A B g m h,
  match m h with None => None | Some (a, h') => Some (g a, h') end.

Section env.
Context (env : Env).

(** Time passes before every call: running children may exit. *)
Definition proc_step (n : nat) (pid : Z) (p : Proc) : Proc :=
  match p with
  | P_Running killed =>
      match e_exits env n pid killed with Some st => P_Zombie st | None => p end
  | P_Zombie _ => p
  end.
Definition advance (h : Host) : Host :=
  mkHost (map_imap (λ pid p, Some (proc_step (h_calls h) pid p)) (h_procs h)) (h_ticks h) (S (h_calls h)).

Definition now_millis : Act Z := λ h,
  Some (e_clock env (h_ticks h), mkHost (h_procs h) (S (h_ticks h)) (h_calls h)).

Inductive WaitResult := WR_NoChange | WR_Reaped (st : WaitStatus) | WR_Errno (e : Errno).

(** [waitpid(pid, &status, WNOHANG)] *)
Definition waitpid (pid : Z) : Act WaitResult := λ h,
  let h' := advance h in
  match e_wait_errno env (h_calls h) with
  | Some e => Some (WR_Errno e, h')
  | None =>
      match h_procs h' !! pid with
      | None => Some (WR_Errno ECHILD, h')
      | Some (P_Running _) => Some (WR_NoChange, h')
      | Some (P_Zombie st) => Some (WR_Reaped st, mkHost (delete pid (h_procs h')) (h_ticks h') (h_calls h'))
      end
  end.

(** [kill(pid, SIGKILL)]; a child that has exited but is not reaped still accepts it. *)
Definition kill (pid : Z) : Act (option Errno) := λ h,
  let h' := advance h in
  match e_kill_errno env (h_calls h) with
  | Some e => Some (Some e, h')
  | None =>
      match h_procs h' !! pid with
      | None => Some (Some ESRCH, h')
      | Some (P_Running _) =>
          Some (None, mkHost (<[pid := P_Running true]> (h_procs h')) (h_ticks h') (h_calls h'))
      | Some (P_Zombie _) => Some (None, h')
      end
  end.

Definition posix_spawn : Act (Z + Errno) := λ h,
  let h' := advance h in
  match e_spawn env (h_calls h) with
  | inr e => Some (inr e, h')
  | inl pid => Some (inl pid, mkHost (<[pid := P_Running false]> (h_procs h')) (h_ticks h') (h_calls h'))
  end.

(** ** Children *)

Definition kCoordinatorReadyMs : Z := 10000.
Definition kGracefulShutdownMs : Z := 3000.
Definition kForcedShutdownMs : Z := 3000.
Definition kConnectAttemptMs : Z := 250.
Definition kRequestAttemptMs : Z := 500.
Definition kPollIntervalMs : Z := 25.

Record ChildProcess := mkChild {
  cp_command_line : string;
  cp_exit_code : Z;
  cp_running : bool;
  cp_reaped : bool;
  cp_sys_pid : Z;       (* uint64_t *)
  cp_os_handle : Z      (* uintptr_t, Windows only *)
}.
Definition no_child : ChildProcess := mkChild "" (-1) false false 0 0.

Definition describe_command (exe_path : string) (args : list string) : string :=
  foldl (λ command arg, command +:+ " [" +:+ arg +:+ "]") exe_path args.

Definition remaining_timeout (deadline_ms maximum_ms : Z) : Act Z :=
  now ← now_millis;
  let remaining := deadline_ms - now in
  mret (if remaining <=? 0 then 0 else Z.min remaining maximum_ms).

(** The sleep itself only lets time pass. *)
Definition sleep_for_poll (deadline_ms : Z) : Act unit :=
  _ ← remaining_timeout deadline_ms kPollIntervalMs; mret tt.

Definition exited_message (name : string) (child : ChildProcess) : string :=
  name +:+ " exited (pid " +:+ to_string (cp_sys_pid child) +:+ ", exit code "
       +:+ to_string (cp_exit_code child) +:+ ")".

Definition has_nul (s : string) : bool := bool_decide (0 ∈ bytes_of_string s).

(** The checks of [spawn] before anything is started. *)
Definition spawn_refused (exe_path : string) (args : list string) (out : ChildProcess) : option Error :=
  if negb (cp_sys_pid out =? 0) || negb (cp_os_handle out =? 0) then
    Some (mkError EInvalidState "cannot replace an owned child process")
  else if has_nul exe_path then
    Some (mkError EInvalidArgument "executable path contains an embedded NUL")
  else if existsb has_nul args then
    Some (mkError EInvalidArgument "process argument contains an embedded NUL")
  else None.

Definition spawn (exe_path : string) (args : list string) (out : ChildProcess)
    : Act (Result unit * ChildProcess) :=
  match spawn_refused exe_path args out with
  | Some e => mret (Err e, out)
  | None =>
      let command_line := describe_command exe_path args in
      r ← posix_spawn;
      match r with
      | inr e =>
          mret (err ELaunchError ("posix_spawn failed: " +:+ e_strerror env e),
                mkChild command_line (cp_exit_code out) (cp_running out) (cp_reaped out) (cp_sys_pid out)
                  (cp_os_handle out))
      | inl pid => mret (Ok tt, mkChild command_line (-1) true false (u64 pid) (cp_os_handle out))
      end
  end.

(** [do ... while (result < 0 && errno == EINTR)] *)
Fixpoint waitpid_loop (fuel : nat) (pid : Z) : Act WaitResult :=
  match fuel with
  | O => λ _, None
  | S fuel =>
      r ← waitpid pid;
      if match r with WR_Errno EINTR => true | _ => false end then waitpid_loop fuel pid else mret r
  end.

Definition wait_exit_code (st : WaitStatus) : Z :=
  match st with WS_Exited code => code | WS_Signaled sig => 128 + sig | WS_Other => -1 end.

Definition set_running (running : bool) (c : ChildProcess) : ChildProcess :=
  mkChild (cp_command_line c) (cp_exit_code c) running (cp_reaped c) (cp_sys_pid c) (cp_os_handle c).
Definition set_reaped (exit_code : Z) (c : ChildProcess) : ChildProcess :=
  mkChild (cp_command_line c) exit_code false true (cp_sys_pid c) (cp_os_handle c).

Context (fuel : nat).

Definition process_running (child : ChildProcess) : Act (Result bool * ChildProcess) :=
  if (cp_sys_pid child =? 0) || cp_reaped child then mret (Ok false, child)
  else
    result ← waitpid_loop fuel (i32 (cp_sys_pid child));
    mret match result with
         | WR_NoChange => (Ok true, set_running true child)
         | WR_Reaped st => (Ok false, set_reaped (wait_exit_code st) child)
         | WR_Errno ECHILD => (Ok false, set_reaped (cp_exit_code child) child)
         | WR_Errno e =>
             (err EProcessError ("waitpid failed for pid " +:+ to_string (cp_sys_pid child) +:+ ": "
                                 +:+ e_strerror env e), child)
         end.

Definition terminate (child : ChildProcess) : Act (Result unit * ChildProcess) :=
  if (cp_sys_pid child =? 0) || cp_reaped child then mret (Ok tt, child)
  else
    killed ← kill (i32 (cp_sys_pid child));
    match killed with
    | None => mret (Ok tt, set_running true child)
    | Some error =>
        let e := mkError EProcessError ("kill failed for pid " +:+ to_string (cp_sys_pid child) +:+ ": "
                                        +:+ e_strerror env error) in
        if bool_decide (error = ESRCH) then
          '(running, child) ← process_running child;
          match running with
          | Ok false => mret (Ok tt, child)
          | _ => mret (Err e, child)
          end
        else mret (Err e, child)
    end.

Fixpoint wait_process_loop (n : nat) (deadline_ms : Z) (child : ChildProcess)
    : Act (Result unit * ChildProcess) :=
  match n with
  | O => λ _, None
  | S n =>
      '(running, child) ← process_running child;
      match running with
      | Err e => mret (Err e, child)
      | Ok false => mret (Ok tt, child)
      | Ok true =>
          now ← now_millis;
          if deadline_ms <=? now then
            mret (err ETimeout ("timed out waiting for pid " +:+ to_string (cp_sys_pid child)), child)
          else
            _ ← sleep_for_poll deadline_ms;
            wait_process_loop n deadline_ms child
      end
  end.
Definition wait_process (child : ChildProcess) (deadline_ms : Z) : Act (Result unit * ChildProcess) :=
  wait_process_loop fuel deadline_ms child.

(** ** The fabric *)

Record LocalFabric := mkFabric {
  lf_node_port : Z;
  lf_client_port : Z;
  lf_coordinator : ChildProcess;
  lf_nodes : list ChildProcess;
  lf_node_labels : list string
}.
Definition new_fabric : LocalFabric := mkFabric 0 0 no_child [] [].
Definition set_coordinator (c : ChildProcess) (f : LocalFabric) : LocalFabric :=
  mkFabric (lf_node_port f) (lf_client_port f) c (lf_nodes f) (lf_node_labels f).
Definition set_nodes (cs : list ChildProcess) (f : LocalFabric) : LocalFabric :=
  mkFabric (lf_node_port f) (lf_client_port f) (lf_coordinator f) cs (lf_node_labels f).

Definition healthy (f : LocalFabric) : bool := cp_running (lf_coordinator f).

(** The client's calls use the same clock. *)
Definition client_at (h : Host) (c : FabricClient) : FabricClient := with_channel (fc_channel c) (h_ticks h) c.
Definition connect_client (timeout_ms : Z) (c : FabricClient) : Act (Result unit * FabricClient) := λ h,
  let '(r, c) := client_connect (e_clock env) (e_connect env (h_calls h)) (e_id env (h_calls h)) timeout_ms
                   (client_at h c) in
  Some ((r, c), mkHost (h_procs (advance h)) (fc_ticks c) (S (h_calls h))).
Definition call_client {A} (op : FabricClient → option (Result A * FabricClient)) (c : FabricClient)
    : Act (Result A * FabricClient) := λ h,
  match op (client_at h c) with
  | None => None
  | Some (r, c) => Some ((r, c), mkHost (h_procs (advance h)) (fc_ticks c) (S (h_calls h)))
  end.
Definition local_client (f : LocalFabric) : FabricClient := new_client "127.0.0.1" (lf_client_port f).

Definition make_client (f : LocalFabric) : Act (option FabricClient) :=
  '(r, c) ← connect_client 5000 (local_client f);
  mret (match r with Ok _ => Some c | Err _ => None end).

(** The code's loops over [coordinator_] and then every element of [nodes_]. *)
Fixpoint each_node {S} (step : ChildProcess → S → Act (ChildProcess * S)) (cs : list ChildProcess) (s : S)
    : Act (list ChildProcess * S) :=
  match cs with
  | [] => mret ([], s)
  | c :: cs =>
      '(c, s) ← step c s;
      '(cs, s) ← each_node step cs s;
      mret (c :: cs, s)
  end.
Definition each_child {S} (step : ChildProcess → S → Act (ChildProcess * S)) (f : LocalFabric) (s : S)
    : Act (LocalFabric * S) :=
  '(c, s) ← step (lf_coordinator f) s;
  '(cs, s) ← each_node step (lf_nodes f) s;
  mret (set_nodes cs (set_coordinator c f), s).

(** [last_error] and [have_error] are one [option]; the other part is [all_reaped]. *)
Definition poll_one (child : ChildProcess) (s : bool * option Error) : Act (ChildProcess * (bool * option Error)) :=
  if (cp_sys_pid child =? 0) || cp_reaped child then mret (child, s)
  else
    '(running, child) ← process_running child;
    mret (child, match running with
                 | Err e => (false, Some e)
                 | Ok true => (false, s.2)
                 | Ok false => s
                 end).
Definition poll_all (f : LocalFabric) (last_error : option Error) : Act (LocalFabric * (bool * option Error)) :=
  each_child poll_one f (true, last_error).

(** [while (!poll_all() && now_millis() < deadline) sleep_for_poll(deadline);] *)
Fixpoint poll_loop (n : nat) (deadline : Z) (f : LocalFabric) (last_error : option Error)
    : Act (LocalFabric * option Error) :=
  match n with
  | O => λ _, None
  | S n =>
      '(f, (all_reaped, last_error)) ← poll_all f last_error;
      if all_reaped : bool then mret (f, last_error)
      else
        now ← now_millis;
        if deadline <=? now then mret (f, last_error)
        else
          _ ← sleep_for_poll deadline;
          poll_loop n deadline f last_error
  end.

Definition terminate_one (child : ChildProcess) (last_error : option Error) : Act (ChildProcess * option Error) :=
  if (cp_sys_pid child =? 0) || cp_reaped child then mret (child, last_error)
  else
    '(terminated, child) ← terminate child;
    mret (child, match terminated with Err e => Some e | Ok _ => last_error end).

Definition count {A} (p : A → bool) (l : list A) : Z := Z.of_nat (length (List.filter p l)).
Definition children (f : LocalFabric) : list ChildProcess := lf_coordinator f :: lf_nodes f.
Definition spawned (c : ChildProcess) : bool := negb (cp_sys_pid c =? 0).

(** Asking the coordinator to shut down. *)
Definition request_shutdown (graceful_deadline : Z) (f : LocalFabric) : Act (LocalFabric * option Error) :=
  '(coordinator_state, c) ← process_running (lf_coordinator f);
  let f := set_coordinator c f in
  match coordinator_state with
  | Err e => mret (f, Some e)
  | Ok false => mret (f, None)
  | Ok true =>
      connect_ms ← remaining_timeout graceful_deadline kConnectAttemptMs;
      if connect_ms <=? 0 then mret (f, None)
      else
        '(connected, client) ← connect_client connect_ms (local_client f);
        match connected with
        | Err e => mret (f, Some e)
        | Ok _ =>
            request_ms ← remaining_timeout graceful_deadline kRequestAttemptMs;
            if request_ms <=? 0 then mret (f, None)
            else
              '(requested, _) ← call_client (shutdown_coordinator (e_clock env) fuel request_ms) client;
              mret (f, match requested with Err e => Some e | Ok _ => None end)
        end
  end.

Definition shutdown_all (f : LocalFabric) : Act (Result Z * LocalFabric) :=
  let total := count spawned (children f) in
  if total =? 0 then mret (Ok 0, f)
  else
    now ← now_millis;
    let graceful_deadline := now + kGracefulShutdownMs in
    '(f, last_error) ← request_shutdown graceful_deadline f;
    '(f, last_error) ← poll_loop fuel graceful_deadline f last_error;
    '(f, (_, last_error)) ← poll_all f last_error;
    '(f, last_error) ← each_child terminate_one f last_error;
    now ← now_millis;
    let forced_deadline := now + kForcedShutdownMs in
    '(f, last_error) ← poll_loop fuel forced_deadline f last_error;
    '(f, (_, last_error)) ← poll_all f last_error;
    let confirmed := count (λ c, spawned c && cp_reaped c) (children f) in
    if confirmed =? total then mret (Ok confirmed, f)
    else
      mret (err EProcessError
              ("failed to reap all child processes (confirmed " +:+ to_string confirmed +:+ "/"
               +:+ to_string total +:+ ")"
               +:+ match last_error with Some e => "; last error: " +:+ error_to_string e | None => "" end), f).

(** ** Launching *)

(** The port of a listener bound to port 0, or 0. *)
Definition pick_free_port : Act Z := λ h, Some (e_port env (h_calls h), advance h).

Fixpoint pick_client_port (attempts : nat) (node_port client_port : Z) : Act Z :=
  match attempts with
  | O => mret client_port
  | S attempts =>
      p ← pick_free_port;
      if negb (p =? 0) && negb (p =? node_port) then mret p else pick_client_port attempts node_port p
  end.

(** One pass of the readiness loop after the coordinator was found running:
    whether the coordinator answered, and the error otherwise. *)
Definition probe_coordinator (connect_ms ready_deadline port : Z) (coordinator : ChildProcess) (last : Error)
    : Act (bool * ChildProcess * Error) :=
  '(connected, probe) ← connect_client connect_ms (new_client "127.0.0.1" port);
  match connected with
  | Err e => mret (false, coordinator, e)
  | Ok _ =>
      status_ms ← remaining_timeout ready_deadline kRequestAttemptMs;
      if status_ms <=? 0 then mret (false, coordinator, last)
      else
        '(st, _) ← call_client (status (e_clock env) fuel status_ms) probe;
        match st with
        | Err e => mret (false, coordinator, e)
        | Ok st =>
            if bool_decide (fsr_error st = "") then
              '(still_running, coordinator) ← process_running coordinator;
              mret match still_running with
                   | Ok true => (true, coordinator, last)
                   | Ok false =>
                       (false, coordinator,
                        mkError ELaunchError (exited_message "coordinator" coordinator))
                   | Err e => (false, coordinator, e)
                   end
            else mret (false, coordinator, mkError EInvalidState (fsr_error st))
        end
  end.

Fixpoint ready_loop (n : nat) (ready_deadline port : Z) (coordinator : ChildProcess) (last : Error)
    : Act (bool * ChildProcess * Error) :=
  match n with
  | O => λ _, None
  | S n =>
      now ← now_millis;
      if ready_deadline <=? now then mret (false, coordinator, last)
      else
        '(running, coordinator) ← process_running coordinator;
        match running with
        | Err e => mret (false, coordinator, e)
        | Ok false =>
            mret (false, coordinator, mkError ELaunchError (exited_message "coordinator" coordinator))
        | Ok true =>
            connect_ms ← remaining_timeout ready_deadline kConnectAttemptMs;
            if connect_ms <=? 0 then mret (false, coordinator, last)
            else
              '(ready, coordinator, last) ← probe_coordinator connect_ms ready_deadline port coordinator last;
              if ready : bool then mret (true, coordinator, last)
              else
                _ ← sleep_for_poll ready_deadline;
                ready_loop n ready_deadline port coordinator last
        end
  end.

(** An error return of [launch] after a cleanup: the local [fabric] is destroyed,
    and its destructor shuts down once more. *)
Definition fail_launch (message : string) (f : LocalFabric) : Act (Result LocalFabric) :=
  '(cleanup, f) ← shutdown_all f;
  let message := match cleanup with
                 | Err e => message +:+ "; cleanup failed: " +:+ error_to_string e
                 | Ok _ => message
                 end in
  _ ← shutdown_all f;
  mret (err ELaunchError message).

Definition node_args (f : LocalFabric) (i : Z) (cuda_node : bool) : list string :=
  ["node"; "--coordinator-port"; to_string (lf_node_port f); "--label"; "node-" +:+ to_string i;
   "--cpu-slots"; "2"]
  ++ if (i =? 0) && cuda_node then ["--cuda"; "--cuda-slots"; "2"] else [].

(** [for (int i = 0; i < node_count; ++i)], with [n] passes to go. *)
Fixpoint launch_nodes (n : nat) (i : Z) (exe_path : string) (cuda_node : bool) (f : LocalFabric)
    : Act (Result LocalFabric) :=
  match n with
  | O => mret (Ok f)
  | S n =>
      '(node_spawned, node) ← spawn exe_path (node_args f i cuda_node) no_child;
      match node_spawned with
      | Err e => fail_launch (error_to_string e) f
      | Ok _ =>
          launch_nodes n (i + 1) exe_path cuda_node
            (mkFabric (lf_node_port f) (lf_client_port f) (lf_coordinator f) (lf_nodes f ++ [node])
               (lf_node_labels f ++ ["node-" +:+ to_string i]))
      end
  end.

Definition coordinator_args (f : LocalFabric) (store_dir policy telemetry_dir : string) : list string :=
  ["coordinator"; "--node-port"; to_string (lf_node_port f); "--client-port"; to_string (lf_client_port f);
   "--store-dir"; store_dir; "--policy"; policy]
  ++ if bool_decide (telemetry_dir = "") then []
     else ["--telemetry"; telemetry_dir +:+ "/telemetry.ndjson"].

Definition launch (exe_path : string) (node_count : Z) (cuda_node : bool)
    (store_dir policy telemetry_dir : string) : Act (Result LocalFabric) :=
  let node_count := if node_count <? 1 then 1 else node_count in
  node_port ← pick_free_port;
  client_port ← pick_client_port 8 node_port 0;
  let f := mkFabric node_port client_port no_child [] [] in
  if (node_port =? 0) || (client_port =? 0) || (node_port =? client_port) then
    mret (err ELaunchError "cannot pick distinct free ports")
  else
    '(spawned, coordinator) ← spawn exe_path (coordinator_args f store_dir policy telemetry_dir) no_child;
    match spawned with
    | Err e => mret (Err e)
    | Ok _ =>
        now ← now_millis;
        '(coordinator_ready, coordinator, readiness_error) ←
          ready_loop fuel (now + kCoordinatorReadyMs) client_port coordinator
            (mkError ETimeout "coordinator did not answer a status request");
        if coordinator_ready : bool then
          launch_nodes (Z.to_nat node_count) 0 exe_path cuda_node (set_coordinator coordinator f)
        else
          '(final_state, coordinator) ← process_running coordinator;
          fail_launch
            (match final_state with
             | Ok false => exited_message "coordinator" coordinator
             | _ => "coordinator did not become ready: " +:+ error_to_string readiness_error
             end) (set_coordinator coordinator f)
    end.

Fixpoint kill_first (label : string) (cs : list ChildProcess) (labels : list string)
    : Act (Result unit * list ChildProcess) :=
  match cs with
  | [] => mret (err ENodeNotFound ("no node with label " +:+ label), [])
  | c :: cs =>
      if bool_decide (head labels = Some label) then
        '(terminated, c) ← terminate c;
        match terminated with
        | Err e => mret (Err e, c :: cs)
        | Ok _ =>
            now ← now_millis;
            '(reaped, c) ← wait_process c (now + kForcedShutdownMs);
            mret (match reaped with
                  | Err e => err EProcessError ("failed to reap " +:+ label +:+ ": " +:+ error_to_string e)
                  | Ok _ => Ok tt
                  end, c :: cs)
        end
      else
        '(r, cs) ← kill_first label cs (tail labels);
        mret (r, c :: cs)
  end.
Definition kill_node_by_label (label : string) (f : LocalFabric) : Act (Result unit * LocalFabric) :=
  '(r, cs) ← kill_first label (lf_nodes f) (lf_node_labels f);
  mret (r, set_nodes cs f).

(** ** Waiting for the nodes *)

Definition require_running (child : ChildProcess) (name : string) : Act (Result unit * ChildProcess) :=
  '(running, child) ← process_running child;
  mret (match running with
        | Err e => err EProcessError (name +:+ " state query failed: " +:+ error_to_string e)
        | Ok false => err ELaunchError (exited_message name child)
        | Ok true => Ok tt
        end, child).

Fixpoint require_nodes (i : Z) (cs : list ChildProcess) (labels : list string)
    : Act (Result unit * list ChildProcess) :=
  match cs with
  | [] => mret (Ok tt, [])
  | c :: cs =>
      let name := match labels with l :: _ => l | [] => "node-" +:+ to_string i end in
      '(r, c) ← require_running c name;
      match r with
      | Err e => mret (Err e, c :: cs)
      | Ok _ =>
          '(r, cs) ← require_nodes (i + 1) cs (tail labels);
          mret (r, c :: cs)
      end
  end.

(** The coordinator, then every node. *)
Definition require_all (f : LocalFabric) : Act (Result unit * LocalFabric) :=
  '(r, c) ← require_running (lf_coordinator f) "coordinator";
  let f := set_coordinator c f in
  match r with
  | Err e => mret (Err e, f)
  | Ok _ =>
      '(r, cs) ← require_nodes 0 (lf_nodes f) (lf_node_labels f);
      mret (r, set_nodes cs f)
  end.

Definition label_connected (nodes : list NodeStatusEntry) (label : string) : bool :=
  existsb (λ entry, nse_connected entry && bool_decide (nse_label entry = label)) nodes.

(** What a pass of the loop learns from the coordinator. *)
Inductive Registration :=
| R_Break                                            (* the deadline has passed *)
| R_Retry (client : option FabricClient) (e : Error) (* poll again after this error *)
| R_Count (client : FabricClient) (n : Z).           (* this many expected nodes are connected *)

(** [client && client->connected()] *)
Definition usable_client (client : option FabricClient) : option FabricClient :=
  c ← client; if client_connected c then Some c else None.

Definition ensure_client (deadline : Z) (client : option FabricClient) (f : LocalFabric)
    : Act (option FabricClient + Error) :=
  match usable_client client with
  | Some c => mret (inl (Some c))
  | None =>
      connect_ms ← remaining_timeout deadline kConnectAttemptMs;
      if connect_ms <=? 0 then mret (inl None)
      else
        '(connected, c) ← connect_client connect_ms (local_client f);
        mret (match connected with Ok _ => inl (Some c) | Err e => inr e end)
  end.

Definition query_registration (deadline : Z) (client : option FabricClient) (f : LocalFabric)
    : Act Registration :=
  ready ← ensure_client deadline client f;
  match ready with
  | inr e => mret (R_Retry None e)
  | inl None => mret R_Break
  | inl (Some c) =>
      request_ms ← remaining_timeout deadline kRequestAttemptMs;
      if request_ms <=? 0 then mret R_Break
      else
        '(st, c) ← call_client (status (e_clock env) fuel request_ms) c;
        mret match st with
             | Err e => R_Retry None e
             | Ok st =>
                 if bool_decide (fsr_error st = "") then
                   R_Count c (count (label_connected (fsr_nodes st)) (lf_node_labels f))
                 else R_Retry (Some c) (mkError EInvalidState (fsr_error st))
             end
  end.

(** The end of [wait_registered] when the loop has not returned. *)
Definition registration_timeout (f : LocalFabric) (connected_expected : Z) (last_error : Error)
    : Act (Result unit * LocalFabric) :=
  '(r, f) ← require_all f;
  mret (match r with
        | Err e => Err e
        | Ok _ =>
            err ETimeout ("nodes did not register in time (connected expected nodes "
              +:+ to_string connected_expected +:+ "/" +:+ to_string (Z.of_nat (length (lf_node_labels f)))
              +:+ "; last error: " +:+ error_to_string last_error +:+ ")")
        end, f).

Fixpoint registered_loop (n : nat) (deadline : Z) (client : option FabricClient) (f : LocalFabric)
    (connected_expected : Z) (last_error : Error) : Act (Result unit * LocalFabric) :=
  match n with
  | O => λ _, None
  | S n =>
      now ← now_millis;
      if deadline <=? now then registration_timeout f connected_expected last_error
      else
        '(r, f) ← require_all f;
        match r with
        | Err e => mret (Err e, f)
        | Ok _ =>
            q ← query_registration deadline client f;
            match q with
            | R_Break => registration_timeout f connected_expected last_error
            | R_Retry client e =>
                _ ← sleep_for_poll deadline;
                registered_loop n deadline client f connected_expected e
            | R_Count c connected_expected =>
                let expected := Z.of_nat (length (lf_node_labels f)) in
                if connected_expected =? expected then require_all f
                else
                  _ ← sleep_for_poll deadline;
                  registered_loop n deadline (Some c) f connected_expected
                    (mkError ETimeout ("connected expected nodes " +:+ to_string connected_expected +:+ "/"
                                       +:+ to_string expected))
            end
        end
  end.

Definition wait_registered (timeout_ms : Z) (f : LocalFabric) : Act (Result unit * LocalFabric) :=
  if timeout_ms <=? 0 then mret (err ETimeout "node registration deadline elapsed", f)
  else
    now ← now_millis;
    registered_loop fuel (now + timeout_ms) None f 0 (mkError ETimeout "nodes did not register in time").
End env.
