(* ===== verification/LauncherProps.v ===== *)
(** * LauncherProps: the launcher leaves no process behind

    A small program logic for the actions of [Launcher] ([does]: the action
    returns, with this outcome), the relation of a child to the operating system's
    table ([tracked]), and the theorems on shutting down, launching, killing and
    waiting. *)

From S2P Require Import Prelude Status Ids Digest Float64 Task Reservation Wire Frame Socket Channel Serialize Messages Client Launcher.

Local Open Scope Z_scope.

(** ** Actions that return *)

Definition does {A} (m : Act A) (h : Host) (Q : A → Host → Prop) : Prop :=
  ∃ a h', m h = Some (a, h') ∧ Q a h'.

Lemma does_ret {A} (a : A) h (Q : A → Host → Prop) : Q a h → does (mret a) h Q.
Proof. intros. by exists a, h. Qed.

Lemma does_bind {A B} (m : Act A) (k : A → Act B) h Q :
  does m h (λ a h', does (k a) h' Q) → does (m ≫= k) h Q.
Proof.
  intros (a & h' & E & b & h'' & E' & HQ). exists b, h''. split; [|done].
  unfold mbind, act_bind. by rewrite E.
Qed.

Lemma does_mono {A} (m : Act A) h (Q Q' : A → Host → Prop) :
  does m h Q → (∀ a h', Q a h' → Q' a h') → does m h Q'.
Proof. intros (a & h' & E & HQ) HQQ. exists a, h'. auto. Qed.

Lemma does_outcome {A} (m : Act A) h Q a h' : does m h Q → m h = Some (a, h') → Q a h'.
Proof. intros (? & ? & E & HQ) E'. by simplify_eq. Qed.

(** ** Time *)

(** A child that has exited or will when it runs next. *)
Definition fading (p : Proc) : Prop := p ≠ P_Running false.

(** [h'] is [h] some time later, without new children. *)
Record later (h h' : Host) : Prop := {
  la_ticks : (h_ticks h <= h_ticks h')%nat;
  la_procs : ∀ pid p', h_procs h' !! pid = Some p' → ∃ p, h_procs h !! pid = Some p ∧ (fading p → fading p')
}.

#[export] Instance later_preorder : PreOrder later.
Proof.
  split.
  - intros h. split; [done|]. intros pid p' ?. by exists p'.
  - intros h1 h2 h3 [T1 P1] [T2 P2]. split; [lia|]. intros pid p3 (p2 & H2 & F2)%P2.
    destruct (P1 pid p2 H2) as (p1 & H1 & F1). exists p1. auto.
Qed.

Lemma later_gone h h' pid : later h h' → h_procs h !! pid = None → h_procs h' !! pid = None.
Proof.
  intros [_ HP] Hn. destruct (h_procs h' !! pid) as [p|] eqn:E; [|done].
  destruct (HP pid p E) as (? & ? & _). congruence.
Qed.

Lemma later_tick h n : (h_ticks h <= n)%nat → later h (mkHost (h_procs h) n (h_calls h)).
Proof. intros. split; [done|]. intros pid p' ?. by exists p'. Qed.

Section env.
Context (env : Env).

Lemma advance_lookup h pid :
  h_procs (advance env h) !! pid = proc_step env (h_calls h) pid <$> h_procs h !! pid.
Proof. unfold advance. cbn [h_procs]. rewrite map_lookup_imap. by destruct (h_procs h !! pid). Qed.

Lemma proc_step_fading n pid p : fading p → fading (proc_step env n pid p).
Proof. unfold fading, proc_step. destruct p as [k|]; [|done]. by destruct (e_exits _ _ _ _). Qed.

Lemma later_advance h n : (h_ticks h <= n)%nat → later h (mkHost (h_procs (advance env h)) n (S (h_calls h))).
Proof.
  intros Hn. split; [done|]. intros pid p'. cbn [h_procs]. rewrite advance_lookup.
  intros (p & Hp & ->)%fmap_Some_1. exists p. split; [done|apply proc_step_fading].
Qed.

Lemma later_delete h pid : later h (mkHost (delete pid (h_procs h)) (h_ticks h) (h_calls h)).
Proof. split; [done|]. intros q p'. cbn [h_procs]. intros [_ ?]%lookup_delete_Some. by exists p'. Qed.

Lemma now_does h (Q : Z → Host → Prop) :
  Q (e_clock env (h_ticks h)) (mkHost (h_procs h) (S (h_ticks h)) (h_calls h)) → does (now_millis env) h Q.
Proof. intros HQ. by eexists _, _. Qed.

Lemma waitpid_does pid h :
  does (waitpid env pid) h (λ r h', later h h' ∧ h_calls h' = S (h_calls h) ∧
    match r with
    | WR_NoChange => is_Some (h_procs h' !! pid)
    | WR_Reaped _ => h_procs h' !! pid = None
    | WR_Errno e => e_wait_errno env (h_calls h) = Some e ∨
        (e_wait_errno env (h_calls h) = None ∧ e = ECHILD ∧ h_procs h' !! pid = None)
    end).
Proof.
  unfold does, waitpid. pose proof (later_advance h (h_ticks h) (Nat.le_refl _)) as Hl.
  destruct (e_wait_errno env (h_calls h)) as [e|]; [eexists _, _; split_and!; [done..|by left]|].
  destruct (h_procs (advance env h) !! pid) as [[k|st]|] eqn:E; (eexists _, _; split_and!; [done|try done|done|]).
  - by rewrite E.
  - etrans; [exact Hl|apply later_delete].
  - cbn [h_procs]. by rewrite lookup_delete_eq.
  - by right.
Qed.

Context (fuel : nat) (span : Z).

(** What the loops need of the environment: the clock does not run backwards,
    [span] milliseconds pass within [fuel] readings, and no [fuel] calls in a row
    are interrupted; and what POSIX says: [waitpid] reports [ECHILD] only when
    there is no such child, and a process id is a positive [pid_t]. *)
Record timely : Prop := {
  ti_mono : ∀ i j, (i <= j)%nat → e_clock env i <= e_clock env j;
  ti_span : ∀ i, e_clock env i + span <= e_clock env (i + fuel)%nat;
  ti_min : kCoordinatorReadyMs <= span;
  ti_intr : ∀ n, ∃ i, (i < fuel)%nat ∧ e_wait_errno env (n + i) ≠ Some EINTR;
  ti_echild : ∀ n, e_wait_errno env n ≠ Some ECHILD;
  ti_spawn : ∀ n pid, e_spawn env n = inl pid → 0 < pid < 2147483648
}.
Context (Ht : timely).

Lemma fuel_pos : (0 < fuel)%nat.
Proof. destruct (ti_intr Ht 0) as (i & ? & _). lia. Qed.

Lemma span_at i ms : ms <= 10000 → e_clock env i + ms <= e_clock env (i + fuel)%nat.
Proof. intros. pose proof (ti_span Ht i). pose proof (ti_min Ht). unfold kCoordinatorReadyMs in *. lia. Qed.

(** What [waitpid_loop] returns about a pid. *)
Definition waited (pid : Z) (r : WaitResult) (h' : Host) : Prop :=
  match r with
  | WR_NoChange => is_Some (h_procs h' !! pid)
  | WR_Reaped _ => h_procs h' !! pid = None
  | WR_Errno ECHILD => h_procs h' !! pid = None
  | WR_Errno e => ∃ n, e_wait_errno env n = Some e
  end.

Lemma waitpid_loop_does n pid h :
  (∃ i, (i < n)%nat ∧ e_wait_errno env (h_calls h + i) ≠ Some EINTR) →
  does (waitpid_loop env n pid) h (λ r h', later h h' ∧ waited pid r h').
Proof.
  revert h. induction n as [|n IH]; intros h (i & Hi & Hne); [lia|]. cbn [waitpid_loop].
  apply does_bind. eapply does_mono; [apply waitpid_does|]. intros r h' (Hl & Hc & Hr). cbv beta.
  destruct r as [|st|e]; [by apply does_ret..|].
  destruct (decide (e = EINTR)) as [->|Hn].
  - destruct Hr as [Hr|(_ & ? & _)]; [|done]. destruct i as [|i]; [by rewrite Nat.add_0_r in Hne|].
    eapply does_mono; [apply IH; exists i; split; [lia|]; by rewrite Hc, Nat.add_succ_comm|].
    intros r' h'' (Hl' & Hw). split; [by etrans|done].
  - assert (Hw : waited pid (WR_Errno e) h').
    { destruct Hr as [Hr|(_ & -> & ?)]; [|done]. pose proof (ti_echild Ht (h_calls h)).
      destruct e; [by eexists|done|by eexists..]. }
    assert (does (mret (WR_Errno e)) h' (λ r h', later h h' ∧ waited pid r h')) by by apply does_ret.
    by destruct e.
Qed.

(** ** One child *)

Definition pid_ok (c : ChildProcess) : Prop := 0 <= cp_sys_pid c < 2147483648.

Lemma pid_cast c : pid_ok c → i32 (cp_sys_pid c) = cp_sys_pid c.
Proof. unfold pid_ok. intros. rewrite <-(i32_u32 (cp_sys_pid c)) at 2; [|int_solve]. unfold i32, u32. by rewrite Zmod_mod. Qed.

(** What an operation on a child may do: it stays the same process, a reaped
    child is never touched again, and a child is marked reaped only when the
    operating system no longer has it. *)
Record polled (h : Host) (c : ChildProcess) (h' : Host) (c' : ChildProcess) : Prop := {
  po_pid : cp_sys_pid c' = cp_sys_pid c;
  po_reaped : cp_reaped c = true → c' = c;
  po_gone : cp_reaped c = false → cp_reaped c' = true → h_procs h' !! cp_sys_pid c = None
}.

Lemma polled_refl h h' c : polled h c h' c.
Proof. split; [done..|congruence]. Qed.

Lemma polled_trans h1 h2 h3 c1 c2 c3 :
  later h2 h3 → polled h1 c1 h2 c2 → polled h2 c2 h3 c3 → polled h1 c1 h3 c3.
Proof.
  intros Hl [P1 R1 G1] [P2 R2 G2]. split; [congruence|intros Hr; rewrite R2, R1; rewrite ?R1; done|].
  intros H1 H3. destruct (cp_reaped c2) eqn:E; [|rewrite <-P1; by apply G2].
  eapply later_gone; [exact Hl|]. by apply G1.
Qed.

Lemma polled_later h1 h2 h3 c c' : later h2 h3 → polled h1 c h2 c' → polled h1 c h3 c'.
Proof. intros Hl Hp. eapply polled_trans; [exact Hl|exact Hp|apply polled_refl]. Qed.

Lemma polled_before h0 h1 h2 c c' : polled h1 c h2 c' → polled h0 c h2 c'.
Proof. intros [P R G]. by split. Qed.

Lemma polled_running h h' c b : cp_reaped c = false → polled h c h' (set_running b c).
Proof. intros E. split; [done|congruence|]. cbn. congruence. Qed.

(** A child that needs no more work. *)
Definition settled (c : ChildProcess) : Prop := cp_sys_pid c = 0 ∨ cp_reaped c = true.

Lemma settled_dec c : (cp_sys_pid c =? 0) || cp_reaped c = true ↔ settled c.
Proof. unfold settled. rewrite orb_true_iff, Z.eqb_eq. done. Qed.

(** Signals and waits work, and a killed child exits when it runs next. *)
Record obliging : Prop := {
  ob_wait : ∀ n, e_wait_errno env n = None;
  ob_kill : ∀ n, e_kill_errno env n = None;
  ob_exits : ∀ n pid, is_Some (e_exits env n pid true)
}.

Definition doomed (h : Host) (c : ChildProcess) : Prop :=
  settled c ∨ ∀ p, h_procs h !! cp_sys_pid c = Some p → fading p.

Lemma doomed_later h h' c : later h h' → doomed h c → doomed h' c.
Proof.
  intros [_ HP] [?|Hd]; [by left|]. right. intros p (p0 & H0 & Hf)%HP. auto.
Qed.

Lemma doomed_polled h h' c c' : later h h' → polled h c h' c' → doomed h c → doomed h' c'.
Proof.
  intros Hl [P R _] Hd. destruct (doomed_later h h' c Hl Hd) as [Hs|Hp].
  - left. unfold settled in *. destruct (cp_reaped c) eqn:E; [rewrite R; auto|]. rewrite P. destruct Hs; [by left|done].
  - right. by rewrite P.
Qed.

Lemma waitpid_doomed pid h :
  obliging → (∀ p, h_procs h !! pid = Some p → fading p) →
  does (waitpid env pid) h (λ r _, r ≠ WR_NoChange ∧ (∀ e, r = WR_Errno e → e = ECHILD)).
Proof.
  intros [Hw _ Hx] Hf. unfold does, waitpid. rewrite Hw, advance_lookup.
  destruct (h_procs h !! pid) as [p|] eqn:E; cbn [fmap option_fmap option_map];
    [|eexists _, _; split_and!; [done|done|congruence]].
  specialize (Hf p eq_refl). unfold fading in Hf.
  assert (Hz : ∃ st, proc_step env (h_calls h) pid p = P_Zombie st).
  { destruct p as [[]|st]; [|done|by exists st]. cbn [proc_step].
    destruct (Hx (h_calls h) pid) as [st ->]. by exists st. }
  destruct Hz as [st ->]. eexists _, _. split_and!; [done|done|congruence].
Qed.

Lemma process_running_does c h :
  pid_ok c →
  does (process_running env fuel c) h (λ x h', later h h' ∧ polled h c h' x.2 ∧
    (x.1 = Ok false → settled x.2) ∧ (obliging → doomed h c → settled x.2)).
Proof.
  intros Hpid. unfold process_running. destruct (_ || _) eqn:Es.
  { apply settled_dec in Es. apply does_ret. split_and!; [done|apply polled_refl|done..]. }
  apply orb_false_iff in Es as [Ez Er]. apply Z.eqb_neq in Ez. rewrite (pid_cast c Hpid).
  pose proof (waitpid_loop_does fuel (cp_sys_pid c) h (ti_intr Ht (h_calls h))) as Hd.
  destruct Hd as (r & h' & E & Hl & Hw). apply does_bind. exists r, h'. split; [exact E|]. apply does_ret.
  assert (Hob : obliging → doomed h c → r ≠ WR_NoChange ∧ ∀ e, r = WR_Errno e → e = ECHILD).
  { intros Ho [[?|?]|Hf]; [congruence..|]. destruct (waitpid_doomed _ h Ho Hf) as (r1 & h1 & E1 & Hn & He).
    pose proof fuel_pos. destruct fuel as [|n]; [lia|]. cbn [waitpid_loop] in E.
    unfold mbind, act_bind in E. rewrite E1 in E.
    assert (r = r1) as ->; [|done]. unfold mret, act_ret in E.
    destruct r1 as [|st|e]; [done|congruence|]. rewrite (He e eq_refl) in E |- *. congruence. }
  split; [done|]. destruct r as [|st|e]; cbn [fst snd] in *.
  - split_and!; [by apply polled_running|done|]. intros Ho Hdm. by destruct (Hob Ho Hdm).
  - split_and!; [split; [done|congruence|done]|by right..].
  - assert (Hne : e ≠ ECHILD → obliging → doomed h c → settled c).
    { intros Hne Ho Hdm. destruct (Hob Ho Hdm) as [_ He]. by rewrite (He e eq_refl) in Hne. }
    destruct (decide (e = ECHILD)) as [->|Hn]; cbn [fst snd].
    + split_and!; [split; [done|congruence|done]|by right..].
    + destruct e; try done; (split_and!; [apply polled_refl|done|by apply Hne]).
Qed.

Lemma kill_does pid h :
  does (kill env pid) h (λ r h', later h h' ∧
    (obliging → match r with
                | None => ∀ p, h_procs h' !! pid = Some p → fading p
                | Some e => e = ESRCH ∧ h_procs h' !! pid = None
                end)).
Proof.
  unfold does, kill. pose proof (later_advance h (h_ticks h) (Nat.le_refl _)) as Hl.
  destruct (e_kill_errno env (h_calls h)) as [e|] eqn:Ek.
  { eexists _, _. split_and!; [done..|]. intros Ho. by rewrite (ob_kill Ho) in Ek. }
  destruct (h_procs (advance env h) !! pid) as [[k|st]|] eqn:E; (eexists _, _; split_and!; [done|try done|]).
  - etrans; [exact Hl|]. split; [done|]. intros q p'. cbn [h_procs].
    intros [[<- <-]|[_ Hq]]%lookup_insert_Some; [by exists (P_Running k)|by exists p'].
  - intros _ p. cbn [h_procs]. rewrite lookup_insert_eq. by intros [= <-].
  - intros _ p. rewrite E. by intros [= <-].
  - by intros _.
Qed.

Lemma terminate_does c h :
  pid_ok c →
  does (terminate env fuel c) h (λ x h', later h h' ∧ polled h c h' x.2 ∧ (obliging → doomed h' x.2)).
Proof.
  intros Hpid. unfold terminate. destruct (_ || _) eqn:Es.
  { apply settled_dec in Es. apply does_ret. split_and!; [done|apply polled_refl|by left]. }
  apply orb_false_iff in Es as [Ez Er]. rewrite (pid_cast c Hpid). apply does_bind.
  eapply does_mono; [apply kill_does|]. intros r h' (Hl & Hk). cbv beta. destruct r as [e|].
  - destruct (bool_decide_reflect (e = ESRCH)).
    + apply does_bind. eapply does_mono; [by apply process_running_does|].
      intros [r1 c1] h'' (Hl' & Hp & _ & Hs). cbn [fst snd] in *.
      assert (HQ : later h h'' ∧ polled h c h'' c1 ∧ (obliging → doomed h'' c1)).
      { split_and!; [by etrans|by eapply polled_before|]. intros Ho. left. apply Hs; [done|].
        destruct (Hk Ho) as [_ Hn]. right. intros p. by rewrite Hn. }
      by destruct r1 as [[]|]; apply does_ret.
    + apply does_ret. split_and!; [done|apply polled_refl|]. intros Ho. by destruct (Hk Ho).
  - apply does_ret. split_and!; [done|by apply polled_running|]. intros Ho. right. apply (Hk Ho).
Qed.

(** ** All children *)

Lemma each_node_does {S} (step : ChildProcess → S → Act (ChildProcess * S))
    (P Q : Host → ChildProcess → Prop) cs s h :
  (∀ c s h, P h c → does (step c s) h (λ x h', later h h' ∧ polled h c h' x.1 ∧ Q h' x.1)) →
  (∀ h h' c, later h h' → P h c → P h' c) → (∀ h h' c, later h h' → Q h c → Q h' c) →
  Forall (P h) cs →
  does (each_node step cs s) h (λ x h', later h h' ∧ Forall2 (λ c c', polled h c h' c' ∧ Q h' c') cs x.1).
Proof.
  intros Hstep HP HQ. revert s h. induction cs as [|c cs IH]; intros s h Hcs; cbn [each_node].
  { by apply does_ret. }
  apply Forall_cons in Hcs as [Hc Hcs]. apply does_bind.
  eapply does_mono; [by apply Hstep|]. intros [c' s'] h' (Hl & Hp & Hq). cbn [fst] in *.
  apply does_bind. eapply does_mono; [apply IH|].
  { eapply Forall_impl; [exact Hcs|]. eauto. }
  intros [cs' s''] h'' (Hl' & Hps). apply does_ret. cbn [fst]. split; [by etrans|]. constructor.
  - split; [by eapply polled_later|by eapply HQ].
  - eapply Forall2_impl; [exact Hps|]. intros x y [??]. split; [by eapply polled_before|done].
Qed.

(** The same fabric some time later. *)
Record fabric_step (h : Host) (f : LocalFabric) (h' : Host) (f' : LocalFabric) : Prop := {
  st_later : later h h';
  st_children : Forall2 (λ c c', polled h c h' c') (children f) (children f');
  st_ports : lf_node_port f' = lf_node_port f ∧ lf_client_port f' = lf_client_port f;
  st_labels : lf_node_labels f' = lf_node_labels f
}.

Lemma fabric_refl h h' f : later h h' → fabric_step h f h' f.
Proof. intros. split; [done| |done..]. apply Forall_Forall2_diag, Forall_true. intros c. apply polled_refl. Qed.

Lemma fabric_trans h1 h2 h3 f1 f2 f3 :
  fabric_step h1 f1 h2 f2 → fabric_step h2 f2 h3 f3 → fabric_step h1 f1 h3 f3.
Proof.
  intros [L1 C1 [] E1] [L2 C2 [] E2]. split; [by etrans| |split; congruence|congruence].
  eapply Forall2_trans; [|exact C1|exact C2]. intros x y z. by apply polled_trans.
Qed.

Definition pids_ok (f : LocalFabric) : Prop := Forall pid_ok (children f).

Lemma step_pids h f h' f' : fabric_step h f h' f' → pids_ok f → pids_ok f'.
Proof.
  intros [_ C _ _] Hp. eapply Forall2_Forall_r; [exact C|]. eapply Forall_impl; [exact Hp|].
  intros c Hc c' [P _ _]. unfold pid_ok. by rewrite P.
Qed.

Lemma each_child_does {S} (step : ChildProcess → S → Act (ChildProcess * S))
    (P Q : Host → ChildProcess → Prop) f s h :
  (∀ c s h, P h c → does (step c s) h (λ x h', later h h' ∧ polled h c h' x.1 ∧ Q h' x.1)) →
  (∀ h h' c, later h h' → P h c → P h' c) → (∀ h h' c, later h h' → Q h c → Q h' c) →
  Forall (P h) (children f) →
  does (each_child step f s) h (λ x h', fabric_step h f h' x.1 ∧ Forall (Q h') (children x.1)).
Proof.
  intros Hstep HP HQ Hf. unfold each_child.
  pose proof (each_node_does step P Q (children f) s h Hstep HP HQ Hf) as (x & h' & E & Hl & Hps).
  cbn [each_node children] in E. unfold mbind, act_bind in E.
  destruct (step (lf_coordinator f) s h) as [[[c1 s1] h1]|] eqn:E1; [|done].
  destruct (each_node step (lf_nodes f) s1 h1) as [[[cs s2] h2]|] eqn:E2; [|done].
  unfold mret, act_ret in E. injection E as <- <-. cbn [fst] in Hps.
  exists (set_nodes cs (set_coordinator c1 f), s2), h2. split.
  { unfold mbind, act_bind. by rewrite E1, E2. }
  cbn [fst]. split; [split; [done| |done..]|].
  - eapply Forall2_impl; [exact Hps|]. by intros x y [].
  - eapply Forall2_Forall_r; [exact Hps|]. apply Forall_true. by intros x y [].
Qed.

Lemma settled_polled h h' c c' : polled h c h' c' → settled c → settled c'.
Proof.
  intros [P R _] Hs. destruct (cp_reaped c) eqn:E; [right; by rewrite R|].
  destruct Hs as [Hz|]; [left; by rewrite P|congruence].
Qed.

Definition all_settled (f : LocalFabric) : Prop := Forall settled (children f).
Definition all_doomed (h : Host) (f : LocalFabric) : Prop := Forall (doomed h) (children f).

Lemma all_settled_step h h' f f' : fabric_step h f h' f' → all_settled f → all_settled f'.
Proof.
  intros [_ C _ _] Hs. eapply Forall2_Forall_r; [exact C|]. eapply Forall_impl; [exact Hs|].
  intros c Hc c' Hp. by eapply settled_polled.
Qed.

Lemma settled_doomed h f : all_settled f → all_doomed h f.
Proof. intros. eapply Forall_impl; [done|]. by left. Qed.

Lemma poll_one_does c s h :
  pid_ok c →
  does (poll_one env fuel c s) h (λ x h', later h h' ∧ polled h c h' x.1 ∧ (obliging → doomed h c → settled x.1)).
Proof.
  intros Hpid. unfold poll_one. destruct (_ || _) eqn:Es.
  { apply settled_dec in Es. apply does_ret. split_and!; [done|apply polled_refl|done]. }
  apply does_bind. eapply does_mono; [by apply process_running_does|].
  intros [r c'] h' (Hl & Hp & _ & Hs). by apply does_ret.
Qed.

Lemma poll_all_does f le h :
  pids_ok f →
  does (poll_all env fuel f le) h (λ x h', fabric_step h f h' x.1 ∧
    (obliging → all_doomed h f → all_settled x.1)).
Proof.
  intros Hpid. unfold poll_all. set (G := obliging ∧ all_doomed h f).
  eapply does_mono; [apply (each_child_does _ (λ h c, pid_ok c ∧ (G → doomed h c)) (λ _ c, G → settled c))|].
  - intros c s h0 [Hc Hd]. eapply does_mono; [by apply poll_one_does|].
    intros x h' (Hl & Hp & Hs). split_and!; [done..|]. intros HG. apply Hs; [apply HG|by apply Hd].
  - intros h0 h1 c Hl [Hc Hd]. split; [done|]. intros HG. by eapply doomed_later, Hd.
  - done.
  - unfold pids_ok in Hpid. rewrite Forall_forall in Hpid |- *. intros c Hc. split; [by apply Hpid|].
    intros [_ HG]. unfold all_doomed in HG. rewrite Forall_forall in HG. by apply HG.
  - intros x h' (Hst & Hs). split; [done|]. intros Ho Hd. eapply Forall_impl; [exact Hs|].
    intros c Hc. by apply Hc.
Qed.

Lemma terminate_all_does f le h :
  pids_ok f →
  does (each_child (terminate_one env fuel) f le) h (λ x h', fabric_step h f h' x.1 ∧
    (obliging → all_doomed h' x.1)).
Proof.
  intros Hpid. eapply does_mono;
    [apply (each_child_does _ (λ _ c, pid_ok c) (λ h c, obliging → doomed h c)); [|done| |exact Hpid]|].
  - intros c s h0 Hc. unfold terminate_one. destruct (_ || _) eqn:Es.
    { apply settled_dec in Es. apply does_ret. split_and!; [done|apply polled_refl|by left]. }
    apply does_bind. eapply does_mono; [by apply terminate_does|].
    intros [r c'] h' (Hl & Hp & Hd). by apply does_ret.
  - intros h0 h1 c Hl Hd Ho. by eapply doomed_later, Hd.
  - intros x h' (Hst & Hd). split; [done|]. intros Ho. eapply Forall_impl; [exact Hd|]. auto.
Qed.

Lemma remaining_does deadline max h :
  does (remaining_timeout env deadline max) h (λ ms h', later h h' ∧ (h_ticks h < h_ticks h')%nat ∧ ms <= Z.max 0 max).
Proof.
  unfold remaining_timeout. apply does_bind, now_does, does_ret. split_and!; [apply later_tick; lia|cbn; lia|].
  case_match; lia.
Qed.

Lemma sleep_does deadline h : does (sleep_for_poll env deadline) h (λ _ h', later h h').
Proof.
  unfold sleep_for_poll. apply does_bind. eapply does_mono; [apply remaining_does|].
  intros ms h' (Hl & _). by apply does_ret.
Qed.

Lemma poll_loop_does N n deadline f le h :
  (∀ i, (N <= i)%nat → deadline <= e_clock env i) → (N < h_ticks h + n)%nat → (0 < n)%nat → pids_ok f →
  does (poll_loop env fuel n deadline f le) h (λ x h', fabric_step h f h' x.1 ∧
    (obliging → all_doomed h f → all_settled x.1)).
Proof.
  intros HN. revert f le h. induction n as [|n IH]; intros f le h Hn H0 Hp; [lia|]. cbn [poll_loop].
  apply does_bind. eapply does_mono; [by apply poll_all_does|].
  intros [f1 [all le1]] h1 (Hst & Hset). cbn [fst snd] in *. destruct all; [by apply does_ret|].
  apply does_bind, now_does. set (h2 := mkHost _ _ _).
  assert (Hl2 : later h1 h2) by (apply later_tick; lia).
  assert (Hst2 : fabric_step h f h2 f1) by (eapply fabric_trans; [exact Hst|by apply fabric_refl]).
  destruct (Z.leb_spec deadline (e_clock env (h_ticks h1))) as [|Hlt]; [by apply does_ret|].
  apply does_bind. eapply does_mono; [apply sleep_does|]. intros ? h3 Hl3. cbv beta.
  pose proof (la_ticks _ _ (st_later _ _ _ _ Hst)) as T1. pose proof (la_ticks _ _ Hl3) as T3.
  cbn [h2 h_ticks] in T3.
  assert (h_ticks h1 < N)%nat by (destruct (decide (N <= h_ticks h1)%nat) as [Hle|]; [specialize (HN _ Hle)|]; lia).
  eapply does_mono; [apply IH; [lia|lia|by eapply step_pids]|].
  intros [f4 le4] h4 (Hst4 & Hset4). cbn [fst] in *. split.
  - eapply fabric_trans; [exact Hst2|]. eapply fabric_trans; [by apply (fabric_refl h2 h3)|done].
  - intros Ho Hd. apply Hset4; [done|]. by apply settled_doomed, Hset.
Qed.

(** ** The client's calls *)

Lemma connect_client_does ms c h :
  does (connect_client env ms c) h (λ x h', later h h' ∧ client_fits x.2).
Proof.
  unfold does, connect_client.
  pose proof (client_connect_fits (e_clock env) (e_connect env (h_calls h)) (e_id env (h_calls h)) ms (client_at h c)) as Hc.
  destruct (client_connect _ _ _ _ _) as [r c']. destruct Hc as [Hf Hticks]. eexists _, _.
  split_and!; [done|by apply later_advance|done].
Qed.

Lemma call_client_does {A} (m : Message) (response : Parse A) ms c h :
  ms <= 10000 → client_fits c →
  does (call_client env (call (e_clock env) fuel m response ms) c) h (λ x h', later h h' ∧ client_fits x.2).
Proof.
  intros Hms Hc. unfold does, call_client.
  destruct (call_total (e_clock env) fuel m response ms (client_at h c)) as (r & c' & E & Hf & Hticks);
    [apply (ti_mono Ht)|intros i; by apply span_at|exact Hc|].
  rewrite E. eexists _, _. split_and!; [done|by apply later_advance|done].
Qed.

Lemma request_shutdown_does deadline f h :
  pids_ok f → does (request_shutdown env fuel deadline f) h (λ x h', fabric_step h f h' x.1).
Proof.
  intros Hp. unfold request_shutdown. apply does_bind.
  eapply does_mono; [apply process_running_does; by apply Forall_cons in Hp as [? _]|].
  intros [r c] h1 (Hl1 & Hpo & _ & _). cbn [fst snd] in *.
  assert (Hst : ∀ h', later h1 h' → fabric_step h f h' (set_coordinator c f)).
  { intros h' Hl. split; [by etrans| |done..]. constructor; [by eapply polled_later|].
    apply Forall_Forall2_diag, Forall_true. intros x. apply polled_refl. }
  destruct r as [[]|e]; [|by apply does_ret, Hst..]. apply does_bind.
  eapply does_mono; [apply remaining_does|]. intros ms h2 (Hl2 & _). cbv beta.
  destruct (ms <=? 0); [by apply does_ret, Hst|]. apply does_bind.
  eapply does_mono; [apply connect_client_does|]. intros [r2 cl] h3 [Hl3 Hf]. cbn [snd] in Hf.
  assert (Hl13 : later h1 h3) by by etrans.
  destruct r2 as [|e]; [|by apply does_ret, Hst]. apply does_bind.
  eapply does_mono; [apply remaining_does|]. intros ms2 h4 (Hl4 & _ & Hms). cbv beta.
  assert (Hl14 : later h1 h4) by by etrans.
  destruct (ms2 <=? 0); [by apply does_ret, Hst|]. apply does_bind.
  eapply does_mono; [apply call_client_does; [unfold kRequestAttemptMs in Hms; lia|done]|].
  intros [r5 c5] h5 [Hl5 _]. apply does_ret, Hst. by etrans.
Qed.

(** ** Shutting down *)

Lemma count_le {A} (p q : A → bool) l : count (λ x, p x && q x) l <= count p l.
Proof.
  unfold count. induction l as [|x l IH]; cbn [List.filter length]; [done|].
  destruct (p x), (q x); cbn [andb length]; lia.
Qed.

Lemma count_all {A} (p q : A → bool) l :
  count (λ x, p x && q x) l = count p l ↔ Forall (λ x, p x = true → q x = true) l.
Proof.
  induction l as [|x l IH]; [done|]. rewrite Forall_cons, <-IH. pose proof (count_le p q l).
  unfold count in *. cbn [List.filter]. destruct (p x), (q x); cbn [andb length]; (split; [|intros [H1 H2]]);
    try (intros; split; [done|lia]); try lia; try by specialize (H1 eq_refl).
Qed.

Lemma settled_spawned c : settled c ↔ (spawned c = true → cp_reaped c = true).
Proof.
  unfold settled, spawned. rewrite negb_true_iff, Z.eqb_neq. split; [tauto|].
  intros Hi. destruct (decide (cp_sys_pid c = 0)); [by left|right; auto].
Qed.

Lemma all_settled_count f :
  count (λ c, spawned c && cp_reaped c) (children f) = count spawned (children f) ↔ all_settled f.
Proof.
  rewrite count_all. unfold all_settled. rewrite !Forall_forall. by setoid_rewrite settled_spawned.
Qed.

Lemma step_count h f h' f' : fabric_step h f h' f' → count spawned (children f') = count spawned (children f).
Proof.
  intros [_ C _ _]. unfold count. f_equal. induction C as [|c c' cs cs' [P _ _] _ IH]; [done|].
  assert (Es : spawned c' = spawned c) by (unfold spawned; by rewrite P).
  cbn [List.filter]. rewrite Es. destruct (spawned c); cbn [length]; lia.
Qed.

Lemma none_spawned f : count spawned (children f) = 0 → all_settled f.
Proof.
  intros E. apply all_settled_count. pose proof (count_le spawned cp_reaped (children f)).
  assert (0 <= count (λ c, spawned c && cp_reaped c) (children f)) by (unfold count; lia). lia.
Qed.

(** The outcome of a shutdown. *)
Definition shutdown_outcome (f : LocalFabric) (r : Result Z) (f' : LocalFabric) : Prop :=
  match r with
  | Ok n => n = count spawned (children f) ∧ all_settled f'
  | Err e => err_code e = EProcessError ∧ ¬ all_settled f'
  end.

Lemma shutdown_all_does f h :
  pids_ok f →
  does (shutdown_all env fuel f) h (λ x h', fabric_step h f h' x.2 ∧ shutdown_outcome f x.1 x.2 ∧
    (obliging → is_ok x.1 = true)).
Proof.
  intros Hp. unfold shutdown_all. destruct (Z.eqb_spec (count spawned (children f)) 0) as [E0|_].
  { apply does_ret. split_and!; [by apply fabric_refl| |done]. split; [done|by apply none_spawned]. }
  apply does_bind, now_does. set (h1 := mkHost _ _ _). set (t1 := e_clock env (h_ticks h)).
  assert (S1 : fabric_step h f h1 f) by (apply fabric_refl, later_tick; lia).
  apply does_bind. eapply does_mono; [by apply request_shutdown_does|]. intros [f2 le2] h2 S2. cbn [fst] in S2.
  assert (P2 : pids_ok f2) by by eapply step_pids.
  apply does_bind. eapply does_mono; [apply (poll_loop_does (h_ticks h + fuel)%nat); [| |apply fuel_pos|done]|].
  { intros i Hi. etrans; [apply (span_at (h_ticks h))|by apply (ti_mono Ht)]. done. }
  { pose proof (la_ticks _ _ (st_later _ _ _ _ S2)) as T. cbn in T. lia. }
  intros [f3 le3] h3 [S3 _]. cbn [fst] in S3. assert (P3 : pids_ok f3) by by eapply step_pids.
  apply does_bind. eapply does_mono; [by apply poll_all_does|]. intros [f4 [b4 le4]] h4 [S4 _]. cbn [fst] in S4.
  assert (P4 : pids_ok f4) by by eapply step_pids.
  apply does_bind. eapply does_mono; [by apply terminate_all_does|]. intros [f5 le5] h5 [S5 D5]. cbn [fst] in S5, D5.
  assert (P5 : pids_ok f5) by by eapply step_pids.
  apply does_bind, now_does. set (h6 := mkHost _ _ _).
  assert (S6 : fabric_step h5 f5 h6 f5) by (apply fabric_refl, later_tick; lia).
  apply does_bind. eapply does_mono; [apply (poll_loop_does (h_ticks h5 + fuel)%nat); [| |apply fuel_pos|done]|].
  { intros i Hi. etrans; [apply (span_at (h_ticks h5))|by apply (ti_mono Ht)]. done. }
  { cbn. lia. }
  intros [f7 le7] h7 [S7 D7]. cbn [fst] in S7, D7. assert (P7 : pids_ok f7) by by eapply step_pids.
  apply does_bind. eapply does_mono; [by apply poll_all_does|]. intros [f8 [b8 le8]] h8 [S8 _]. cbn [fst] in S8.
  assert (Sall : fabric_step h f h8 f8) by (repeat (eapply fabric_trans; [eassumption|]); by apply fabric_refl).
  pose proof (step_count _ _ _ _ Sall) as Ec. pose proof (all_settled_count f8) as Hall. rewrite Ec in Hall.
  assert (Hob : obliging → all_settled f8).
  { intros Ho. eapply all_settled_step; [exact S8|]. apply D7; [done|].
    eapply Forall_impl; [by apply D5|]. intros c. apply doomed_later, (st_later _ _ _ _ S6). }
  destruct (Z.eqb_spec (count (λ c, spawned c && cp_reaped c) (children f8)) (count spawned (children f))) as [Eq|Hne];
    apply does_ret; split_and!; [done|split; [done|by apply Hall]|done|done|split; [done|tauto]|].
  intros Ho. by apply Hob, Hall in Ho.
Qed.

(** Every process in the operating system's table is a child the fabric knows and
    has not finished with. *)
Record tracked (h : Host) (f : LocalFabric) : Prop := {
  tr_pids : pids_ok f;
  tr_owned : ∀ pid, is_Some (h_procs h !! pid) → ∃ c, c ∈ children f ∧ cp_sys_pid c = pid ∧ ¬ settled c
}.

Lemma tracked_step h f h' f' : fabric_step h f h' f' → tracked h f → tracked h' f'.
Proof.
  intros Hst [Hp Ho]. split; [by eapply step_pids|]. intros pid [p' Hp'].
  destruct Hst as [[_ HP] C _ _]. destruct (HP pid p' Hp') as (p & H0 & _).
  destruct (Ho pid) as (c & [i Hi]%list_elem_of_lookup & <- & Hns); [by eexists|].
  destruct (Forall2_lookup_l _ _ _ _ _ C Hi) as (c' & Hi' & [P R G]).
  exists c'. split_and!; [by eapply list_elem_of_lookup_2|done|]. intros [Hz|Hr].
  - apply Hns. left. congruence.
  - destruct (cp_reaped c) eqn:E; [by apply Hns; right|]. rewrite (G eq_refl Hr) in Hp'. done.
Qed.

Lemma settled_empty h f : tracked h f → all_settled f → h_procs h = ∅.
Proof.
  intros [_ Ho] Hs. apply map_empty. intros pid. apply eq_None_not_Some. intros Hi.
  destruct (Ho pid Hi) as (c & Hc & _ & Hns). apply Hns.
  unfold all_settled in Hs. rewrite Forall_forall in Hs. by apply Hs.
Qed.

(** ** Launching *)

(** A fresh child: its process runs, and nothing else is new in the table. *)
Definition fresh (h h' : Host) (c : ChildProcess) : Prop :=
  pid_ok c ∧ ¬ settled c ∧ cp_running c = true ∧ h_procs h' !! cp_sys_pid c = Some (P_Running false) ∧
  ∀ pid, is_Some (h_procs h' !! pid) → pid = cp_sys_pid c ∨ is_Some (h_procs h !! pid).

Lemma spawn_does exe args h :
  does (spawn env exe args no_child) h (λ x h',
    match x.1 with Ok _ => fresh h h' x.2 | Err _ => later h h' end).
Proof.
  unfold spawn. destruct (spawn_refused exe args no_child) as [e|]; [apply does_ret; by cbn|].
  apply does_bind. unfold posix_spawn, does at 1. pose proof (ti_spawn Ht (h_calls h)) as Hpid.
  pose proof (later_advance h (h_ticks h) (Nat.le_refl _)) as Hl.
  destruct (e_spawn env (h_calls h)) as [pid|e]; [|eexists _, _; split; [done|apply does_ret; by cbn]].
  specialize (Hpid pid eq_refl). eexists _, _. split; [done|]. apply does_ret. cbn [fst snd].
  assert (Eu : u64 pid = pid) by (apply u64_id; int_solve).
  unfold fresh, pid_ok, settled. cbn [cp_sys_pid cp_reaped cp_running h_procs]. rewrite Eu, lookup_insert_eq.
  split_and!; [lia|lia|intros [|]; [lia|done]|done|done|].
  intros q. destruct (decide (q = pid)) as [->|Hne]; [by left|]. rewrite lookup_insert_ne by done.
  intros Hq. right. rewrite advance_lookup in Hq. by apply fmap_is_Some in Hq.
Qed.

Lemma tracked_fresh h h' f c port label :
  fresh h h' c → tracked h f →
  tracked h' (mkFabric (lf_node_port f) port (lf_coordinator f) (lf_nodes f ++ [c]) (lf_node_labels f ++ [label])).
Proof.
  intros (Hc & Hns & _ & _ & Hnew) [Hp Ho]. split.
  - unfold pids_ok, children in *. cbn. apply Forall_cons in Hp as [H1 H2].
    constructor; [done|]. apply Forall_app. by split; [|constructor].
  - intros pid [->|Hi]%Hnew.
    + exists c. split_and!; [|done..]. unfold children. cbn. set_solver.
    + destruct (Ho pid Hi) as (x & Hx & ?). exists x. split; [|done]. unfold children in *. cbn. set_solver.
Qed.

Lemma tracked_coordinator h h' f c :
  fresh h h' c → h_procs h = ∅ → lf_nodes f = [] → tracked h' (set_coordinator c f).
Proof.
  intros (Hc & Hns & _ & _ & Hnew) He En. unfold set_coordinator. split.
  - unfold pids_ok, children. cbn. rewrite En. by constructor.
  - intros pid [->|[p Hi]]%Hnew; [|by rewrite He, lookup_empty in Hi].
    exists c. split_and!; [unfold children; cbn; set_solver|done..].
Qed.

Lemma tracked_child h h' f c c' :
  later h h' → polled h c h' c' → tracked h (set_coordinator c f) → tracked h' (set_coordinator c' f).
Proof.
  intros Hl Hp. apply tracked_step. split; [done| |done..]. constructor; [done|].
  apply Forall_Forall2_diag, Forall_true. intros x. apply polled_refl.
Qed.

Lemma process_running_true c h x h' :
  process_running env fuel c h = Some (x, h') → x.1 = Ok true → cp_running x.2 = true ∧ ¬ settled x.2.
Proof.
  unfold process_running. destruct (_ || _) eqn:Es; [by intros [= <- _]|].
  unfold mbind, act_bind, mret, act_ret. destruct (waitpid_loop _ _ _ _) as [[r h1]|]; [|done].
  intros [= <- _]. destruct r as [|st|e]; cbn [fst snd]; [|done|by destruct e]. intros _. split; [done|].
  intros Hs. apply orb_false_iff in Es as [Ez Er]. apply Z.eqb_neq in Ez. destruct Hs; [done|].
  cbn in *. congruence.
Qed.

Lemma process_running_alive c h :
  pid_ok c →
  does (process_running env fuel c) h (λ x h', later h h' ∧ polled h c h' x.2 ∧
    (x.1 = Ok true → cp_running x.2 = true ∧ ¬ settled x.2)).
Proof.
  intros Hc. destruct (process_running_does c h Hc) as (x & h' & E & L & P & _).
  exists x, h'. split_and!; [done..|]. by eapply process_running_true.
Qed.

(** What the coordinator's process looks like after a readiness check. *)
Definition probed (h : Host) (c : ChildProcess) (x : bool * ChildProcess * Error) (h' : Host) : Prop :=
  later h h' ∧ polled h c h' x.1.2 ∧ (x.1.1 = true → cp_running x.1.2 = true ∧ ¬ settled x.1.2).

Lemma probed_before h0 h c x h' : later h0 h → probed h c x h' → probed h0 c x h'.
Proof. intros Hl (L & P & R). split_and!; [by etrans|by eapply polled_before|done]. Qed.

Lemma probed_false h h' c e : later h h' → does (mret (false, c, e)) h' (probed h c).
Proof. intros Hl. apply does_ret. split_and!; [done|apply polled_refl|done]. Qed.

Lemma probe_does ms deadline port c last h :
  pid_ok c → does (probe_coordinator env fuel ms deadline port c last) h (probed h c).
Proof.
  intros Hc. unfold probe_coordinator. apply does_bind. eapply does_mono; [apply connect_client_does|].
  intros [r cl] h1 [L1 F1]. cbn [snd] in F1.
  destruct r as [|e]; [|by apply probed_false]. apply does_bind. eapply does_mono; [apply remaining_does|].
  intros ms2 h2 (L2 & _ & Hms). cbv beta. assert (L02 : later h h2) by by etrans.
  destruct (ms2 <=? 0); [by apply probed_false|]. apply does_bind.
  eapply does_mono; [apply call_client_does; [unfold kRequestAttemptMs in Hms; lia|done]|].
  intros [st c3] h3 [L3 _]. assert (L03 : later h h3) by by etrans.
  destruct st as [st|e]; [|by apply probed_false]. destruct (bool_decide _); [|by apply probed_false].
  apply does_bind. eapply does_mono; [by apply process_running_alive|].
  intros [r4 c4] h4 (L4 & P4 & Hr). cbn [fst snd] in P4, Hr. apply does_ret.
  eapply probed_before; [exact L03|]. destruct r4 as [[]|]; (split_and!; [done|done|]); cbn [fst snd]; auto; done.
Qed.

Lemma ready_loop_does N n deadline port c last h :
  (∀ i, (N <= i)%nat → deadline <= e_clock env i) → (N < h_ticks h + n)%nat → (0 < n)%nat → pid_ok c →
  does (ready_loop env fuel n deadline port c last) h (probed h c).
Proof.
  intros HN. revert c last h. induction n as [|n IH]; intros c last h Hn H0 Hc; [lia|]. cbn [ready_loop].
  apply does_bind, now_does. set (h1 := mkHost _ _ _). assert (L1 : later h h1) by (apply later_tick; lia).
  destruct (Z.leb_spec deadline (e_clock env (h_ticks h))) as [|Hlt]; [by apply probed_false|].
  assert (h_ticks h < N)%nat by (destruct (decide (N <= h_ticks h)%nat) as [Hle|]; [specialize (HN _ Hle)|]; lia).
  apply does_bind. eapply does_mono; [by apply process_running_does|].
  intros [r c2] h2 (L2 & P2 & _). cbn [fst snd] in P2.
  assert (Hfail : ∀ h' e, later h2 h' → does (mret (false, c2, e)) h' (probed h c)).
  { intros h' e L. apply does_ret. split_and!; [by etrans; [|etrans]| |done].
    eapply polled_before, polled_later; [exact L|exact P2]. }
  destruct r as [[]|e]; [|by apply Hfail..]. apply does_bind. eapply does_mono; [apply remaining_does|].
  intros ms h3 (L3 & T3 & _). cbv beta. destruct (ms <=? 0); [by apply Hfail|].
  assert (Hc2 : pid_ok c2) by (unfold pid_ok; by rewrite (po_pid _ _ _ _ P2)).
  apply does_bind. eapply does_mono; [by apply probe_does|]. intros [[ready c4] e4] h4 (L4 & P4 & R4).
  cbn [fst snd] in P4, R4. assert (Hc4 : pid_ok c4) by (unfold pid_ok; by rewrite (po_pid _ _ _ _ P4)).
  assert (L24 : later h2 h4) by by etrans.
  assert (P04 : polled h c h4 c4).
  { apply (polled_before h h1). eapply polled_trans; [exact L24|exact P2|by eapply polled_before]. }
  destruct ready.
  { apply does_ret. split_and!; [|exact P04|exact R4]. etrans; [exact L1|by etrans]. }
  apply does_bind. eapply does_mono; [apply sleep_does|]. intros ? h5 L5. cbv beta.
  pose proof (la_ticks _ _ L2) as T2. pose proof (la_ticks _ _ L4) as T4. pose proof (la_ticks _ _ L5) as T5.
  cbn [h1 h_ticks] in T2. eapply does_mono; [apply IH; [lia|lia|done]|].
  intros x h6 (L6 & P6 & R6). assert (L46 : later h4 h6) by (etrans; [exact L5|exact L6]). split_and!; [| |done].
  - etrans; [exact L1|]. etrans; [exact L2|]. by etrans.
  - eapply polled_trans; [exact L46|exact P04|by eapply polled_before].
Qed.

Lemma fail_launch_does msg f h :
  tracked h f →
  does (fail_launch env fuel msg f) h (λ r h', (∃ e, r = Err e ∧ err_code e = ELaunchError) ∧
    (obliging → h_procs h' = ∅)).
Proof.
  intros Htr. unfold fail_launch. apply does_bind. eapply does_mono; [apply shutdown_all_does, Htr|].
  intros [r f1] h1 (S1 & O1 & G1). cbn [fst snd] in *. pose proof (tracked_step _ _ _ _ S1 Htr) as T1.
  apply does_bind. eapply does_mono; [apply shutdown_all_does, T1|].
  intros [r2 f2] h2 (S2 & O2 & _). cbn [fst snd] in *. apply does_ret. split; [by eexists|].
  intros Ho. specialize (G1 Ho). destruct r as [n|]; [|done]. destruct O1 as [_ A1].
  apply (settled_empty _ f2); [by eapply tracked_step|]. by eapply all_settled_step.
Qed.

Definition alive (c : ChildProcess) : Prop := cp_running c = true ∧ ¬ settled c.

(** A fabric as [launch] returns it, with [n] nodes. *)
Record launched (n : nat) (f : LocalFabric) : Prop := {
  lc_ports : lf_node_port f ≠ 0 ∧ lf_client_port f ≠ 0 ∧ lf_node_port f ≠ lf_client_port f;
  lc_nodes : length (lf_nodes f) = n;
  lc_labels : lf_node_labels f = (λ i, "node-" +:+ to_string (Z.of_nat i)) <$> seq 0 n;
  lc_alive : Forall alive (children f)
}.

Definition launch_outcome (n : nat) (r : Result LocalFabric) (h' : Host) : Prop :=
  match r with
  | Ok f => launched n f ∧ tracked h' f
  | Err _ => obliging → h_procs h' = ∅
  end.

Lemma launched_node n f c :
  launched n f → alive c →
  launched (S n) (mkFabric (lf_node_port f) (lf_client_port f) (lf_coordinator f) (lf_nodes f ++ [c])
    (lf_node_labels f ++ ["node-" +:+ to_string (Z.of_nat n)])).
Proof.
  intros [Hp Hn Hl Ha] Hc. split; cbn [lf_node_port lf_client_port lf_nodes lf_node_labels]; [done| | |].
  - rewrite length_app, Hn. cbn. lia.
  - rewrite seq_S, fmap_app, Hl. done.
  - unfold children in *. cbn. apply Forall_cons in Ha as [H1 H2]. constructor; [done|].
    apply Forall_app. by split; [|constructor].
Qed.

Lemma launch_nodes_does n k exe cuda f h :
  launched k f → tracked h f →
  does (launch_nodes env fuel n (Z.of_nat k) exe cuda f) h (launch_outcome (k + n)).
Proof.
  revert k f h. induction n as [|n IH]; intros k f h Hla Htr; cbn [launch_nodes].
  { apply does_ret. rewrite Nat.add_0_r. done. }
  apply does_bind. eapply does_mono; [apply spawn_does|]. intros [r c] h1 Hr. cbn [fst snd] in Hr.
  destruct r as [|e].
  - replace (Z.of_nat k + 1) with (Z.of_nat (S k)) by lia. rewrite <-Nat.add_succ_comm.
    apply IH; [|by eapply tracked_fresh]. apply launched_node; [done|].
    destruct Hr as (_ & Hns & Hrun & _). by split.
  - eapply does_mono; [apply fail_launch_does; eapply tracked_step; [by apply fabric_refl|done]|].
    intros r h2 ((e' & -> & _) & Ho). exact Ho.
Qed.

Lemma port_does h : does (pick_free_port env) h (λ _ h', later h h').
Proof. eexists _, _. split; [done|]. by apply (later_advance h (h_ticks h)). Qed.

Lemma client_port_does n node port h : does (pick_client_port env n node port) h (λ _ h', later h h').
Proof.
  revert port h. induction n as [|n IH]; intros port h; cbn [pick_client_port]; [by apply does_ret|].
  apply does_bind. eapply does_mono; [apply port_does|]. intros p h1 L1. cbv beta.
  destruct (_ && _); [by apply does_ret|]. eapply does_mono; [apply IH|]. intros ? h2 L2. etrans; [exact L1|exact L2].
Qed.

Lemma later_empty h h' : later h h' → h_procs h = ∅ → h_procs h' = ∅.
Proof. intros L E. apply map_empty. intros pid. eapply later_gone; [exact L|]. by rewrite E, lookup_empty. Qed.

Lemma launch_does exe node_count cuda store policy telemetry h :
  h_procs h = ∅ →
  does (launch env fuel exe node_count cuda store policy telemetry) h
    (launch_outcome (Z.to_nat (Z.max 1 node_count))).
Proof.
  intros Hempty. unfold launch. apply does_bind. eapply does_mono; [apply port_does|].
  intros node_port h1 L1. cbv beta. apply does_bind. eapply does_mono; [apply client_port_does|].
  intros client_port h2 L2. cbv beta. set (f := mkFabric node_port client_port no_child [] []).
  assert (E2 : h_procs h2 = ∅) by (eapply later_empty; [etrans; [exact L1|exact L2]|done]).
  destruct (_ || _) eqn:Ep; [apply does_ret; by intros _|].
  apply orb_false_iff in Ep as [[Ep1 Ep2]%orb_false_iff Ep3]. apply Z.eqb_neq in Ep1, Ep2, Ep3.
  apply does_bind. eapply does_mono; [apply spawn_does|]. intros [r c] h3 Hr. cbn [fst snd] in Hr.
  destruct r as [|e]; [|apply does_ret; intros _; by eapply later_empty].
  assert (T3 : tracked h3 (set_coordinator c f)) by by eapply tracked_coordinator.
  destruct Hr as (Hpid & _). apply does_bind, now_does. set (h4 := mkHost _ _ _).
  apply does_bind. eapply does_mono; [apply (ready_loop_does (h_ticks h3 + fuel)%nat); [| |apply fuel_pos|done]|].
  { intros i Hi. etrans; [apply (span_at (h_ticks h3))|by apply (ti_mono Ht)]. done. }
  { cbn. lia. }
  intros [[ready c5] e5] h5 (L5 & P5 & R5). cbn [fst snd] in P5, R5.
  assert (L35 : later h3 h5) by (etrans; [apply (later_tick h3 (S (h_ticks h3))); lia|exact L5]).
  assert (T5 : tracked h5 (set_coordinator c5 f)).
  { eapply tracked_child; [exact L35|by eapply polled_before|exact T3]. }
  destruct ready.
  - replace (if node_count <? 1 then 1 else node_count) with (Z.max 1 node_count)
      by (destruct (Z.ltb_spec node_count 1); lia).
    apply (launch_nodes_does _ 0); [|done]. split; [done|done|done|]. constructor; [by apply R5|constructor].
  - apply does_bind. eapply does_mono; [apply process_running_does; unfold pid_ok; by rewrite (po_pid _ _ _ _ P5)|].
    intros [r6 c6] h6 (L6 & P6 & _). cbn [fst snd] in P6.
    eapply does_mono; [apply fail_launch_does; by eapply tracked_child|].
    intros r h7 ((e' & -> & _) & Ho). exact Ho.
Qed.

(** ** Killing and waiting *)

Lemma wait_process_does N n deadline c h :
  (∀ i, (N <= i)%nat → deadline <= e_clock env i) → (N < h_ticks h + n)%nat → (0 < n)%nat → pid_ok c →
  does (wait_process_loop env fuel n deadline c) h (λ x h', later h h' ∧ polled h c h' x.2 ∧
    (is_ok x.1 = true → settled x.2) ∧ (obliging → doomed h c → settled x.2)).
Proof.
  intros HN. revert c h. induction n as [|n IH]; intros c h Hn H0 Hc; [lia|]. cbn [wait_process_loop].
  apply does_bind. eapply does_mono; [by apply process_running_does|].
  intros [r c1] h1 (L1 & P1 & F1 & S1). cbn [fst snd] in *.
  destruct r as [[]|e]; [|apply does_ret; split_and!; auto..]; [|by cbn].
  apply does_bind, now_does. set (h2 := mkHost _ _ _). assert (L2 : later h1 h2) by (apply later_tick; lia).
  destruct (Z.leb_spec deadline (e_clock env (h_ticks h1))) as [|Hlt].
  { apply does_ret. split_and!; [by etrans|by eapply polled_later|done|done]. }
  pose proof (la_ticks _ _ L1) as T1.
  assert (h_ticks h1 < N)%nat by (destruct (decide (N <= h_ticks h1)%nat) as [Hle|]; [specialize (HN _ Hle)|]; lia).
  apply does_bind. eapply does_mono; [apply sleep_does|]. intros ? h3 L3. cbv beta.
  pose proof (la_ticks _ _ L3) as T3. cbn [h2 h_ticks] in T3.
  eapply does_mono; [apply IH; [lia|lia|unfold pid_ok; by rewrite (po_pid _ _ _ _ P1)]|].
  intros x h4 (L4 & P4 & F4 & S4). assert (L14 : later h1 h4) by (etrans; [exact L2|(etrans; [exact L3|exact L4])]).
  split_and!; [by etrans|eapply polled_trans; [exact L14|exact P1|by eapply polled_before]|done|].
  intros Ho Hd. eapply settled_polled; [exact P4|by apply S1].
Qed.

(** [cs'] are the processes [cs] at a later time. *)
Definition polled_list (h : Host) (cs : list ChildProcess) (h' : Host) (cs' : list ChildProcess) : Prop :=
  later h h' ∧ Forall2 (λ c c', polled h c h' c') cs cs'.

Lemma polled_list_refl h h' cs : later h h' → polled_list h cs h' cs.
Proof. intros. split; [done|]. apply Forall_Forall2_diag, Forall_true. intros c. apply polled_refl. Qed.

Lemma polled_list_cons h c h1 c1 cs h2 cs2 :
  later h h1 → polled h c h1 c1 → polled_list h1 cs h2 cs2 → polled_list h (c :: cs) h2 (c1 :: cs2).
Proof.
  intros L1 P1 [L2 P2]. split; [by etrans|]. constructor; [by eapply polled_later|].
  eapply Forall2_impl; [exact P2|]. intros x y Hp. eapply polled_before, Hp.
Qed.

Lemma polled_nodes h f h' cs : polled_list h (lf_nodes f) h' cs → fabric_step h f h' (set_nodes cs f).
Proof. intros [L P]. split; [done| |done..]. constructor; [apply polled_refl|exact P]. Qed.

Lemma kill_first_does label cs labels h :
  Forall pid_ok cs →
  does (kill_first env fuel label cs labels) h (λ x h', polled_list h cs h' x.2 ∧
    (is_ok x.1 = true → ∃ i c, labels !! i = Some label ∧ x.2 !! i = Some c ∧ settled c)).
Proof.
  revert labels h. induction cs as [|c cs IH]; intros labels h Hcs; cbn [kill_first].
  { apply does_ret. split; [by apply polled_list_refl|done]. }
  apply Forall_cons in Hcs as [Hc Hcs]. destruct (bool_decide_reflect (head labels = Some label)) as [El|_].
  - apply does_bind. eapply does_mono; [by apply terminate_does|]. intros [r c1] h1 (L1 & P1 & _). cbn [fst snd] in *.
    destruct r as [|e]; [|apply does_ret; split; [|done]; by eapply polled_list_cons, polled_list_refl].
    apply does_bind, now_does. set (h2 := mkHost _ _ _). assert (L2 : later h1 h2) by (apply later_tick; lia).
    apply does_bind. unfold wait_process. eapply does_mono; [apply (wait_process_does (h_ticks h1 + fuel)%nat);
      [| |apply fuel_pos|unfold pid_ok; by rewrite (po_pid _ _ _ _ P1)]|].
    { intros i Hi. etrans; [apply (span_at (h_ticks h1))|by apply (ti_mono Ht)]. done. }
    { cbn. lia. }
    intros [r3 c3] h3 (L3 & P3 & F3 & _). cbn [fst snd] in *. apply does_ret. cbn [fst snd].
    assert (L13 : later h1 h3) by (etrans; [exact L2|exact L3]). split.
    + apply (polled_list_cons h c h3 c3); [by etrans| |by apply polled_list_refl].
      eapply polled_trans; [exact L13|exact P1|by eapply polled_before].
    + intros Hok. exists 0%nat, c3. destruct labels; [done|]. split_and!; [done|done|]. apply F3. by destruct r3.
  - apply does_bind. eapply does_mono; [by apply IH|]. intros [r cs1] h1 (P1 & K1). cbn [fst snd] in *.
    apply does_ret. cbn [fst snd]. split; [eapply polled_list_cons; [done|apply polled_refl|done]|].
    intros (i & c' & Hi & Hc' & Hs)%K1. exists (S i), c'. by destruct labels.
Qed.

Lemma kill_node_does label f h :
  pids_ok f →
  does (kill_node_by_label env fuel label f) h (λ x h', fabric_step h f h' x.2 ∧
    (is_ok x.1 = true → ∃ i c, lf_node_labels f !! i = Some label ∧ lf_nodes x.2 !! i = Some c ∧ settled c)).
Proof.
  intros Hp. unfold kill_node_by_label. apply does_bind.
  eapply does_mono; [apply kill_first_does; by apply Forall_cons in Hp as [_ ?]|].
  intros [r cs] h1 [P1 K1]. apply does_ret. split; [by apply polled_nodes|done].
Qed.

Lemma require_running_does c name h :
  pid_ok c →
  does (require_running env fuel c name) h (λ x h', later h h' ∧ polled h c h' x.2 ∧ (is_ok x.1 = true → alive x.2)).
Proof.
  intros Hc. unfold require_running. apply does_bind. eapply does_mono; [by apply process_running_alive|].
  intros [r c1] h1 (L1 & P1 & A1). apply does_ret. split_and!; [done..|]. cbn [fst snd] in *.
  by destruct r as [[]|]; [intros _; apply A1|..].
Qed.

Lemma require_nodes_does i cs labels h :
  Forall pid_ok cs →
  does (require_nodes env fuel i cs labels) h (λ x h', polled_list h cs h' x.2 ∧ (is_ok x.1 = true → Forall alive x.2)).
Proof.
  revert i labels h. induction cs as [|c cs IH]; intros i labels h Hcs; cbn [require_nodes].
  { apply does_ret. split; [by apply polled_list_refl|done]. }
  apply Forall_cons in Hcs as [Hc Hcs]. apply does_bind. eapply does_mono; [by apply require_running_does|].
  intros [r c1] h1 (L1 & P1 & A1). cbn [fst snd] in *.
  destruct r as [|e]; [|apply does_ret; split; [|done]; by eapply polled_list_cons, polled_list_refl].
  apply does_bind. eapply does_mono; [by apply IH|]. intros [r2 cs2] h2 (P2 & A2). cbn [fst snd] in *.
  apply does_ret. cbn [fst snd]. split; [by eapply polled_list_cons|]. intros Hok. constructor; auto.
Qed.

Lemma require_all_does f h :
  pids_ok f →
  does (require_all env fuel f) h (λ x h', fabric_step h f h' x.2 ∧ (is_ok x.1 = true → Forall alive (children x.2))).
Proof.
  intros Hp. apply Forall_cons in Hp as [Hc Hcs]. unfold require_all. apply does_bind.
  eapply does_mono; [by apply require_running_does|]. intros [r c1] h1 (L1 & P1 & A1). cbn [fst snd] in *.
  assert (Hst : ∀ h2 cs2, polled_list h1 (lf_nodes f) h2 cs2 → fabric_step h f h2 (set_nodes cs2 (set_coordinator c1 f))).
  { intros h2 cs2 P2. destruct (polled_list_cons _ _ _ _ _ _ _ L1 P1 P2) as [L P]. by split. }
  destruct r as [|e].
  - apply does_bind. eapply does_mono; [by apply require_nodes_does|]. intros [r2 cs2] h2 (P2 & A2). cbn [fst snd] in *.
    apply does_ret. cbn [fst snd]. split; [by apply Hst|]. intros Hok. constructor; [by apply A1|by apply A2].
  - apply does_ret. split; [|done]. apply (Hst h1 (lf_nodes f)). by apply polled_list_refl.
Qed.

Definition opt_fits (c : option FabricClient) : Prop := match c with Some c => client_fits c | None => True end.

Lemma ensure_client_does deadline client f h :
  opt_fits client →
  does (ensure_client env deadline client f) h (λ x h', later h h' ∧ match x with inl c => opt_fits c | inr _ => True end).
Proof.
  intros Hc. unfold ensure_client. destruct (usable_client client) as [c|] eqn:E.
  - apply does_ret. split; [done|]. destruct client as [c0|]; [|done]. cbn in E. destruct (client_connected c0); by simplify_eq.
  - apply does_bind. eapply does_mono; [apply remaining_does|]. intros ms h1 (L1 & _). cbv beta.
    destruct (ms <=? 0); [by apply does_ret|]. apply does_bind. eapply does_mono; [apply connect_client_does|].
    intros [r c] h2 [L2 F2]. apply does_ret. split; [by etrans|]. by destruct r.
Qed.

Lemma query_registration_does deadline client f h :
  opt_fits client →
  does (query_registration env fuel deadline client f) h (λ x h', later h h' ∧
    match x with R_Break => True | R_Retry c _ => opt_fits c | R_Count c _ => client_fits c end).
Proof.
  intros Hc. unfold query_registration. apply does_bind. eapply does_mono; [by apply ensure_client_does|].
  intros [[c|]|e] h1 [L1 F1]; [|by apply does_ret..]. cbn [opt_fits] in F1. apply does_bind.
  eapply does_mono; [apply remaining_does|]. intros ms h2 (L2 & _ & Hms). cbv beta.
  destruct (ms <=? 0); [apply does_ret; split; [by etrans|done]|]. apply does_bind.
  eapply does_mono; [apply call_client_does; [unfold kRequestAttemptMs in Hms; lia|done]|].
  intros [st c3] h3 [L3 F3]. cbn [snd] in F3. apply does_ret. split; [by etrans; [|etrans]|].
  destruct st; [by destruct (bool_decide _)|done].
Qed.

(** The outcome of waiting: on success every child was alive at the last check. *)
Definition waited_for (h : Host) (f : LocalFabric) (x : Result unit * LocalFabric) (h' : Host) : Prop :=
  fabric_step h f h' x.2 ∧ (is_ok x.1 = true → Forall alive (children x.2)).

Lemma waited_before h f h1 f1 x h' : fabric_step h f h1 f1 → waited_for h1 f1 x h' → waited_for h f x h'.
Proof. intros S [S' A]. split; [by eapply fabric_trans|done]. Qed.

Lemma timeout_does n e f h : pids_ok f → does (registration_timeout env fuel f n e) h (waited_for h f).
Proof.
  intros Hp. unfold registration_timeout. apply does_bind. eapply does_mono; [by apply require_all_does|].
  intros [r f1] h1 [S1 _]. apply does_ret. split; [done|]. by destruct r.
Qed.

Lemma registered_loop_does N n deadline client f k e h :
  (∀ i, (N <= i)%nat → deadline <= e_clock env i) → (N < h_ticks h + n)%nat → (0 < n)%nat →
  pids_ok f → opt_fits client →
  does (registered_loop env fuel n deadline client f k e) h (waited_for h f).
Proof.
  intros HN. revert client f k e h. induction n as [|n IH]; intros client f k e h Hn H0 Hp Hc; [lia|].
  cbn [registered_loop]. apply does_bind, now_does. set (h1 := mkHost _ _ _).
  assert (S1 : fabric_step h f h1 f) by (apply fabric_refl, later_tick; lia).
  destruct (Z.leb_spec deadline (e_clock env (h_ticks h))) as [|Hlt].
  { eapply does_mono; [by apply timeout_does|]. intros x h2. by apply waited_before. }
  assert (h_ticks h < N)%nat by (destruct (decide (N <= h_ticks h)%nat) as [Hle|]; [specialize (HN _ Hle)|]; lia).
  apply does_bind. eapply does_mono; [by apply require_all_does|]. intros [r f2] h2 [S2 _]. cbn [fst snd] in S2.
  assert (S02 : fabric_step h f h2 f2) by by eapply fabric_trans.
  destruct r as [|e2]; [|apply does_ret; by split]. assert (P2 : pids_ok f2) by by eapply step_pids.
  apply does_bind. eapply does_mono; [by apply query_registration_does|]. intros q h3 [L3 F3]. cbv beta.
  assert (S03 : fabric_step h f h3 f2) by (eapply fabric_trans; [exact S02|by apply fabric_refl]).
  pose proof (la_ticks _ _ (st_later _ _ _ _ S2)) as T2. cbn [h1 h_ticks] in T2. pose proof (la_ticks _ _ L3) as T3.
  assert (Hagain : ∀ cl k e, opt_fits cl → does (sleep_for_poll env deadline ≫= λ _,
    registered_loop env fuel n deadline cl f2 k e) h3 (waited_for h f)).
  { intros cl k' e' Hcl. apply does_bind. eapply does_mono; [apply sleep_does|]. intros ? h4 L4. cbv beta.
    pose proof (la_ticks _ _ L4) as T4. eapply does_mono; [apply IH; [lia|lia|done|done]|].
    intros x h5. apply waited_before. eapply fabric_trans; [exact S03|by apply fabric_refl]. }
  destruct q as [|cl e3|cl k3]; [|by apply Hagain|].
  - eapply does_mono; [by apply timeout_does|]. intros x h4. by apply waited_before.
  - destruct (k3 =? _); [|by apply Hagain].
    eapply does_mono; [by apply require_all_does|]. intros x h4. by apply waited_before.
Qed.

Lemma wait_registered_does timeout_ms f h :
  timeout_ms <= span → pids_ok f → does (wait_registered env fuel timeout_ms f) h (waited_for h f).
Proof.
  intros Hs Hp. unfold wait_registered. destruct (timeout_ms <=? 0).
  { apply does_ret. split; [by apply fabric_refl|done]. }
  apply does_bind, now_does. eapply does_mono; [apply (registered_loop_does (h_ticks h + fuel)%nat);
    [| |apply fuel_pos|done|done]|].
  - intros i Hi. etrans; [|by apply (ti_mono Ht)]. pose proof (ti_span Ht (h_ticks h)). lia.
  - cbn. lia.
  - intros x h'. apply waited_before. apply fabric_refl, later_tick. lia.
Qed.
End env.

(** ** The life of a fabric *)

(** What the owner of a [LocalFabric] can call. *)
Inductive FabricOp := F_Wait (timeout_ms : Z) | F_Kill (label : string) | F_Client | F_Shutdown.

Definition fabric_op (env : Env) (fuel : nat) (op : FabricOp) (f : LocalFabric) : Act LocalFabric :=
  match op with
  | F_Wait ms => snd <$> wait_registered env fuel ms f
  | F_Kill label => snd <$> kill_node_by_label env fuel label f
  | F_Client => (λ _, f) <$> make_client env f
  | F_Shutdown => snd <$> shutdown_all env fuel f
  end.

Fixpoint fabric_ops (env : Env) (fuel : nat) (ops : list FabricOp) (f : LocalFabric) : Act LocalFabric :=
  match ops with
  | [] => mret f
  | op :: ops => f ← fabric_op env fuel op f; fabric_ops env fuel ops f
  end.

(** Launch, use, destroy ([~LocalFabric] calls [shutdown_all]): what the last
    shutdown returned, [None] when the launch failed. *)
Definition lifetime (env : Env) (fuel : nat) (exe : string) (node_count : Z) (cuda : bool)
    (store policy telemetry : string) (ops : list FabricOp) : Act (option (Result Z)) :=
  r ← launch env fuel exe node_count cuda store policy telemetry;
  match r with
  | Err _ => mret None
  | Ok f =>
      f ← fabric_ops env fuel ops f;
      '(r, _) ← shutdown_all env fuel f;
      mret (Some r)
  end.

Lemma does_fmap {A B} (g : A → B) (m : Act A) h (Q : B → Host → Prop) :
  does m h (λ a h', Q (g a) h') → does (g <$> m) h Q.
Proof.
  intros (a & h' & E & HQ). exists (g a), h'. split; [|done]. unfold fmap, act_fmap. by rewrite E.
Qed.

Section life.
Context (env : Env) (fuel : nat) (span : Z) (Ht : timely env fuel span).

Lemma fabric_op_does op f h :
  match op with F_Wait ms => ms <= span | _ => True end → tracked h f →
  does (fabric_op env fuel op f) h (λ f' h', tracked h' f').
Proof.
  intros Hop Htr. destruct op; cbn [fabric_op]; apply does_fmap.
  - eapply does_mono; [by eapply wait_registered_does, Htr|]. intros x h' [S _]. by eapply tracked_step.
  - eapply does_mono; [by eapply kill_node_does, Htr|]. intros x h' [S _]. by eapply tracked_step.
  - unfold make_client. apply does_bind. eapply does_mono; [apply connect_client_does|]. intros [r c] h' [L _].
    apply does_ret. eapply tracked_step; [by apply fabric_refl|done].
  - eapply does_mono; [by eapply shutdown_all_does, Htr|]. intros x h' [S _]. by eapply tracked_step.
Qed.

Definition waits_within (ops : list FabricOp) : Prop :=
  Forall (λ op, match op with F_Wait ms => ms <= span | _ => True end) ops.

Lemma fabric_ops_does ops f h :
  waits_within ops → tracked h f → does (fabric_ops env fuel ops f) h (λ f' h', tracked h' f').
Proof.
  intros Hops. revert f h. induction Hops as [|op ops Hop _ IH]; intros f h Htr; cbn [fabric_ops]; [by apply does_ret|].
  apply does_bind. eapply does_mono; [by apply fabric_op_does|]. intros f' h' Htr'. by apply IH.
Qed.
End life.

(** ** Claims *)

(** C28: shutting down ends and tells the truth.  Whenever children exit, whichever
    system calls are interrupted or fail, [shutdown_all] returns; [Ok n] means
    that all [n] processes the fabric ever started are gone from the operating
    system's table (neither running nor left as zombies), and an error that one
    of them is not confirmed gone.  When signals and waits work and a killed
    process exits, the result is [Ok]. *)
Theorem shutdown_reaps (env : Env) (fuel : nat) (span : Z) (f : LocalFabric) (h : Host) :
  timely env fuel span → tracked h f →
  ∃ r f' h', shutdown_all env fuel f h = Some ((r, f'), h') ∧ tracked h' f' ∧
    match r with
    | Ok n => n = count spawned (children f) ∧ h_procs h' = ∅
    | Err e => err_code e = EProcessError ∧ ¬ all_settled f'
    end ∧
    (obliging env → ∃ n, r = Ok n).
Proof.
  intros Ht Htr. destruct (shutdown_all_does env fuel span Ht f h (tr_pids _ _ Htr))
    as ([r f'] & h' & E & S & O & G). cbn [fst snd] in *.
  pose proof (tracked_step _ _ _ _ S Htr) as Htr'. exists r, f', h'. split_and!; [done|done| |].
  - destruct r as [n|e]; [|done]. destruct O as [En A]. split; [done|]. by eapply settled_empty.
  - intros Ho. specialize (G Ho). destruct r as [n|]; [by exists n|done].
Qed.

(** No process is left behind.  Launching a fabric, using it in any way
    (waiting, killing nodes, connecting, shutting down) and destroying it returns;
    when the destructor's shutdown succeeds, or when signals and waits work, the
    operating system has no child of it left, also when the launch fails half way. *)
Theorem local_fabric_no_orphans (env : Env) (fuel : nat) (span : Z) (exe : string) (node_count : Z) (cuda : bool)
    (store policy telemetry : string) (ops : list FabricOp) (h : Host) :
  timely env fuel span → waits_within span ops → h_procs h = ∅ →
  ∃ r h', lifetime env fuel exe node_count cuda store policy telemetry ops h = Some (r, h') ∧
    ((∃ n, r = Some (Ok n)) ∨ obliging env → h_procs h' = ∅).
Proof.
  intros Ht Hops He. unfold lifetime. apply does_bind.
  eapply does_mono; [by eapply launch_does|]. intros [f|e] h1 Hl; cbn [launch_outcome] in Hl.
  - destruct Hl as [_ Htr]. apply does_bind. eapply does_mono; [by eapply fabric_ops_does|].
    intros f2 h2 Htr2. cbv beta. apply does_bind. eapply does_mono; [by eapply shutdown_all_does, Htr2|].
    intros [r f3] h3 (S & O & G). cbn [fst snd] in *. apply does_ret. intros Hok.
    apply (settled_empty h3 f3); [by eapply tracked_step|].
    destruct r as [n|e]; [apply O|]. destruct Hok as [[n Hn]|Ho]; [done|by specialize (G Ho)].
  - apply does_ret. intros [[n Hn]|Ho]; [done|auto].
Qed.

(** What [launch] returns.  It always returns.  A fabric it returns has a
    coordinator, as many nodes as asked for (one at least) with the labels
    node-0, node-1, ..., distinct ports, all children started and none reaped,
    and they are all the children there are; when it fails and signals and waits
    work, nothing it started is left. *)
Theorem launch_accounts (env : Env) (fuel : nat) (span : Z) (exe : string) (node_count : Z) (cuda : bool)
    (store policy telemetry : string) (h : Host) :
  timely env fuel span → h_procs h = ∅ →
  ∃ r h', launch env fuel exe node_count cuda store policy telemetry h = Some (r, h') ∧
    match r with
    | Ok f => launched (Z.to_nat (Z.max 1 node_count)) f ∧ tracked h' f
    | Err _ => obliging env → h_procs h' = ∅
    end.
Proof. intros Ht He. by eapply launch_does. Qed.

(** Sample: a coordinator that answers, nodes that exit when killed. *)
Definition sample_status : bytes :=
  serialize_fabric_status_response
    (mkFabricStatusResponse 1 "cost" 2 0 0 0 0
       [mkNodeStatusEntry (mkId 1 1) "node-0" "" NH_Online true 2 0 1 [];
        mkNodeStatusEntry (mkId 1 2) "node-1" "" NH_Online true 2 0 1 []] "").
Definition sample_socket : Socket :=
  mkSocket (new_state 4)
    [RE_Bytes (wire (make_frame kFabricStatusResponse SK_Coordinator id_zero 1 sample_status))]
    [SE_Sent 500; SE_Sent 500] [].
(** With or without interrupted waits, and with any connections. *)
Definition scripted_env (interrupted : bool) (connect : nat → Result Socket) : Env :=
  mkEnv (λ i, 10 * Z.of_nat i) (λ _ _ (killed : bool), if killed then Some (WS_Signaled 9) else None)
    (λ n, if interrupted && (n mod 3 =? 0)%nat then Some EINTR else None) (λ _, None)
    (λ n, if (n <? 1000)%nat then inl (100 + Z.of_nat n) else inr (E_Errno 11))
    (λ n, 7000 + Z.of_nat n) connect (λ n, mkId 9 (Z.of_nat n)) (λ _, "error").
Definition sample_env (interrupted : bool) : Env := scripted_env interrupted (λ _, Ok sample_socket).
Definition empty_host : Host := mkHost ∅ 0 0.

Lemma scripted_timely b connect fuel span :
  10000 <= span <= 10 * Z.of_nat fuel → timely (scripted_env b connect) fuel span.
Proof.
  intros Hs. split; cbn [e_clock e_wait_errno e_spawn scripted_env]; unfold kCoordinatorReadyMs; [lia..| | |].
  - intros n. destruct b; cbn [andb]; [|by exists 0%nat; split; [lia|]].
    destruct (n mod 3 =? 0)%nat eqn:E.
    + exists 1%nat. split; [lia|]. apply Nat.eqb_eq in E.
      replace ((n + 1) mod 3 =? 0)%nat with false; [done|].
      symmetry. apply Nat.eqb_neq. rewrite <-Nat.Div0.add_mod_idemp_l, E. done.
    + exists 0%nat. split; [lia|]. by rewrite Nat.add_0_r, E.
  - intros n. by destruct (b && _).
  - intros n pid. destruct (Nat.ltb_spec n 1000); [|done]. intros [= <-]. lia.
Qed.

Lemma sample_timely b : timely (sample_env b) 1001 10000.
Proof. apply scripted_timely. lia. Qed.

Lemma sample_obliging : obliging (sample_env false).
Proof. split; [done|done|]. intros n pid. by eexists. Qed.

Definition sample_ops : list FabricOp := [F_Wait 2000; F_Kill "node-1"; F_Client].

Definition sample_launch : option (Result LocalFabric * Host) :=
  launch (sample_env true) 1001 "/bin/cf" 2 false "store" "cost" "" empty_host.
Definition launch_summary (r : Result LocalFabric) : list string * list Z :=
  match r with
  | Ok f => (lf_node_labels f, cp_sys_pid <$> children f)
  | Err e => ([err_message e], [])
  end.
Example launch_run :
  (launch_summary ∘ fst) <$> sample_launch = Some (["node-0"; "node-1"], [102; 108; 109]).
Proof. vm_compute. reflexivity. Qed.

Example lifetime_run :
  match lifetime (sample_env true) 1001 "/bin/cf" 2 false "store" "cost" "" sample_ops empty_host with
  | Some (r, h) => Some (r, map_to_list (h_procs h))
  | None => None
  end = Some (Some (Ok 3), []).
Proof. vm_compute. reflexivity. Qed.

Lemma launch_accounts_witness :
  ∃ r h', launch (sample_env true) 1001 "/bin/cf" 2 false "store" "cost" "" empty_host = Some (r, h') ∧
    match r with
    | Ok f => launched 2 f ∧ tracked h' f
    | Err _ => obliging (sample_env true) → h_procs h' = ∅
    end.
Proof.
  apply (launch_accounts (sample_env true) 1001 10000 "/bin/cf" 2 false "store" "cost" "" empty_host);
    [apply sample_timely|reflexivity].
Defined.

Lemma local_fabric_no_orphans_witness :
  ∃ r h', lifetime (sample_env false) 1001 "/bin/cf" 2 false "store" "cost" "" sample_ops empty_host = Some (r, h') ∧
    h_procs h' = ∅.
Proof.
  destruct (local_fabric_no_orphans (sample_env false) 1001 10000 "/bin/cf" 2 false "store" "cost" "" sample_ops
    empty_host) as (r & h' & E & Hh).
  - apply sample_timely.
  - repeat constructor; lia.
  - reflexivity.
  - exists r, h'. split; [exact E|]. apply Hh. right. apply sample_obliging.
Defined.

(** One node process, started and not yet reaped. *)
Definition one_node : LocalFabric :=
  mkFabric 7000 7001 no_child [mkChild "node" (-1) true false 100 0] ["node-0"].
Definition one_node_host : Host := mkHost {[100 := P_Running false]} 0 0.

Lemma one_node_tracked : tracked one_node_host one_node.
Proof.
  split.
  - repeat constructor; cbn; lia.
  - intros pid [p Hp]. unfold one_node_host in Hp; cbn [h_procs] in Hp; apply lookup_singleton_Some in Hp as [<- _].
    exists (mkChild "node" (-1) true false 100 0). split_and!; [set_solver|done|]. by intros [|].
Qed.

Lemma shutdown_reaps_witness :
  ∃ n f' h', shutdown_all (sample_env false) 1001 one_node one_node_host = Some ((Ok n, f'), h') ∧
    h_procs h' = ∅.
Proof.
  destruct (shutdown_reaps (sample_env false) 1001 10000 one_node one_node_host (sample_timely false) one_node_tracked)
    as (r & f' & h' & E & _ & O & G). destruct (G sample_obliging) as [n ->].
  exists n, f', h'. split; [exact E|apply O].
Defined.
