(* ===== verification/WinQuote.v ===== *)
(** * WinQuote: the Windows command line (quote_windows_argument and the command
    line of LocalFabric::spawn, launcher/launcher.cpp)

    The Windows build passes the arguments of a child as one string of UTF-16
    units.  [split_arguments] is the documented rule by which the Microsoft C
    runtime of the child takes it apart. *)

From S2P Require Import Prelude.

Local Open Scope Z_scope.

Definition backslash : Z := 92.
Definition quote : Z := 34.
Definition space : Z := 32.

(** The loop over the argument, with the backslashes counted so far, and the end. *)
Fixpoint quote_rest (argument : list Z) (backslashes : nat) : list Z :=
  match argument with
  | [] => replicate (backslashes * 2) backslash ++ [quote]
  | ch :: rest =>
      if ch =? backslash then quote_rest rest (S backslashes)
      else if ch =? quote then
        replicate (backslashes * 2 + 1) backslash ++ quote :: quote_rest rest 0
      else replicate backslashes backslash ++ ch :: quote_rest rest 0
  end.
Definition quote_windows_argument (argument : list Z) : list Z := quote :: quote_rest argument 0.

(** The arguments after the program name: [command_line.push_back(L' ')] and the
    quoted argument. *)
Definition argument_line (args : list (list Z)) : list Z :=
  flat_map (λ arg, space :: quote_windows_argument arg) args.

(** ** The rules of the runtime

    Arguments are separated by spaces and tabs outside quotes.  Backslashes are
    literal unless they precede a quote: [2n] of them and a quote are [n]
    backslashes and a delimiter, [2n + 1] and a quote are [n] and a literal quote. *)

Definition is_blank (ch : Z) : bool := (ch =? space) || (ch =? 9).

(** The argument read so far ([None] between arguments), whether it is inside
    quotes, and the pending backslashes. *)
Fixpoint split_arguments (line : list Z) (arg : option (list Z)) (quoted : bool) (pending : nat) : list (list Z) :=
  let current := default [] arg in
  match line with
  | [] => match arg with Some a => [a ++ replicate pending backslash] | None => [] end
  | ch :: line =>
      if ch =? backslash then split_arguments line (Some current) quoted (S pending)
      else if ch =? quote then
        let a := current ++ replicate (pending / 2) backslash in
        if Nat.even pending then split_arguments line (Some a) (negb quoted) 0
        else split_arguments line (Some (a ++ [quote])) quoted 0
      else
        if is_blank ch && negb quoted then
          match arg with
          | Some a => (a ++ replicate pending backslash) :: split_arguments line None false 0
          | None => split_arguments line None false 0
          end
        else split_arguments line (Some (current ++ replicate pending backslash ++ [ch])) quoted 0
  end.

(** ** Reading a quoted argument back *)

Lemma split_backslashes n line a quoted pending :
  split_arguments (replicate n backslash ++ line) (Some a) quoted pending =
  split_arguments line (Some a) quoted (n + pending).
Proof.
  revert pending. induction n as [|n IH]; intros pending; [done|]. cbn. rewrite IH. f_equal. lia.
Qed.

Lemma split_quoted arg bs line a :
  split_arguments (quote_rest arg bs ++ line) (Some a) true 0 =
  split_arguments line (Some (a ++ replicate bs backslash ++ arg)) false 0.
Proof.
  revert bs a. induction arg as [|ch arg IH]; intros bs a; cbn [quote_rest].
  - rewrite <-app_assoc, split_backslashes, Nat.add_0_r. cbn [app split_arguments]. cbn [Z.eqb quote backslash Pos.eqb].
    rewrite (Nat.mul_comm bs 2).
    replace (Nat.even (2 * bs)) with true by (symmetry; apply Nat.even_spec; by exists bs).
    replace (2 * bs / 2)%nat with bs by (rewrite Nat.mul_comm; symmetry; by apply Nat.div_mul).
    cbn. by rewrite app_nil_r.
  - destruct (Z.eqb_spec ch backslash) as [->|Hb].
    + rewrite IH. f_equal. f_equal. f_equal. change (replicate (S bs) backslash) with (backslash :: replicate bs backslash).
      by rewrite (replicate_cons_app bs backslash), <-app_assoc.
    + destruct (Z.eqb_spec ch quote) as [->|Hq].
      * rewrite <-app_assoc, split_backslashes, Nat.add_0_r. cbn [app split_arguments]. cbn [Z.eqb quote backslash Pos.eqb].
        replace (Nat.even (bs * 2 + 1)) with false.
        2:{ symmetry. rewrite Nat.add_1_r, Nat.even_succ. apply not_true_iff_false. intros Ho.
            apply Nat.odd_spec in Ho as [k ?]. lia. }
        replace ((bs * 2 + 1) / 2)%nat with bs by (rewrite Nat.add_comm; symmetry; by rewrite Nat.div_add).
        fold quote. rewrite IH. by rewrite <-!app_assoc.
      * rewrite <-app_assoc, split_backslashes, Nat.add_0_r. cbn [app split_arguments].
        rewrite (proj2 (Z.eqb_neq _ _) Hb), (proj2 (Z.eqb_neq _ _) Hq), andb_false_r.
        rewrite IH. by rewrite <-!app_assoc.
Qed.

Lemma split_blank line prev :
  split_arguments (space :: line) prev false 0 =
  match prev with Some a => [a] | None => [] end ++ split_arguments line None false 0.
Proof. destruct prev; cbn; [by rewrite app_nil_r|done]. Qed.

Lemma split_argument arg line :
  split_arguments (quote_windows_argument arg ++ line) None false 0 = split_arguments line (Some arg) false 0.
Proof. exact (split_quoted arg 0 line []). Qed.

(** ** Claims *)

(** Whatever the arguments contain (blanks, quotes, backslashes, nothing at
    all), the child gets exactly the arguments the launcher was given. *)
Theorem windows_arguments_roundtrip (args : list (list Z)) :
  split_arguments (argument_line args) None false 0 = args.
Proof.
  assert (Hgen : ∀ prev, split_arguments (argument_line args) prev false 0 =
    match prev with Some a => [a] | None => [] end ++ args).
  { induction args as [|arg args IH]; intros prev.
    { destruct prev; [cbn; by rewrite app_nil_r|done]. }
    change (argument_line (arg :: args)) with (space :: quote_windows_argument arg ++ argument_line args).
    by rewrite split_blank, split_argument, IH. }
  by rewrite Hgen.
Qed.
