(* ===== verification/WinProcess.v ===== *)
(** * WinProcess: child processes in the Windows build (utf8_to_wide and the Windows
    branches of spawn, process_running and terminate, launcher/launcher.cpp)

    A child is held by a process handle.  The handles this process has open are part
    of the state ([WinHost]); what the system calls return is data ([WinEnv]),
    indexed by the number of the call.  Two members record what must not happen or
    cannot be helped: a call on a handle that is not open, and handles whose closing
    failed without anybody taking note. *)

From S2P Require Import Prelude Status Ids Digest Float64 Task Wire Frame Socket Channel Serialize Messages Client Launcher WinQuote.

Local Open Scope Z_scope.

(** ** The system *)

Inductive Waited := Wait_Timeout | Wait_Signaled | Wait_Failed.

Record WinEnv := mkWinEnv {
  we_utf16 : string → option (list Z);          (* MultiByteToWideChar *)
  we_last_error : nat → Z;                      (* GetLastError *)
  we_create : nat → gset Z → option (Z * Z * Z);(* CreateProcessW: process id, process and thread handle *)
  we_wait : nat → Z → Waited;                   (* WaitForSingleObject(h, 0) *)
  we_exit_code : nat → Z → option Z;            (* GetExitCodeProcess *)
  we_close : nat → Z → bool;                    (* CloseHandle *)
  we_terminate : nat → Z → bool                 (* TerminateProcess *)
}.

(** A new process has an id and two new handles. *)
Record win_env_ok (env : WinEnv) : Prop := {
  wk_create : ∀ n opened pid hp ht, we_create env n opened = Some (pid, hp, ht) →
    0 < pid < 4294967296 ∧ hp ≠ 0 ∧ ht ≠ 0 ∧ hp ≠ ht ∧ (hp ∉ opened) ∧ (ht ∉ opened)
}.

Record WinHost := mkWinHost {
  wh_open : gset Z;
  wh_lost : gset Z;        (* thread handles that could not be closed *)
  wh_invalid : bool;       (* a call was made on a handle that is not open *)
  wh_calls : nat
}.
Definition win_start : WinHost := mkWinHost ∅ ∅ false 0.

Section calls.
Context (env : WinEnv).
Implicit Types (h : WinHost) (child : ChildProcess).

(** A call on a handle. *)
Definition on_handle (x : Z) h : WinHost :=
  mkWinHost (wh_open h) (wh_lost h) (wh_invalid h || bool_decide (x ∉ wh_open h)) (S (wh_calls h)).
Definition wait_handle (x : Z) h : Waited * WinHost := (we_wait env (wh_calls h) x, on_handle x h).
Definition handle_exit_code (x : Z) h : option Z * WinHost := (we_exit_code env (wh_calls h) x, on_handle x h).
Definition terminate_handle (x : Z) h : bool * WinHost := (we_terminate env (wh_calls h) x, on_handle x h).
Definition close_handle (x : Z) h : bool * WinHost :=
  let ok := we_close env (wh_calls h) x in
  let h := on_handle x h in
  (ok, if ok then mkWinHost (wh_open h ∖ {[x]}) (wh_lost h) (wh_invalid h) (wh_calls h) else h).
Definition create_process h : option (Z * Z * Z) * WinHost :=
  match we_create env (wh_calls h) (wh_open h) with
  | Some (pid, hp, ht) =>
      (Some (pid, hp, ht), mkWinHost ({[hp]} ∪ {[ht]} ∪ wh_open h) (wh_lost h) (wh_invalid h) (S (wh_calls h)))
  | None => (None, mkWinHost (wh_open h) (wh_lost h) (wh_invalid h) (S (wh_calls h)))
  end.
(** [CloseHandle(process.hThread)], whose result nobody looks at *)
Definition drop_thread (ht : Z) h : WinHost :=
  let '(ok, h) := close_handle ht h in
  if ok then h else mkWinHost (wh_open h) ({[ht]} ∪ wh_lost h) (wh_invalid h) (wh_calls h).

(** ** The launcher *)

Definition utf8_to_wide (input : string) h : Result (list Z) :=
  if has_nul input then err EInvalidArgument "process path or argument contains an embedded NUL"
  else if bool_decide (input = "") then Ok []
  else match we_utf16 env input with
       | Some w => Ok w
       | None => err EInvalidArgument ("process path or argument is not valid UTF-8 (Windows error "
                                       +:+ to_string (we_last_error env (wh_calls h)) +:+ ")")
       end.

(** The command line: the program and the arguments, quoted. *)
Fixpoint wide_arguments (args : list string) h : Result (list (list Z)) :=
  match args with
  | [] => Ok []
  | arg :: args =>
      match utf8_to_wide arg h with
      | Err e => Err e
      | Ok w => match wide_arguments args h with Err e => Err e | Ok ws => Ok (w :: ws) end
      end
  end.
Definition win_command_line (exe_path : string) (args : list string) h : Result (list Z) :=
  match utf8_to_wide exe_path h with
  | Err e => Err e
  | Ok exe =>
      match wide_arguments args h with
      | Err e => Err e
      | Ok ws => Ok (quote_windows_argument exe ++ argument_line ws)
      end
  end.

Definition with_command (command_line : string) child : ChildProcess :=
  mkChild command_line (cp_exit_code child) (cp_running child) (cp_reaped child) (cp_sys_pid child) (cp_os_handle child).

Definition win_spawn (exe_path : string) (args : list string) (out : ChildProcess) h
    : Result unit * ChildProcess * WinHost :=
  match spawn_refused exe_path args out with
  | Some e => (Err e, out, h)
  | None =>
      let out := with_command (describe_command exe_path args) out in
      match win_command_line exe_path args h with
      | Err e => (Err e, out, h)
      | Ok _ =>
          match create_process h with
          | (None, h) =>
              (err ELaunchError ("CreateProcessW failed with Windows error "
                                 +:+ to_string (we_last_error env (wh_calls h))), out, h)
          | (Some (pid, hp, ht), h) =>
              (Ok tt, mkChild (cp_command_line out) (-1) true false pid hp, drop_thread ht h)
          end
      end
  end.

Definition win_failure (call : string) child h : Error :=
  mkError EProcessError (call +:+ to_string (cp_sys_pid child) +:+ " with Windows error "
                         +:+ to_string (we_last_error env (wh_calls h))).

Definition win_process_running child h : Result bool * ChildProcess * WinHost :=
  if (cp_sys_pid child =? 0) || cp_reaped child then (Ok false, child, h)
  else if cp_os_handle child =? 0 then
    (err EProcessError ("owned process is missing its Windows handle (pid " +:+ to_string (cp_sys_pid child) +:+ ")"),
     child, h)
  else
    let handle := cp_os_handle child in
    match wait_handle handle h with
    | (Wait_Timeout, h) => (Ok true, set_running true child, h)
    | (Wait_Failed, h) => (Err (win_failure "WaitForSingleObject failed for pid " child h), child, h)
    | (Wait_Signaled, h) =>
        match handle_exit_code handle h with
        | (None, h) => (Err (win_failure "GetExitCodeProcess failed for pid " child h), child, h)
        | (Some code, h) =>
            let child := mkChild (cp_command_line child) (i32 code) false (cp_reaped child) (cp_sys_pid child) handle in
            match close_handle handle h with
            | (false, h) => (Err (win_failure "CloseHandle failed for exited pid " child h), child, h)
            | (true, h) => (Ok false, mkChild (cp_command_line child) (cp_exit_code child) false true (cp_sys_pid child) 0, h)
            end
        end
    end.

Definition win_terminate child h : Result unit * ChildProcess * WinHost :=
  if (cp_sys_pid child =? 0) || cp_reaped child then (Ok tt, child, h)
  else if cp_os_handle child =? 0 then
    (err EProcessError ("cannot terminate pid " +:+ to_string (cp_sys_pid child) +:+ ": Windows handle is missing"),
     child, h)
  else
    match terminate_handle (cp_os_handle child) h with
    | (true, h) => (Ok tt, set_running true child, h)
    | (false, h) =>
        let e := win_failure "TerminateProcess failed for pid " child h in
        let '(running, child, h) := win_process_running child h in
        match running with Ok false => (Ok tt, child, h) | _ => (Err e, child, h) end
    end.

(** ** A life of the launcher *)

Inductive WinOp := WO_Spawn (exe_path : string) (args : list string) | WO_Poll (i : nat) | WO_Terminate (i : nat).

Definition win_op (op : WinOp) (s : list ChildProcess * WinHost) : list ChildProcess * WinHost :=
  let '(cs, h) := s in
  match op with
  | WO_Spawn exe args => let '(_, c, h) := win_spawn exe args no_child h in (cs ++ [c], h)
  | WO_Poll i =>
      match cs !! i with
      | Some c => let '(_, c, h) := win_process_running c h in (<[i := c]> cs, h)
      | None => (cs, h)
      end
  | WO_Terminate i =>
      match cs !! i with
      | Some c => let '(_, c, h) := win_terminate c h in (<[i := c]> cs, h)
      | None => (cs, h)
      end
  end.
Definition win_ops (ops : list WinOp) : list ChildProcess * WinHost := foldl (λ s op, win_op op s) ([], win_start) ops.
End calls.

(** ** Handles are accounted for *)

(** A child is waited for as long as it has a handle. *)
Definition child_ok (c : ChildProcess) : Prop :=
  cp_os_handle c ≠ 0 ↔ cp_sys_pid c ≠ 0 ∧ cp_reaped c = false.

Record accounted (cs : list ChildProcess) (h : WinHost) : Prop := {
  ac_valid : wh_invalid h = false;
  ac_open : ∀ x, x ∈ wh_open h ↔ (x ≠ 0 ∧ x ∈ cp_os_handle <$> cs) ∨ x ∈ wh_lost h;
  ac_unique : ∀ i j c d, cs !! i = Some c → cs !! j = Some d → cp_os_handle c = cp_os_handle d →
    cp_os_handle c ≠ 0 → i = j;
  ac_lost : ∀ x, x ∈ cp_os_handle <$> cs → x ∉ wh_lost h;
  ac_zero : 0 ∉ wh_lost h;
  ac_children : Forall child_ok cs
}.

Lemma owned_open cs h i c :
  accounted cs h → cs !! i = Some c → cp_os_handle c ≠ 0 → cp_os_handle c ∈ wh_open h.
Proof.
  intros A Hc Hx. apply (ac_open _ _ A). left. split; [done|]. apply list_elem_of_fmap. exists c.
  split; [done|by eapply list_elem_of_lookup_2].
Qed.

Lemma on_handle_valid x h : x ∈ wh_open h → wh_invalid h = false → wh_invalid (on_handle x h) = false.
Proof. intros Hx Hv. cbn. rewrite Hv, bool_decide_false; [done|]. by intros []. Qed.

Lemma accounted_calls cs h h' :
  accounted cs h → wh_open h' = wh_open h → wh_lost h' = wh_lost h → wh_invalid h' = false → accounted cs h'.
Proof. intros [A1 A2 A3 A4 A5 A6] E1 E2 E3. 
  split; [done|intros x; rewrite E1, E2; apply A2|done|intros x; rewrite E2; apply A4|by rewrite E2|done]. Qed.

(** The handles of the children after one of them changed. *)
Lemma handles_insert (cs : list ChildProcess) (i : nat) c c' (x : Z) :
  cs !! i = Some c →
  x ∈ cp_os_handle <$> <[i := c']> cs ↔
  x = cp_os_handle c' ∨ ∃ j d, j ≠ i ∧ cs !! j = Some d ∧ cp_os_handle d = x.
Proof.
  intros Hc. rewrite list_elem_of_fmap. split.
  - intros (d & -> & [j Hj]%list_elem_of_lookup). destruct (decide (j = i)) as [->|Hne].
    + rewrite list_lookup_insert_eq in Hj by (by eapply lookup_lt_Some). left. congruence.
    + rewrite list_lookup_insert_ne in Hj by done. right. by exists j, d.
  - intros [->|(j & d & Hne & Hj & <-)].
    + exists c'. split; [done|]. apply list_elem_of_lookup. exists i. apply list_lookup_insert_eq. by eapply lookup_lt_Some.
    + exists d. split; [done|]. apply list_elem_of_lookup. exists j. by rewrite list_lookup_insert_ne.
Qed.

(** A child that keeps its handle. *)
Lemma accounted_same cs h i c c' :
  accounted cs h → cs !! i = Some c → cp_os_handle c' = cp_os_handle c → child_ok c' → accounted (<[i := c']> cs) h.
Proof.
  intros [A1 A2 A3 A4 A5 A6] Hc E Hok.
  assert (Em : cp_os_handle <$> <[i := c']> cs = cp_os_handle <$> cs).
  { rewrite list_fmap_insert, E. apply list_insert_id. by rewrite list_lookup_fmap, Hc. }
  split; [done|intros x; rewrite Em; apply A2| |intros x; rewrite Em; apply A4|done|by apply Forall_insert].
  intros j k d d' Hj Hk Ed Hz. assert (Hm : ∀ j d, <[i := c']> cs !! j = Some d → ∃ d0, cs !! j = Some d0 ∧ cp_os_handle d0 = cp_os_handle d).
  { intros j0 d0 Hj0. assert (Hf : (cp_os_handle <$> cs) !! j0 = Some (cp_os_handle d0)) by (by rewrite <-Em, list_lookup_fmap, Hj0).
    rewrite list_lookup_fmap in Hf. destruct (cs !! j0) as [d1|]; [|done]. exists d1. split; [done|]. by injection Hf. }
  destruct (Hm j d Hj) as (e & He & Ee), (Hm k d' Hk) as (e' & He' & Ee'). apply (A3 j k e e'); congruence.
Qed.

(** A child whose handle is closed. *)
Lemma accounted_closed cs h h' i c c' :
  accounted cs h → cs !! i = Some c → cp_os_handle c ≠ 0 → cp_os_handle c' = 0 → child_ok c' →
  wh_open h' = wh_open h ∖ {[cp_os_handle c]} → wh_lost h' = wh_lost h → wh_invalid h' = false →
  accounted (<[i := c']> cs) h'.
Proof.
  intros A Hc Hz E Hok Eo El Ev. pose proof A as [A1 A2 A3 A4 A5 A6].
  assert (Hin : cp_os_handle c ∈ cp_os_handle <$> cs).
  { apply list_elem_of_fmap. exists c. split; [done|by eapply list_elem_of_lookup_2]. }
  split; [done| | | |by rewrite El|by apply Forall_insert].
  - intros x. rewrite Eo, El, elem_of_difference, elem_of_singleton, A2, (handles_insert cs i c c' x Hc), E. split.
    + intros [[[Hx Hm]|Hl] Hne]; [left; split; [done|right]|by right].
      apply list_elem_of_fmap in Hm as (d & -> & [j Hj]%list_elem_of_lookup). exists j, d. split_and!; [|done..].
      intros ->. congruence.
    + intros [[Hx [->|(j & d & Hne & Hj & <-)]]|Hl]; [done| |].
      * split; [left; split; [done|]|].
        { apply list_elem_of_fmap. exists d. split; [done|by eapply list_elem_of_lookup_2]. }
        intros Ed. by apply Hne, (A3 j i d c).
      * split; [by right|]. intros ->. by apply (A4 (cp_os_handle c)).
  - intros j k d d' Hj Hk Ed Hz'. destruct (decide (j = i)) as [->|Hji].
    { rewrite list_lookup_insert_eq in Hj by (by eapply lookup_lt_Some). congruence. }
    destruct (decide (k = i)) as [->|Hki].
    { rewrite list_lookup_insert_eq in Hk by (by eapply lookup_lt_Some). congruence. }
    rewrite list_lookup_insert_ne in Hj, Hk by done. by apply (A3 j k d d').
  - intros x. rewrite El, (handles_insert cs i c c' x Hc), E. intros [->|(j & d & _ & Hj & <-)]; [done|].
    apply A4, list_elem_of_fmap. exists d. split; [done|by eapply list_elem_of_lookup_2].
Qed.

Section claims.
Context (env : WinEnv) (Henv : win_env_ok env).

Lemma win_process_running_accounted cs h i c :
  accounted cs h → cs !! i = Some c →
  let '(_, c', h') := win_process_running env c h in
  accounted (<[i := c']> cs) h' ∧ <[i := c']> cs !! i = Some c'.
Proof.
  intros A Hc. pose proof (lookup_lt_Some _ _ _ Hc) as Hlt.
  pose proof (proj1 (Forall_lookup _ _) (ac_children _ _ A) i c Hc) as Hok.
  assert (Hsame : ∀ h', accounted cs h' → ∀ c', cp_os_handle c' = cp_os_handle c → cp_sys_pid c' = cp_sys_pid c →
    cp_reaped c' = cp_reaped c → accounted (<[i := c']> cs) h' ∧ <[i := c']> cs !! i = Some c').
  { intros h' A' c' E1 E2 E3. split; [|by apply list_lookup_insert_eq]. apply (accounted_same cs h' i c); [done..|].
    unfold child_ok in *. by rewrite E1, E2, E3. }
  unfold win_process_running. destruct ((cp_sys_pid c =? 0) || cp_reaped c) eqn:Eb; [by apply Hsame|].
  destruct (Z.eqb_spec (cp_os_handle c) 0) as [|Hz]; [by apply Hsame|]. set (x := cp_os_handle c) in *.
  assert (Hx : x ∈ wh_open h) by (by apply (owned_open cs h i c)).
  assert (A1 : accounted cs (on_handle x h)).
  { apply (accounted_calls cs h); [done..|]. by apply on_handle_valid, (ac_valid _ _ A). }
  unfold wait_handle. destruct (we_wait _ _ _); [by apply Hsame| |by apply Hsame].
  assert (A2 : accounted cs (on_handle x (on_handle x h))).
  { apply (accounted_calls cs h); [done..|]. apply on_handle_valid; [done|apply A1]. }
  unfold handle_exit_code. destruct (we_exit_code _ _ _) as [code|]; [|by apply Hsame].
  unfold close_handle. set (h2 := on_handle x (on_handle x h)).
  assert (Hv : wh_invalid (on_handle x h2) = false) by (apply on_handle_valid; [done|apply A2]).
  destruct (we_close _ _ _).
  - split; [|by apply list_lookup_insert_eq]. apply (accounted_closed cs h _ i c); try done.
    unfold child_ok. cbn. naive_solver.
  - apply Hsame; [|done..]. by apply (accounted_calls cs h).
Qed.

Lemma win_terminate_accounted cs h i c :
  accounted cs h → cs !! i = Some c →
  let '(_, c', h') := win_terminate env c h in accounted (<[i := c']> cs) h'.
Proof.
  intros A Hc. pose proof (proj1 (Forall_lookup _ _) (ac_children _ _ A) i c Hc) as Hok. unfold win_terminate.
  assert (Hid : accounted (<[i := c]> cs) h) by (by apply (accounted_same cs h i c)).
  destruct ((cp_sys_pid c =? 0) || cp_reaped c); [done|].
  destruct (Z.eqb_spec (cp_os_handle c) 0) as [|Hz]; [done|]. unfold terminate_handle.
  assert (A1 : accounted cs (on_handle (cp_os_handle c) h)).
  { apply (accounted_calls cs h); [done..|]. apply on_handle_valid; [by apply (owned_open cs h i c)|apply A]. }
  destruct (we_terminate _ _ _); [by apply (accounted_same cs _ i c)|].
  pose proof (win_process_running_accounted cs _ i c A1 Hc) as H.
  destruct (win_process_running _ _ _) as [[r c'] h']. destruct H as [H _]. by destruct r as [[]|].
Qed.

(** A new child with a fresh handle. *)
Lemma accounted_spawned cs h pid hp ht c :
  accounted cs h → 0 < pid → hp ≠ 0 → ht ≠ 0 → hp ≠ ht → hp ∉ wh_open h → ht ∉ wh_open h →
  cp_os_handle c = hp → cp_sys_pid c = pid → cp_reaped c = false →
  accounted (cs ++ [c])
    (drop_thread env ht (mkWinHost ({[hp]} ∪ {[ht]} ∪ wh_open h) (wh_lost h) (wh_invalid h) (S (wh_calls h)))).
Proof.
  intros [A1 A2 A3 A4 A5 A6] Hp Hz Hzt Hne Hh Hht E1 E2 E3.
  assert (Hfresh : ∀ x, x ∈ cp_os_handle <$> cs → x ≠ hp).
  { intros x Hx ->. apply Hh, A2. by left. }
  assert (Hl : (hp ∉ wh_lost h) ∧ (ht ∉ wh_lost h)) by (split; intros ?; [apply Hh|apply Hht]; apply A2; by right).
  assert (Htc : ht ∉ cp_os_handle <$> cs) by (intros ?; apply Hht, A2; by left).
  unfold drop_thread, close_handle.
  set (h1 := mkWinHost _ _ _ _).
  assert (Hv : wh_invalid (on_handle ht h1) = false) by (apply on_handle_valid; [set_solver|done]).
  assert (Hfm : ∀ x, x ∈ cp_os_handle <$> cs ++ [c] ↔ x ∈ cp_os_handle <$> cs ∨ x = hp).
  { intros x. rewrite fmap_app, elem_of_app. cbn. rewrite E1, list_elem_of_singleton. done. }
  split.
  - destruct (we_close _ _ _); exact Hv.
  - intros x. rewrite Hfm. specialize (A2 x). specialize (A4 x).
    destruct (we_close _ _ _); cbn; set_unfold; destruct (decide (x = hp)), (decide (x = ht)); naive_solver.
  - intros i j a b Hi Hj Ed Hza. rewrite lookup_app_Some in Hi, Hj.
    assert (Hlt : ∀ k d, cs !! k = Some d → cp_os_handle d ≠ hp).
    { intros k d Hk. apply Hfresh, list_elem_of_fmap. exists d. split; [done|by eapply list_elem_of_lookup_2]. }
    destruct Hi as [Hi|[Hil [Hi <-]%list_lookup_singleton_Some]], Hj as [Hj|[Hjl [Hj <-]%list_lookup_singleton_Some]].
    + by apply (A3 i j a b).
    + exfalso. apply (Hlt i a Hi). congruence.
    + exfalso. apply (Hlt j b Hj). congruence.
    + lia.
  - intros x. rewrite Hfm. intros Hx. destruct (we_close _ _ _); cbn; set_unfold; naive_solver.
  - destruct (we_close _ _ _); cbn; set_unfold; naive_solver.
  - apply Forall_app. split; [done|]. apply Forall_singleton. unfold child_ok. rewrite E1, E2, E3. split; [split; [lia|done]|done].
Qed.

Lemma accounted_idle cs h c : accounted cs h → cp_os_handle c = 0 → cp_sys_pid c = 0 → accounted (cs ++ [c]) h.
Proof.
  intros [A1 A2 A3 A4 A5 A6] E1 E2.
  assert (Hfm : ∀ x, x ∈ cp_os_handle <$> cs ++ [c] ↔ x ∈ cp_os_handle <$> cs ∨ x = 0).
  { intros x. rewrite fmap_app, elem_of_app. cbn. rewrite E1, list_elem_of_singleton. done. }
  split; [done|intros x; rewrite Hfm, A2; naive_solver| |intros x; rewrite Hfm; naive_solver|done|].
  - intros i j a b Hi Hj Ed Hza. rewrite lookup_app_Some in Hi, Hj.
    destruct Hi as [Hi|[_ [_ <-]%list_lookup_singleton_Some]], Hj as [Hj|[_ [_ <-]%list_lookup_singleton_Some]];
      [by apply (A3 i j a b)|congruence..].
  - apply Forall_app. split; [done|]. apply Forall_singleton. unfold child_ok. rewrite E1, E2. naive_solver.
Qed.

Lemma win_spawn_accounted cs h exe args :
  accounted cs h → let '(_, c, h') := win_spawn env exe args no_child h in accounted (cs ++ [c]) h'.
Proof.
  intros A. unfold win_spawn. destruct (spawn_refused _ _ _); [by apply accounted_idle|].
  destruct (win_command_line _ _ _ _); [|by apply accounted_idle]. unfold create_process.
  destruct (we_create _ _ _) as [[[pid hp] ht]|] eqn:E.
  - destruct (wk_create _ Henv _ _ _ _ _ E) as ([Hp _] & H1 & H2 & H3 & H4 & H5). by apply (accounted_spawned cs h pid hp ht).
  - apply accounted_idle; [|done..]. apply (accounted_calls cs h); [done..|apply A].
Qed.

Lemma win_op_accounted op s : accounted s.1 s.2 → accounted (win_op env op s).1 (win_op env op s).2.
Proof.
  destruct s as [cs h]. cbn [fst snd]. intros A. destruct op as [exe args|i|i]; cbn [win_op].
  - pose proof (win_spawn_accounted cs h exe args A) as H. by destruct (win_spawn _ _ _ _ _) as [[r c] h'].
  - destruct (cs !! i) as [c|] eqn:Hc; [|done]. pose proof (win_process_running_accounted cs h i c A Hc) as H.
    destruct (win_process_running _ _ _) as [[r c'] h']. apply H.
  - destruct (cs !! i) as [c|] eqn:Hc; [|done]. pose proof (win_terminate_accounted cs h i c A Hc) as H.
    by destruct (win_terminate _ _ _) as [[r c'] h'].
Qed.

(** No handle is lost while [CloseHandle] works. *)
Lemma win_process_running_lost c h : wh_lost (win_process_running env c h).2 = wh_lost h.
Proof.
  unfold win_process_running, wait_handle, handle_exit_code, close_handle.
  repeat (case_match; simplify_eq; try done).
Qed.
Lemma win_op_lost op s :
  (∀ n x, we_close env n x = true) → wh_lost s.2 = ∅ → wh_lost (win_op env op s).2 = ∅.
Proof.
  intros Hc. destruct s as [cs h]. cbn [snd]. intros Hl. destruct op as [exe args|i|i]; cbn [win_op].
  - unfold win_spawn, create_process, drop_thread, close_handle. destruct (spawn_refused _ _ _); [done|].
    destruct (win_command_line _ _ _ _); [|done]. destruct (we_create _ _ _) as [[[pid hp] ht]|]; [|done].
    by rewrite Hc.
  - destruct (cs !! i) as [c|]; [|done]. pose proof (win_process_running_lost c h) as H.
    destruct (win_process_running _ _ _) as [[r c'] h']. cbn in *. congruence.
  - destruct (cs !! i) as [c|]; [|done]. unfold win_terminate, terminate_handle.
    destruct (_ || _); [done|]. destruct (_ =? 0); [done|]. destruct (we_terminate _ _ _); [done|].
    pose proof (win_process_running_lost c (on_handle (cp_os_handle c) h)) as H.
    destruct (win_process_running _ _ _) as [[r c'] h']. cbn in H. by destruct r as [[]|]; cbn; rewrite H.
Qed.

Lemma win_ops_inv ops :
  accounted (win_ops env ops).1 (win_ops env ops).2 ∧
  ((∀ n x, we_close env n x = true) → wh_lost (win_ops env ops).2 = ∅).
Proof.
  unfold win_ops. induction ops as [|op ops [IH1 IH2]] using rev_ind.
  - split; [|done]. split; cbn; try done. intros x. split; [set_solver|]. intros [[_ H]|H]; [by apply not_elem_of_nil in H|set_solver].
  - rewrite foldl_app. cbn [foldl]. split; [by apply win_op_accounted|]. intros Hc. by apply win_op_lost, IH2.
Qed.
End claims.

(** ** Claims *)

(** C30: the Windows build accounts for its process handles.  Whatever children are
    started, polled and terminated in whatever order, and whichever system calls
    fail: no call is ever made on a handle that is not open, so none is closed
    twice; the open handles are exactly those of the children, one each, apart
    from thread handles whose closing failed; a child has a handle as long as it
    is not reaped, and no longer.  If [CloseHandle] works and every child is reaped,
    no handle is left. *)
Theorem windows_handles_accounted (env : WinEnv) (ops : list WinOp) :
  win_env_ok env →
  let '(cs, h) := win_ops env ops in
  wh_invalid h = false ∧
  (∀ x, x ∈ wh_open h ↔ (x ≠ 0 ∧ ∃ c, c ∈ cs ∧ cp_os_handle c = x) ∨ x ∈ wh_lost h) ∧
  (∀ i j c d, cs !! i = Some c → cs !! j = Some d → cp_os_handle c = cp_os_handle d → cp_os_handle c ≠ 0 → i = j) ∧
  Forall (λ c, cp_os_handle c ≠ 0 ↔ cp_sys_pid c ≠ 0 ∧ cp_reaped c = false) cs ∧
  ((∀ n x, we_close env n x = true) → Forall (λ c, cp_sys_pid c = 0 ∨ cp_reaped c = true) cs → wh_open h = ∅).
Proof.
  intros Henv. destruct (win_ops_inv env Henv ops) as [[A1 A2 A3 A4 A5 A6] Hl]. destruct (win_ops env ops) as [cs h].
  cbn [fst snd] in *. assert (Ho : ∀ x, x ∈ cp_os_handle <$> cs ↔ ∃ c, c ∈ cs ∧ cp_os_handle c = x).
  { intros x. rewrite list_elem_of_fmap. naive_solver. }
  split_and!; [done|intros x; by rewrite A2, Ho|done|done|]. intros Hc Hs. apply set_eq. intros x.
  rewrite A2, Ho, (Hl Hc). split; [|set_solver]. intros [[Hx (c & Hin & <-)]|H]; [|set_solver]. exfalso.
  rewrite Forall_forall in A6, Hs. apply (A6 c Hin) in Hx as [H1 H2]. destruct (Hs c Hin); congruence.
Qed.

(** Sample: two children; the first ends, but closing its handle fails once. *)
Definition sample_win : WinEnv := mkWinEnv (λ s, Some (bytes_of_string s)) (λ n, Z.of_nat n)
  (λ n o, let x := 4 + fold_right Z.max 0 (elements o) in Some (1000, x, x + 4))
  (λ n x, if x =? 4 then Wait_Signaled else Wait_Timeout) (λ _ _, Some 0)
  (λ n x, negb (Nat.eqb n 6)) (λ _ _, true).
Definition sample_win_ops : list WinOp :=
  [WO_Spawn "a" ["x"]; WO_Spawn "b" []; WO_Poll 0; WO_Poll 0; WO_Terminate 1; WO_Poll 1].


Lemma max_bound (l : list Z) x : x ∈ l → x <= fold_right Z.max 0 l.
Proof. induction 1; cbn; lia. Qed.
Lemma sample_win_ok : win_env_ok sample_win.
Proof.
  split. intros n opened pid hp ht E. cbn in E. injection E as <- <- <-. set (m := fold_right Z.max 0 (elements opened)).
  assert (Hb : ∀ y, y ∈ opened → y <= m) by (intros y Hy%elem_of_elements; by apply max_bound).
  assert (0 <= m) by (unfold m; clear; induction (elements opened); cbn; lia).
  split_and!; try lia; intros Hy%Hb; lia.
Qed.

Lemma windows_handles_accounted_witness :
  wh_invalid (win_ops sample_win sample_win_ops).2 = false ∧
  cp_reaped <$> (win_ops sample_win sample_win_ops).1 = [true; false] ∧
  elements (wh_open (win_ops sample_win sample_win_ops).2) = [8].
Proof.
  split.
  - pose proof (windows_handles_accounted sample_win sample_win_ops sample_win_ok) as H.
    destruct (win_ops sample_win sample_win_ops) as [cs h]. exact (proj1 H).
  - split; vm_compute; reflexivity.
Defined.
