(* ===== verification/Workloads.v ===== *)
(** * Workloads: the CPU kernels (executor/workloads.h, executor/workloads.cpp)

    Every kernel is a counted loop over machine words that polls the cancellation
    token.  The token is shared with other threads, so what its polls answer is
    the environment's: a function of the number of the poll.  [for_loop] is the
    shape of all the loops; its state is the locals the body assigns. *)

From S2P Require Import Prelude Status Ids Digest Float64 Task.

Local Open Scope Z_scope.

(** [std::shared_ptr<CancellationToken>]: null, or the answers of
    [is_cancelled]. *)
Abbreviation Token := (option (nat → bool)) (only parsing).
Definition is_cancelled (token : Token) (poll : nat) : bool :=
  match token with None => false | Some answers => answers poll end.

Record WorkloadResult := mkWorkloadResult {
  wr_success : bool;
  wr_output : bytes;
  wr_checksum_hex : string;
  wr_notes : string;
  wr_bytes_processed : Z
}.

(** ** Helpers *)

(** [snprintf("%02x")] *)
Definition hex_byte (b : Z) : bytes := [hex_char (Z.shiftr b 4); hex_char (Z.land b 15)].

(** [hex_digest] fills a buffer of 65 characters: with more than 32 bytes the
    terminating zero is written behind it ([None]). *)
Definition hex_digest (data : bytes) : option string :=
  if (length data <=? 32)%nat then Some (string_of_bytes (flat_map hex_byte data)) else None.

Definition mul_mod (a b m : Z) : Z := u32 (u64 (a * b) mod m).

Definition wmix (x : Z) : Z :=
  let x := Z.lxor x (Z.shiftr x 16) in
  let x := u32 (x * 0x7FEB352D) in
  let x := Z.lxor x (Z.shiftr x 15) in
  let x := u32 (x * 0x846CA68B) in
  Z.lxor x (Z.shiftr x 16).

Definition hash_integer (v : Z) : Z := u16 (wmix (u32 (v + 0x9E3779B9))).

Definition is_supported_cpu_kernel (k : KernelType) : bool :=
  match k with
  | KT_HashInteger | KT_VectorTransform | KT_Checksum | KT_SyntheticLoop | KT_StateDependent
  | KT_TensorArithmetic => true
  | _ => false
  end.

(** ** The loops *)

(** [for (i = ...; ...) { if (polls i && token && token->is_cancelled()) return
    cancelled; body }]: [None] when a poll finds the token set. *)
Fixpoint for_loop {A} (token : Token) (polls : Z → bool) (body : Z → A → A)
    (count : nat) (i : Z) (poll : nat) (st : A) : option A :=
  match count with
  | O => Some st
  | S count =>
      if polls i && is_cancelled token poll then None
      else for_loop token polls body count (i + 1) (if polls i then S poll else poll) (body i st)
  end.

(** The accumulators [acc_lo], [acc_hi], [processed]; [s] where the loop has one. *)
Record KernelAcc := mkKernelAcc { acc_lo : Z; acc_hi : Z; processed : Z }.
Definition acc0 : KernelAcc := mkKernelAcc 0 0 0.
Definition every (i : Z) : bool := true.

Definition hash_step (seed i : Z) (st : KernelAcc) : KernelAcc :=
  let v := wmix (u32 (u32 i + seed)) in
  let h := hash_integer v in
  mkKernelAcc (u64 (acc_lo st + h)) (u64 (acc_hi st + u64 (h * (i + 1)))) (u64 (processed st + 2)).

Definition cpu_element (a b seed i : Z) : Z :=
  let m := 0xFFFFFFFB in
  let x := wmix (u32 (u32 i + seed)) in
  u32 (mul_mod x a m + b) mod m.
Definition transform_step (a b seed i : Z) (st : KernelAcc) : KernelAcc :=
  let y := cpu_element a b seed i in
  mkKernelAcc (u64 (acc_lo st + y)) (Z.lxor (acc_hi st) (u64 (Z.shiftl y 1))) (u64 (processed st + 1)).

Definition checksum_step (i : Z) (st : Z * KernelAcc) : Z * KernelAcc :=
  let '(s, acc) := st in
  let v := wmix (u32 (u32 i + s)) in
  let s := u32 (u32 (s * 31) + v) in
  (s, mkKernelAcc (u64 (acc_lo acc + s)) (u64 (acc_hi acc + u64 (s * (i + 1)))) (u64 (processed acc + 1))).

Definition synthetic_step (i : Z) (st : Z * KernelAcc) : Z * KernelAcc :=
  let '(s, acc) := st in
  let s := wmix (u32 (s + u32 i)) in
  (s, mkKernelAcc (u64 (acc_lo acc + s)) (Z.lxor (acc_hi acc) s) (u64 (processed acc + 1))).
Definition synthetic_polls (i : Z) : bool := Z.land i 0x3FFF =? 0.

Definition state_fingerprint (deps : list StateDependency) : Z :=
  foldl (λ fp d, Z.lxor fp (u64 (string_hash (sd_state_id d) 0 + string_hash (sd_generation d) 0))) 0 deps.
Definition state_step (i : Z) (st : Z * KernelAcc) : Z * KernelAcc :=
  let '(s, acc) := st in
  let s := wmix (u32 (s + u32 i)) in
  (s, mkKernelAcc (u64 (acc_lo acc + s)) (Z.lxor (acc_hi acc) (u64 (Z.shiftl s 3))) (u64 (processed acc + 1))).

(** The matrices [A] and [B], and the cell [C[i * k + j]]. *)
Definition matrix (seed : Z) (cells : nat) : list Z := map (λ i, wmix (u32 (u32 (Z.of_nat i) + seed))) (seq 0 cells).
Definition tensor_cell (A B : list Z) (k i j : nat) : Z :=
  let s := foldl (λ s l, u64 (s + u64 (nth (i * k + l) A 0 * nth (l * k + j) B 0))) 0 (seq 0 k) in
  u32 (Z.lxor (Z.shiftr s 32) (Z.land s 0xFFFFFFFF)).
Definition tensor_row (A B : list Z) (k : nat) (i : Z) (st : KernelAcc) : KernelAcc :=
  foldl (λ st j,
      let c := tensor_cell A B k (Z.to_nat i) j in
      mkKernelAcc (u64 (acc_lo st + c)) (Z.lxor (acc_hi st) (u64 (Z.shiftl c 5))) (processed st))
    st (seq 0 k).

(** The parameters as the kernels read them. *)
Definition kernel_n (task : ComputeTask) : Z :=
  if 0 <? ct_kernel_param_n task then ct_kernel_param_n task else 1.
Definition low32 (x : Z) : Z := u32 (Z.land x 0xFFFFFFFF).

(** The [switch]: [None] when cancelled; the kernel is supported. *)
Definition run_kernel (task : ComputeTask) (token : Token) : option KernelAcc :=
  let n := kernel_n task in
  let a := low32 (ct_kernel_param_a task) in
  let b := low32 (ct_kernel_param_b task) in
  let seed := low32 (ct_seed task) in
  match ct_kernel task with
  | KT_HashInteger => for_loop token every (hash_step seed) (Z.to_nat n) 0 0 acc0
  | KT_VectorTransform => for_loop token every (transform_step a b seed) (Z.to_nat n) 0 0 acc0
  | KT_Checksum => snd <$> for_loop token every checksum_step (Z.to_nat n) 0 0 (seed, acc0)
  | KT_SyntheticLoop =>
      snd <$> for_loop token synthetic_polls synthetic_step (Z.to_nat (Z.min n 50000000)) 0 0 (seed, acc0)
  | KT_StateDependent =>
      let s := Z.lxor (u32 (state_fingerprint (ct_state_dependencies task))) seed in
      snd <$> for_loop token every state_step (Z.to_nat n) 0 0 (s, acc0)
  | KT_TensorArithmetic =>
      let k := u32 n in
      let k := if 256 <? k then 256 else k in
      let k := if k =? 0 then 1 else k in
      let cells := Z.to_nat (u32 (k * k)) in
      let A := matrix seed cells in
      let B := matrix (u32 (seed + 0x1234)) cells in
      acc ← for_loop token every (tensor_row A B (Z.to_nat k)) (Z.to_nat k) 0 0 acc0;
      Some (mkKernelAcc (acc_lo acc) (acc_hi acc) (u64 (k * k * k * 2)))
  | _ => Some acc0
  end.

(** The 16 bytes of the digest. *)
Definition final_digest (lo hi seed n : Z) : bytes :=
  let h0 := bytes_hash (le_bytes64 lo ++ le_bytes64 hi) seed in
  let h1 := mix64 (Z.lxor h0 n) in
  map (λ i, Z.land (Z.shiftr h0 (56 - i * 8)) 0xFF) (seqZ 0 8)
  ++ map (λ i, Z.land (Z.shiftr h1 (56 - i * 8)) 0xFF) (seqZ 0 8).

Definition kernel_failure (notes : string) : WorkloadResult := mkWorkloadResult false [] "" notes 0.

Definition run_cpu_kernel (task : ComputeTask) (token : Token) : WorkloadResult * string :=
  let n := kernel_n task in
  if 64000000 <? n then (kernel_failure "kernel size exceeds bound", "cpu")
  else if negb (is_supported_cpu_kernel (ct_kernel task)) then
    (kernel_failure ("unsupported kernel: " +:+ kernel_type_name (ct_kernel task)), "cpu")
  else
    match run_kernel task token with
    | None => (kernel_failure "cancelled", "cpu")
    | Some acc =>
        let output := final_digest (acc_lo acc) (acc_hi acc) (low32 (ct_seed task)) n in
        (mkWorkloadResult true output (default "" (hex_digest output)) "" (processed acc), "cpu")
    end.

(** ** What a run computes *)

Lemma for_loop_token {A} token polls (body : Z → A → A) count i poll st :
  for_loop token polls body count i poll st = for_loop None polls body count i poll st ∨
  (∃ k, is_cancelled token k = true) ∧ for_loop token polls body count i poll st = None.
Proof.
  revert i poll st. induction count as [|count IH]; intros i poll st; cbn [for_loop]; [by left|].
  cbn [is_cancelled]. rewrite andb_false_r. destruct (polls i && is_cancelled token poll) eqn:E; [|apply IH].
  right. split; [|done]. exists poll. by apply andb_true_iff in E as [_ ?].
Qed.

(** Without cancellation a loop is a fold over its indices. *)
Lemma for_loop_fold {A} polls (body : Z → A → A) count i poll st :
  for_loop None polls body count i poll st = Some (foldl (λ st j, body j st) st (seqZ i (Z.of_nat count))).
Proof.
  revert i poll st. induction count as [|count IH]; intros i poll st; cbn [for_loop]; [done|].
  cbn [is_cancelled]. rewrite andb_false_r, IH. rewrite (seqZ_cons i (Z.of_nat (S count))) by lia.
  cbn [foldl]. by replace (Z.pred (Z.of_nat (S count))) with (Z.of_nat count) by lia.
Qed.

Lemma for_loop_set {A} (answers : nat → bool) polls (body : Z → A → A) count st :
  answers 0%nat = true → polls 0 = true → (0 < count)%nat →
  for_loop (Some answers) polls body count 0 0 st = None.
Proof. intros H0 Hp Hc. destruct count; [lia|]. cbn [for_loop is_cancelled]. by rewrite Hp, H0. Qed.

Lemma kernel_n_pos task : 0 < kernel_n task.
Proof. unfold kernel_n. destruct (Z.ltb_spec 0 (ct_kernel_param_n task)); lia. Qed.

Lemma run_kernel_token task token :
  run_kernel task token = run_kernel task None ∨
  (∃ k, is_cancelled token k = true) ∧ run_kernel task token = None.
Proof.
  unfold run_kernel. cbv zeta. destruct (ct_kernel task); try (by left);
    match goal with |- context [for_loop token ?p ?b ?c ?i ?k ?s] =>
      destruct (for_loop_token token p b c i k s) as [->|[Hk ->]]; [by left|right; by split] end.
Qed.

Lemma run_kernel_some task : is_Some (run_kernel task None).
Proof. unfold run_kernel. cbv zeta. destruct (ct_kernel task); rewrite ?for_loop_fold; by eexists. Qed.

Lemma run_kernel_set task answers :
  answers 0%nat = true → is_supported_cpu_kernel (ct_kernel task) = true →
  run_kernel task (Some answers) = None.
Proof.
  intros H0 Hs. pose proof (kernel_n_pos task) as Hn. unfold run_kernel. cbv zeta.
  destruct (ct_kernel task); try discriminate Hs.
  all: rewrite for_loop_set; [done|done|done|try lia].
  set (k := if 256 <? u32 (kernel_n task) then _ else _).
  assert (0 <= k) by (unfold k; pose proof (u32_range (kernel_n task)); unfold is_u32 in *; case_match; lia).
  destruct (Z.eqb_spec k 0); lia.
Qed.

Lemma length_final_digest lo hi seed n : length (final_digest lo hi seed n) = 16%nat.
Proof. unfold final_digest. by rewrite length_app, !length_map, length_seqZ. Qed.

Lemma run_cpu_kernel_ok task :
  (wr_success (run_cpu_kernel task None).1 = true ↔
   kernel_n task <= 64000000 ∧ is_supported_cpu_kernel (ct_kernel task) = true).
Proof.
  unfold run_cpu_kernel. cbv zeta. destruct (Z.ltb_spec 64000000 (kernel_n task)).
  { split; [done|]. intros [? _]. lia. }
  destruct (is_supported_cpu_kernel (ct_kernel task)); cbn [negb]; [|split; [done|by intros [_ ?]]].
  destruct (run_kernel_some task) as [acc ->]. done.
Qed.

(** ** Claims *)

(** A kernel's output is a function of the task.  However its polls of the
    token turn out, a run of a kernel ends with exactly the result the task has
    without any cancellation, or reports "cancelled" with no output, and then a
    poll did find the token set; a token set before the run always cancels it.
    Undisturbed, it succeeds exactly for the supported kernels within the size
    bound, with a digest of 16 bytes and its 32 hexadecimal digits. *)
Theorem cpu_kernel_deterministic (task : ComputeTask) :
  let r := (run_cpu_kernel task None).1 in
  (wr_success r = true ↔ kernel_n task <= 64000000 ∧ is_supported_cpu_kernel (ct_kernel task) = true) ∧
  (wr_success r = true → length (wr_output r) = 16%nat ∧ hex_digest (wr_output r) = Some (wr_checksum_hex r)) ∧
  (∀ token, run_cpu_kernel task token = (r, "cpu") ∨
     (∃ k, is_cancelled token k = true) ∧ run_cpu_kernel task token = (kernel_failure "cancelled", "cpu")) ∧
  (∀ answers, answers 0%nat = true → wr_success r = true →
     run_cpu_kernel task (Some answers) = (kernel_failure "cancelled", "cpu")).
Proof.
  intros r. split; [apply run_cpu_kernel_ok|]. split_and!.
  - unfold r, run_cpu_kernel. cbv zeta. by repeat case_match.
  - intros token. unfold r, run_cpu_kernel. cbv zeta.
    destruct (run_kernel_token task token) as [->|[Hk ->]]; [left; by repeat case_match|].
    repeat (case_match; [by left|]). by right.
  - intros answers H0 [Hn Hs]%run_cpu_kernel_ok. unfold run_cpu_kernel. cbv zeta.
    rewrite (run_kernel_set task answers H0 Hs), Hs. by destruct (Z.ltb_spec 64000000 (kernel_n task)); [lia|].
Qed.
