(* ===== verification/Cuda.v ===== *)
(** * Cuda: the CUDA kernel and its host code (executor/cuda_executor.cu)

    What the calls of the CUDA runtime return, the contents of fresh device memory
    and the order in which the device runs the threads of a grid are data
    ([CudaCalls]).  A kernel is the effect of one thread on device memory; a launch
    runs the threads of the grid one after the other in the device's order, which
    the theorems take to be any permutation of the grid.  Between two barriers of
    the reduction the threads of a block write different cells and read cells
    nobody writes, so a step is one simultaneous update of the shared memory. *)

From S2P Require Import Prelude Status Ids Digest Float64 Task Workloads.

Local Open Scope Z_scope.

(** [None] is cudaSuccess, otherwise the text of [cudaGetErrorString]. *)
Abbreviation CudaError := (option string) (only parsing).

Record CudaCalls := mkCudaCalls {
  cc_get_device : CudaError;
  cc_set_device : CudaError;
  cc_malloc : nat → CudaError;           (* x, y, partial *)
  cc_stream_create : CudaError;
  cc_copy_in : CudaError;
  cc_launch_transform : CudaError;
  cc_copy_out : CudaError;
  cc_launch_reduce : CudaError;
  cc_synchronize : CudaError;
  cc_copy_partial : CudaError;
  cc_free : nat → CudaError;
  cc_memory : nat → Z;                   (* the words of fresh device memory *)
  cc_order : list (nat * nat);           (* (blockIdx.x, threadIdx.x) *)
  cc_t0 : Z; cc_t1 : Z                   (* now_micros *)
}.

Record CudaRunResult := mkCudaRunResult {
  cr_success : bool;
  cr_output : bytes;
  cr_integrity_hex : string;
  cr_device_name : string;
  cr_error_message : string;
  cr_kernel_millis : Z;       (* double *)
  cr_bytes_transferred : Z;   (* uint64_t *)
  cr_elements : Z             (* uint64_t *)
}.

(** ** The kernels *)

Definition kMod : Z := 0xFFFFFFFB.
Definition wmix_u32 (x : Z) : Z :=
  let x := Z.lxor x (Z.shiftr x 16) in
  let x := u32 (x * 0x7FEB352D) in
  let x := Z.lxor x (Z.shiftr x 15) in
  let x := u32 (x * 0x846CA68B) in
  Z.lxor x (Z.shiftr x 16).

Definition cuda_element (a b seed i : Z) : Z :=
  let xi := wmix_u32 (u32 (u32 i + seed)) in
  let prod := u64 (u64 (xi * a) + b) in
  u32 (prod mod kMod).

(** One thread of [vec_transform_kernel] on the array [y]. *)
Definition vec_transform_kernel (blockDim : nat) (n : Z) (a b seed : Z) (y : list Z)
    (thread : nat * nat) : list Z :=
  let i := (thread.1 * blockDim + thread.2)%nat in
  if n <=? Z.of_nat i then y else <[i := cuda_element a b seed (Z.of_nat i)]> y.

(** [sh[tid] += sh[tid + s]] for [tid < s], between two barriers. *)
Definition reduce_step (s : nat) (sh : list Z) : list Z :=
  imap (λ tid v, if (tid <? s)%nat then u64 (v + nth (tid + s) sh 0) else v) sh.
Fixpoint reduce_loop (fuel s : nat) (sh : list Z) : list Z :=
  match fuel with
  | O => sh
  | S fuel => if Nat.eqb s 0 then sh else reduce_loop fuel (s / 2) (reduce_step s sh)
  end.

(** One block of [reduce_checksum_kernel]: what it writes to [out[blockIdx.x]]. *)
Definition reduce_checksum_kernel (blockDim : nat) (y : list Z) (n : Z) (block : nat) : Z :=
  let sh := map (λ tid, let i := (block * blockDim + tid)%nat in
                        if Z.of_nat i <? n then nth i y 0 else 0) (seq 0 blockDim) in
  nth 0 (reduce_loop blockDim (blockDim / 2) sh) 0.

(** ** Host code *)

(** [cuda_alloc_checked] number [k]: the error, and [g_cuda_allocations]. *)
Definition cuda_alloc_checked (calls : CudaCalls) (k : nat) (what : string) (g : Z)
    : option string * Z :=
  match cc_malloc calls k with
  | Some e => (Some (what +:+ ": " +:+ e), g)
  | None => (None, g + 1)
  end.
Definition cuda_free_checked (calls : CudaCalls) (k : nat) (g : Z) : Z :=
  match cc_free calls k with None => g - 1 | Some _ => g end.

(** [CudaDeviceGuard]: [None] when it is ok. *)
Definition device_guard (calls : CudaCalls) : option string :=
  match match cc_get_device calls with None => cc_set_device calls | e => e end with
  | Some e => Some ("cudaSetDevice: " +:+ e)
  | None => None
  end.

Definition cuda_failure (msg : string) : CudaRunResult :=
  mkCudaRunResult false [] "" "" msg f64_0 0 0.

Definition kThreads : nat := 256.
Definition cuda_n (task : ComputeTask) : Z := Z.min (kernel_n task) 4000000.
Definition cuda_blocks (n : Z) : nat :=
  let blocks := u32 ((n + 255) / 256) in
  Z.to_nat (if 4096 <? blocks then 4096 else blocks).

(** The calls between the creation and the destruction of the stream: the last
    error, and the fields of the result that are set when the device's sum agrees
    with the host's. *)
Definition cuda_compute (calls : CudaCalls) (n a b seed : Z) : CudaError * option (option bytes) :=
  let blocks := cuda_blocks n in
  match cc_copy_in calls with
  | Some e => (Some e, None)
  | None =>
      let y := map (cc_memory calls) (seq 0 (Z.to_nat n)) in
      let y := foldl (vec_transform_kernel kThreads n a b seed) y (cc_order calls) in
      match cc_launch_transform calls with
      | Some e => (Some e, None)
      | None =>
          match cc_copy_out calls with
          | Some e => (Some e, None)
          | None =>
              let h_part := map (reduce_checksum_kernel kThreads y n) (seq 0 blocks) in
              match cc_launch_reduce calls with
              | Some e => (Some e, None)
              | None =>
                  match cc_synchronize calls with
                  | Some e => (Some e, None)
                  | None =>
                      match cc_copy_partial calls with
                      | Some e => (Some e, None)
                      | None =>
                          let dev_sum := foldl (λ s v, u64 (s + v)) 0 h_part in
                          let acc_lo := foldl (λ s v, u64 (s + v)) 0 y in
                          let acc_hi := foldl (λ s v, Z.lxor s (u64 (Z.shiftl v 1))) 0 y in
                          (None, Some (if negb (dev_sum =? acc_lo) then None
                                       else Some (final_digest acc_lo acc_hi seed n)))
                      end
                  end
              end
          end
      end
  end.

(** The result after it; [r.bytes_transferred] and [r.kernel_millis] are set on
    every path. *)
Definition cuda_result (calls : CudaCalls) (device_ordinal n : Z)
    (computed : CudaError * option (option bytes)) : CudaRunResult :=
  let millis := f64_div (f64_of_Z (cc_t1 calls - cc_t0 calls)) f64_1000 in
  let bytes := u64 (u64 (n * 4) * 2) in
  match computed with
  | (Some e, _) => mkCudaRunResult false [] "" "" ("cuda: " +:+ e) millis bytes 0
  | (None, Some (Some output)) =>
      mkCudaRunResult true output (default "" (hex_digest output))
        ("cuda:" +:+ to_string device_ordinal) "" millis bytes n
  | (None, _) => mkCudaRunResult false [] "" "" "device reduction mismatch" millis bytes 0
  end.

Definition cuda_run_vector_transform (calls : CudaCalls) (device_ordinal : Z) (task : ComputeTask)
    (g : Z) : CudaRunResult * Z :=
  match device_guard calls with
  | Some e => (cuda_failure e, g)
  | None =>
      let n := cuda_n task in
      let a := low32 (ct_kernel_param_a task) in
      let b := low32 (ct_kernel_param_b task) in
      let seed := low32 (ct_seed task) in
      let '(err_x, g) := cuda_alloc_checked calls 0 "cudaMalloc x" g in
      match err_x with
      | Some e => (cuda_failure e, g)
      | None =>
          let '(err_y, g) := cuda_alloc_checked calls 1 "cudaMalloc y" g in
          match err_y with
          | Some e => (cuda_failure e, cuda_free_checked calls 0 g)
          | None =>
              let '(err_p, g) := cuda_alloc_checked calls 2 "cudaMalloc partial" g in
              let free2 g := cuda_free_checked calls 1 (cuda_free_checked calls 0 g) in
              match err_p with
              | Some e => (cuda_failure e, free2 g)
              | None =>
                  let free3 g := cuda_free_checked calls 2 (free2 g) in
                  match cc_stream_create calls with
                  | Some _ => (cuda_failure "cudaStreamCreate failed", free3 g)
                  | None =>
                      (cuda_result calls device_ordinal n (cuda_compute calls n a b seed), free3 g)
                  end
              end
          end
      end
  end.

(** ** Sums of machine words *)

Definition zsum (l : list Z) : Z := foldr Z.add 0 l.
Definition word_sum (l : list Z) : Z := foldl (λ s v, u64 (s + v)) 0 l.

Lemma zsum_app l k : zsum (l ++ k) = zsum l + zsum k.
Proof. unfold zsum. induction l as [|v l IH]; cbn [app foldr] in *; lia. Qed.

Lemma u64_add_l x y : u64 (u64 x + y) = u64 (x + y).
Proof. unfold u64. apply Zplus_mod_idemp_l. Qed.
Lemma u64_add_r x y : u64 (x + u64 y) = u64 (x + y).
Proof. unfold u64. apply Zplus_mod_idemp_r. Qed.

Lemma word_sum_from s l : u64 (foldl (λ s v, u64 (s + v)) s l) = u64 (s + zsum l).
Proof.
  revert s. induction l as [|v l IH]; intros s; cbn [foldl zsum foldr]; [by rewrite Z.add_0_r|].
  rewrite IH, u64_add_l. f_equal. unfold zsum. lia.
Qed.
Lemma word_sum_u64 l : word_sum l = u64 (zsum l).
Proof.
  assert (Hr : ∀ s, is_u64 s → is_u64 (foldl (λ s v, u64 (s + v)) s l)).
  { induction l as [|v l IH]; intros s Hs; cbn [foldl]; auto with cf. }
  rewrite <-(Z.add_0_l (zsum l)), <-word_sum_from. symmetry. apply u64_id, Hr. int_solve.
Qed.

Lemma map_seq_shift (f : nat → Z) k j n : map f (seq (k + j) n) = map (λ t, f (k + t)%nat) (seq j n).
Proof.
  revert j. induction n as [|n IH]; intros j; [done|]. cbn [seq map]. f_equal.
  by rewrite <-Nat.add_succ_r, IH.
Qed.

(** Sums over the threads of a grid are sums over the array. *)
Lemma zsum_blocks (f : nat → Z) B T :
  zsum (map f (seq 0 (B * T))) = zsum (map (λ b, zsum (map (λ t, f (b * T + t)%nat) (seq 0 T))) (seq 0 B)).
Proof.
  induction B as [|B IH]; [done|]. rewrite seq_S, map_app, zsum_app, <-IH. cbn [map].
  replace (S B * T)%nat with (B * T + T)%nat by lia. rewrite seq_app, map_app, zsum_app. f_equal.
  cbn [Nat.add]. rewrite <-(Nat.add_0_r (B * T)), (map_seq_shift f (B * T) 0 T), Nat.add_0_r. unfold zsum at 2. cbn [foldr]. by rewrite Z.add_0_r.
Qed.

Lemma zsum_guarded (y : list Z) n N :
  Z.of_nat (length y) = n →
  zsum (map (λ i, if Z.of_nat i <? n then nth i y 0 else 0) (seq 0 N)) = zsum (take N y).
Proof.
  intros Hl. induction N as [|N IH]; [done|]. rewrite seq_S, map_app, zsum_app, IH. cbn [map Nat.add zsum foldr].
  rewrite Z.add_0_r. destruct (Z.ltb_spec (Z.of_nat N) n).
  - destruct (lookup_lt_is_Some_2 y N) as [v Hv]; [lia|].
    rewrite (take_S_r y N v) by done. rewrite zsum_app. f_equal. cbn. rewrite Z.add_0_r.
    by rewrite (nth_lookup_Some _ _ _ _ Hv).
  - rewrite !take_ge by lia. lia.
Qed.

(** ** The reduction of a block *)

Lemma reduce_step_take s sh :
  (2 * s <= length sh)%nat →
  take s (reduce_step s sh) = zip_with (λ v w, u64 (v + w)) (take s sh) (take s (drop s sh)).
Proof.
  intros Hl. apply list_eq. intros i. unfold reduce_step. rewrite lookup_zip_with.
  destruct (decide (i < s)%nat) as [Hi|Hi].
  - rewrite !lookup_take_lt by done. rewrite list_lookup_imap, lookup_drop.
    destruct (lookup_lt_is_Some_2 sh i) as [v Hv]; [lia|].
    destruct (lookup_lt_is_Some_2 sh (s + i)) as [w Hw]; [lia|]. rewrite Hv, Hw.
    cbn [fmap option_fmap option_map mbind option_bind].
    rewrite (proj2 (Nat.ltb_lt i s) Hi), (Nat.add_comm i s), (nth_lookup_Some _ _ _ _ Hw). done.
  - rewrite !lookup_take_ge by lia. done.
Qed.

Lemma zsum_zip (l k : list Z) :
  length l = length k → u64 (zsum (zip_with (λ v w, u64 (v + w)) l k)) = u64 (zsum l + zsum k).
Proof.
  revert k. induction l as [|v l IH]; intros [|w k] Hl; try done. cbn [zip_with zsum foldr].
  fold (zsum l). fold (zsum k). fold (zsum (zip_with (λ v w, u64 (v + w)) l k)).
  rewrite u64_add_l, <-u64_add_r, IH, u64_add_r by (by injection Hl). f_equal. lia.
Qed.

Lemma reduce_step_sum s sh :
  (2 * s <= length sh)%nat →
  u64 (zsum (take s (reduce_step s sh))) = u64 (zsum (take (2 * s) sh)).
Proof.
  intros Hl. rewrite reduce_step_take by done.
  rewrite zsum_zip by (rewrite !length_take, length_drop; lia).
  rewrite <-zsum_app, take_take_drop. do 2 f_equal. f_equal. lia.
Qed.

Lemma length_reduce_step s sh : length (reduce_step s sh) = length sh.
Proof. apply length_imap. Qed.

Lemma reduce_loop_sum p sh fuel :
  (2 ^ S p <= length sh)%nat → (p < fuel)%nat →
  u64 (nth 0 (reduce_loop fuel (2 ^ p) sh) 0) = u64 (zsum (take (2 ^ S p) sh)).
Proof.
  revert sh fuel. induction p as [|p IH]; intros sh [|fuel] Hl Hf; try lia; cbn [reduce_loop].
  - cbn in Hl. rewrite <-(reduce_step_sum 1) by done. cbn [Nat.pow Nat.eqb Nat.div].
    change (1 / 2)%nat with 0%nat. destruct fuel; cbn [reduce_loop Nat.eqb].
    all: pose proof (length_reduce_step 1 sh); destruct (reduce_step 1 sh); cbn in *;
      [lia|by rewrite Z.add_0_r].
  - destruct (Nat.eqb_spec (2 ^ S p) 0) as [E|_]; [pose proof (Nat.pow_nonzero 2 (S p)); lia|].
    replace (2 ^ S p / 2)%nat with (2 ^ p)%nat by (rewrite Nat.pow_succ_r', Nat.mul_comm, Nat.div_mul; lia).
    rewrite IH; [|rewrite length_reduce_step; cbn [Nat.pow] in *; lia|lia].
    rewrite reduce_step_sum; [done|]. by rewrite <-Nat.pow_succ_r'.
Qed.

(** The sum of all blocks is the sum of the part of the array the grid covers. *)
Lemma reduction_sum y n blocks :
  Z.of_nat (length y) = n →
  word_sum (map (reduce_checksum_kernel kThreads y n) (seq 0 blocks))
  = u64 (zsum (take (blocks * kThreads) y)).
Proof.
  intros Hl. rewrite word_sum_u64, <-(zsum_guarded y n) by done. rewrite zsum_blocks.
  induction (seq 0 blocks) as [|b bs IH]; [done|]. cbn [map zsum foldr].
  rewrite <-u64_add_r, <-u64_add_l. unfold zsum in IH at 1 2. rewrite IH. rewrite u64_add_r.
  unfold reduce_checksum_kernel at 1. set (sh := map _ (seq 0 kThreads)).
  rewrite (reduce_loop_sum 7 sh); [|unfold sh; by rewrite length_map, length_seq|unfold kThreads; lia].
  rewrite take_ge by (unfold sh; rewrite length_map, length_seq; done). by rewrite u64_add_l.
Qed.

(** ** The transform *)

Definition grid (blocks threads : nat) : list (nat * nat) := list_prod (seq 0 blocks) (seq 0 threads).
Definition thread_index (t : nat * nat) : nat := (t.1 * kThreads + t.2)%nat.

Lemma vec_transform_lookup n a b seed order y i :
  foldl (vec_transform_kernel kThreads n a b seed) y order !! i =
  if decide (i ∈ map thread_index order ∧ Z.of_nat i < n ∧ (i < length y)%nat)
  then Some (cuda_element a b seed (Z.of_nat i)) else y !! i.
Proof.
  revert y. induction order as [|t order IH]; intros y; cbn [foldl map].
  { rewrite decide_False; [done|]. by intros [?%elem_of_nil _]. }
  rewrite IH. unfold vec_transform_kernel. fold (thread_index t).
  destruct (Z.leb_spec n (Z.of_nat (thread_index t))).
  - apply decide_ext. rewrite elem_of_cons. split; [tauto|]. intros ([->|?] & ? & ?); [lia|tauto].
  - rewrite length_insert. destruct (decide (i = thread_index t)) as [->|Hne].
    + destruct (decide (thread_index t < length y)%nat).
      * rewrite list_lookup_insert_eq by done. rewrite (decide_True (P := _ ∈ _ :: _ ∧ _)) by (rewrite elem_of_cons; tauto).
        by destruct (decide _).
      * rewrite list_insert_ge by lia. rewrite !decide_False by tauto. done.
    + rewrite list_lookup_insert_ne by done. apply decide_ext. rewrite elem_of_cons. tauto.
Qed.

Lemma grid_index blocks i :
  i ∈ map thread_index (grid blocks kThreads) ↔ (i < blocks * kThreads)%nat.
Proof.
  rewrite list_elem_of_In, in_map_iff. unfold thread_index, kThreads. split.
  - intros ([bl th] & <- & [Hb Ht]%in_prod_iff). rewrite in_seq in Hb, Ht. cbn [fst snd]. nia.
  - intros Hi. exists ((i / 256)%nat, (i mod 256)%nat). cbn [fst snd]. split.
    + pose proof (Nat.div_mod_eq i 256). lia.
    + apply in_prod_iff. rewrite !in_seq. pose proof (Nat.div_mod_eq i 256).
      pose proof (Nat.mod_upper_bound i 256). split; [split; [lia|]|lia].
      apply Nat.Div0.div_lt_upper_bound; lia.
Qed.

(** What is in [y] after the launch: the transform where the grid reaches, fresh
    memory behind it; the order of the threads does not matter. *)
Definition transformed (calls : CudaCalls) (n a b seed : Z) : list Z :=
  map (λ i, if (i <? cuda_blocks n * kThreads)%nat then cuda_element a b seed (Z.of_nat i)
            else cc_memory calls i) (seq 0 (Z.to_nat n)).

Lemma launch_transformed calls n a b seed :
  0 <= n → cc_order calls ≡ₚ grid (cuda_blocks n) kThreads →
  foldl (vec_transform_kernel kThreads n a b seed) (map (cc_memory calls) (seq 0 (Z.to_nat n)))
    (cc_order calls) = transformed calls n a b seed.
Proof.
  intros Hn Ho. apply list_eq. intros i. rewrite vec_transform_lookup.
  assert (Hi : i ∈ map thread_index (cc_order calls) ↔ (i < cuda_blocks n * kThreads)%nat).
  { rewrite <-grid_index, !list_elem_of_In. split; apply Permutation_in, Permutation_map; by rewrite Ho. }
  rewrite length_map, length_seq. unfold transformed.
  assert (Hl : ∀ f : nat → Z, map f (seq 0 (Z.to_nat n)) !! i =
    if decide (i < Z.to_nat n)%nat then Some (f i) else None).
  { intros f. case_decide as Hd.
    - rewrite list_lookup_fmap, lookup_seq_lt by done. done.
    - apply lookup_ge_None_2. rewrite length_map, length_seq. lia. }
  rewrite !Hl. destruct (Nat.ltb_spec i (cuda_blocks n * kThreads)); repeat case_decide; try done;
    exfalso; intuition lia.
Qed.

(** ** CPU and device *)

Definition kGrid : Z := 1048576.   (* 4096 blocks of 256 threads *)

Lemma grid_covers n : 0 < n <= 4000000 → Z.of_nat (cuda_blocks n * kThreads) = if n <=? kGrid then 256 * ((n + 255) / 256) else kGrid.
Proof.
  intros Hn. unfold cuda_blocks, kThreads, kGrid. cbv zeta.
  assert (0 <= (n + 255) / 256 < 4294967296) by (Z.div_mod_to_equations; lia).
  rewrite u32_id by done. destruct (Z.ltb_spec 4096 ((n + 255) / 256)); destruct (Z.leb_spec n 1048576);
    Z.div_mod_to_equations; lia.
Qed.

Lemma cuda_n_range task : 0 < cuda_n task <= 4000000.
Proof. unfold cuda_n. pose proof (kernel_n_pos task). lia. Qed.

Lemma word_sum_split l k : (word_sum l =? word_sum (l ++ k)) = (u64 (zsum k) =? 0).
Proof.
  rewrite !word_sum_u64, zsum_app. unfold u64. apply Bool.eq_iff_eq_true. rewrite !Z.eqb_eq.
  Z.div_mod_to_equations. lia.
Qed.

Lemma transform_fold a b seed js st :
  let ys := map (cpu_element a b seed) js in
  let st' := foldl (λ st j, transform_step a b seed j st) st js in
  acc_lo st' = foldl (λ s v, u64 (s + v)) (acc_lo st) ys ∧
  acc_hi st' = foldl (λ s v, Z.lxor s (u64 (Z.shiftl v 1))) (acc_hi st) ys.
Proof. revert st. induction js as [|i js IH]; intros st; cbn [foldl map]; [done|]. apply IH. Qed.

Lemma low32_range x : is_u32 (low32 x).
Proof. apply u32_range. Qed.

(** The CPU adds [b] in 32 bits, the device in 64. *)
Definition no_wrap (a b seed i : Z) : Prop :=
  mul_mod (wmix (u32 (u32 i + seed))) a kMod + b < 4294967296.

Lemma elements_agree a b seed i :
  is_u32 a → is_u32 b → no_wrap a b seed i → cpu_element a b seed i = cuda_element a b seed i.
Proof.
  intros Ha Hb Hw. unfold no_wrap in Hw. unfold cpu_element, cuda_element. cbv zeta.
  change 4294967291 with kMod. change wmix_u32 with wmix.
  assert (Hx : is_u32 (wmix (u32 (u32 i + seed)))) by (unfold wmix; cbv zeta; auto with cf).
  set (x := wmix _) in *. unfold mul_mod in *.
  assert (Hxa : 0 <= x * a <= 18446744065119617025) by (unfold is_u32 in *; nia).
  rewrite (u64_id (x * a)) in * by (unfold is_u64; lia).
  assert (Hm : ∀ z, is_u32 (z mod kMod)) by (intros z; unfold is_u32, kMod; pose proof (Z.mod_pos_bound z 4294967291); lia).
  rewrite (u32_id (_ mod kMod)) in * by done.
  rewrite (u64_id (x * a + b)) by (unfold is_u32, is_u64 in *; lia). rewrite (u32_id (_ mod kMod)) by done.
  rewrite u32_id; [by rewrite Zplus_mod_idemp_l|].
  specialize (Hm (x * a)). unfold is_u32 in *. lia.
Qed.

(** No call fails, and the device runs every thread of the grid once. *)
Record calls_ok (calls : CudaCalls) (n : Z) : Prop := {
  co_device : cc_get_device calls = None ∧ cc_set_device calls = None;
  co_malloc : ∀ k, cc_malloc calls k = None;
  co_stream : cc_stream_create calls = None;
  co_copies : cc_copy_in calls = None ∧ cc_copy_out calls = None ∧ cc_copy_partial calls = None;
  co_launches : cc_launch_transform calls = None ∧ cc_launch_reduce calls = None ∧
                cc_synchronize calls = None;
  co_order : cc_order calls ≡ₚ grid (cuda_blocks n) kThreads
}.

Lemma length_transformed calls n a b seed : 0 <= n → Z.of_nat (length (transformed calls n a b seed)) = n.
Proof. intros. unfold transformed. rewrite length_map, length_seq. lia. Qed.

Lemma cuda_compute_ok calls n a b seed :
  0 < n → calls_ok calls n →
  let y := transformed calls n a b seed in
  cuda_compute calls n a b seed =
  (None, Some (if u64 (zsum (drop (cuda_blocks n * kThreads) y)) =? 0
               then Some (final_digest (word_sum y) (foldl (λ s v, Z.lxor s (u64 (Z.shiftl v 1))) 0 y) seed n)
               else None)).
Proof.
  intros Hn [_ _ _ (Ei & Eo & Ep) (Et & Er & Es) Hord] y. unfold cuda_compute. cbv zeta.
  rewrite Ei, Et, Eo, Er, Es, Ep, launch_transformed by (done || lia). fold y.
  do 2 f_equal. fold (word_sum y) (word_sum (map (reduce_checksum_kernel kThreads y n) (seq 0 (cuda_blocks n)))).
  rewrite reduction_sum by (apply length_transformed; lia). rewrite <-word_sum_u64.
  rewrite <-(take_drop (cuda_blocks n * kThreads) y) at 2. rewrite word_sum_split.
  by destruct (u64 _ =? 0).
Qed.

Lemma cuda_run_compute calls ordinal task g :
  calls_ok calls (cuda_n task) →
  (cuda_run_vector_transform calls ordinal task g).1 =
  cuda_result calls ordinal (cuda_n task)
    (cuda_compute calls (cuda_n task) (low32 (ct_kernel_param_a task)) (low32 (ct_kernel_param_b task))
       (low32 (ct_seed task))).
Proof.
  intros [[Eg Es] Em Est _ _ _]. unfold cuda_run_vector_transform, device_guard, cuda_alloc_checked.
  by rewrite Eg, Es, !Em, Est.
Qed.

(** Within the grid the device computes the transform of every element. *)
Lemma transformed_small calls n a b seed :
  0 < n <= kGrid →
  transformed calls n a b seed = map (cuda_element a b seed) (seqZ 0 n).
Proof.
  intros Hn. unfold transformed, seqZ.
  change ((λ i : nat, Z.of_nat i + 0) <$> seq 0 (Z.to_nat n)) with (map (λ i, Z.of_nat i + 0) (seq 0 (Z.to_nat n))).
  rewrite map_map.
  apply map_ext_in. intros i Hi%in_seq. rewrite Z.add_0_r.
  pose proof (grid_covers n) as Hg. destruct (Z.leb_spec n kGrid); [|lia]. unfold kGrid in *.
  destruct (Nat.ltb_spec i (cuda_blocks n * kThreads)); [done|].
  exfalso. pose proof (Z.div_mod (n + 255) 256). pose proof (Z.mod_pos_bound (n + 255) 256). lia.
Qed.

(** No path through the host code leaks device memory. *)
Lemma cuda_no_leak calls ordinal task g :
  (∀ k, cc_free calls k = None) → (cuda_run_vector_transform calls ordinal task g).2 = g.
Proof.
  intros Hf. unfold cuda_run_vector_transform, cuda_alloc_checked, cuda_free_checked. rewrite !Hf.
  repeat case_match; cbn [snd]; simplify_eq; lia.
Qed.

(** ** Claims *)

(** C34: the device computes what the CPU computes.  When no call of the CUDA
    runtime fails, the device runs every thread of the grid once, in any order, the
    task has at most 2^20 elements and the 32-bit addition of the CPU kernel does
    not wrap, the run on the device succeeds with the digest of the CPU kernel; the
    parallel reduction agrees with the sum on the host. *)
Theorem cuda_matches_cpu (calls : CudaCalls) (ordinal : Z) (task : ComputeTask) (g : Z) :
  calls_ok calls (cuda_n task) → ct_kernel task = KT_VectorTransform → kernel_n task <= kGrid →
  (∀ i, 0 <= i < kernel_n task →
     no_wrap (low32 (ct_kernel_param_a task)) (low32 (ct_kernel_param_b task)) (low32 (ct_seed task)) i) →
  let r := (cuda_run_vector_transform calls ordinal task g).1 in
  let cpu := (run_cpu_kernel task None).1 in
  cr_success r = true ∧ wr_success cpu = true ∧
  cr_output r = wr_output cpu ∧ cr_integrity_hex r = wr_checksum_hex cpu.
Proof.
  intros Hok Hk Hn Hw r cpu. pose proof (kernel_n_pos task) as Hpos. unfold kGrid in Hn.
  assert (En : cuda_n task = kernel_n task) by (unfold cuda_n; lia).
  set (a := low32 (ct_kernel_param_a task)) in *. set (b := low32 (ct_kernel_param_b task)) in *.
  set (seed := low32 (ct_seed task)) in *.
  assert (Ey : transformed calls (cuda_n task) a b seed = map (cpu_element a b seed) (seqZ 0 (kernel_n task))).
  { rewrite En. rewrite transformed_small by (unfold kGrid; lia). apply map_ext_in.
    intros i Hi%list_elem_of_In%elem_of_seqZ. symmetry.
    apply elements_agree; [apply low32_range..|]. apply Hw. lia. }
  assert (Er : r = cuda_result calls ordinal (cuda_n task) (cuda_compute calls (cuda_n task) a b seed))
    by (by apply cuda_run_compute).
  rewrite cuda_compute_ok in Er by (done || lia). rewrite drop_ge in Er.
  2:{ pose proof (length_transformed calls (cuda_n task) a b seed). pose proof (grid_covers (cuda_n task)) as Hg.
      unfold kGrid in Hg. rewrite En in *. destruct (Z.leb_spec (kernel_n task) 1048576); [|lia].
      pose proof (Z.div_mod (kernel_n task + 255) 256). pose proof (Z.mod_pos_bound (kernel_n task + 255) 256). lia. }
  cbn [zsum foldr] in Er. change (u64 0 =? 0) with true in Er. cbv iota in Er.
  rewrite Ey, En in Er.
  pose proof (transform_fold a b seed (seqZ 0 (kernel_n task)) acc0) as [Elo Ehi].
  unfold cpu, run_cpu_kernel, run_kernel. cbv zeta. rewrite Hk. cbn [is_supported_cpu_kernel negb].
  destruct (Z.ltb_spec 64000000 (kernel_n task)); [lia|].
  rewrite for_loop_fold, Z2Nat.id by lia. fold a b seed. rewrite Er. cbn [cuda_result fst].
  cbn [cr_success cr_output cr_integrity_hex wr_success wr_output wr_checksum_hex].
  rewrite Elo, Ehi. done.
Qed.

(** The grid is too small for large tasks.  It has 2^20 threads and no
    thread takes a second element, so beyond 2^20 elements the rest of the output
    is whatever the fresh device memory held: the run fails as a "device reduction
    mismatch" unless those words happen to add up to zero. *)
Theorem cuda_grid_bound (calls : CudaCalls) (ordinal : Z) (task : ComputeTask) (g : Z) :
  calls_ok calls (cuda_n task) → kGrid < kernel_n task →
  let r := (cuda_run_vector_transform calls ordinal task g).1 in
  let rest := map (cc_memory calls) (seq (Z.to_nat kGrid) (Z.to_nat (cuda_n task - kGrid))) in
  (cr_success r = true ↔ u64 (zsum rest) = 0) ∧
  (cr_success r = false → cr_error_message r = "device reduction mismatch").
Proof.
  intros Hok Hn r rest. pose proof (cuda_n_range task) as Hr.
  assert (Hbig : kGrid < cuda_n task) by (unfold cuda_n, kGrid in *; lia).
  unfold r. rewrite cuda_run_compute by done. rewrite cuda_compute_ok by (done || lia).
  set (y := transformed _ _ _ _ _).
  assert (Ed : drop (cuda_blocks (cuda_n task) * kThreads) y = rest).
  { pose proof (grid_covers (cuda_n task) Hr) as Hg. destruct (Z.leb_spec (cuda_n task) kGrid); [lia|].
    unfold y, transformed, rest. set (N := (cuda_blocks (cuda_n task) * kThreads)%nat) in *.
    replace (Z.to_nat (cuda_n task)) with (N + Z.to_nat (cuda_n task - kGrid))%nat by lia.
    rewrite seq_app, map_app, drop_app_length' by (by rewrite length_map, length_seq).
    replace (Z.to_nat kGrid) with N by lia. cbn [Nat.add]. apply map_ext_in. intros i Hi%in_seq.
    destruct (Nat.ltb_spec i N); [lia|done]. }
  rewrite Ed. destruct (Z.eqb_spec (u64 (zsum rest)) 0); done.
Qed.

(** Sample runs: a vector transform on a device without failures that runs its
    threads backwards. *)
Definition vector_task (n a b : Z) : ComputeTask :=
  mkComputeTask (mkId 0 1) id_zero "" TC_Generic EX_Cuda 0 0 1 1 0 [] [] 0 0 f64_tenth false 0
    PR_Normal default_retry [] [] [] [] "" None None f64_0 f64_0 f64_0 false KT_VectorTransform n a b 9
    ∅ [].
Definition healthy_device (order : list (nat * nat)) : CudaCalls :=
  mkCudaCalls None None (λ _, None) None None None None None None None (λ _, None) (λ _, 1) order 0 500.

Lemma healthy_ok order n : order ≡ₚ grid (cuda_blocks n) kThreads → calls_ok (healthy_device order) n.
Proof. by split. Qed.

Lemma cuda_matches_witness :
  let r := (cuda_run_vector_transform (healthy_device (reverse (grid 1 kThreads))) 0 (vector_task 3 7 5) 0).1 in
  cr_success r = true ∧ cr_output r = wr_output (run_cpu_kernel (vector_task 3 7 5) None).1.
Proof.
  destruct (cuda_matches_cpu (healthy_device (reverse (grid 1 kThreads))) 0 (vector_task 3 7 5) 0)
    as (H & _ & Ho & _); [|reflexivity|vm_compute; congruence| |by split].
  - apply healthy_ok. apply reverse_Permutation.
  - intros i Hi. change (kernel_n (vector_task 3 7 5)) with 3 in Hi.
    assert (i = 0 ∨ i = 1 ∨ i = 2) as [->|[->| ->]] by lia; vm_compute; reflexivity.
Defined.

Lemma cuda_grid_witness :
  cr_success (cuda_run_vector_transform (healthy_device (grid (cuda_blocks 1048577) kThreads)) 0
                (vector_task 1048577 7 5) 0).1 = false.
Proof.
  destruct (cuda_grid_bound (healthy_device (grid (cuda_blocks 1048577) kThreads)) 0
    (vector_task 1048577 7 5) 0) as [[H _] _]; [by apply healthy_ok|reflexivity|].
  apply not_true_iff_false. intros E. specialize (H E). cbn [cc_memory healthy_device] in H.
  change (Z.to_nat (cuda_n (vector_task 1048577 7 5) - kGrid)) with 1%nat in H. cbn [seq map] in H.
  discriminate H.
Defined.

(** Where the addition wraps the two differ. *)
Example cuda_cpu_differ :
  cr_success (cuda_run_vector_transform (healthy_device (grid 1 kThreads)) 0 (vector_task 2 1 0xFFFFFFFF) 0).1 = true ∧
  cr_output (cuda_run_vector_transform (healthy_device (grid 1 kThreads)) 0 (vector_task 2 1 0xFFFFFFFF) 0).1
  ≠ wr_output (run_cpu_kernel (vector_task 2 1 0xFFFFFFFF) None).1.
Proof. vm_compute. split; congruence. Qed.
