(* ===== verification/Executor.v ===== *)
(** * Executor: the executor backends (executor/executor.h, executor/cpu_executor.h,
    executor/cpu_executor.cpp, executor/cuda_executor.h, executor/cuda_executor.cu,
    executor/cuda_stubs.cpp)

    A backend is a bounded queue of work and a fixed number of worker threads.  The
    CPU and the CUDA backend have the same queue and workers ([Pool]) around
    different kernels.  A worker's critical sections and the calls between them are
    the actions of [WorkerAction]; [pool_worker] is the effect of one action of one
    worker, whose place in [worker_loop] and [run_one] is its [Phase].
    Cancellation tokens are shared with the node runtime: a token is an index of
    the store of tokens.  The callbacks of a work item are closures over the
    message that brought it, so they are that message.  [ExecutorBackend] is the
    abstract class, and [BackendLaws] what the node runtime relies on. *)

From S2P Require Import Prelude Status Ids Digest Float64 Task Reservation Workloads Cuda.

Local Open Scope Z_scope.

(** ** Tokens, work and outcomes *)

Abbreviation TokenRef := nat (only parsing).
Abbreviation Tokens := (list bool) (only parsing).   (* [cancelled] of every token *)
Definition new_token (tokens : Tokens) : TokenRef * Tokens := (length tokens, tokens ++ [false]).
Definition token_request (r : TokenRef) (tokens : Tokens) : Tokens := <[r := true]> tokens.
Definition token_is_cancelled (r : TokenRef) (tokens : Tokens) : bool := default false (tokens !! r).
(** "if (token) token->request()", "token && token->is_cancelled()" *)
Definition request_opt (t : option TokenRef) (tokens : Tokens) : Tokens :=
  match t with Some r => token_request r tokens | None => tokens end.
Definition cancelled_opt (t : option TokenRef) (tokens : Tokens) : bool :=
  match t with Some r => token_is_cancelled r tokens | None => false end.

Record AttemptOutcome := mkAttemptOutcome {
  ao_success : bool;
  ao_state : AttemptState;
  ao_failure_kind : FailureKind;
  ao_failure_reason : string;
  ao_output_bytes : bytes;
  ao_output_integrity : string;
  ao_duration_ms : Z;          (* double *)
  ao_bytes_transferred : Z;    (* uint64_t *)
  ao_device : string;
  ao_notes : list string
}.

Record ExecutorRuntimeStats := mkExecutorRuntimeStats {
  es_total_attempts : Z;
  es_succeeded : Z;
  es_failed : Z;
  es_active : Z;
  es_queued : Z;
  es_max_slots : Z;
  es_allocations_outstanding : Z
}.

Record AttemptWork (K : Type) := mkAttemptWork {
  aw_task : ComputeTask;
  aw_attempt_id : Id128;
  aw_node_id : Id128;
  aw_reservation_id : Id128;
  aw_coordinator_epoch : Z;
  aw_token : option TokenRef;
  aw_enqueued_at_ms : Z;
  aw_on_start : option K;
  aw_on_complete : option K
}.
Arguments mkAttemptWork {K}.
Arguments aw_task {K}. Arguments aw_attempt_id {K}. Arguments aw_node_id {K}.
Arguments aw_reservation_id {K}. Arguments aw_coordinator_epoch {K}. Arguments aw_token {K}.
Arguments aw_enqueued_at_ms {K}. Arguments aw_on_start {K}. Arguments aw_on_complete {K}.

(** ** The pool *)

(** Where a worker is: it has taken the work; it has called [on_start]; it found
    the token set, or not, and runs the kernel; it has called [on_complete]. *)
Inductive Phase := PH_Taken | PH_Started | PH_Cancelled | PH_Executing | PH_Completed.

#[export] Instance Phase_eq_dec : EqDecision Phase.
Proof. solve_decision. Defined.

Inductive WorkerAction :=
| WA_Take
| WA_Start (worker : nat)
| WA_Check (worker : nat)
| WA_Finish (worker : nat)
| WA_Leave (worker : nat).

(** What the kernel and the clock do while a worker finishes. *)
Record RunEnv := mkRunEnv {
  re_answers : nat → bool;   (* polls of the token *)
  re_calls : CudaCalls;      (* the CUDA runtime *)
  re_t0 : Z; re_t1 : Z       (* now_micros *)
}.

Inductive WorkerReport (K : Type) :=
| WR_Started (k : K)
| WR_Completed (k : K) (out : AttemptOutcome).
Arguments WR_Started {K}.
Arguments WR_Completed {K}.

Definition millis (env : RunEnv) : Z := f64_div (f64_of_Z (re_t1 env - re_t0 env)) f64_1000.
Definition failed_outcome (kind : FailureKind) (state : AttemptState) (reason device : string)
    (duration : Z) : AttemptOutcome :=
  mkAttemptOutcome false state kind reason [] "" duration 0 device [].

Section pool.
Context {K : Type}.

Record Pool := mkPool {
  pl_stopping : bool;
  pl_active : Z;       (* std::atomic<int64_t> *)
  pl_total : Z;
  pl_succeeded : Z;
  pl_failed : Z;
  pl_queue : list (AttemptWork K);
  pl_workers : list (AttemptWork K * Phase);   (* the workers that have work *)
  pl_active_tokens : gmap Id128 (option TokenRef)
}.

Definition new_pool : Pool := mkPool false 0 0 0 0 [] [] ∅.

Definition pool_enqueue (limit : nat) (who : string) (w : AttemptWork K) (p : Pool) : Pool * Result unit :=
  if pl_stopping p then (p, err EShuttingDown (who +:+ " executor shutting down"))
  else if (limit <=? length (pl_queue p))%nat then (p, err ENoCapacity (who +:+ " executor queue full"))
  else (mkPool (pl_stopping p) (pl_active p) (pl_total p) (pl_succeeded p) (pl_failed p)
          (pl_queue p ++ [w]) (pl_workers p) (pl_active_tokens p), Ok tt).

(** The token of running work is never null. *)
Definition pool_cancel (who : string) (id : Id128) (p : Pool) (tokens : Tokens) : Tokens * Result unit :=
  match list_find (λ w, aw_attempt_id w = id) (pl_queue p) with
  | Some (_, w) => (request_opt (aw_token w) tokens, Ok tt)
  | None =>
      match pl_active_tokens p !! id with
      | Some t => (request_opt t tokens, Ok tt)
      | None => (tokens, err ETaskNotFound ("attempt not found in " +:+ who +:+ " executor"))
      end
  end.

Definition pool_has_active (id : Id128) (p : Pool) : bool :=
  existsb (λ w, bool_decide (aw_attempt_id w = id)) (pl_queue p)
  || bool_decide (is_Some (pl_active_tokens p !! id)).

Definition pool_stats (slots allocations : Z) (p : Pool) : ExecutorRuntimeStats :=
  mkExecutorRuntimeStats (u64 (pl_total p)) (u64 (pl_succeeded p)) (u64 (pl_failed p))
    (u32 (pl_active p)) (u32 (Z.of_nat (length (pl_queue p)))) (u32 slots) (u64 allocations).

(** [shutdown] up to the joining of the workers, which waits until they have left
    their loops ([pool_idle]). *)
Definition pool_shutdown (drain : bool) (p : Pool) (tokens : Tokens) : Pool * Tokens :=
  if pl_stopping p then (p, tokens)
  else
    (mkPool true (pl_active p) (pl_total p) (pl_succeeded p) (pl_failed p) (pl_queue p)
       (pl_workers p) (pl_active_tokens p),
     if drain then tokens else foldl (λ ts w, request_opt (aw_token w) ts) tokens (pl_queue p)).
Definition pool_idle (p : Pool) : bool :=
  match pl_queue p, pl_workers p with [], [] => true | _, _ => false end.

(** The critical section of [worker_loop] that takes work, when a worker is free. *)
Definition pool_take (slots : nat) (p : Pool) : option Pool :=
  match pl_queue p with
  | w :: queue =>
      if (length (pl_workers p) <? slots)%nat then
        Some (mkPool (pl_stopping p) (pl_active p) (pl_total p) (pl_succeeded p) (pl_failed p) queue
                (pl_workers p ++ [(w, PH_Taken)])
                (<[aw_attempt_id w := aw_token w]> (pl_active_tokens p)))
      else None
  | [] => None
  end.

Definition set_phase (i : nat) (w : AttemptWork K) (ph : Phase) (p : Pool) : Pool :=
  mkPool (pl_stopping p) (pl_active p) (pl_total p) (pl_succeeded p) (pl_failed p) (pl_queue p)
    (<[i := (w, ph)]> (pl_workers p)) (pl_active_tokens p).

(** [active_.fetch_add(1)], [total_.fetch_add(1)] and [on_start]. *)
Definition pool_start (i : nat) (p : Pool) : option (Pool * list (WorkerReport K)) :=
  match pl_workers p !! i with
  | Some (w, PH_Taken) =>
      Some (set_phase i w PH_Started
              (mkPool (pl_stopping p) (i64 (pl_active p + 1)) (i64 (pl_total p + 1)) (pl_succeeded p)
                 (pl_failed p) (pl_queue p) (pl_workers p) (pl_active_tokens p)),
            match aw_on_start w with Some k => [WR_Started k] | None => [] end)
  | _ => None
  end.

(** The test of the token before the kernel. *)
Definition pool_check (i : nat) (tokens : Tokens) (p : Pool) : option Pool :=
  match pl_workers p !! i with
  | Some (w, PH_Started) =>
      Some (set_phase i w (if cancelled_opt (aw_token w) tokens then PH_Cancelled else PH_Executing) p)
  | _ => None
  end.

(** The rest of [run_one]: [outcome w cancelled] is what it reports. *)
Definition pool_finish (outcome : AttemptWork K → bool → AttemptOutcome) (i : nat) (p : Pool)
    : option (Pool * list (WorkerReport K)) :=
  match pl_workers p !! i with
  | Some (w, ph) =>
      if bool_decide (ph = PH_Cancelled) || bool_decide (ph = PH_Executing) then
        let out := outcome w (bool_decide (ph = PH_Cancelled)) in
        let ran := bool_decide (ph = PH_Executing) in
        let ok := ran && ao_success out in
        let bad := ran && negb (ao_success out) in
        Some (set_phase i w PH_Completed
                (mkPool (pl_stopping p) (pl_active p) (pl_total p)
                   (if ok then i64 (pl_succeeded p + 1) else pl_succeeded p)
                   (if bad then i64 (pl_failed p + 1) else pl_failed p)
                   (pl_queue p) (pl_workers p) (pl_active_tokens p)),
              match aw_on_complete w with Some k => [WR_Completed k out] | None => [] end)
      else None
  | None => None
  end.

(** The end of the loop's body. *)
Definition pool_leave (i : nat) (p : Pool) : option Pool :=
  match pl_workers p !! i with
  | Some (w, PH_Completed) =>
      Some (mkPool (pl_stopping p) (i64 (pl_active p - 1)) (pl_total p) (pl_succeeded p) (pl_failed p)
              (pl_queue p) (delete i (pl_workers p)) (delete (aw_attempt_id w) (pl_active_tokens p)))
  | _ => None
  end.

Definition pool_worker (slots : nat) (outcome : AttemptWork K → bool → AttemptOutcome)
    (tokens : Tokens) (a : WorkerAction) (p : Pool) : option (Pool * list (WorkerReport K)) :=
  match a with
  | WA_Take => (λ p, (p, [])) <$> pool_take slots p
  | WA_Start i => pool_start i p
  | WA_Check i => (λ p, (p, [])) <$> pool_check i tokens p
  | WA_Finish i => pool_finish outcome i p
  | WA_Leave i => (λ p, (p, [])) <$> pool_leave i p
  end.
End pool.
Arguments Pool : clear implicits.

(** ** The abstract class *)

Class ExecutorBackend (K B : Type) := {
  be_name : string;
  be_available : B → bool;
  be_capability : B → ExecutorCapability;
  be_can_execute : B → ComputeTask → Result bool;
  be_enqueue : AttemptWork K → B → B * Result unit;
  be_cancel_attempt : Id128 → B → Tokens → Tokens * Result unit;
  be_has_active : Id128 → B → bool;
  be_stats : B → ExecutorRuntimeStats;
  be_shutdown : bool → B → Tokens → B * Tokens;
  be_idle : B → bool;    (* the workers can be joined *)
  be_worker : RunEnv → Tokens → WorkerAction → B → option (B * list (WorkerReport K))
}.

(** ** The CPU backend *)

Definition kCpuQueue : nat := 1024.

Record CpuExecutorBackend (K : Type) := mkCpu {
  cpu_motors : Z;
  cpu_pool : Pool K
}.
Arguments mkCpu {K}. Arguments cpu_motors {K}. Arguments cpu_pool {K}.

Section cpu.
Context {K : Type}.

Definition new_cpu (worker_slots : Z) : CpuExecutorBackend K :=
  mkCpu (if 0 <? worker_slots then worker_slots else 1) new_pool.

Definition cpu_capability (b : CpuExecutorBackend K) : ExecutorCapability :=
  mkExecutorCapability EX_Cpu "cpu" (cpu_motors b) 0 0 "generic" "x64" "cpu" 0 [0] f64_1 true false.

Definition cpu_can_execute (b : CpuExecutorBackend K) (task : ComputeTask) : Result bool :=
  if negb (bool_decide (ct_required_executor task = EX_Cpu))
     && negb (bool_decide (ct_required_executor task = EX_Any_)) then Ok false
  else if negb (is_supported_cpu_kernel (ct_kernel task)) then Ok false
  else if u32 (cpu_motors b) <? ct_required_cpu_slots task then Ok false
  else Ok true.

(** The outcome of [run_one].  The polls of the kernel find the token set only if
    it is set by the time the kernel returns. *)
Definition kernel_token (env : RunEnv) (tokens : Tokens) (w : AttemptWork K) : option (nat → bool) :=
  (λ r k, re_answers env k && token_is_cancelled r tokens) <$> aw_token w.

Definition cpu_outcome (env : RunEnv) (tokens : Tokens) (w : AttemptWork K) (cancelled : bool)
    : AttemptOutcome :=
  if cancelled then
    failed_outcome FK_Cancelled AS_Cancelled "cancelled before execution" "cpu" (millis env)
  else
    let '(wr, device) := run_cpu_kernel (aw_task w) (kernel_token env tokens w) in
    if wr_success wr then
      mkAttemptOutcome true AS_Succeeded FK_None "" (wr_output wr) (wr_checksum_hex wr) (millis env)
        (wr_bytes_processed wr) device [wr_notes wr]
    else
      failed_outcome (if bool_decide (wr_notes wr = "cancelled") then FK_Cancelled else FK_ExecutorFailed)
        AS_Failed (wr_notes wr) device (millis env).

Definition on_pool {A} (b : CpuExecutorBackend K) (r : Pool K * A) : CpuExecutorBackend K * A :=
  (mkCpu (cpu_motors b) r.1, r.2).

Definition cpu_enqueue (w : AttemptWork K) (b : CpuExecutorBackend K) : CpuExecutorBackend K * Result unit :=
  on_pool b (pool_enqueue kCpuQueue "cpu" w (cpu_pool b)).
Definition cpu_cancel_attempt (id : Id128) (b : CpuExecutorBackend K) (tokens : Tokens) : Tokens * Result unit :=
  pool_cancel "cpu" id (cpu_pool b) tokens.
Definition cpu_has_active (id : Id128) (b : CpuExecutorBackend K) : bool := pool_has_active id (cpu_pool b).
Definition cpu_stats (b : CpuExecutorBackend K) : ExecutorRuntimeStats :=
  pool_stats (cpu_motors b) 0 (cpu_pool b).
Definition cpu_shutdown (drain : bool) (b : CpuExecutorBackend K) (tokens : Tokens) :=
  on_pool b (pool_shutdown drain (cpu_pool b) tokens).
(** [worker_loop] and [run_one]. *)
Definition cpu_worker (env : RunEnv) (tokens : Tokens) (a : WorkerAction) (b : CpuExecutorBackend K) :=
  on_pool b <$> pool_worker (Z.to_nat (cpu_motors b)) (cpu_outcome env tokens) tokens a (cpu_pool b).

#[export] Instance cpu_backend : ExecutorBackend K (CpuExecutorBackend K) := {|
  be_name := "cpu";
  be_available b := 0 <? cpu_motors b;
  be_capability := cpu_capability;
  be_can_execute := cpu_can_execute;
  be_enqueue := cpu_enqueue;
  be_cancel_attempt := cpu_cancel_attempt;
  be_has_active := cpu_has_active;
  be_stats := cpu_stats;
  be_shutdown := cpu_shutdown;
  be_idle b := pool_idle (cpu_pool b);
  be_worker := cpu_worker
|}.
End cpu.

(** ** The CUDA backend, when the device is there *)

Record CudaExecutorBackend (K : Type) := mkCuda {
  cu_device_ordinal : Z;
  cu_slots : Z;
  cu_queue_limit : Z;
  cu_available : bool;
  cu_device_name : string;
  cu_major : Z; cu_minor : Z;
  cu_device_memory_bytes : Z;
  cu_arch : string;
  cu_allocations : Z;          (* g_cuda_allocations *)
  cu_pool : Pool K
}.
Arguments mkCuda {K}. Arguments cu_device_ordinal {K}. Arguments cu_slots {K}.
Arguments cu_queue_limit {K}. Arguments cu_available {K}. Arguments cu_device_name {K}.
Arguments cu_major {K}. Arguments cu_minor {K}. Arguments cu_device_memory_bytes {K}.
Arguments cu_arch {K}. Arguments cu_allocations {K}. Arguments cu_pool {K}.

Definition f64_10 : Z := 0x4024000000000000.   (* 10.0 *)

(** What [cudaGetDeviceProperties] reports. *)
Record CudaDeviceProp := mkProps {
  cp_name : string; cp_major : Z; cp_minor : Z; cp_totalGlobalMem : Z
}.

(** [count] is what [cudaGetDeviceCount] reports, [None] for an error; a device
    whose properties cannot be read is left out. *)
Definition enumerate_cuda_devices (count : option nat) (props : nat → option CudaDeviceProp)
    : list ExecutorCapability :=
  match count with
  | None => []
  | Some n =>
      flat_map (λ dev,
        match props dev with
        | Some d =>
            [mkExecutorCapability EX_Cuda "cuda" 2 (cp_major d) (cp_minor d) "NVIDIA" (cp_name d) (cp_name d)
               (cp_totalGlobalMem d) [Z.of_nat dev] f64_10 true false]
        | None => []
        end) (seq 0 n)
  end.

Section cuda.
Context {K : Type}.

(** [props] is [None] when the device cannot be selected or queried. *)
Definition new_cuda (device_ordinal slots queue_limit : Z) (props : option CudaDeviceProp)
    : CudaExecutorBackend K :=
  let slots := if 0 <? slots then slots else 1 in
  let queue_limit := if 0 <? queue_limit then queue_limit else 64 in
  match props with
  | None => mkCuda device_ordinal slots queue_limit false "" 0 0 0 "" 0 new_pool
  | Some d =>
      mkCuda device_ordinal slots queue_limit true (cp_name d) (cp_major d) (cp_minor d)
        (cp_totalGlobalMem d) (cp_name d) 0 new_pool
  end.

Definition cuda_capability (b : CudaExecutorBackend K) : ExecutorCapability :=
  mkExecutorCapability EX_Cuda "cuda" (cu_slots b) (cu_major b) (cu_minor b) "NVIDIA" (cu_arch b)
    (cu_device_name b) (cu_device_memory_bytes b) [cu_device_ordinal b] f64_10 (cu_available b) false.

Definition cuda_can_execute (b : CudaExecutorBackend K) (task : ComputeTask) : Result bool :=
  if negb (cu_available b) then Ok false
  else if negb (bool_decide (ct_required_executor task = EX_Cuda)) then Ok false
  else if negb (bool_decide (ct_kernel task = KT_VectorTransform)) then Ok false
  else if (0 <? ct_min_compute_capability_major task)
          && ((cu_major b <? ct_min_compute_capability_major task)
              || ((cu_major b =? ct_min_compute_capability_major task)
                  && (cu_minor b <? ct_min_compute_capability_minor task))) then Ok false
  else Ok true.

Definition cuda_device (b : CudaExecutorBackend K) : string := "cuda:" +:+ to_string (cu_device_ordinal b).

Definition cuda_outcome (env : RunEnv) (b : CudaExecutorBackend K) (w : AttemptWork K) (cancelled : bool)
    : AttemptOutcome :=
  if cancelled then
    failed_outcome FK_Cancelled AS_Cancelled "cancelled before execution" (cuda_device b) f64_0
  else
    let r := (cuda_run_vector_transform (re_calls env) (cu_device_ordinal b) (aw_task w) (cu_allocations b)).1 in
    if cr_success r then
      mkAttemptOutcome true AS_Succeeded FK_None "" (cr_output r) (cr_integrity_hex r) (millis env)
        (cr_bytes_transferred r) (cuda_device b) []
    else failed_outcome FK_CudaError AS_Failed (cr_error_message r) (cuda_device b) (millis env).

(** The allocations after an action: only a kernel that runs makes any. *)
Definition cuda_allocations (env : RunEnv) (b : CudaExecutorBackend K) (a : WorkerAction) : Z :=
  match a with
  | WA_Finish i =>
      match pl_workers (cu_pool b) !! i with
      | Some (w, PH_Executing) =>
          (cuda_run_vector_transform (re_calls env) (cu_device_ordinal b) (aw_task w) (cu_allocations b)).2
      | _ => cu_allocations b
      end
  | _ => cu_allocations b
  end.

Definition on_cuda_pool {A} (b : CudaExecutorBackend K) (g : Z) (r : Pool K * A) : CudaExecutorBackend K * A :=
  (mkCuda (cu_device_ordinal b) (cu_slots b) (cu_queue_limit b) (cu_available b) (cu_device_name b)
     (cu_major b) (cu_minor b) (cu_device_memory_bytes b) (cu_arch b) g r.1, r.2).

Definition cuda_enqueue (w : AttemptWork K) (b : CudaExecutorBackend K) : CudaExecutorBackend K * Result unit :=
  on_cuda_pool b (cu_allocations b) (pool_enqueue (Z.to_nat (cu_queue_limit b)) "cuda" w (cu_pool b)).
Definition cuda_cancel_attempt (id : Id128) (b : CudaExecutorBackend K) (tokens : Tokens) : Tokens * Result unit :=
  pool_cancel "cuda" id (cu_pool b) tokens.
Definition cuda_has_active (id : Id128) (b : CudaExecutorBackend K) : bool := pool_has_active id (cu_pool b).
Definition cuda_stats (b : CudaExecutorBackend K) : ExecutorRuntimeStats :=
  pool_stats (cu_slots b) (cu_allocations b) (cu_pool b).
(** The calls of the CUDA runtime at its end change nothing the program reads. *)
Definition cuda_shutdown (drain : bool) (b : CudaExecutorBackend K) (tokens : Tokens) :=
  on_cuda_pool b (cu_allocations b) (pool_shutdown drain (cu_pool b) tokens).
(** [worker_loop] and [run_one]; workers exist only when the device is available. *)
Definition cuda_worker (env : RunEnv) (tokens : Tokens) (a : WorkerAction) (b : CudaExecutorBackend K) :=
  if cu_available b then
    on_cuda_pool b (cuda_allocations env b a) <$>
      pool_worker (Z.to_nat (cu_slots b)) (cuda_outcome env b) tokens a (cu_pool b)
  else None.

#[export] Instance cuda_backend : ExecutorBackend K (CudaExecutorBackend K) := {|
  be_name := "cuda";
  be_available := cu_available;
  be_capability := cuda_capability;
  be_can_execute := cuda_can_execute;
  be_enqueue := cuda_enqueue;
  be_cancel_attempt := cuda_cancel_attempt;
  be_has_active := cuda_has_active;
  be_stats := cuda_stats;
  be_shutdown := cuda_shutdown;
  be_idle b := if cu_available b then pool_idle (cu_pool b) else true;
  be_worker := cuda_worker
|}.
End cuda.

(** ** The backend of builds without CUDA (executor/cuda_stubs.cpp) *)

Record CudaStub := mkStub { stub_stopping : bool }.
Definition stub_capability : ExecutorCapability :=
  mkExecutorCapability EX_Cuda "cuda" 0 0 0 "" "" "" 0 [] f64_1 false false.

Definition stub_can_execute (b : CudaStub) (task : ComputeTask) : Result bool := Ok false.
Definition stub_enqueue {K} (w : AttemptWork K) (b : CudaStub) : CudaStub * Result unit :=
  (b, err EExecutorUnavailable "cuda not available").
Definition stub_cancel_attempt (id : Id128) (b : CudaStub) (tokens : Tokens) : Tokens * Result unit :=
  (tokens, err ETaskNotFound "cuda not available").
Definition stub_stats (b : CudaStub) : ExecutorRuntimeStats := mkExecutorRuntimeStats 0 0 0 0 0 0 0.
Definition stub_shutdown (drain : bool) (b : CudaStub) (tokens : Tokens) : CudaStub * Tokens :=
  (mkStub true, tokens).

#[export] Instance stub_backend {K} : ExecutorBackend K CudaStub := {|
  be_name := "cuda";
  be_available _ := false;
  be_capability _ := stub_capability;
  be_can_execute := stub_can_execute;
  be_enqueue := stub_enqueue;
  be_cancel_attempt := stub_cancel_attempt;
  be_has_active _ _ := false;
  be_stats := stub_stats;
  be_shutdown := stub_shutdown;
  be_idle _ := true;
  be_worker _ _ _ _ := None
|}.

(** ** What the node runtime relies on *)

(** Work whose [on_complete] has not been called, and the part of it whose
    [on_start] has. *)
Class BackendLaws (K B : Type) `{ExecutorBackend K B} := {
  be_pending : B → list (AttemptWork K);
  be_begun : B → list (AttemptWork K);
  law_enqueue w b :
    let '(b', r) := be_enqueue w b in
    be_begun b' = be_begun b ∧
    match r with Ok _ => be_pending b' ≡ₚ w :: be_pending b | Err _ => be_pending b' = be_pending b end;
  law_shutdown drain b tokens :
    let '(b', _) := be_shutdown drain b tokens in be_pending b' = be_pending b ∧ be_begun b' = be_begun b;
  law_worker env tokens a b b' reports :
    be_worker env tokens a b = Some (b', reports) →
    (reports = [] ∧ be_pending b' ≡ₚ be_pending b ∧ be_begun b' ≡ₚ be_begun b) ∨
    (∃ w, w ∈ be_pending b ∧ reports = from_option (λ k, [WR_Started k]) [] (aw_on_start w) ∧
       be_pending b' ≡ₚ be_pending b ∧ be_begun b' ≡ₚ w :: be_begun b) ∨
    (∃ w out, reports = from_option (λ k, [WR_Completed k out]) [] (aw_on_complete w) ∧
       be_pending b ≡ₚ w :: be_pending b' ∧ be_begun b ≡ₚ w :: be_begun b')
}.

Section pool_laws.
Context {K : Type}.
Implicit Types (p : Pool K) (w : AttemptWork K).

Definition in_phase (P : Phase → Prop) `{∀ ph, Decision (P ph)} (l : list (AttemptWork K * Phase))
    : list (AttemptWork K) := (filter (λ x, P x.2) l).*1.
Definition uncompleted (ph : Phase) : Prop := ph ≠ PH_Completed.
Definition begun (ph : Phase) : Prop := ph ≠ PH_Taken ∧ ph ≠ PH_Completed.
#[local] Instance uncompleted_dec ph : Decision (uncompleted ph).
Proof. unfold uncompleted. apply _. Defined.
#[local] Instance begun_dec ph : Decision (begun ph).
Proof. unfold begun. apply _. Defined.

Definition pool_pending p : list (AttemptWork K) := pl_queue p ++ in_phase uncompleted (pl_workers p).
Definition pool_begun p : list (AttemptWork K) := in_phase begun (pl_workers p).

#[local] Instance in_phase_perm P `{∀ ph, Decision (P ph)} :
  Proper ((≡ₚ) ==> (≡ₚ)) (in_phase P).
Proof. intros l k E. unfold in_phase. by rewrite E. Qed.

Lemma in_phase_cons P `{∀ ph, Decision (P ph)} w ph l :
  in_phase P ((w, ph) :: l) = if decide (P ph) then w :: in_phase P l else in_phase P l.
Proof. unfold in_phase. rewrite filter_cons. cbn [snd]. by case_decide. Qed.

Lemma list_delete_insert {A} (l : list A) i x : delete i (<[i := x]> l) = delete i l.
Proof. revert i. induction l as [|y l IH]; intros [|i]; cbn; [done..|]. f_equal. apply IH. Qed.

Lemma in_phase_set P `{∀ ph, Decision (P ph)} i w ph ph' l :
  l !! i = Some (w, ph) →
  ∃ rest, in_phase P l ≡ₚ (if decide (P ph) then w :: rest else rest) ∧
    in_phase P (<[i := (w, ph')]> l) ≡ₚ (if decide (P ph') then w :: rest else rest).
Proof.
  intros Hi. exists (in_phase P (delete i l)). rewrite <-!in_phase_cons. split.
  - by rewrite <-(delete_Permutation l i _ Hi).
  - rewrite (delete_Permutation (<[i := (w, ph')]> l) i (w, ph')).
    2:{ apply list_lookup_insert_eq. by eapply lookup_lt_Some. }
    by rewrite list_delete_insert.
Qed.

(** One action of a worker. *)
Lemma pool_worker_law slots outcome tokens a p p' reports :
  pool_worker slots outcome tokens a p = Some (p', reports) →
  (reports = [] ∧ pool_pending p' ≡ₚ pool_pending p ∧ pool_begun p' ≡ₚ pool_begun p) ∨
  (∃ w, w ∈ pool_pending p ∧ reports = from_option (λ k, [WR_Started k]) [] (aw_on_start w) ∧
     pool_pending p' ≡ₚ pool_pending p ∧ pool_begun p' ≡ₚ w :: pool_begun p) ∨
  (∃ w out, reports = from_option (λ k, [WR_Completed k out]) [] (aw_on_complete w) ∧
     pool_pending p ≡ₚ w :: pool_pending p' ∧ pool_begun p ≡ₚ w :: pool_begun p').
Proof.
  unfold pool_pending, pool_begun. destruct a as [|i|i|i|i]; cbn [pool_worker].
  - unfold pool_take. destruct (pl_queue p) as [|w queue]; [done|]. case_match; [|done].
    intros [= <- <-]. left. cbn [pl_queue pl_workers]. split_and!; [done| |].
    + rewrite (Permutation_app_comm (pl_workers p)). cbn [app]. rewrite in_phase_cons.
      rewrite decide_True by done. apply Permutation_sym, Permutation_cons_app, Permutation_refl.
    + rewrite (Permutation_app_comm (pl_workers p)). cbn [app]. rewrite in_phase_cons.
      rewrite decide_False; [done|]. by intros [? _].
  - unfold pool_start. destruct (pl_workers p !! i) as [[w []]|] eqn:Hi; try done. intros [= <- <-].
    right; left. exists w. cbn [set_phase pl_queue pl_workers]. split.
    { apply elem_of_app. right. apply list_elem_of_fmap. exists (w, PH_Taken). split; [done|].
      apply list_elem_of_filter. split; [done|]. by eapply list_elem_of_lookup_2. }
    split; [by destruct (aw_on_start w)|].
    destruct (in_phase_set uncompleted i w PH_Taken PH_Started _ Hi) as (r1 & -> & ->).
    destruct (in_phase_set begun i w PH_Taken PH_Started _ Hi) as (r2 & -> & ->).
    rewrite !(decide_True (P := uncompleted _)) by done.
    rewrite decide_True by done. rewrite decide_False; [done|]. by intros [? _].
  - unfold pool_check. destruct (pl_workers p !! i) as [[w []]|] eqn:Hi; try done. intros [= <- <-].
    left. cbn [set_phase pl_queue pl_workers]. split; [done|]. set (ph := if _ : bool then _ else _).
    assert (Hph : uncompleted ph ∧ begun ph) by (unfold ph; by case_match).
    destruct (in_phase_set uncompleted i w PH_Started ph _ Hi) as (r1 & -> & ->).
    destruct (in_phase_set begun i w PH_Started ph _ Hi) as (r2 & -> & ->).
    rewrite !decide_True by (done || tauto). done.
  - unfold pool_finish. destruct (pl_workers p !! i) as [[w ph]|] eqn:Hi; [|done].
    destruct (bool_decide (ph = PH_Cancelled) || bool_decide (ph = PH_Executing)) eqn:Hp; [|done].
    assert (Hph : uncompleted ph ∧ begun ph).
    { apply orb_prop in Hp as [->%bool_decide_eq_true| ->%bool_decide_eq_true]; done. }
    intros [= <- <-]. right; right. exists w, (outcome w (bool_decide (ph = PH_Cancelled))).
    cbn [set_phase pl_queue pl_workers]. split; [by destruct (aw_on_complete w)|].
    destruct (in_phase_set uncompleted i w ph PH_Completed _ Hi) as (r1 & -> & ->).
    destruct (in_phase_set begun i w ph PH_Completed _ Hi) as (r2 & -> & ->).
    rewrite (decide_True (P := uncompleted ph)), (decide_True (P := begun ph)) by tauto.
    rewrite !decide_False by (intros Hc; by destruct Hc). split; [|done].
    apply Permutation_sym, Permutation_cons_app, Permutation_refl.
  - unfold pool_leave. destruct (pl_workers p !! i) as [[w []]|] eqn:Hi; try done. intros [= <- <-].
    left. cbn [pl_queue pl_workers]. pose proof (delete_Permutation (pl_workers p) i _ Hi) as E.
    set (rest := delete i (pl_workers p)) in *. rewrite E, !in_phase_cons.
    by rewrite !decide_False by (intros Hc; by destruct Hc).
Qed.

Lemma pool_enqueue_law limit who w p :
  let '(p', r) := pool_enqueue limit who w p in
  pool_begun p' = pool_begun p ∧
  match r with Ok _ => pool_pending p' ≡ₚ w :: pool_pending p | Err _ => pool_pending p' = pool_pending p end.
Proof.
  unfold pool_enqueue. repeat case_match; simplify_eq; try done. split; [done|].
  unfold pool_pending. cbn [pl_queue pl_workers]. rewrite <-app_assoc. cbn [app].
  apply Permutation_sym, Permutation_cons_app, Permutation_refl.
Qed.

Lemma pool_shutdown_law drain p tokens :
  let '(p', _) := pool_shutdown drain p tokens in pool_pending p' = pool_pending p ∧ pool_begun p' = pool_begun p.
Proof. unfold pool_shutdown. by destruct (pl_stopping p). Qed.

#[export] Program Instance cpu_laws : BackendLaws K (CpuExecutorBackend K) := {|
  be_pending b := pool_pending (cpu_pool b);
  be_begun b := pool_begun (cpu_pool b)
|}.
Next Obligation.
  intros w b. cbn [be_enqueue cpu_backend]. unfold cpu_enqueue, on_pool. pose proof (pool_enqueue_law kCpuQueue "cpu" w (cpu_pool b)) as H.
  by destruct (pool_enqueue _ _ _ _).
Qed.
Next Obligation.
  intros drain b tokens. cbn [be_shutdown cpu_backend]. unfold cpu_shutdown, on_pool.
  pose proof (pool_shutdown_law drain (cpu_pool b) tokens) as H. by destruct (pool_shutdown _ _ _).
Qed.
Next Obligation.
  intros env tokens a b b' reports. cbn [be_worker cpu_backend]. unfold cpu_worker.
  destruct (pool_worker _ _ _ _ _) as [[p' rs]|] eqn:E; [|done]. intros [= <- <-].
  exact (pool_worker_law _ _ _ _ _ _ _ E).
Qed.

#[export] Program Instance cuda_laws : BackendLaws K (CudaExecutorBackend K) := {|
  be_pending b := pool_pending (cu_pool b);
  be_begun b := pool_begun (cu_pool b)
|}.
Next Obligation.
  intros w b. cbn [be_enqueue cuda_backend]. unfold cuda_enqueue, on_cuda_pool.
  pose proof (pool_enqueue_law (Z.to_nat (cu_queue_limit b)) "cuda" w (cu_pool b)) as H.
  by destruct (pool_enqueue _ _ _ _).
Qed.
Next Obligation.
  intros drain b tokens. cbn [be_shutdown cuda_backend]. unfold cuda_shutdown, on_cuda_pool.
  pose proof (pool_shutdown_law drain (cu_pool b) tokens) as H. by destruct (pool_shutdown _ _ _).
Qed.
Next Obligation.
  intros env tokens a b b' reports. cbn [be_worker cuda_backend]. unfold cuda_worker. case_match; [|done].
  destruct (pool_worker _ _ _ _ _) as [[p' rs]|] eqn:E; [|done]. intros [= <- <-].
  exact (pool_worker_law _ _ _ _ _ _ _ E).
Qed.

#[export] Program Instance stub_laws : BackendLaws K CudaStub := {|
  be_pending _ := []; be_begun _ := []
|}.
Solve All Obligations with done.
End pool_laws.

(** ** Runs of the CPU backend *)

(** What can happen to a backend: work arrives, a worker acts, somebody cancels an
    attempt or requests a token, shutdown. *)
Inductive BackendEvent (K : Type) :=
| BE_Enqueue (w : AttemptWork K)
| BE_Worker (env : RunEnv) (a : WorkerAction)
| BE_Cancel (id : Id128)
| BE_Request (r : TokenRef)
| BE_Shutdown (drain : bool).
Arguments BE_Enqueue {K}. Arguments BE_Worker {K}. Arguments BE_Cancel {K}.
Arguments BE_Request {K}. Arguments BE_Shutdown {K}.

(** The backend with the tokens, the work it has accepted and the callbacks made. *)
Record BackendRun (K B : Type) := mkRun {
  rn_backend : B;
  rn_tokens : Tokens;
  rn_accepted : list (AttemptWork K);
  rn_reports : list (WorkerReport K)
}.
Arguments mkRun {K B}. Arguments rn_backend {K B}. Arguments rn_tokens {K B}.
Arguments rn_accepted {K B}. Arguments rn_reports {K B}.

Section runs.
Context {K B : Type} `{ExecutorBackend K B}.

Definition backend_event (e : BackendEvent K) (s : BackendRun K B) : BackendRun K B :=
  match e with
  | BE_Enqueue w =>
      let '(b, r) := be_enqueue w (rn_backend s) in
      mkRun b (rn_tokens s) (if failed r then rn_accepted s else rn_accepted s ++ [w]) (rn_reports s)
  | BE_Worker env a =>
      match be_worker env (rn_tokens s) a (rn_backend s) with
      | Some (b, reports) => mkRun b (rn_tokens s) (rn_accepted s) (rn_reports s ++ reports)
      | None => s
      end
  | BE_Cancel id =>
      mkRun (rn_backend s) (be_cancel_attempt id (rn_backend s) (rn_tokens s)).1 (rn_accepted s) (rn_reports s)
  | BE_Request r => mkRun (rn_backend s) (token_request r (rn_tokens s)) (rn_accepted s) (rn_reports s)
  | BE_Shutdown drain =>
      let '(b, tokens) := be_shutdown drain (rn_backend s) (rn_tokens s) in
      mkRun b tokens (rn_accepted s) (rn_reports s)
  end.
Definition backend_run (es : list (BackendEvent K)) (s : BackendRun K B) : BackendRun K B :=
  foldl (λ s e, backend_event e s) s es.

Definition started_keys (rs : list (WorkerReport K)) : list K :=
  flat_map (λ r, match r with WR_Started k => [k] | WR_Completed _ _ => [] end) rs.
Definition completed_keys (rs : list (WorkerReport K)) : list K :=
  flat_map (λ r, match r with WR_Completed k _ => [k] | WR_Started _ => [] end) rs.
Definition start_keys (ws : list (AttemptWork K)) : list K := flat_map (λ w, option_list (aw_on_start w)) ws.
Definition complete_keys (ws : list (AttemptWork K)) : list K := flat_map (λ w, option_list (aw_on_complete w)) ws.

#[local] Instance flat_map_perm {A C} (f : A → list C) : Proper ((≡ₚ) ==> (≡ₚ)) (flat_map f).
Proof. intros l k E. by apply Permutation_flat_map. Qed.

(** Accounting: the accepted work is finished or pending; [on_complete] has been
    called once for the finished work, [on_start] for it and for begun work. *)
Definition accounted `{!BackendLaws K B} (s : BackendRun K B) : Prop :=
  ∃ finished : list (AttemptWork K),
    rn_accepted s ≡ₚ finished ++ be_pending (rn_backend s) ∧
    completed_keys (rn_reports s) ≡ₚ complete_keys finished ∧
    started_keys (rn_reports s) ≡ₚ start_keys (finished ++ be_begun (rn_backend s)).

Lemma flat_map_started l k :
  started_keys (l ++ from_option (λ k, [WR_Started k]) [] k) = started_keys l ++ option_list k.
Proof. unfold started_keys. rewrite flat_map_app. by destruct k. Qed.
Lemma flat_map_completed l k out :
  completed_keys (l ++ from_option (λ k, [WR_Completed k out]) [] k) = completed_keys l ++ option_list k.
Proof. unfold completed_keys. rewrite flat_map_app. by destruct k. Qed.
Lemma started_completed l k out :
  started_keys (l ++ from_option (λ k, [WR_Completed k out]) [] k) = started_keys l.
Proof. unfold started_keys. rewrite flat_map_app. destruct k; cbn; by rewrite app_nil_r. Qed.
Lemma completed_started l k :
  completed_keys (l ++ from_option (λ k, [WR_Started k]) [] k) = completed_keys l.
Proof. unfold completed_keys. rewrite flat_map_app. destruct k; cbn; by rewrite app_nil_r. Qed.

Lemma backend_event_accounted `{!BackendLaws K B} e (s : BackendRun K B) :
  accounted s → accounted (backend_event e s).
Proof.
  intros (fin & Ha & Hc & Hs). destruct s as [b tokens acc reports].
  cbn [rn_accepted rn_backend rn_reports] in *. destruct e as [w|env a|id|r|drain];
    cbn [backend_event rn_backend rn_tokens rn_accepted rn_reports].
  - pose proof (law_enqueue w b) as Hl. destruct (be_enqueue w b) as [b' r]. destruct Hl as [Hb Hp].
    exists fin. cbn [rn_accepted rn_backend rn_reports]. rewrite Hb. split; [|done].
    destruct r; cbn [failed is_ok negb]; [|by rewrite Hp]. rewrite Hp, Ha.
    rewrite <-app_assoc. apply Permutation_app_head. by rewrite Permutation_app_comm.
  - destruct (be_worker env tokens a b) as [[b' rs]|] eqn:E; [|by exists fin].
    destruct (law_worker env tokens a b b' rs E) as [(-> & Hp & Hb)|[(w & _ & -> & Hp & Hb)|(w & out & -> & Hp & Hb)]].
    + exists fin. cbn [rn_accepted rn_backend rn_reports]. rewrite app_nil_r, Hp.
      split_and!; [done..|]. unfold start_keys. rewrite !flat_map_app, Hb, <-flat_map_app. done.
    + exists fin. cbn [rn_accepted rn_backend rn_reports].
      rewrite completed_started, flat_map_started, Hp. split_and!; [done..|].
      rewrite Hs. unfold start_keys. rewrite !flat_map_app, Hb. cbn [flat_map].
      rewrite <-app_assoc. apply Permutation_app_head, Permutation_app_comm.
    + exists (w :: fin). cbn [rn_accepted rn_backend rn_reports].
      rewrite flat_map_completed, started_completed. split_and!.
      * rewrite Ha, Hp. apply Permutation_sym, Permutation_cons_app, Permutation_refl.
      * rewrite Hc. unfold complete_keys. cbn [flat_map]. apply Permutation_app_comm.
      * rewrite Hs. unfold start_keys. cbn [app flat_map]. rewrite !flat_map_app, Hb. cbn [flat_map].
        rewrite !app_assoc. apply Permutation_app_tail, Permutation_app_comm.
  - by exists fin.
  - by exists fin.
  - pose proof (law_shutdown drain b tokens) as Hl. destruct (be_shutdown drain b tokens) as [b' tk].
    destruct Hl as [Hp Hb]. exists fin. cbn [rn_accepted rn_backend rn_reports]. by rewrite Hp, Hb.
Qed.

Lemma backend_run_accounted `{!BackendLaws K B} es (s : BackendRun K B) :
  accounted s → accounted (backend_run es s).
Proof.
  revert s. induction es as [|e es IH]; intros s Hs; [done|]. by apply IH, backend_event_accounted.
Qed.
End runs.

Section bounds.
Context {K : Type}.
Implicit Types (p : Pool K) (ws : list (AttemptWork K * Phase)).

(** The number of workers inside [run_one]. *)
Definition inside (ph : Phase) : nat := match ph with PH_Taken => 0 | _ => 1 end.
(** The actions a worker still has to make. *)
Definition to_go (ph : Phase) : nat :=
  match ph with PH_Taken => 4 | PH_Started => 3 | PH_Cancelled | PH_Executing => 2 | PH_Completed => 1 end.
Definition over (f : Phase → nat) ws : nat := sum_list_with (λ x, f x.2) ws.

Lemma over_cons f w ph ws : over f ((w, ph) :: ws) = (f ph + over f ws)%nat.
Proof. done. Qed.
Lemma over_at f ws i w ph : ws !! i = Some (w, ph) → over f ws = (f ph + over f (delete i ws))%nat.
Proof.
  intros Hi. pose proof (delete_Permutation ws i _ Hi) as E. set (r := delete i ws) in *.
  rewrite <-(over_cons f w). unfold over. by rewrite E.
Qed.
Lemma over_set f ws i w ph ph' :
  ws !! i = Some (w, ph) → over f (<[i := (w, ph')]> ws) = (f ph' + over f (delete i ws))%nat.
Proof.
  intros Hi. rewrite (over_at f _ i w ph'), list_delete_insert; [done|].
  apply list_lookup_insert_eq. by eapply lookup_lt_Some.
Qed.
Lemma over_app f ws k : over f (ws ++ k) = (over f ws + over f k)%nat.
Proof. apply sum_list_with_app. Qed.
Lemma over_inside ws : (over inside ws <= length ws)%nat.
Proof.
  induction ws as [|[w ph] ws IH]; [done|]. rewrite over_cons. cbn [length]. destruct ph; cbn [inside]; lia.
Qed.

Record pool_ok (limit slots : nat) p : Prop := {
  po_queue : (length (pl_queue p) <= limit)%nat;
  po_workers : (length (pl_workers p) <= slots)%nat;
  po_active : pl_active p = Z.of_nat (over inside (pl_workers p))
}.

Definition pool_measure p : nat := (5 * length (pl_queue p) + over to_go (pl_workers p))%nat.

Lemma phase_move limit slots p i w ph ph' act tot suc fal :
  pl_workers p !! i = Some (w, ph) → (to_go ph' < to_go ph)%nat →
  (pool_ok limit slots p → act + Z.of_nat (inside ph) = pl_active p + Z.of_nat (inside ph')) →
  let p' := set_phase i w ph' (mkPool (pl_stopping p) act tot suc fal (pl_queue p) (pl_workers p)
                                 (pl_active_tokens p)) in
  (pool_ok limit slots p → pool_ok limit slots p') ∧ (pool_measure p' < pool_measure p)%nat.
Proof.
  intros Hi Hg Ha p'. unfold pool_measure, p'. cbn [set_phase pl_queue pl_workers].
  rewrite (over_set to_go _ _ _ _ _ Hi), (over_at to_go _ _ _ _ Hi). split; [|lia].
  intros Hok. specialize (Ha Hok). destruct Hok as [H1 H2 H3].
  split; cbn [set_phase pl_queue pl_workers pl_active]; [done|by rewrite length_insert|].
  rewrite (over_set inside _ _ _ _ _ Hi). rewrite (over_at inside _ _ _ _ Hi) in H3. lia.
Qed.

Lemma active_range limit slots p d :
  Z.of_nat slots < 4294967296 → pool_ok limit slots p → -1 <= d <= 1 → 0 <= pl_active p + d →
  i64 (pl_active p + d) = pl_active p + d.
Proof.
  intros Hs [_ Hw Ha] Hd Hp. pose proof (over_inside (pl_workers p)). unfold i64, u64.
  rewrite Z.mod_small by lia. destruct (Z.ltb_spec (pl_active p + d) 9223372036854775808); lia.
Qed.

Lemma pool_take_ok limit slots p p' :
  pool_take slots p = Some p' →
  (pool_ok limit slots p → pool_ok limit slots p') ∧ (pool_measure p' < pool_measure p)%nat.
Proof.
  unfold pool_take, pool_measure. destruct (pl_queue p) as [|w queue] eqn:Eq; [done|].
  destruct (Nat.ltb_spec (length (pl_workers p)) slots); [|done]. intros [= <-].
  cbn [pl_queue pl_workers]. rewrite over_app. cbn [length over sum_list_with to_go snd].
  split; [|lia]. intros [H1 H2 H3]. rewrite Eq in H1. cbn [length] in H1.
  split; cbn [pl_queue pl_workers pl_active]; [lia|rewrite length_app; cbn; lia|].
  rewrite over_app. cbn [over sum_list_with inside snd]. lia.
Qed.

Lemma pool_leave_ok limit slots i p p' :
  Z.of_nat slots < 4294967296 → pool_leave i p = Some p' →
  (pool_ok limit slots p → pool_ok limit slots p') ∧ (pool_measure p' < pool_measure p)%nat.
Proof.
  intros Hslots. unfold pool_leave, pool_measure.
  destruct (pl_workers p !! i) as [[w []]|] eqn:Hi; try done. intros [= <-].
  cbn [pl_queue pl_workers]. rewrite (over_at to_go _ _ _ _ Hi). cbn [to_go]. split; [|lia].
  intros Hok. pose proof (active_range limit slots p (-1) Hslots Hok) as Hr. destruct Hok as [H1 H2 H3].
  pose proof (delete_Permutation _ _ _ Hi) as El%Permutation_length. cbn [length] in El.
  rewrite (over_at inside _ _ _ _ Hi) in H3. cbn [inside] in H3.
  split; cbn [pl_queue pl_workers pl_active]; [done|lia|].
  change (pl_active p - 1) with (pl_active p + -1). rewrite Hr; lia.
Qed.

Lemma pool_worker_ok limit slots outcome tokens a p p' reports :
  Z.of_nat slots < 4294967296 →
  pool_worker slots outcome tokens a p = Some (p', reports) →
  (pool_ok limit slots p → pool_ok limit slots p') ∧ (pool_measure p' < pool_measure p)%nat.
Proof.
  intros Hslots Hw. destruct a as [|i|i|i|i]; cbn [pool_worker] in Hw.
  - destruct (pool_take slots p) eqn:E; [|done]. injection Hw as <- <-. by apply pool_take_ok.
  - unfold pool_start in Hw. destruct (pl_workers p !! i) as [[w []]|] eqn:Hi; try done. injection Hw as <- <-.
    apply (phase_move _ _ _ _ _ PH_Taken); [done|cbn; lia|]. intros Hok. cbn [inside].
    rewrite (active_range limit slots p 1); [lia|done..|lia|]. rewrite (po_active _ _ _ Hok). lia.
  - unfold pool_check in Hw. destruct (pl_workers p !! i) as [[w []]|] eqn:Hi; try done. injection Hw as <- <-.
    destruct p. apply (phase_move _ _ (mkPool _ _ _ _ _ _ _ _) _ _ PH_Started); [done|case_match; cbn; lia|].
    intros _. by case_match.
  - unfold pool_finish in Hw. destruct (pl_workers p !! i) as [[w ph]|] eqn:Hi; [|done].
    destruct (bool_decide (ph = PH_Cancelled) || bool_decide (ph = PH_Executing)) eqn:Hp; [|done].
    injection Hw as <- <-. apply orb_prop in Hp as [->%bool_decide_eq_true| ->%bool_decide_eq_true];
      (eapply phase_move; [done|cbn; lia|done]).
  - destruct (pool_leave i p) eqn:E; [|done]. injection Hw as <- <-. by apply (pool_leave_ok _ _ i).
Qed.

(** A pool that is not idle has a worker that can act. *)
Lemma pool_live slots outcome tokens p :
  (0 < slots)%nat → pool_idle p = false → ∃ a r, pool_worker slots outcome tokens a p = Some r.
Proof.
  intros Hs Hi. unfold pool_idle in Hi. destruct (pl_workers p) as [|[w ph] ws] eqn:Ew.
  - destruct (pl_queue p) as [|w q] eqn:Eq; [done|]. exists WA_Take. cbn [pool_worker]. unfold pool_take.
    rewrite Eq, Ew. cbn [length]. destruct slots; [lia|]. by eexists.
  - destruct ph; [exists (WA_Start 0)|exists (WA_Check 0)|exists (WA_Finish 0)..|exists (WA_Leave 0)];
      cbn [pool_worker]; unfold pool_start, pool_check, pool_finish, pool_leave; rewrite Ew; by eexists.
Qed.
End bounds.

Section cpu_runs.
Context {K : Type}.
Implicit Types (b : CpuExecutorBackend K).

Record cpu_ok b : Prop := {
  ck_motors : 0 < cpu_motors b < 4294967296;
  ck_pool : pool_ok kCpuQueue (Z.to_nat (cpu_motors b)) (cpu_pool b)
}.

Lemma cpu_worker_ok env tokens a b b' r :
  cpu_ok b → be_worker env tokens a b = Some (b', r) →
  cpu_ok b' ∧ (pool_measure (cpu_pool b') < pool_measure (cpu_pool b))%nat.
Proof.
  intros [Hm Hp]. cbn [be_worker cpu_backend]. unfold cpu_worker.
  destruct (pool_worker _ _ _ _ _) as [[p' rs]|] eqn:E; [|done]. intros [= <- <-].
  apply (pool_worker_ok kCpuQueue) in E as [Hok Hd]; [|lia]. split; [|done]. split; [done|]. by apply Hok.
Qed.

(** The workers make finitely many actions. *)
Lemma cpu_worker_wf b :
  cpu_ok b → Acc (λ b' b, ∃ env ts a r, be_worker env ts a b = Some (b', r)) b.
Proof.
  remember (pool_measure (cpu_pool b)) as n eqn:En. revert b En.
  induction (lt_wf n) as [n _ IH]. intros b -> Hok. constructor. intros b' (env & ts & a & r & E).
  destruct (cpu_worker_ok _ _ _ _ _ _ Hok E) as [Hok' Hlt]. by eapply IH.
Qed.

Lemma cpu_event_ok e (s : BackendRun K (CpuExecutorBackend K)) :
  cpu_ok (rn_backend s) → cpu_ok (rn_backend (backend_event e s)).
Proof.
  destruct s as [b tokens acc reports]. cbn [rn_backend]. intros Hok.
  destruct e as [w|env a|id|r|drain]; cbn [backend_event rn_backend rn_tokens]; [| |done..|].
  - cbn [be_enqueue cpu_backend]. unfold cpu_enqueue, pool_enqueue. destruct Hok as [Hm [H1 H2 H3]].
    destruct (pl_stopping (cpu_pool b)); [by split; [|split]|].
    destruct (Nat.leb_spec kCpuQueue (length (pl_queue (cpu_pool b)))); [by split; [|split]|].
    split; [done|]. split; cbn [rn_backend on_pool fst cpu_pool pl_queue pl_workers pl_active]; [|done..].
    rewrite length_app. cbn [length]. lia.
  - destruct (be_worker env tokens a b) as [[b' rs]|] eqn:E; [|done].
    by apply cpu_worker_ok in E as [? _].
  - cbn [be_shutdown cpu_backend]. unfold cpu_shutdown, pool_shutdown. destruct Hok as [Hm [H1 H2 H3]].
    destruct (pl_stopping (cpu_pool b)); by split; [|split].
Qed.

Lemma cpu_run_ok es (s : BackendRun K (CpuExecutorBackend K)) :
  cpu_ok (rn_backend s) → cpu_ok (rn_backend (backend_run es s)).
Proof. revert s. induction es as [|e es IH]; intros s Hs; [done|]. by apply IH, cpu_event_ok. Qed.

Definition fresh_cpu (slots : Z) (tokens : Tokens) : BackendRun K (CpuExecutorBackend K) :=
  mkRun (new_cpu slots) tokens [] [].

Lemma fresh_cpu_ok slots tokens :
  is_i32 slots → cpu_ok (rn_backend (fresh_cpu slots tokens)) ∧ accounted (fresh_cpu slots tokens).
Proof.
  intros Hs. split.
  - split; cbn [fresh_cpu rn_backend new_cpu cpu_motors cpu_pool].
    + unfold is_i32 in Hs. destruct (Z.ltb_spec 0 slots); lia.
    + split; cbn; lia.
  - by exists [].
Qed.

(** Without pending work nothing is left to report. *)
Lemma idle_pending b : be_idle b = true → be_pending b = [] ∧ be_begun b = [].
Proof.
  cbn [be_idle be_pending be_begun cpu_backend cpu_laws]. unfold pool_idle, pool_pending, pool_begun.
  by destruct (pl_queue _), (pl_workers _).
Qed.
End cpu_runs.

(** ** Claims *)

(** C23: the CPU executor runs what it accepts, once.  Over every interleaving of
    arriving work, workers, cancellations and shutdown its queue and its workers
    stay within their bounds, the active count it reports is the number of workers
    inside [run_one] and never exceeds the slots, and the accepted work is exactly
    the work that has been finished, with one call of [on_start] and one of
    [on_complete] each, and the pending work. *)
Theorem cpu_executor_sound {K} (slots : Z) (tokens : Tokens) (es : list (BackendEvent K)) :
  is_i32 slots →
  let s := backend_run es (fresh_cpu slots tokens) in
  let b := rn_backend s in
  (length (pl_queue (cpu_pool b)) <= 1024)%nat ∧
  Z.of_nat (length (pl_workers (cpu_pool b))) <= cpu_motors b ∧
  es_active (be_stats b) = Z.of_nat (over inside (pl_workers (cpu_pool b))) ∧
  es_active (be_stats b) <= es_max_slots (be_stats b) ∧
  ∃ finished, rn_accepted s ≡ₚ finished ++ be_pending b ∧
    completed_keys (rn_reports s) ≡ₚ complete_keys finished ∧
    started_keys (rn_reports s) ≡ₚ start_keys (finished ++ be_begun b).
Proof.
  intros Hs s b. destruct (fresh_cpu_ok (K := K) slots tokens Hs) as [Hok Hacc].
  apply (cpu_run_ok es) in Hok. apply (backend_run_accounted es) in Hacc. fold s in Hok, Hacc. fold b in Hok.
  destruct Hok as [Hm [H1 H2 H3]]. pose proof (over_inside (pl_workers (cpu_pool b))).
  cbn [be_stats cpu_backend cpu_stats pool_stats es_active es_max_slots].
  rewrite !(u32_id _) by (unfold is_u32; lia). split_and!; [done|lia|done|lia|done].
Qed.

(** C24: the executor finishes.  From every reachable state the workers make only
    finitely many actions, as long as there is pending work some worker can act,
    and when none is left (shutdown can join the workers) [on_complete] has been
    called for exactly the accepted work and no worker is counted as active. *)
Theorem cpu_executor_drains {K} (slots : Z) (tokens : Tokens) (es : list (BackendEvent K)) :
  is_i32 slots →
  let s := backend_run es (fresh_cpu slots tokens) in
  let b := rn_backend s in
  Acc (λ b' b, ∃ env ts a r, be_worker env ts a b = Some (b', r)) b ∧
  (∀ env ts, be_idle b = false → ∃ a r, be_worker env ts a b = Some r) ∧
  (be_idle b = true → completed_keys (rn_reports s) ≡ₚ complete_keys (rn_accepted s) ∧
     es_active (be_stats b) = 0).
Proof.
  intros Hs s b. destruct (fresh_cpu_ok (K := K) slots tokens Hs) as [Hok Hacc].
  apply (cpu_run_ok es) in Hok. apply (backend_run_accounted es) in Hacc. fold s in Hok, Hacc. fold b in Hok.
  split_and!.
  - by apply cpu_worker_wf.
  - intros env ts Hi. destruct Hok as [Hm _]. cbn [be_worker cpu_backend be_idle] in *. unfold cpu_worker.
    destruct (pool_live (Z.to_nat (cpu_motors b)) (cpu_outcome env ts) ts (cpu_pool b)) as (a & r & E); [lia|done|].
    exists a. rewrite E. by eexists.
  - intros Hi. destruct Hacc as (fin & Ha & Hc & _). destruct (idle_pending b Hi) as [Ep _].
    fold b in Ha. rewrite Ep, app_nil_r in Ha. split.
    + rewrite Hc. unfold complete_keys. by apply Permutation_flat_map, Permutation_sym.
    + destruct Hok as [_ [_ _ H3]]. cbn [be_stats cpu_backend cpu_stats pool_stats es_active]. rewrite H3.
      cbn [be_idle cpu_backend] in Hi. unfold pool_idle in Hi.
      by destruct (pl_queue _), (pl_workers _).
Qed.

(** Sample run: two items, one of them cancelled before it runs, on one worker. *)
Definition sample_env : RunEnv := mkRunEnv (λ _, false) (healthy_device []) 0 1500.
Definition sample_work (k : nat) : AttemptWork nat :=
  let task := mkComputeTask (mkId 0 (Z.of_nat k)) id_zero "" TC_Generic EX_Cpu 0 0 1 1 0 [] [] 0 0
                f64_tenth false 0 PR_Normal default_retry [] [] [] [] "" None None f64_0 f64_0 f64_0
                false KT_Checksum 3 0 0 5 ∅ [] in
  mkAttemptWork task (mkId 1 (Z.of_nat k)) (mkId 2 2) (mkId 3 (Z.of_nat k)) 1 (Some k) 0 (Some k) (Some k).
Definition one_item : list (BackendEvent nat) :=
  map (BE_Worker sample_env) [WA_Take; WA_Start 0; WA_Check 0; WA_Finish 0; WA_Leave 0].
Definition sample_events : list (BackendEvent nat) :=
  [BE_Enqueue (sample_work 0); BE_Enqueue (sample_work 1); BE_Cancel (mkId 1 1); BE_Shutdown true]
  ++ one_item ++ one_item.

Example sample_outcomes :
  flat_map (λ r, match r with WR_Completed k out => [(k, ao_state out)] | WR_Started _ => [] end)
    (rn_reports (backend_run sample_events (fresh_cpu 1 [false; false])))
  = [(0%nat, AS_Succeeded); (1%nat, AS_Cancelled)].
Proof. vm_compute. reflexivity. Qed.

Lemma cpu_executor_sound_witness :
  es_active (be_stats (rn_backend (backend_run sample_events (fresh_cpu 1 [false; false])))) <= 1.
Proof.
  destruct (cpu_executor_sound 1 [false; false] sample_events) as (_ & _ & _ & H & _); [split; done|].
  exact H.
Defined.

Lemma cpu_executor_drains_witness :
  completed_keys (rn_reports (backend_run sample_events (fresh_cpu 1 [false; false]))) ≡ₚ [0%nat; 1%nat].
Proof.
  destruct (cpu_executor_drains 1 [false; false] sample_events) as (_ & _ & H); [split; done|].
  apply H. vm_compute. reflexivity.
Defined.
