(* ===== verification/NodeRuntime.v ===== *)
(** * NodeRuntime: the node's side of the protocol (node/node_runtime.h,
    node/node_runtime.cpp)

    [Node] has the members of the class; the store of cancellation tokens, which
    the runtime shares with its executors; the number of readings of the clock so
    far; and a log of the messages handed to [send_frame] with the result of each
    call, which the code does not have and no operation reads.  The threads (reader,
    heartbeat, completion, the workers of the executors, whoever calls [stop]) are
    the events of [NodeEvent]; an event is one pass through a loop or one critical
    section.  The CUDA backend is any type with the operations of
    [ExecutorBackend]. *)

From S2P Require Import Prelude Status Ids Digest Float64 Task Reservation Wire Frame Socket Channel Serialize Messages Workloads Cuda Executor.

Local Open Scope Z_scope.

Record NodeConfig := mkNodeConfig {
  nf_coordinator_host : string;
  nf_coordinator_node_port : Z;
  nf_label : string;
  nf_address : string;
  nf_cpu_slots : Z;                       (* int32_t *)
  nf_host_memory_scheduling_bytes : Z;    (* uint64_t *)
  nf_enable_cuda : bool;
  nf_cuda_device_ordinal : Z;             (* int32_t *)
  nf_cuda_slots : Z;                      (* int32_t *)
  nf_heartbeat_interval_ms : Z;           (* int64_t *)
  nf_io_timeout_ms : Z;                   (* int64_t *)
  nf_tags : gmap string string
}.

Record CompletionItem := mkItem {
  ci_attempt_id : Id128;
  ci_task_id : Id128;
  ci_reservation_id : Id128;
  ci_outcome : AttemptOutcome
}.

Definition kMaxCompQueue : nat := Z.to_nat 4096.

Section node.
Context {C : Type} `{!ExecutorBackend DispatchAttempt C}.
Context (clock : nat → Z).

Record Node := mkNode {
  n_config : NodeConfig;
  n_node_id : Id128;
  n_session : Id128;
  n_epoch : Z;
  n_session_epoch : Z;
  n_stopping : bool;
  n_connected : bool;
  n_stop_done : bool;
  n_cpu : CpuExecutorBackend DispatchAttempt;
  n_cuda : option C;
  n_channel : option Channel;
  n_comp_queue : list CompletionItem;
  n_reporting : option CompletionItem;    (* the local of [completion_loop] *)
  n_active_tokens : gmap Id128 TokenRef;
  n_tokens : Tokens;
  n_ticks : nat;
  n_sent : list (Message * bool)
}.

Implicit Types (s : Node).

(** Field updates. *)
Definition set_transport (ch : option Channel) (ticks : nat) s : Node :=
  mkNode (n_config s) (n_node_id s) (n_session s) (n_epoch s) (n_session_epoch s) (n_stopping s)
    (n_connected s) (n_stop_done s) (n_cpu s) (n_cuda s) ch (n_comp_queue s) (n_reporting s)
    (n_active_tokens s) (n_tokens s) ticks (n_sent s).
Definition log_sent (m : Message) (r : Result unit) s : Node :=
  mkNode (n_config s) (n_node_id s) (n_session s) (n_epoch s) (n_session_epoch s) (n_stopping s)
    (n_connected s) (n_stop_done s) (n_cpu s) (n_cuda s) (n_channel s) (n_comp_queue s) (n_reporting s)
    (n_active_tokens s) (n_tokens s) (n_ticks s) (n_sent s ++ [(m, is_ok r)]).
Definition set_flags (stopping connected stop_done : bool) s : Node :=
  mkNode (n_config s) (n_node_id s) (n_session s) (n_epoch s) (n_session_epoch s) stopping
    connected stop_done (n_cpu s) (n_cuda s) (n_channel s) (n_comp_queue s) (n_reporting s)
    (n_active_tokens s) (n_tokens s) (n_ticks s) (n_sent s).
Definition set_session (session : Id128) (epoch session_epoch : Z) s : Node :=
  mkNode (n_config s) (n_node_id s) session epoch session_epoch (n_stopping s)
    (n_connected s) (n_stop_done s) (n_cpu s) (n_cuda s) (n_channel s) (n_comp_queue s) (n_reporting s)
    (n_active_tokens s) (n_tokens s) (n_ticks s) (n_sent s).
Definition set_executors (cpu : CpuExecutorBackend DispatchAttempt) (cuda : option C) s : Node :=
  mkNode (n_config s) (n_node_id s) (n_session s) (n_epoch s) (n_session_epoch s) (n_stopping s)
    (n_connected s) (n_stop_done s) cpu cuda (n_channel s) (n_comp_queue s) (n_reporting s)
    (n_active_tokens s) (n_tokens s) (n_ticks s) (n_sent s).
Definition set_comp (queue : list CompletionItem) (reporting : option CompletionItem) s : Node :=
  mkNode (n_config s) (n_node_id s) (n_session s) (n_epoch s) (n_session_epoch s) (n_stopping s)
    (n_connected s) (n_stop_done s) (n_cpu s) (n_cuda s) (n_channel s) queue reporting
    (n_active_tokens s) (n_tokens s) (n_ticks s) (n_sent s).
Definition set_tokens (active : gmap Id128 TokenRef) (tokens : Tokens) s : Node :=
  mkNode (n_config s) (n_node_id s) (n_session s) (n_epoch s) (n_session_epoch s) (n_stopping s)
    (n_connected s) (n_stop_done s) (n_cpu s) (n_cuda s) (n_channel s) (n_comp_queue s) (n_reporting s)
    active tokens (n_ticks s) (n_sent s).

(** [now_millis()] *)
Definition node_now s : Z * Node := (clock (n_ticks s), set_transport (n_channel s) (S (n_ticks s)) s).

(** ** Construction *)

(** [random_id] is [Id128::random()]; [cuda] the backend built when it is enabled. *)
Definition new_node (config : NodeConfig) (random_id : Id128) (cuda : C) : Node :=
  mkNode config random_id id_zero 0 0 false false false (new_cpu (nf_cpu_slots config))
    (if nf_enable_cuda config then Some cuda else None) None [] None ∅ [] 0 [].

(** ** Sending *)

(** The frame of a message. *)
Definition node_frame s (m : Message) (request_id : Z) : Frame :=
  make_frame (message_type m) SK_Node (n_node_id s) request_id (serialize_message m).

Definition node_send (m : Message) (request_id timeout_ms : Z) s : Result unit * Node :=
  match n_channel s with
  | None => let r := err ENotConnected "node channel not connected" in (r, log_sent m r s)
  | Some c =>
      if negb (channel_valid c) then
        let r := err ENotConnected "node channel not connected" in (r, log_sent m r s)
      else
        let timeout_ms := if timeout_ms <? 0 then i32 (nf_io_timeout_ms (n_config s)) else timeout_ms in
        let '(r, c, ticks) := send_frame clock c (node_frame s m request_id) timeout_ms (n_ticks s) in
        (r, log_sent m r (set_transport (Some c) ticks s))
  end.

Definition request_runtime_stop s : Node := set_flags true false (n_stop_done s) s.
Definition close_channel s : Node := set_transport (channel_close <$> n_channel s) (n_ticks s) s.
Definition terminate_transport s : Node := close_channel (request_runtime_stop s).
Definition forget_attempt (id : Id128) s : Node := set_tokens (delete id (n_active_tokens s)) (n_tokens s) s.

Definition send_release (resv task : Id128) s : Node :=
  (node_send (MReservationRelease (mkReservationRelease resv task (n_node_id s) (n_session s) (n_epoch s)))
     0 (-1) s).2.
Definition send_started (id : Id128) (device : string) s : Node :=
  let '(now, s) := node_now s in
  (node_send (MAttemptStarted (mkAttemptStarted id now device)) 0 (-1) s).2.
Definition send_complete (id task resv : Id128) (out : AttemptOutcome) s : Node :=
  let co := mkAttemptComplete id task resv (n_epoch s) 0 (Z.of_nat (length (ao_output_bytes out)))
              (ao_output_integrity out) (ao_duration_ms out) (ao_duration_ms out)
              (ao_bytes_transferred out) (ao_device out) (ao_notes out) in
  send_release resv task (node_send (MAttemptComplete co) 0 (-1) s).2.
Definition send_failed (id task resv : Id128) (kind : FailureKind) (reason : string) (duration_ms : Z) s : Node :=
  let fa := mkAttemptFailed id task resv (n_epoch s) (FailureKind_to_u8 kind) reason duration_ms in
  send_release resv task (node_send (MAttemptFailed fa) 0 (-1) s).2.
Definition send_cancelled (id task resv : Id128) (reason : string) s : Node :=
  let ca := mkAttemptCancelled id task resv (n_epoch s) reason in
  send_release resv task (node_send (MAttemptCancelled ca) 0 (-1) s).2.

(** ** Attempts *)

(** "auto ok = backend->can_execute(task); ok.ok() && ok.value()" *)
Definition accepts {B} `{!ExecutorBackend DispatchAttempt B} (b : B) (task : ComputeTask) : bool :=
  match be_can_execute b task with Ok true => true | _ => false end.

(** The choice of [handle_dispatch]; [None] when no executor can run the task. *)
Inductive Chosen := OnCpu | OnCuda (cu : C).
Definition choose_executor (task : ComputeTask) s : option Chosen :=
  let cpu := if accepts (n_cpu s) task then Some OnCpu else None in
  match n_cuda s with
  | Some cu =>
      if bool_decide (ct_required_executor task = EX_Cuda) && accepts cu task then Some (OnCuda cu) else cpu
  | None => cpu
  end.
Definition enqueue_on (exec : Chosen) (work : AttemptWork DispatchAttempt) s : Result unit * Node :=
  match exec with
  | OnCpu => let '(cpu, r) := be_enqueue work (n_cpu s) in (r, set_executors cpu (n_cuda s) s)
  | OnCuda cu => let '(cu, r) := be_enqueue work cu in (r, set_executors (n_cpu s) (Some cu) s)
  end.

Definition handle_dispatch (msg : DispatchAttempt) s : Node :=
  let id := da_attempt_id msg in
  let task := ct_id (da_task msg) in
  let resv := da_reservation_id msg in
  if negb (da_coordinator_epoch msg =? n_epoch s) then
    send_failed id task resv FK_Internal "stale coordinator epoch" f64_0 s
  else
    let '(token, tokens) := new_token (n_tokens s) in
    let s := set_tokens (<[id := token]> (n_active_tokens s)) tokens s in
    match choose_executor (da_task msg) s with
    | None =>
        send_failed id task resv FK_ExecutorFailed "no executor can run this task" f64_0
          (forget_attempt id s)
    | Some exec =>
        let '(now, s) := node_now s in
        let work := mkAttemptWork (da_task msg) id (n_node_id s) resv (da_coordinator_epoch msg)
                      (Some token) now (Some msg) (Some msg) in
        let '(r, s) := enqueue_on exec work s in
        match r with
        | Err e => send_failed id task resv FK_ExecutorFailed (err_message e) f64_0 (forget_attempt id s)
        | Ok _ => s
        end
    end.

Definition handle_cancel (msg : AttemptCancel) s : Node :=
  match n_active_tokens s !! acl_attempt_id msg with
  | Some r => set_tokens (n_active_tokens s) (token_request r (n_tokens s)) s
  | None => s
  end.

(** The closures [on_start] and [on_complete] of [handle_dispatch].  A worker that
    finds the completion queue full waits: its call happens when the wait ends,
    because there is room, the runtime stops or five seconds have passed. *)
Definition on_start (msg : DispatchAttempt) s : Node :=
  let device :=
    if bool_decide (is_Some (n_cuda s)) && bool_decide (ct_required_executor (da_task msg) = EX_Cuda)
    then "cuda:" +:+ to_string (nf_cuda_device_ordinal (n_config s)) else "cpu" in
  send_started (da_attempt_id msg) device s.
Definition on_complete (msg : DispatchAttempt) (out : AttemptOutcome) s : Node :=
  if negb (n_stopping s) && (length (n_comp_queue s) <? kMaxCompQueue)%nat then
    set_comp (n_comp_queue s ++ [mkItem (da_attempt_id msg) (ct_id (da_task msg)) (da_reservation_id msg) out])
      (n_reporting s) s
  else
    let queue_saturated := negb (n_stopping s) in
    let s := forget_attempt (da_attempt_id msg) s in
    if queue_saturated then terminate_transport s else s.
Definition run_report (r : WorkerReport DispatchAttempt) s : Node :=
  match r with WR_Started msg => on_start msg s | WR_Completed msg out => on_complete msg out s end.

(** One action of a worker of the CPU or of the CUDA backend. *)
Definition worker_step (on_cuda : bool) (env : RunEnv) (a : WorkerAction) s : Node :=
  if on_cuda then
    match n_cuda s with
    | None => s
    | Some cu =>
        match be_worker env (n_tokens s) a cu with
        | Some (cu, reports) => foldl (λ s r, run_report r s) (set_executors (n_cpu s) (Some cu) s) reports
        | None => s
        end
    end
  else
    match be_worker env (n_tokens s) a (n_cpu s) with
    | Some (cpu, reports) => foldl (λ s r, run_report r s) (set_executors cpu (n_cuda s) s) reports
    | None => s
    end.

(** ** The loops *)

(** [completion_loop]: taking an item, and reporting it.  [passed]: the loop has
    looked at [stopping_] before it was set, so the item is taken nevertheless. *)
Definition completion_take (passed : bool) s : Node :=
  if n_stopping s && negb passed then s
  else
    match n_reporting s, n_comp_queue s with
    | None, item :: queue => set_comp queue (Some item) s
    | _, _ => s
    end.
Definition send_outcome (item : CompletionItem) s : Node :=
  let '(mkItem id task resv out) := item in
  if bool_decide (ao_state out = AS_Succeeded) then send_complete id task resv out s
  else if bool_decide (ao_state out = AS_Cancelled) then send_cancelled id task resv (ao_failure_reason out) s
  else send_failed id task resv (ao_failure_kind out) (ao_failure_reason out) (ao_duration_ms out) s.
Definition completion_report s : Node :=
  match n_reporting s with
  | None => s
  | Some item =>
      send_outcome item (forget_attempt (ci_attempt_id item) (set_comp (n_comp_queue s) None s))
  end.

(** One pass of [heartbeat_loop] after its wait, [passed] as in [completion_take]. *)
Definition heartbeat_message s : NodeHeartbeat :=
  let cs := be_stats (n_cpu s) in
  let gs := match n_cuda s with Some cu => es_active (be_stats cu) | None => 0 end in
  mkNodeHeartbeat (n_node_id s) (n_session s) (n_session_epoch s) (n_epoch s) (es_active cs) gs
    (mkExecutorRuntimeSnapshot "cpu" (es_active cs)
     :: match n_cuda s with Some _ => [mkExecutorRuntimeSnapshot "cuda" gs] | None => [] end).
Definition heartbeat_step (passed : bool) s : Node :=
  if n_stopping s && negb passed then s
  else if negb (n_connected s) then request_runtime_stop s
  else
    let '(r, s) := node_send (MNodeHeartbeat (heartbeat_message s)) 0 (-1) s in
    if failed r then request_runtime_stop s else s.

(** The [switch] of [read_loop]. *)
Definition handle_frame (frame : Frame) s : Node :=
  let t := fh_message_type (fr_header frame) in
  if t =? kDispatchAttempt then
    match parse_payload deserialize_dispatch_attempt frame with Ok m => handle_dispatch m s | Err _ => s end
  else if t =? kAttemptCancel then
    match parse_payload deserialize_attempt_cancel frame with Ok m => handle_cancel m s | Err _ => s end
  else if t =? kNodeHeartbeatAck then
    match parse_payload deserialize_node_heartbeat_ack frame with
    | Ok m => if hba_accepted m then s else request_runtime_stop s
    | Err _ => request_runtime_stop s
    end
  else if t =? kNodeShutdown then
    let accepted :=
      match parse_payload deserialize_node_shutdown frame with
      | Ok m => bool_decide (nsd_node_id m = n_node_id s) && bool_decide (nsd_session_id m = n_session s)
      | Err _ => false
      end in
    let '(sent, s) := node_send (MNodeShutdownAck (mkNodeShutdownAck accepted))
                        (fh_request_id (fr_header frame)) (-1) s in
    if failed sent || accepted then request_runtime_stop s else s
  else s.

(** One pass of [read_loop].  A reader that has [passed] the test at the loop head
    receives and handles one more frame even if the node is stopping by then. *)
Definition read_step (passed : bool) s : Node :=
  if n_stopping s && negb passed then s
  else
    match n_channel s with
    | None => s
    | Some c =>
        match recv_frame clock c (i32 (nf_io_timeout_ms (n_config s))) kMaxFramePayload (n_ticks s) with
        | None => s
        | Some (r, c, ticks) =>
            let s := set_transport (Some c) ticks s in
            match r with
            | Ok frame => handle_frame frame s
            | Err e => if bool_decide (err_code e = ETimeout) then s else request_runtime_stop s
            end
        end
    end.

(** [stop], up to the joining of the threads, and after it. *)
Definition stop_begin s : Node :=
  if n_stop_done s then s
  else
    let s := request_runtime_stop (set_flags (n_stopping s) (n_connected s) true s) in
    let s := set_tokens (n_active_tokens s)
               (foldl (λ ts kv, token_request kv.2 ts) (n_tokens s) (in_order (n_active_tokens s))) s in
    let s := close_channel s in
    let '(cpu, tokens) := be_shutdown false (n_cpu s) (n_tokens s) in
    let s := set_tokens (n_active_tokens s) tokens (set_executors cpu (n_cuda s) s) in
    match n_cuda s with
    | Some cu =>
        let '(cu, tokens) := be_shutdown false cu (n_tokens s) in
        set_tokens (n_active_tokens s) tokens (set_executors (n_cpu s) (Some cu) s)
    | None => s
    end.
Definition executors_idle s : bool :=
  be_idle (n_cpu s) && match n_cuda s with Some cu => be_idle cu | None => true end.
Definition stop_end s : Node :=
  if n_stop_done s && executors_idle s && negb (bool_decide (is_Some (n_reporting s)))
  then set_transport None (n_ticks s) (set_tokens ∅ (n_tokens s) s) else s.

(** ** Events *)

Inductive NodeEvent :=
| NE_Read (passed : bool)
| NE_Heartbeat (passed : bool)
| NE_Worker (on_cuda : bool) (env : RunEnv) (a : WorkerAction)
| NE_Take (passed : bool)
| NE_Report
| NE_Stop
| NE_Joined.

Definition node_event (e : NodeEvent) s : Node :=
  match e with
  | NE_Read passed => read_step passed s
  | NE_Heartbeat passed => heartbeat_step passed s
  | NE_Worker on_cuda env a => worker_step on_cuda env a s
  | NE_Take passed => completion_take passed s
  | NE_Report => completion_report s
  | NE_Stop => stop_begin s
  | NE_Joined => stop_end s
  end.
Definition node_run (es : list NodeEvent) s : Node := foldl (λ s e, node_event e s) s es.
End node.
Arguments Node : clear implicits.
Arguments Chosen : clear implicits.
