(* ===== verification/NodeRegister.v ===== *)
(** * NodeRegister: registration with the coordinator (NodeRuntime::start and
    NodeRuntime::try_register of node/node_runtime.cpp)

    [connects] gives the result of every call of [TcpSocket::connect].  The loops
    run until the clock passes a deadline; [fuel] bounds their passes and the
    theorem shows that for a clock that goes on there is always enough. *)

From S2P Require Import Prelude Status Ids Digest Float64 Task Reservation Wire Frame Socket Channel Serialize Messages Workloads Cuda Executor NodeRuntime.

Local Open Scope Z_scope.

Section register.
Context {C : Type} `{!ExecutorBackend DispatchAttempt C}.
Context (clock : nat → Z).
Implicit Types (s : Node C).

Definition node_registration s : NodeRegister :=
  let config := n_config s in
  mkNodeRegister (n_node_id s) (nf_label config) (nf_address config)
    (mkNodeCapacity (nf_cpu_slots config) (nf_host_memory_scheduling_bytes config)
       (be_capability (n_cpu s) :: match n_cuda s with Some cu => [be_capability cu] | None => [] end)
       (nf_tags config) (nf_address config) (nf_label config)).

(** Reading the clock and sending a message of the handshake before [deadline]. *)
Definition send_before (deadline : Z) (m : Message) (request_id : Z) s : Result unit * Node C :=
  let '(now, s) := node_now clock s in
  let remaining_ms := deadline - now in
  if remaining_ms <=? 0 then (err ETimeout "registration attempt timed out", s)
  else node_send clock m request_id (i32 remaining_ms) s.

(** "Wait for ack": [Ok None] when the deadline has passed. *)
Fixpoint await_ack (fuel : nat) (deadline : Z) s : option (Result (option NodeRegisterAck) * Node C) :=
  match fuel with
  | O => None
  | S fuel =>
      let '(now, s) := node_now clock s in
      if deadline <=? now then Some (Ok None, s)
      else
        let '(now, s) := node_now clock s in
        let remaining_ms := deadline - now in
        match n_channel s with
        | None => None
        | Some c =>
            match recv_frame clock c (i32 (Z.min 500 remaining_ms)) kMaxFramePayload (n_ticks s) with
            | None => None
            | Some (Err e, c, ticks) =>
                let s := set_transport (Some c) ticks s in
                if bool_decide (err_code e = ETimeout) then await_ack fuel deadline s else Some (Err e, s)
            | Some (Ok frame, c, ticks) =>
                let s := set_transport (Some c) ticks s in
                if fh_message_type (fr_header frame) =? kNodeRegisterAck then
                  match parse_payload deserialize_node_register_ack frame with
                  | Err _ => await_ack fuel deadline s
                  | Ok m =>
                      if bool_decide (nack_node_id m = n_node_id s) then Some (Ok (Some m), s)
                      else Some (err EInvalidState "registration ack was for a different node", s)
                  end
                else await_ack fuel deadline s
            end
        end
  end.

Definition finish_registration (awaited : Result (option NodeRegisterAck)) s : Result unit * Node C :=
  match awaited with
  | Err e => (Err e, s)
  | Ok None => (err ETimeout "timed out waiting for registration ack", s)
  | Ok (Some ack) =>
      if negb (bool_decide (nack_error ack = "")) then
        (err EInvalidState ("registration rejected: " +:+ nack_error ack), s)
      else
        (Ok tt, set_flags (n_stopping s) true (n_stop_done s)
                  (set_session (nack_session_id ack) (nack_coordinator_epoch ack) (nack_session_epoch ack) s))
  end.

Definition try_register (fuel : nat) (connect : Result Socket) (reg : NodeRegister) (each_attempt_ms : Z) s
    : option (Result unit * Node C) :=
  if each_attempt_ms <=? 0 then Some (err ETimeout "registration attempt timed out", s)
  else
    let '(now, s) := node_now clock s in
    let deadline := now + each_attempt_ms in
    match connect with
    | Err e => Some (Err e, s)
    | Ok sock =>
        let s := set_transport (Some (new_channel sock)) (n_ticks s) s in
        let '(r, s) := send_before deadline (MHello (mkHello kProtocolVersion "node")) 1 s in
        if failed r then Some (r, s)
        else
          let '(r, s) := send_before deadline (MNodeRegister reg) 2 s in
          if failed r then Some (r, s)
          else
            '(awaited, s) ← await_ack fuel deadline s;
            Some (finish_registration awaited s)
    end.

(** The loop of [start]; attempt [k] uses the socket [connects k]. *)
Fixpoint start_loop (fuel inner : nat) (connects : nat → Result Socket) (k : nat) (reg : NodeRegister)
    (total_deadline : Z) (last_err : Error) s : option (Result unit * Node C) :=
  match fuel with
  | O => None
  | S fuel =>
      let '(now, s) := node_now clock s in
      if total_deadline <=? now then Some (Err last_err, s)
      else
        let '(now, s) := node_now clock s in
        '(r, s) ← try_register inner (connects k) reg (Z.min 3000 (total_deadline - now)) s;
        match r with
        | Ok _ => Some (Ok tt, s)
        | Err e =>
            let '(_, s) := node_now clock s in    (* the delay before the next attempt *)
            start_loop fuel inner connects (S k) reg total_deadline e (set_transport None (n_ticks s) s)
        end
  end.

Definition node_start (fuel : nat) (connects : nat → Result Socket) (register_timeout_ms : Z) s
    : option (Result unit * Node C) :=
  if register_timeout_ms <=? 0 then
    Some (err EInvalidArgument "registration timeout must be positive", s)
  else
    let reg := node_registration s in
    let '(now, s) := node_now clock s in
    start_loop fuel fuel connects 0 reg (now + register_timeout_ms)
      (mkError ETimeout "registration timed out") s.

(** ** What a registration changes *)

Record kept s s' : Prop := {
  kp_id : n_node_id s' = n_node_id s;
  kp_session : n_session s' = n_session s;
  kp_epoch : n_epoch s' = n_epoch s;
  kp_connected : n_connected s' = n_connected s;
  kp_ticks : (n_ticks s <= n_ticks s')%nat
}.

#[global] Instance kept_trans : Transitive kept.
Proof. intros s1 s2 s3 [????] [????]. split; [congruence..|lia]. Qed.

(** The node has a channel whose buffer is in order. *)
Definition channel_ready s : Prop := ∃ c, n_channel s = Some c ∧ fits (ch_recv_buffer c).

Lemma now_kept s : kept s (node_now clock s).2.
Proof. split; cbn; [done..|lia]. Qed.

Lemma node_send_kept m id t s :
  channel_ready s →
  let '(r, s') := node_send clock m id t s in
  kept s s' ∧ channel_ready s' ∧ n_sent s' = n_sent s ++ [(m, is_ok r)].
Proof.
  intros (c & Hc & Hf). unfold node_send. rewrite Hc.
  destruct (channel_valid c); cbn [negb]; [|by split_and!; [|exists c|]].
  pose proof (send_frame_keeps clock c (node_frame s m id)
    (if t <? 0 then i32 (nf_io_timeout_ms (n_config s)) else t) (n_ticks s)) as Hk.
  destruct (send_frame _ _ _ _ _) as [[r c'] tk]. destruct Hk as (Hb & _ & _ & Ht).
  split_and!; [by split|exists c'; by rewrite Hb|done].
Qed.

Lemma send_before_kept deadline m id s :
  channel_ready s →
  let '(r, s') := send_before deadline m id s in
  kept s s' ∧ channel_ready s' ∧
  ∃ log, n_sent s' = n_sent s ++ log ∧ (failed r = false → log = [(m, true)]).
Proof.
  intros Hc. unfold send_before, node_now. set (s1 := set_transport _ _ _).
  assert (H1 : kept s s1) by apply now_kept. assert (Hc1 : channel_ready s1) by exact Hc.
  destruct (_ <=? 0); [split_and!; [done..|exists []; by rewrite app_nil_r]|].
  pose proof (node_send_kept m id (i32 (deadline - clock (n_ticks s))) s1 Hc1) as Hs.
  destruct (node_send _ _ _ _ _) as [r s2]. destruct Hs as (Hk & Hr & El).
  split_and!; [by etrans|done|]. exists [(m, is_ok r)]. split; [done|]. by destruct r.
Qed.

(** The acknowledgement is the last frame received on the node's channel. *)
Definition acknowledged s (ack : NodeRegisterAck) : Prop :=
  ∃ frame c ms t c' t', recv_frame clock c ms kMaxFramePayload t = Some (Ok frame, c', t') ∧
    n_channel s = Some c' ∧ fh_message_type (fr_header frame) = kNodeRegisterAck ∧
    parse_payload deserialize_node_register_ack frame = Ok ack.

Lemma await_ack_returns N fuel deadline s :
  (∀ i, (N <= i)%nat → deadline <= clock i) → (N < n_ticks s + fuel)%nat → (0 < fuel)%nat → channel_ready s →
  ∃ r s', await_ack fuel deadline s = Some (r, s') ∧ kept s s' ∧ n_sent s' = n_sent s ∧
    (∀ ack, r = Ok (Some ack) → nack_node_id ack = n_node_id s ∧ acknowledged s' ack).
Proof.
  intros HN. revert s. induction fuel as [|fuel IH]; intros s Hf H0 (c & Hc & Hb); [lia|].
  cbn [await_ack node_now set_transport n_channel n_ticks].
  destruct (Z.leb_spec deadline (clock (n_ticks s))) as [Hle|Hlt].
  { eexists _, _. split_and!; [done|split; cbn; [done..|lia]|done|done]. }
  rewrite Hc. set (ms := i32 _).
  destruct (recv_frame_returns clock c ms kMaxFramePayload (S (S (n_ticks s))) Hb) as (r & c' & tk & E & Hb' & Htk).
  rewrite E. set (s1 := set_transport (Some c') tk _).
  assert (H1 : kept s s1) by (split; cbn; [done..|lia]).
  assert (Hgo : ∃ r s', await_ack fuel deadline s1 = Some (r, s') ∧ kept s s' ∧ n_sent s' = n_sent s ∧
    (∀ ack, r = Ok (Some ack) → nack_node_id ack = n_node_id s ∧ acknowledged s' ack)).
  { destruct (decide (N <= n_ticks s)%nat) as [Hn|Hn]; [specialize (HN (n_ticks s)); lia|].
    destruct (IH s1) as (r' & s' & Er & Hk & El & Hack).
    - cbn [s1 set_transport n_ticks]. lia.
    - destruct fuel; lia.
    - by exists c'.
    - exists r', s'. split_and!; [done|by etrans|done|]. intros ack Ea. destruct (Hack ack Ea) as [Hid ?].
      split; [|done]. rewrite Hid. by destruct H1. }
  destruct r as [frame|e].
  - destruct (Z.eqb_spec (fh_message_type (fr_header frame)) kNodeRegisterAck) as [Et|]; [|exact Hgo].
    destruct (parse_payload deserialize_node_register_ack frame) as [m|] eqn:Em; [|exact Hgo].
    case_bool_decide as Hid; eexists _, _; (split_and!; [done..|]); [|done].
    intros ack [= <-]. split; [done|]. by exists frame, c, ms, (S (S (n_ticks s))), c', tk.
  - case_bool_decide; [exact Hgo|]. eexists _, _. by split_and!.
Qed.

(** A successful registration that started from [s]. *)
Record registered (reg : NodeRegister) s s' : Prop := {
  rg_connected : n_connected s' = true;
  rg_ack : ∃ ack, acknowledged s' ack ∧ nack_node_id ack = n_node_id s ∧ nack_error ack = "" ∧
    n_session s' = nack_session_id ack ∧ n_epoch s' = nack_coordinator_epoch ack ∧
    n_session_epoch s' = nack_session_epoch ack;
  rg_sent : ∃ log, n_sent s' = n_sent s ++ log
    ++ [(MHello (mkHello kProtocolVersion "node"), true); (MNodeRegister reg, true)]
}.

Definition attempt_outcome (reg : NodeRegister) s (r : Result unit) s' : Prop :=
  (n_ticks s <= n_ticks s')%nat ∧ n_node_id s' = n_node_id s ∧ (∃ log, n_sent s' = n_sent s ++ log) ∧
  match r with Ok _ => registered reg s s' | Err _ => kept s s' end.

Lemma try_register_returns M fuel connect reg each s :
  (∀ i, (M <= i)%nat → clock (n_ticks s) + each <= clock i) → (M < fuel)%nat →
  ∃ r s', try_register fuel connect reg each s = Some (r, s') ∧ attempt_outcome reg s r s'.
Proof.
  intros HM Hfuel. unfold try_register, node_now.
  assert (Hend : ∀ e s', kept s s' → (∃ log, n_sent s' = n_sent s ++ log) → attempt_outcome reg s (Err e) s').
  { intros e s' Hk Hl. unfold attempt_outcome. split_and!; [apply Hk|apply Hk|done|done]. }
  destruct (_ <=? 0).
  { eexists _, _. split; [done|]. apply Hend; [by split|exists []; by rewrite app_nil_r]. }
  set (s1 := set_transport (n_channel s) _ s). assert (H1 : kept s s1) by apply now_kept.
  destruct connect as [sock|e].
  2:{ eexists _, _. split; [done|]. apply Hend; [done|exists []; by rewrite app_nil_r]. }
  cbn [set_transport n_ticks]. set (s2 := set_transport (Some (new_channel sock)) _ _).
  assert (H2 : kept s s2) by (split; cbn; [done..|lia]).
  assert (Hr2 : channel_ready s2) by (exists (new_channel sock); split; [done|apply fits_nil]).
  set (deadline := clock (n_ticks s) + each). set (hello := MHello _).
  pose proof (send_before_kept deadline hello 1 s2 Hr2) as Hs.
  destruct (send_before deadline hello 1 s2) as [r3 s3]. destruct Hs as (H3 & Hr3 & l3 & E3 & Ok3).
  assert (K3 : kept s s3) by (by etrans). change (n_sent s2) with (n_sent s) in E3.
  destruct (failed r3) eqn:F3.
  { destruct r3; [done|]. eexists _, _. split; [done|]. apply Hend; [done|by exists l3]. }
  pose proof (send_before_kept deadline (MNodeRegister reg) 2 s3 Hr3) as Hs.
  destruct (send_before deadline (MNodeRegister reg) 2 s3) as [r4 s4]. destruct Hs as (H4 & Hr4 & l4 & E4 & Ok4).
  assert (K4 : kept s s4) by (by etrans). rewrite E3, <-app_assoc in E4.
  destruct (failed r4) eqn:F4.
  { destruct r4; [done|]. eexists _, _. split; [done|]. apply Hend; [done|by eexists]. }
  rewrite (Ok3 eq_refl), (Ok4 eq_refl) in E4.
  destruct (await_ack_returns M fuel deadline s4 HM) as (r5 & s5 & E5 & H5 & L5 & Hack); [lia|lia|done|].
  rewrite E5. cbn [mbind option_bind]. assert (K5 : kept s s5) by (by etrans). rewrite E4 in L5.
  destruct r5 as [[ack|]|e]; cbn [finish_registration].
  - destruct (Hack ack eq_refl) as [Hid Hrecv]. case_bool_decide as Hempty; cbn [negb].
    + eexists _, _. split; [done|]. unfold attempt_outcome. cbn [set_flags set_session n_ticks n_node_id n_sent].
      split_and!; [apply K5|apply K5|by eexists|]. split; [done| |by exists []].
      exists ack. split_and!; try done. rewrite Hid. apply K4.
    + eexists _, _. split; [done|]. apply Hend; [done|by eexists].
  - eexists _, _. split; [done|]. apply Hend; [done|by eexists].
  - eexists _, _. split; [done|]. apply Hend; [done|by eexists].
Qed.

(** The loop of [start]: [N] readings reach its deadline, [M] every attempt's. *)
Lemma start_loop_returns N M fuel inner connects k reg total last s :
  (∀ i, (N <= i)%nat → total <= clock i) →
  (∀ i j, (j <= N + 2)%nat → (M <= i)%nat → clock j + 3000 <= clock i) →
  (N < n_ticks s + fuel)%nat → (0 < fuel)%nat → (M < inner)%nat → n_channel s = None →
  ∃ r s', start_loop fuel inner connects k reg total last s = Some (r, s') ∧
    match r with
    | Ok _ => registered reg s s'
    | Err _ => kept s s' ∧ n_channel s' = None
    end.
Proof.
  intros HN HM. revert k last s. induction fuel as [|fuel IH]; intros k last s Hf H0 Hi Hc; [lia|].
  cbn [start_loop node_now set_transport n_ticks]. destruct (Z.leb_spec total (clock (n_ticks s))) as [Hle|Hlt].
  { eexists _, _. split; [done|]. split; [split; cbn; [done..|lia]|done]. }
  set (s1 := set_transport _ _ (set_transport _ _ _)).
  assert (H1 : kept s s1) by (split; cbn; [done..|lia]).
  destruct (decide (N <= n_ticks s)%nat) as [Hn|Hn]; [specialize (HN (n_ticks s)); lia|].
  set (each := Z.min 3000 _).
  destruct (try_register_returns M inner (connects k) reg each s1) as (r & s2 & E & Ht & Hid & (log & El) & Hr).
  { intros i Hge. specialize (HM i (n_ticks s1)). cbn [s1 set_transport n_ticks] in *. lia. }
  { done. }
  rewrite E. cbn [mbind option_bind]. change (n_sent s1) with (n_sent s) in El.
  destruct r as [[]|e].
  - eexists _, _. split; [done|]. destruct Hr as [Hcon Hack (l & Hl)]. by split; [| |exists l].
  - set (s3 := set_transport None _ _). assert (H3 : kept s s3).
    { etrans; [exact H1|]. etrans; [exact Hr|]. split; cbn; [done..|lia]. }
    destruct (IH (S k) e s3) as (r & s' & E' & Hr').
    + pose proof (kp_ticks _ _ H1). pose proof (kp_ticks _ _ Hr). cbn [s3 s1 set_transport n_ticks] in *. lia.
    + destruct fuel; lia.
    + done.
    + done.
    + exists r, s'. split; [done|]. destruct r as [[]|e'].
      * destruct Hr' as [Hcon (ack & Ha & Hnid & Hrest) (l & Hl)]. split; [done| |].
        -- exists ack. split_and!; try apply Hrest; [done|]. rewrite Hnid. apply H3.
        -- exists (log ++ l). change (n_sent s3) with (n_sent s2) in Hl. by rewrite Hl, El, <-!app_assoc.
      * destruct Hr' as [Hk Hch]. split; [by etrans|done].
Qed.
End register.

(** ** Claims *)

(** C22: registration terminates and is sound.  With a clock that does not run
    backwards and does not stand still, [start] returns, whatever the connections do.
    If it reports success the node is connected, has sent its hello and then its
    registration, and has adopted session and epochs of an acknowledgement without
    error that names this node, the last frame received; if it reports an error the
    node's identity, session and epoch are unchanged, it is not connected and no
    connection is left. *)
Theorem registration_sound {C} `{!ExecutorBackend DispatchAttempt C} (clock : nat → Z)
    (connects : nat → Result Socket) (register_timeout_ms : Z) (s : Node C) :
  (∀ i j, (i <= j)%nat → clock i <= clock j) → (∀ t, ∃ i, t <= clock i) →
  n_channel s = None → n_connected s = false →
  ∃ fuel r s', node_start clock fuel connects register_timeout_ms s = Some (r, s') ∧
    match r with
    | Ok _ => registered clock (node_registration s) s s'
    | Err _ => n_connected s' = false ∧ n_channel s' = None ∧ n_node_id s' = n_node_id s ∧
               n_session s' = n_session s ∧ n_epoch s' = n_epoch s
    end.
Proof.
  intros Hmono Hgoes Hch Hcon.
  destruct (Hgoes (clock (n_ticks s) + register_timeout_ms)) as [N HN].
  destruct (Hgoes (clock (N + 2)%nat + 3000)) as [M HM]. exists (S (N + M)). unfold node_start, node_now.
  destruct (_ <=? 0); [eexists _, _; split; [done|by split_and!]|].
  set (s1 := set_transport _ _ _).
  destruct (start_loop_returns clock N M (S (N + M)) (S (N + M)) connects 0 (node_registration s)
    (clock (n_ticks s) + register_timeout_ms) (mkError ETimeout "registration timed out") s1)
    as (r & s' & E & Hr).
  - intros i Hi. etrans; [exact HN|by apply Hmono].
  - intros i j Hj Hi. specialize (Hmono j (N + 2)%nat Hj) as H1. specialize (Hmono M i Hi) as H2. lia.
  - lia.
  - lia.
  - lia.
  - done.
  - exists r, s'. split; [exact E|]. destruct r as [[]|e].
    + destruct Hr as [H1 H2 H3]. by split.
    + destruct Hr as [[H1 H2 H3 H4 _] H5]. split_and!; [by rewrite H4|done..].
Qed.

(** Sample: the coordinator acknowledges. *)
Definition fresh_node : Node CudaStub :=
  new_node (mkNodeConfig "127.0.0.1" 7000 "n" "a" 1 0 false 0 0 250 5000 ∅) (mkId 8 8) (mkStub false).
Definition ack_socket : Socket :=
  let m := MNodeRegisterAck (mkNodeRegisterAck (mkId 8 8) (mkId 7 7) 2 1 "") in
  mkSocket (new_state 5)
    [RE_Again; RE_Bytes (wire (make_frame (message_type m) SK_Coordinator id_zero 2 (serialize_message m)))]
    (replicate 4 (SE_Sent 500)) [].

Lemma registration_witness :
  ∃ fuel r s', node_start Z.of_nat fuel (λ _, Ok ack_socket) 1000 fresh_node = Some (r, s').
Proof.
  destruct (registration_sound Z.of_nat (λ _, Ok ack_socket) 1000 fresh_node) as (fuel & r & s' & E & _).
  - intros i j. lia.
  - intros t. exists (Z.to_nat t). lia.
  - reflexivity.
  - reflexivity.
  - by exists fuel, r, s'.
Defined.

Example registration_run :
  match node_start Z.of_nat 9 (λ k, if Nat.eqb k 0 then err ENetworkError "refused" else Ok ack_socket) 1000
          fresh_node with
  | Some (Ok _, s) => n_connected s && bool_decide (n_session s = mkId 7 7) && (n_epoch s =? 2)
  | _ => false
  end = true.
Proof. vm_compute. reflexivity. Qed.
