(* ===== verification/NodeProps.v ===== *)
(** * NodeProps: what becomes of a dispatched attempt

    Every dispatch a node receives is accounted for by its key (attempt, task,
    reservation): it has been reported, is on its way through an executor or the
    completion queue, or was dropped while the runtime stops.  The CUDA backend is
    any backend with the laws of [BackendLaws]. *)

From S2P Require Import Prelude Status Ids Digest Float64 Task Reservation Wire Frame Socket Channel Serialize Messages Workloads Cuda Executor NodeRuntime.

Local Open Scope Z_scope.

Abbreviation AttemptKey := (Id128 * Id128 * Id128)%type (only parsing).

Definition key_of_dispatch (m : DispatchAttempt) : AttemptKey :=
  (da_attempt_id m, ct_id (da_task m), da_reservation_id m).
Definition key_of_item (i : CompletionItem) : AttemptKey :=
  (ci_attempt_id i, ci_task_id i, ci_reservation_id i).

(** The key of a terminal report. *)
Definition terminal_key (m : Message) : option AttemptKey :=
  match m with
  | MAttemptComplete m => Some (acm_attempt_id m, acm_task_id m, acm_reservation_id m)
  | MAttemptFailed m => Some (afl_attempt_id m, afl_task_id m, afl_reservation_id m)
  | MAttemptCancelled m => Some (acd_attempt_id m, acd_task_id m, acd_reservation_id m)
  | _ => None
  end.
Definition reported (log : list (Message * bool)) : list AttemptKey := omap (λ x, terminal_key x.1) log.

(** [on_start] was called for the attempt. *)
Definition started (log : list (Message * bool)) (id : Id128) : Prop :=
  ∃ t d b, (MAttemptStarted (mkAttemptStarted id t d), b) ∈ log.
(** The attempt of a report that comes out of an executor. *)
Definition executed_attempt (m : Message) : option Id128 :=
  match m with
  | MAttemptComplete m => Some (acm_attempt_id m)
  | MAttemptCancelled m => Some (acd_attempt_id m)
  | _ => None
  end.
Definition in_sequence (log : list (Message * bool)) : Prop :=
  ∀ pre x post id, log = pre ++ x :: post → executed_attempt x.1 = Some id → started pre id.

Section node.
Context {C : Type} `{!ExecutorBackend DispatchAttempt C} `{!BackendLaws DispatchAttempt C}.
Context (clock : nat → Z).
Implicit Types (s : Node C).

Definition work_keys (ws : list (AttemptWork DispatchAttempt)) : list AttemptKey :=
  map key_of_dispatch (complete_keys ws).
Definition cuda_pending s : list (AttemptWork DispatchAttempt) :=
  match n_cuda s with Some cu => be_pending cu | None => [] end.
Definition cuda_begun s : list (AttemptWork DispatchAttempt) :=
  match n_cuda s with Some cu => be_begun cu | None => [] end.

Definition all_pending s : list (AttemptWork DispatchAttempt) := be_pending (n_cpu s) ++ cuda_pending s.
Definition all_begun s : list (AttemptWork DispatchAttempt) := be_begun (n_cpu s) ++ cuda_begun s.
Definition items s : list CompletionItem := n_comp_queue s ++ option_list (n_reporting s).

(** What is between a dispatch and its report. *)
Definition in_flight s : list AttemptKey := map key_of_item (items s) ++ work_keys (all_pending s).

(** The closures of the work in the executors are those of one message. *)
Definition work_ok (w : AttemptWork DispatchAttempt) : Prop :=
  ∃ m, aw_on_start w = Some m ∧ aw_on_complete w = Some m.

Record accounts (D : list DispatchAttempt) s : Prop := {
  an_keys : ∃ dropped, map key_of_dispatch D ≡ₚ reported (n_sent s) ++ in_flight s ++ dropped ∧
    (n_stopping s = false → dropped = []);
  an_works : Forall work_ok (all_pending s);
  an_begun : Forall (λ k, started (n_sent s) (da_attempt_id k))
    (complete_keys (all_begun s));
  an_items : Forall (λ i, started (n_sent s) (ci_attempt_id i)) (items s);
  an_sequence : in_sequence (n_sent s)
}.

(** ** Steps that only send, read the clock or touch tokens and channel *)

Record same_work s s' : Prop := {
  sw_comp : n_comp_queue s' = n_comp_queue s;
  sw_reporting : n_reporting s' = n_reporting s;
  sw_cpu : n_cpu s' = n_cpu s;
  sw_cuda : n_cuda s' = n_cuda s
}.

#[global] Instance same_work_refl : Reflexive same_work.
Proof. by split. Qed.
#[global] Instance same_work_trans : Transitive same_work.
Proof. intros s1 s2 s3 [????] [????]. split; congruence. Qed.

Lemma same_work_flight s s' :
  same_work s s' → in_flight s' = in_flight s ∧ all_pending s' = all_pending s ∧
  all_begun s' = all_begun s ∧ items s' = items s.
Proof.
  intros [E1 E2 E3 E4]. unfold in_flight, all_pending, all_begun, items, cuda_pending, cuda_begun.
  by rewrite E1, E2, E3, E4.
Qed.

Lemma started_app log log' id : started log id → started (log ++ log') id.
Proof. intros (t & d & b & Hin). exists t, d, b. apply elem_of_app. by left. Qed.

Lemma reported_app log log' : reported (log ++ log') = reported log ++ reported log'.
Proof. apply omap_app. Qed.

(** Messages that are no reports leave the accounts as they are, as does a stop. *)
Lemma in_sequence_app log log' :
  in_sequence log → (∀ pre x post id, log' = pre ++ x :: post → executed_attempt x.1 = Some id →
    started (log ++ pre) id) → in_sequence (log ++ log').
Proof.
  intros Hl Hl' pre x post id E Hx. apply app_eq_inv in E as [(k & E & Ek)|(k & -> & E)].
  - destruct k as [|y k].
    + rewrite app_nil_r in E. subst pre. cbn [app] in Ek. specialize (Hl' [] x post id (eq_sym Ek) Hx).
      by rewrite app_nil_r in Hl'.
    + injection Ek as Ex _. subst x. by apply (Hl pre y k id).
  - by apply (Hl' k x post id).
Qed.

(** The general step: what was in flight or has arrived is reported, in flight or
    dropped. *)
Lemma accounts_step D new s s' log d :
  accounts D s → n_sent s' = n_sent s ++ log →
  (n_stopping s' = false → n_stopping s = false ∧ d = []) →
  in_flight s ++ map key_of_dispatch new ≡ₚ reported log ++ in_flight s' ++ d →
  Forall work_ok (all_pending s') →
  Forall (λ k, started (n_sent s') (da_attempt_id k)) (complete_keys (all_begun s')) →
  Forall (λ i, started (n_sent s') (ci_attempt_id i)) (items s') →
  (∀ pre x post id, log = pre ++ x :: post → executed_attempt x.1 = Some id → started (n_sent s ++ pre) id) →
  accounts (D ++ new) s'.
Proof.
  intros [(dr & Hk & Hd) _ _ _ Hq] El Hst Hf Hw Hb Hi Hlog. split; [|done..|].
  - exists (dr ++ d). split.
    + rewrite map_app, Hk, El, reported_app. set (R := reported (n_sent s)). set (L := reported log) in *.
      transitivity (R ++ (in_flight s ++ map key_of_dispatch new) ++ dr).
      { rewrite <-!app_assoc. do 2 apply Permutation_app_head. apply Permutation_app_comm. }
      rewrite Hf, <-!app_assoc. do 3 apply Permutation_app_head. apply Permutation_app_comm.
    + intros [? ->]%Hst. by rewrite Hd.
  - rewrite El. by apply in_sequence_app.
Qed.

(** A step that sends no report and leaves the work alone. *)
Lemma accounts_same D s s' log :
  accounts D s → same_work s s' → n_sent s' = n_sent s ++ log → (n_stopping s' = false → n_stopping s = false) →
  Forall (λ x, terminal_key x.1 = None) log → accounts D s'.
Proof.
  intros Ha Hs El Hst Hlog. rewrite <-(app_nil_r D).
  destruct (same_work_flight s s' Hs) as (Ef & Ep & Eb & Ei).
  assert (Er : reported log = []).
  { clear -Hlog. induction Hlog as [|x l Hx _ IH]; [done|]. cbn. by rewrite Hx. }
  apply (accounts_step D [] s s' log []); try done.
  - intros ?. split; [by apply Hst|done].
  - by rewrite Er, Ef, !app_nil_r.
  - rewrite Ep. apply Ha.
  - rewrite Eb, El. eapply Forall_impl; [apply Ha|]. intros k. apply started_app.
  - rewrite Ei, El. eapply Forall_impl; [apply Ha|]. intros k. apply started_app.
  - intros pre [m b] post id -> Hx. exfalso.
    apply Forall_app in Hlog as [_ [Hm _]%Forall_cons]. cbn [fst] in *. by destruct m.
Qed.

(** ** Sending *)

(** [s'] is [s] after sending [log]. *)
Record sent_only s s' (log : list (Message * bool)) : Prop := {
  so_work : same_work s s';
  so_sent : n_sent s' = n_sent s ++ log;
  so_stopping : n_stopping s' = n_stopping s
}.

Lemma sent_only_trans s1 s2 s3 l1 l2 :
  sent_only s1 s2 l1 → sent_only s2 s3 l2 → sent_only s1 s3 (l1 ++ l2).
Proof.
  intros [W1 E1 S1] [W2 E2 S2]. split; [by etrans|by rewrite E2, E1, app_assoc|congruence].
Qed.

Lemma node_send_only m id t s :
  let '(r, s') := node_send clock m id t s in sent_only s s' [(m, is_ok r)].
Proof.
  unfold node_send. destruct (n_channel s) as [c|]; [|by split].
  destruct (channel_valid c); cbn [negb]; [|by split].
  destruct (send_frame clock c _ _ _) as [[r c'] tk]. by split.
Qed.

Lemma send_with_release m resv task s :
  ∃ b rel b', sent_only s (send_release clock resv task (node_send clock m 0 (-1) s).2)
    [(m, b); (MReservationRelease rel, b')].
Proof.
  pose proof (node_send_only m 0 (-1) s) as H1. destruct (node_send clock m 0 (-1) s) as [r s1].
  cbn [snd]. unfold send_release. set (rel := mkReservationRelease _ _ _ _ _).
  pose proof (node_send_only (MReservationRelease rel) 0 (-1) s1) as H2.
  destruct (node_send clock (MReservationRelease rel) 0 (-1) s1) as [r2 s2]. cbn [snd].
  exists (is_ok r), rel, (is_ok r2). exact (sent_only_trans _ _ _ _ _ H1 H2).
Qed.

(** A step that leaves the work alone and sends nothing. *)
Lemma accounts_quiet D s s' :
  accounts D s → same_work s s' → n_sent s' = n_sent s → (n_stopping s' = false → n_stopping s = false) →
  accounts D s'.
Proof. intros Ha Hs El Hst. apply (accounts_same D s s' []); [done..|by rewrite app_nil_r|done|done]. Qed.

Lemma accounts_sent D s s' log :
  accounts D s → sent_only s s' log → Forall (λ x, terminal_key x.1 = None) log → accounts D s'.
Proof. intros Ha [Hw El Hst] Hl. apply (accounts_same D s s' log); [done..|by rewrite Hst|done]. Qed.

Lemma stop_accounts D s : accounts D s → accounts D (request_runtime_stop s).
Proof. intros Ha. by apply (accounts_quiet D s). Qed.

(** A report made in answer to a dispatch. *)
Lemma send_failed_accounts D msg kind reason dur s :
  accounts D s →
  accounts (D ++ [msg]) (send_failed clock (da_attempt_id msg) (ct_id (da_task msg)) (da_reservation_id msg)
                           kind reason dur s).
Proof.
  intros Ha. unfold send_failed. set (fa := mkAttemptFailed _ _ _ _ _ _ _).
  destruct (send_with_release (MAttemptFailed fa) (da_reservation_id msg) (ct_id (da_task msg)) s)
    as (b & rel & b' & [Hw El Hst]). set (s' := send_release _ _ _ _) in *.
  destruct (same_work_flight s s' Hw) as (Ef & Ep & Eb & Ei).
  apply (accounts_step D [msg] s s' _ [] Ha El).
  - rewrite Hst. done.
  - rewrite Ef, app_nil_r. cbn. apply Permutation_app_comm.
  - rewrite Ep. apply Ha.
  - rewrite Eb, El. eapply Forall_impl; [apply Ha|]. intros k. apply started_app.
  - rewrite Ei, El. eapply Forall_impl; [apply Ha|]. intros k. apply started_app.
  - intros pre x post id E Hx. exfalso.
    assert (Hin : x ∈ [(MAttemptFailed fa, b); (MReservationRelease rel, b')]).
    { rewrite E. apply elem_of_app. right. apply elem_of_cons. by left. }
    apply elem_of_cons in Hin as [->|Hin]; [done|]. apply elem_of_cons in Hin as [->|Hin]; [done|].
    by apply elem_of_nil in Hin.
Qed.

(** ** Dispatch *)

#[local] Instance complete_keys_perm : Proper ((≡ₚ) ==> (≡ₚ)) (complete_keys (K := DispatchAttempt)).
Proof. intros l k E. by apply Permutation_flat_map. Qed.
#[local] Instance work_keys_perm : Proper ((≡ₚ) ==> (≡ₚ)) work_keys.
Proof. intros l k E. unfold work_keys. by rewrite E. Qed.
#[local] Instance Forall_work_perm (P : AttemptWork DispatchAttempt → Prop) :
  Proper ((≡ₚ) ==> iff) (Forall P).
Proof. intros l k E. by rewrite E. Qed.

Lemma work_keys_cons w m ws : aw_on_complete w = Some m → work_keys (w :: ws) = key_of_dispatch m :: work_keys ws.
Proof. intros Hw. unfold work_keys, complete_keys. cbn [flat_map]. by rewrite Hw. Qed.

(** The executors accept work. *)
Lemma executors_accounts D new ws cpu cuda s :
  let s' := set_executors cpu cuda s in
  accounts D s → all_pending s' ≡ₚ ws ++ all_pending s → all_begun s' ≡ₚ all_begun s →
  complete_keys ws = new → Forall work_ok ws → accounts (D ++ new) s'.
Proof.
  intros s' Ha Hp Hb Hk Hw. apply (accounts_step D new s s' [] []); try done.
  - by rewrite app_nil_r.
  - unfold in_flight. change (items s') with (items s). rewrite Hp, app_nil_r.
    unfold work_keys. unfold complete_keys at 2. rewrite flat_map_app, map_app.
    fold (complete_keys ws) (complete_keys (all_pending s)). rewrite Hk. cbn [reported omap list_omap app].
    rewrite <-app_assoc. apply Permutation_app_head, Permutation_app_comm.
  - rewrite Hp. apply Forall_app. split; [done|apply Ha].
  - rewrite Hb. apply Ha.
  - apply Ha.
  - intros pre x post id E. by destruct pre.
Qed.

Lemma enqueue_accounts D msg w exec s :
  accounts D s → aw_on_start w = Some msg → aw_on_complete w = Some msg →
  (∀ cu, exec = OnCuda cu → n_cuda s = Some cu) →
  let '(r, s') := enqueue_on exec w s in
  match r with Ok _ => accounts (D ++ [msg]) s' | Err _ => accounts D s' end.
Proof.
  intros Ha Hs Hc Hcu.
  assert (Hw : complete_keys [w] = [msg] ∧ Forall work_ok [w]).
  { unfold complete_keys. cbn [flat_map]. rewrite Hc. split; [done|]. apply Forall_singleton. by exists msg. }
  destruct exec as [|cu]; cbn [enqueue_on].
  - pose proof (law_enqueue w (n_cpu s)) as Hl. destruct (be_enqueue w (n_cpu s)) as [cpu r].
    destruct Hl as [Hb Hp]. destruct r as [[]|e].
    + apply (executors_accounts D [msg] [w]); [done| | |apply Hw..].
      * unfold all_pending. cbn [n_cpu set_executors]. by rewrite Hp.
      * unfold all_begun. cbn [n_cpu set_executors]. by rewrite Hb.
    + rewrite <-(app_nil_r D). apply (executors_accounts D [] []); try done.
      * unfold all_pending. cbn [n_cpu set_executors]. by rewrite Hp.
      * unfold all_begun. cbn [n_cpu set_executors]. by rewrite Hb.
  - specialize (Hcu cu eq_refl). pose proof (law_enqueue w cu) as Hl. destruct (be_enqueue w cu) as [cu' r].
    destruct Hl as [Hb Hp]. destruct r as [[]|e].
    + apply (executors_accounts D [msg] [w]); [done| | |apply Hw..].
      * unfold all_pending, cuda_pending. cbn [n_cpu n_cuda set_executors]. rewrite Hcu, Hp.
        cbn [app]. symmetry. apply Permutation_middle.
      * unfold all_begun, cuda_begun. cbn [n_cpu n_cuda set_executors]. by rewrite Hcu, Hb.
    + rewrite <-(app_nil_r D). apply (executors_accounts D [] []); try done.
      * unfold all_pending, cuda_pending. cbn [n_cpu n_cuda set_executors]. by rewrite Hcu, Hp.
      * unfold all_begun, cuda_begun. cbn [n_cpu n_cuda set_executors]. by rewrite Hcu, Hb.
Qed.

Lemma choose_cuda task s cu : choose_executor task s = Some (OnCuda cu) → n_cuda s = Some cu.
Proof. unfold choose_executor. repeat case_match; by intros [= ->]. Qed.

Lemma handle_dispatch_accounts D msg s : accounts D s → accounts (D ++ [msg]) (handle_dispatch clock msg s).
Proof.
  intros Ha. unfold handle_dispatch. cbv zeta. destruct (_ =? _); cbn [negb]; [|by apply send_failed_accounts].
  unfold new_token. set (s1 := set_tokens _ _ _).
  assert (Ha1 : accounts D s1) by (by apply (accounts_quiet D s)).
  destruct (choose_executor (da_task msg) s1) as [exec|] eqn:Ex.
  - unfold node_now. set (s2 := set_transport _ _ _).
    assert (Ha2 : accounts D s2) by (by apply (accounts_quiet D s1)). set (work := mkAttemptWork _ _ _ _ _ _ _ _ _).
    pose proof (enqueue_accounts D msg work exec s2 Ha2 eq_refl eq_refl) as He.
    destruct (enqueue_on exec work s2) as [r s3]. destruct r as [[]|e].
    + apply He. intros cu ->. exact (choose_cuda _ _ _ Ex).
    + apply send_failed_accounts, (accounts_quiet D s3); [|done..]. apply He.
      intros cu ->. exact (choose_cuda _ _ _ Ex).
  - by apply send_failed_accounts, (accounts_quiet D s1).
Qed.

(** ** Workers *)

Lemma send_started_only id device s :
  ∃ t b, sent_only s (send_started clock id device s) [(MAttemptStarted (mkAttemptStarted id t device), b)].
Proof.
  unfold send_started, node_now. set (s1 := set_transport _ _ _). set (m := mkAttemptStarted _ _ _).
  pose proof (node_send_only (MAttemptStarted m) 0 (-1) s1) as Hs. destruct (node_send _ _ _ _ _) as [r s2].
  exists (clock (n_ticks s)), (is_ok r). destruct Hs as [Hw El Hst]. split; [|done..].
  etrans; [|exact Hw]. by split.
Qed.

(** A worker calls [on_start]. *)
Lemma worker_started D w m cpu cuda s :
  let s1 := set_executors cpu cuda s in
  accounts D s → all_pending s1 ≡ₚ all_pending s → all_begun s1 ≡ₚ w :: all_begun s →
  aw_on_complete w = Some m → accounts D (on_start clock m s1).
Proof.
  intros s1 Ha Hp Hb Hm. unfold on_start. cbv zeta. set (device := if _ : bool then _ else _).
  destruct (send_started_only (da_attempt_id m) device s1) as (t & b & [Hw El Hst]).
  set (s' := send_started _ _ _ _) in *. destruct (same_work_flight s1 s' Hw) as (Ef & Ep & Eb & Ei).
  rewrite <-(app_nil_r D). apply (accounts_step D [] s s' _ [] Ha El).
  - intros E. rewrite Hst in E. done.
  - rewrite Ef. unfold in_flight. change (items s1) with (items s). rewrite Hp.
    cbn [reported omap list_omap terminal_key fst app map]. by rewrite !app_nil_r.
  - rewrite Ep, Hp. apply Ha.
  - rewrite Eb, Hb, El. unfold complete_keys. cbn [flat_map]. rewrite Hm. cbn [option_list app].
    apply Forall_cons. split.
    + exists t, device, b. apply elem_of_app. right. by apply list_elem_of_singleton.
    + eapply Forall_impl; [apply Ha|]. intros k. apply started_app.
  - rewrite Ei, El. eapply Forall_impl; [apply Ha|]. intros k. apply started_app.
  - intros pre x post id E Hx. exfalso. destruct pre as [|y pre]; [|by destruct pre].
    injection E as Ex _. by subst x.
Qed.

(** A worker calls [on_complete]: the outcome is queued, or dropped while the
    runtime stops. *)
Lemma worker_completed D w m out cpu cuda s :
  let s1 := set_executors cpu cuda s in
  accounts D s → all_pending s ≡ₚ w :: all_pending s1 → all_begun s ≡ₚ w :: all_begun s1 →
  aw_on_complete w = Some m → accounts D (on_complete m out s1).
Proof.
  intros s1 Ha Hp Hb Hm.
  assert (Hkeys : work_keys (all_pending s) ≡ₚ key_of_dispatch m :: work_keys (all_pending s1)).
  { rewrite Hp. by rewrite (work_keys_cons w m). }
  assert (Hw : Forall work_ok (all_pending s1)).
  { pose proof (an_works _ _ Ha) as H. rewrite Hp in H. by apply Forall_cons in H as [_ ?]. }
  assert (Hbeg : started (n_sent s) (da_attempt_id m) ∧
    Forall (λ k, started (n_sent s) (da_attempt_id k)) (complete_keys (all_begun s1))).
  { pose proof (an_begun _ _ Ha) as H. rewrite Hb in H. unfold complete_keys in H. cbn [flat_map] in H.
    rewrite Hm in H. by apply Forall_cons in H. }
  destruct Hbeg as [Hst Hbeg]. unfold on_complete. change (n_stopping s1) with (n_stopping s).
  change (n_comp_queue s1) with (n_comp_queue s). rewrite <-(app_nil_r D).
  destruct (negb (n_stopping s) && _).
  - set (item := mkItem _ _ _ _). set (s' := set_comp _ _ _).
    assert (Hit : items s' ≡ₚ item :: items s).
    { unfold items. cbn [s' set_comp n_comp_queue n_reporting]. change (n_reporting s1) with (n_reporting s).
      rewrite <-app_assoc. symmetry. apply Permutation_middle. }
    apply (accounts_step D [] s s' [] []); try done.
    + by rewrite app_nil_r.
    + unfold in_flight. change (all_pending s') with (all_pending s1). rewrite Hit, Hkeys.
      cbn [map reported omap list_omap app]. rewrite !app_nil_r. symmetry. apply Permutation_middle.
    + rewrite Hit. apply Forall_cons. split; [done|apply Ha].
    + intros pre x post id E. by destruct pre.
  - set (s2 := forget_attempt _ s1). set (s' := if negb (n_stopping s) then terminate_transport s2 else s2).
    assert (Hs' : same_work s1 s' ∧ n_sent s' = n_sent s ∧ n_stopping s' = true).
    { unfold s'. destruct (n_stopping s) eqn:E; by split. }
    destruct Hs' as (Hsw & El & Estop). destruct (same_work_flight s1 s' Hsw) as (Ef & Ep & Eb & Ei).
    apply (accounts_step D [] s s' [] [key_of_dispatch m]); try done.
    + by rewrite app_nil_r.
    + by rewrite Estop.
    + rewrite Ef. unfold in_flight. change (items s1) with (items s). rewrite Hkeys.
      cbn [map reported omap list_omap app]. rewrite app_nil_r, <-app_assoc.
      apply Permutation_app_head. by rewrite Permutation_app_comm.
    + by rewrite Ep.
    + by rewrite Eb, El.
    + rewrite Ei, El. apply Ha.
    + intros pre x post id E. by destruct pre.
Qed.

Lemma reports_accounts D cpu cuda reports s :
  let s1 := set_executors cpu cuda s in
  accounts D s →
  (reports = [] ∧ all_pending s1 ≡ₚ all_pending s ∧ all_begun s1 ≡ₚ all_begun s) ∨
  (∃ w, w ∈ all_pending s ∧ reports = from_option (λ k, [WR_Started k]) [] (aw_on_start w) ∧
     all_pending s1 ≡ₚ all_pending s ∧ all_begun s1 ≡ₚ w :: all_begun s) ∨
  (∃ w out, reports = from_option (λ k, [WR_Completed k out]) [] (aw_on_complete w) ∧
     all_pending s ≡ₚ w :: all_pending s1 ∧ all_begun s ≡ₚ w :: all_begun s1) →
  accounts D (foldl (λ s r, run_report clock r s) s1 reports).
Proof.
  intros s1 Ha [(-> & Hp & Hb)|[(w & Hw & -> & Hp & Hb)|(w & out & -> & Hp & Hb)]].
  - rewrite <-(app_nil_r D). by apply (executors_accounts D [] []).
  - pose proof (an_works _ _ Ha) as Hok. rewrite Forall_forall in Hok. destruct (Hok w Hw) as (m & -> & Hm).
    by apply (worker_started D w m).
  - assert (Hw : w ∈ all_pending s) by (rewrite Hp; apply elem_of_cons; by left).
    pose proof (an_works _ _ Ha) as Hok. rewrite Forall_forall in Hok. destruct (Hok w Hw) as (m & _ & Hm).
    rewrite Hm. by apply (worker_completed D w m).
Qed.

Lemma worker_step_accounts D on_cuda env a s : accounts D s → accounts D (worker_step clock on_cuda env a s).
Proof.
  intros Ha. unfold worker_step. destruct on_cuda.
  - destruct (n_cuda s) as [cu|] eqn:Ec; [|done]. destruct (be_worker env (n_tokens s) a cu) as [[cu' rs]|] eqn:E; [|done].
    apply reports_accounts; [done|]. unfold all_pending, all_begun, cuda_pending, cuda_begun.
    cbn [set_executors n_cpu n_cuda]. rewrite Ec.
    destruct (law_worker env (n_tokens s) a cu cu' rs E) as [(-> & Hp & Hb)|[(w & Hw & -> & Hp & Hb)|(w & out & -> & Hp & Hb)]].
    + left. by rewrite Hp, Hb.
    + right; left. exists w. rewrite Hp, Hb. split_and!; [|done..|symmetry; apply Permutation_middle].
      apply elem_of_app. by right.
    + right; right. exists w, out. rewrite Hp, Hb. split_and!; [done|symmetry; apply Permutation_middle..].
  - destruct (be_worker env (n_tokens s) a (n_cpu s)) as [[cpu rs]|] eqn:E; [|done].
    apply reports_accounts; [done|]. unfold all_pending, all_begun.
    cbn [set_executors n_cpu]. change (cuda_pending (set_executors cpu (n_cuda s) s)) with (cuda_pending s).
    change (cuda_begun (set_executors cpu (n_cuda s) s)) with (cuda_begun s).
    destruct (law_worker env (n_tokens s) a (n_cpu s) cpu rs E) as [(-> & Hp & Hb)|[(w & Hw & -> & Hp & Hb)|(w & out & -> & Hp & Hb)]].
    + left. by rewrite Hp, Hb.
    + right; left. exists w. rewrite Hp, Hb. split_and!; [|done..]. apply elem_of_app. by left.
    + right; right. exists w, out. by rewrite Hp, Hb.
Qed.

(** ** The completion thread *)

Lemma take_accounts D passed s : accounts D s → accounts D (completion_take passed s).
Proof.
  intros Ha. unfold completion_take. destruct (n_stopping s && negb passed); [done|].
  destruct (n_reporting s) as [i|] eqn:Er; [done|]. destruct (n_comp_queue s) as [|item queue] eqn:Eq; [done|].
  set (s' := set_comp queue (Some item) s).
  assert (Hi : items s' ≡ₚ items s).
  { unfold items. cbn [s' set_comp n_comp_queue n_reporting option_list]. rewrite Er, Eq, app_nil_r.
    by rewrite Permutation_app_comm. }
  rewrite <-(app_nil_r D). apply (accounts_step D [] s s' [] []); try done.
  - by rewrite app_nil_r.
  - unfold in_flight. change (all_pending s') with (all_pending s). rewrite Hi.
    cbn [reported omap list_omap map app]. by rewrite !app_nil_r.
  - apply Ha.
  - apply Ha.
  - rewrite Hi. apply Ha.
  - intros pre x post id E. by destruct pre.
Qed.

(** A report out of the completion queue. *)
Lemma outcome_sent item s :
  ∃ m b rel b', sent_only s (send_outcome clock item s) [(m, b); (MReservationRelease rel, b')] ∧
    terminal_key m = Some (key_of_item item) ∧
    (∀ id, executed_attempt m = Some id → id = ci_attempt_id item).
Proof.
  destruct item as [id task resv out]. unfold send_outcome, send_complete, send_cancelled, send_failed.
  repeat case_match; cbn [n_epoch];
    match goal with |- context [node_send clock ?m 0 (-1) s] =>
      destruct (send_with_release m resv task s) as (b & rel & b' & Hs); exists m, b, rel, b' end;
    (split_and!; [exact Hs|done|by intros ? [= <-]]).
Qed.

Lemma report_accounts D s : accounts D s → accounts D (completion_report clock s).
Proof.
  intros Ha. unfold completion_report. destruct (n_reporting s) as [item|] eqn:Er; [|done].
  set (s1 := forget_attempt _ _).
  destruct (outcome_sent item s1) as (m & b & rel & b' & [Hw El Hst] & Hk & Hx). set (s' := send_outcome _ _ _) in *.
  destruct (same_work_flight s1 s' Hw) as (Ef & Ep & Eb & Ei).
  assert (Hi : items s ≡ₚ item :: items s1).
  { unfold items. cbn [s1 forget_attempt set_tokens set_comp n_comp_queue n_reporting option_list].
    rewrite Er, app_nil_r. cbn [option_list]. by rewrite Permutation_app_comm. }
  pose proof (an_items _ _ Ha) as Hits. rewrite Hi in Hits. apply Forall_cons in Hits as [Hstart Hits].
  rewrite <-(app_nil_r D). apply (accounts_step D [] s s' _ [] Ha El).
  - rewrite Hst. done.
  - rewrite Ef. unfold in_flight. change (all_pending s1) with (all_pending s). rewrite Hi.
    cbn [reported omap list_omap fst map app]. rewrite Hk. cbn [terminal_key app]. by rewrite !app_nil_r.
  - rewrite Ep. apply Ha.
  - rewrite Eb, El. eapply Forall_impl; [apply Ha|]. intros k. apply started_app.
  - rewrite Ei, El. eapply Forall_impl; [exact Hits|]. intros k. apply started_app.
  - intros pre x post id E Hxe. destruct pre as [|y pre].
    + injection E as Ex _. subst x. rewrite app_nil_r. by rewrite (Hx id Hxe).
    + exfalso. destruct pre as [|z pre]; [|by destruct pre]. injection E as _ Ex _. by subst x.
Qed.

(** ** The other threads *)

Lemma heartbeat_accounts D passed s : accounts D s → accounts D (heartbeat_step clock passed s).
Proof.
  intros Ha. unfold heartbeat_step. destruct (n_stopping s && negb passed); [done|].
  destruct (n_connected s); cbn [negb]; [|by apply stop_accounts].
  pose proof (node_send_only (MNodeHeartbeat (heartbeat_message s)) 0 (-1) s) as Hs.
  destruct (node_send _ _ _ _ _) as [r s1]. apply (accounts_sent D s) in Hs; [|done|by apply Forall_singleton].
  destruct (failed r); [by apply stop_accounts|done].
Qed.

(** The dispatch a pass of the reader receives. *)
Definition dispatch_of (frame : Frame) : option DispatchAttempt :=
  if fh_message_type (fr_header frame) =? kDispatchAttempt then
    match parse_payload deserialize_dispatch_attempt frame with Ok m => Some m | Err _ => None end
  else None.
Definition received_dispatch (passed : bool) s : option DispatchAttempt :=
  if n_stopping s && negb passed then None
  else
    match n_channel s with
    | None => None
    | Some c =>
        match recv_frame clock c (i32 (nf_io_timeout_ms (n_config s))) kMaxFramePayload (n_ticks s) with
        | Some (Ok frame, _, _) => dispatch_of frame
        | _ => None
        end
    end.

Lemma handle_frame_accounts D frame s :
  accounts D s → accounts (D ++ option_list (dispatch_of frame)) (handle_frame clock frame s).
Proof.
  intros Ha. unfold handle_frame, dispatch_of. cbv zeta. destruct (_ =? kDispatchAttempt).
  { destruct (parse_payload deserialize_dispatch_attempt frame); [by apply handle_dispatch_accounts|].
    by rewrite app_nil_r. }
  cbn [option_list]. rewrite app_nil_r. destruct (_ =? kAttemptCancel).
  { destruct (parse_payload deserialize_attempt_cancel frame); [|done]. unfold handle_cancel.
    case_match; [|done]. by apply (accounts_quiet D s). }
  destruct (_ =? kNodeHeartbeatAck); [repeat case_match; done || by apply stop_accounts|].
  destruct (_ =? kNodeShutdown); [|done]. set (ok := match parse_payload _ _ with Ok _ => _ | Err _ => _ end).
  pose proof (node_send_only (MNodeShutdownAck (mkNodeShutdownAck ok)) (fh_request_id (fr_header frame)) (-1) s) as Hs.
  destruct (node_send _ _ _ _ _) as [r s1]. apply (accounts_sent D s) in Hs; [|done|by apply Forall_singleton].
  destruct (failed r || ok); [by apply stop_accounts|done].
Qed.

Lemma read_accounts D passed s :
  accounts D s → accounts (D ++ option_list (received_dispatch passed s)) (read_step clock passed s).
Proof.
  intros Ha. unfold read_step, received_dispatch. destruct (n_stopping s && negb passed); [by rewrite app_nil_r|].
  destruct (n_channel s) as [c|]; [|by rewrite app_nil_r].
  destruct (recv_frame _ _ _ _ _) as [[[r c'] tk]|]; [|by rewrite app_nil_r].
  assert (Ha' : accounts D (set_transport (Some c') tk s)) by (by apply (accounts_quiet D s)).
  destruct r as [frame|e]; [by apply handle_frame_accounts|]. cbn [option_list]. rewrite app_nil_r.
  case_bool_decide; [done|by apply stop_accounts].
Qed.

Lemma stop_begin_accounts D s : accounts D s → accounts D (stop_begin s).
Proof.
  intros Ha. unfold stop_begin. destruct (n_stop_done s); [done|]. cbv zeta. set (s1 := close_channel _).
  assert (Ha1 : accounts D s1) by (by apply (accounts_quiet D s)). clearbody s1. clear Ha s.
  pose proof (law_shutdown false (n_cpu s1) (n_tokens s1)) as Hl.
  destruct (be_shutdown false (n_cpu s1) (n_tokens s1)) as [cpu tokens]. destruct Hl as [Hp Hb].
  set (s2 := set_tokens _ _ _).
  assert (Ha2 : accounts D s2).
  { apply (accounts_quiet D (set_executors cpu (n_cuda s1) s1)); [|done..]. rewrite <-(app_nil_r D).
    apply (executors_accounts D [] []); try done; unfold all_pending, all_begun; cbn [set_executors n_cpu].
    - by rewrite Hp.
    - by rewrite Hb. }
  clearbody s2. clear -Ha2. destruct (n_cuda s2) as [cu|] eqn:Ec; [|done].
  pose proof (law_shutdown false cu (n_tokens s2)) as Hl.
  destruct (be_shutdown false cu (n_tokens s2)) as [cu' tokens]. destruct Hl as [Hp Hb].
  apply (accounts_quiet D (set_executors (n_cpu s2) (Some cu') s2)); [|done..]. rewrite <-(app_nil_r D).
  apply (executors_accounts D [] []); try done; unfold all_pending, all_begun, cuda_pending, cuda_begun;
    cbn [set_executors n_cpu n_cuda app]; rewrite Ec.
  - by rewrite Hp.
  - by rewrite Hb.
Qed.

(** ** Runs *)

Definition event_dispatch (e : NodeEvent) s : option DispatchAttempt :=
  match e with NE_Read passed => received_dispatch passed s | _ => None end.

Lemma node_event_accounts D e s :
  accounts D s → accounts (D ++ option_list (event_dispatch e s)) (node_event clock e s).
Proof.
  intros Ha. destruct e; cbn [event_dispatch node_event option_list]; rewrite ?app_nil_r.
  - by apply read_accounts.
  - by apply heartbeat_accounts.
  - by apply worker_step_accounts.
  - by apply take_accounts.
  - by apply report_accounts.
  - by apply stop_begin_accounts.
  - unfold stop_end. case_match; [|done]. by apply (accounts_quiet D s).
Qed.

(** The dispatches received along a run. *)
Fixpoint dispatches (es : list NodeEvent) s : list DispatchAttempt :=
  match es with
  | [] => []
  | e :: es => option_list (event_dispatch e s) ++ dispatches es (node_event clock e s)
  end.

Lemma node_run_accounts es D s : accounts D s → accounts (D ++ dispatches es s) (node_run clock es s).
Proof.
  revert D s. induction es as [|e es IH]; intros D s Ha; cbn [dispatches].
  - by rewrite app_nil_r.
  - rewrite app_assoc. apply IH. by apply node_event_accounts.
Qed.

(** A node that has registered and has no work yet. *)
Record no_work s : Prop := {
  nw_items : items s = [];
  nw_pending : all_pending s = [];
  nw_begun : all_begun s = [];
  nw_reports : Forall (λ x, terminal_key x.1 = None) (n_sent s)
}.

Lemma no_work_accounts s : no_work s → accounts [] s.
Proof.
  intros [Hi Hp Hb Hr]. split.
  - exists []. split; [|done]. unfold in_flight. rewrite Hi, Hp. cbn.
    induction Hr as [|x l Hx _ IH]; [done|]. cbn. by rewrite Hx.
  - by rewrite Hp.
  - by rewrite Hb.
  - by rewrite Hi.
  - intros pre [m b] post id E Hx. exfalso. rewrite E in Hr.
    apply Forall_app in Hr as [_ [Hm _]%Forall_cons]. cbn [fst] in *. by destruct m.
Qed.
End node.

(** ** Claims *)


(** Sample runs: a registered node without CUDA that receives one dispatch; the
    socket accepts everything it is given, or nothing. *)
Definition sample_dispatch : DispatchAttempt :=
  mkDispatchAttempt (aw_task (sample_work 0)) (mkId 9 3) (mkId 9 4) 2 0.
Definition sample_config : NodeConfig := mkNodeConfig "127.0.0.1" 7000 "n" "a" 1 0 false 0 0 250 5000 ∅.
Definition dispatch_frame : Frame :=
  make_frame kDispatchAttempt SK_Coordinator id_zero 1 (serialize_message (MDispatchAttempt sample_dispatch)).
Definition sample_socket (sends : list SendEvent) : Socket :=
  mkSocket (new_state 5) [RE_Bytes (wire dispatch_frame)] sends [].
Definition registered_node (sends : list SendEvent) : Node CudaStub :=
  set_flags false true false
    (set_session (mkId 7 7) 2 1
       (set_transport (Some (new_channel (sample_socket sends))) 0
          (new_node sample_config (mkId 8 8) (mkStub false)))).
Definition attempt_events : list NodeEvent :=
  [NE_Read false; NE_Worker false sample_env WA_Take; NE_Worker false sample_env (WA_Start 0);
   NE_Worker false sample_env (WA_Check 0); NE_Worker false sample_env (WA_Finish 0); NE_Take false; NE_Report].

Lemma registered_no_work sends : no_work (registered_node sends).
Proof. by split. Qed.


(** The result of [send_frame] is ignored by the completion thread: when the socket
    does not take the report in time it is gone, while the node stays connected and
    goes on. *)
Example report_lost :
  let s' := node_run (λ _, 0) attempt_events (registered_node []) in
  n_stopping s' = false ∧ n_connected s' = true ∧ in_flight s' = [] ∧
  reported (n_sent s') = [(mkId 9 3, mkId 0 0, mkId 9 4)] ∧
  forallb (λ x, negb x.2) (n_sent s') = true ∧
  (sk_written ∘ ch_socket <$> n_channel s') = Some [].
Proof. vm_compute. done. Qed.
