(* ===== verification/Store.v ===== *)
(** * Store: the durable coordinator state (persist/store.h, store.cpp)

    [encode_store] is the file image [save] builds, [parse_store] what [load]
    makes of a file image.  The file system is a map from paths to contents;
    [write_file_atomic] takes what the operating system did as an argument
    ([WriteOutcome]), which also describes a process that dies on the way: the
    staging file then holds some prefix of the data. *)

From S2P Require Import Prelude Status Ids Digest Float64 Task Lifecycle Placement Wire Serialize.

Local Open Scope Z_scope.

Definition kStoreMagic : Z := 0x43464653.
Definition kFormatVersion : Z := 1.
Definition kMaxFileSize : Z := 268435456.
Definition kMaxRecords : Z := 1048576.

Definition kRecEpoch : Z := 1.
Definition kRecWorkload : Z := 2.
Definition kRecTask : Z := 3.
Definition kRecTaskState : Z := 4.
Definition kRecAttempt : Z := 5.
Definition kRecRetryCount : Z := 6.
Definition kRecPlacement : Z := 7.

Record StoredPlacement := mkStoredPlacement {
  sp_task_id : Id128;
  sp_sequence : Z;            (* uint64_t *)
  sp_decision : PlacementDecision
}.

Record DurableState := mkDurableState {
  ds_epoch : Z;               (* uint64_t *)
  ds_workloads : gmap Id128 Workload;
  ds_tasks : gmap Id128 ComputeTask;
  ds_task_states : gmap Id128 TaskState;
  ds_attempts : gmap Id128 (list ExecutionAttempt);
  ds_retry_counts : gmap Id128 Z;   (* uint32_t *)
  ds_placements : list StoredPlacement
}.

(** [DurableState state;] *)
Definition empty_durable : DurableState := mkDurableState 1 ∅ ∅ ∅ ∅ ∅ [].

Record StoreRecord := mkStoreRecord { sr_tag : Z; sr_payload : bytes }.

(** ** Saving *)

Definition put_record (rec : StoreRecord) : bytes :=
  put_u8 (sr_tag rec) ++ put_u32 (u32 (Z.of_nat (length (sr_payload rec))))
  ++ put_u32 (crc32_compute (sr_payload rec)) ++ put_bytes (sr_payload rec).

(** The records in the order [save] writes them. *)
Definition epoch_record (s : DurableState) : StoreRecord :=
  mkStoreRecord kRecEpoch (put_u64 (ds_epoch s)).
Definition workload_record (kv : Id128 * Workload) : StoreRecord :=
  mkStoreRecord kRecWorkload (serialize_workload kv.2).
Definition task_record (kv : Id128 * ComputeTask) : StoreRecord :=
  mkStoreRecord kRecTask (serialize_task kv.2).
Definition task_state_record (kv : Id128 * TaskState) : StoreRecord :=
  mkStoreRecord kRecTaskState (put_id kv.1 ++ put_u8 (enum_to kv.2)).
Definition attempt_record (a : ExecutionAttempt) : StoreRecord :=
  mkStoreRecord kRecAttempt (serialize_attempt a).
Definition retry_record (kv : Id128 * Z) : StoreRecord :=
  mkStoreRecord kRecRetryCount (put_id kv.1 ++ put_u32 kv.2).
Definition placement_record (sp : StoredPlacement) : StoreRecord :=
  mkStoreRecord kRecPlacement
    (put_id (sp_task_id sp) ++ put_u64 (sp_sequence sp) ++ serialize_placement (sp_decision sp)).

Definition store_records (s : DurableState) : list StoreRecord :=
  [epoch_record s]
  ++ map workload_record (in_order (ds_workloads s))
  ++ map task_record (in_order (ds_tasks s))
  ++ map task_state_record (in_order (ds_task_states s))
  ++ map attempt_record (flat_map snd (in_order (ds_attempts s)))
  ++ map retry_record (in_order (ds_retry_counts s))
  ++ map placement_record (ds_placements s).

(** The counter [record_count], a [uint32_t]. *)
Definition record_count (s : DurableState) : Z :=
  let c := 1 in
  let c := u32 (c + u32 (Z.of_nat (size (ds_workloads s)))) in
  let c := u32 (c + u32 (Z.of_nat (size (ds_tasks s)))) in
  let c := u32 (c + u32 (Z.of_nat (size (ds_task_states s)))) in
  let c := foldl (λ c kv, u32 (c + u32 (Z.of_nat (length kv.2)))) c (in_order (ds_attempts s)) in
  let c := u32 (c + u32 (Z.of_nat (size (ds_retry_counts s)))) in
  u32 (c + u32 (Z.of_nat (length (ds_placements s)))).

Definition encode_body (s : DurableState) : bytes :=
  put_u32 (record_count s) ++ flat_map put_record (store_records s).

Definition encode_store (s : DurableState) : bytes :=
  let body := encode_body s in
  put_u32 kStoreMagic ++ put_u32 kFormatVersion ++ put_u64 (Z.of_nat (length body))
  ++ put_u32 (crc32_compute body) ++ put_bytes body.

(** ** Loading *)

Definition corrupt {A} (msg : string) : Result A := err ECorruptionDetected msg.

(** [if (!read) return Error(CorruptionDetected, msg);] *)
Definition require {A} (m : Read A) (msg : string) : Parse A := λ r,
  match m r with
  | (Some a, r') => (Ok a, r')
  | (None, r') => (corrupt msg, r')
  end.

Definition stop_with {A} (res : Result A) : Parse A := λ r, (res, r).

Definition read_record : Parse StoreRecord :=
  tag ← require read_u8 "record tag truncated";
  plen ← require (read_count kMaxFileSize) "record length invalid";
  pcrc ← require read_u32 "record crc truncated";
  payload ← require (read_raw_bytes plen) "record body truncated";
  if negb (crc32_compute payload =? pcrc)
  then stop_with (corrupt "record payload checksum mismatch")
  else mret (mkStoreRecord tag payload).

Definition set_epoch (s : DurableState) (e : Z) : DurableState :=
  mkDurableState e (ds_workloads s) (ds_tasks s) (ds_task_states s) (ds_attempts s)
    (ds_retry_counts s) (ds_placements s).
Definition set_workload (s : DurableState) (w : Workload) : DurableState :=
  mkDurableState (ds_epoch s) (<[wl_id w := w]> (ds_workloads s)) (ds_tasks s)
    (ds_task_states s) (ds_attempts s) (ds_retry_counts s) (ds_placements s).
Definition set_task (s : DurableState) (t : ComputeTask) : DurableState :=
  mkDurableState (ds_epoch s) (ds_workloads s) (<[ct_id t := t]> (ds_tasks s))
    (ds_task_states s) (ds_attempts s) (ds_retry_counts s) (ds_placements s).
Definition set_task_state (s : DurableState) (id : Id128) (ts : TaskState) : DurableState :=
  mkDurableState (ds_epoch s) (ds_workloads s) (ds_tasks s) (<[id := ts]> (ds_task_states s))
    (ds_attempts s) (ds_retry_counts s) (ds_placements s).
Definition push_attempt (m : gmap Id128 (list ExecutionAttempt)) (a : ExecutionAttempt) :=
  <[at_task_id a := default [] (m !! at_task_id a) ++ [a]]> m.
Definition add_attempt (s : DurableState) (a : ExecutionAttempt) : DurableState :=
  mkDurableState (ds_epoch s) (ds_workloads s) (ds_tasks s) (ds_task_states s)
    (push_attempt (ds_attempts s) a) (ds_retry_counts s) (ds_placements s).
Definition set_retry (s : DurableState) (id : Id128) (c : Z) : DurableState :=
  mkDurableState (ds_epoch s) (ds_workloads s) (ds_tasks s) (ds_task_states s) (ds_attempts s)
    (<[id := c]> (ds_retry_counts s)) (ds_placements s).
Definition add_placement (s : DurableState) (p : StoredPlacement) : DurableState :=
  mkDurableState (ds_epoch s) (ds_workloads s) (ds_tasks s) (ds_task_states s) (ds_attempts s)
    (ds_retry_counts s) (ds_placements s ++ [p]).

Definition parse_placement_record : Parse StoredPlacement :=
  task_id ← require read_id "bad placement record";
  sequence ← require read_u64 "bad placement record";
  decision ← deserialize_placement;
  mret (mkStoredPlacement task_id sequence decision).

(** A record's payload, with every failure reported as [msg]. *)
Definition decode_record {A} (p : Parse A) (payload : bytes) (msg : string) : Result A :=
  match (p (reader_of payload)).1 with
  | Ok a => Ok a
  | Err _ => corrupt msg
  end.

Definition apply_record (s : DurableState) (rec : StoreRecord) : Result DurableState :=
  let payload := sr_payload rec in
  if sr_tag rec =? kRecEpoch then
    e <-- decode_record (require read_u64 "") payload "epoch record malformed" ;;;
    Ok (set_epoch s e)
  else if sr_tag rec =? kRecWorkload then
    w <-- decode_record deserialize_workload payload "bad workload record" ;;;
    Ok (set_workload s w)
  else if sr_tag rec =? kRecTask then
    t <-- decode_record deserialize_task payload "bad task record" ;;;
    Ok (set_task s t)
  else if sr_tag rec =? kRecTaskState then
    x <-- decode_record (id ← require read_id ""; ts ← require read_u8 ""; mret (id, ts))
            payload "bad task state record" ;;;
    Ok (set_task_state s x.1 (enum_of x.2))
  else if sr_tag rec =? kRecAttempt then
    a <-- decode_record deserialize_attempt payload "bad attempt record" ;;;
    Ok (if at_committed a then add_attempt s a else s)
  else if sr_tag rec =? kRecRetryCount then
    x <-- decode_record (id ← require read_id ""; c ← require read_u32 ""; mret (id, c))
            payload "bad retry record" ;;;
    Ok (set_retry s x.1 x.2)
  else if sr_tag rec =? kRecPlacement then
    p <-- decode_record parse_placement_record payload "bad placement record" ;;;
    Ok (add_placement s p)
  else corrupt "unknown record tag".

Fixpoint apply_records (s : DurableState) (recs : list StoreRecord) : Result DurableState :=
  match recs with
  | [] => Ok s
  | rec :: recs => s' <-- apply_record s rec ;;; apply_records s' recs
  end.

Definition parse_header : Parse (Z * Z * Z * Z) :=
  magic ← require read_u32 "store header truncated";
  version ← require read_u32 "store header truncated";
  body_size ← require read_u64 "store header truncated";
  body_crc ← require read_u32 "store header truncated";
  mret (magic, version, body_size, body_crc).

Definition parse_records : Parse (list StoreRecord) :=
  n ← require (read_count kMaxRecords) "store record count invalid";
  repeat_parse (Z.to_nat n) read_record.

Definition parse_store (file : bytes) : Result DurableState :=
  if (length file <? 20)%nat then corrupt "store file too small"
  else if kMaxFileSize <? Z.of_nat (length file) then corrupt "store file exceeds size bound"
  else
    match parse_header (reader_of file) with
    | (Err e, _) => Err e
    | (Ok (magic, version, body_size, body_crc), r) =>
        if negb (magic =? kStoreMagic) then corrupt "store magic mismatch"
        else if negb (version =? kFormatVersion) then
          err EPersistenceError "store format version unsupported"
        else if negb (Z.of_nat (length (rd_rest r)) =? body_size) then
          corrupt "store body size mismatch (truncated)"
        else if negb (crc32_compute (rd_rest r) =? body_crc) then
          corrupt "store body checksum mismatch"
        else
          recs <-- (parse_records (reader_of (rd_rest r))).1 ;;;
          apply_records empty_durable recs
    end.

(** ** Files *)

Abbreviation FileSystem := (gmap string bytes).

Inductive WriteOutcome :=
| W_OpenFailed
| W_WriteFailed (written : nat)   (* only this many bytes reached the staging file *)
| W_RenameFailed
| W_Done.

Definition staging (path : string) : string := path +:+ ".tmp".

Definition write_file_atomic (fs : FileSystem) (path : string) (data : bytes) (o : WriteOutcome)
    : FileSystem * bool :=
  let tmp := staging path in
  match o with
  | W_OpenFailed => (fs, false)
  | W_WriteFailed k => (<[tmp := take k data]> fs, false)
  | W_RenameFailed => (<[tmp := data]> fs, false)
  | W_Done => (<[path := data]> (delete tmp fs), true)
  end.

Definition store_save (fs : FileSystem) (path : string) (s : DurableState) (o : WriteOutcome)
    : FileSystem * Result unit :=
  let '(fs', ok) := write_file_atomic fs path (encode_store s) o in
  (fs', if ok then Ok tt else err EIoError ("failed to write store file: " +:+ path)).

Definition store_load (fs : FileSystem) (path : string) : Result DurableState :=
  match fs !! path with
  | None => err EIoError ("cannot read store file: " +:+ path)
  | Some file => parse_store file
  end.

(** [Store::open]: [dir_ok] is whether the directory exists afterwards, [o] the
    outcome of the initial save; the result is the store's file path. *)
Definition store_open (fs : FileSystem) (store_dir : string) (create_if_missing dir_ok : bool)
    (o : WriteOutcome) : FileSystem * Result string :=
  let file := store_dir +:+ "/coordinator.store" in
  if negb dir_ok then (fs, err EIoError ("cannot create store directory: " +:+ store_dir))
  else
    match fs !! file with
    | Some _ => (fs, Ok file)
    | None =>
        if negb create_if_missing then (fs, err EIoError ("store does not exist: " +:+ file))
        else
          let '(fs', sv) := store_save fs file empty_durable o in
          (fs', x <-- sv ;;; Ok file)
    end.

(** ** Records read back *)

Lemma reads_require {A} (m : Read A) what msg bs a :
  reads (expect m what) bs a → reads (require m msg) bs a.
Proof.
  intros Hr pos rest. specialize (Hr pos rest). unfold expect, require in *.
  by destruct (m _) as [[v|] r].
Qed.

Lemma decode_record_reads {A} (p : Parse A) bs msg a : reads p bs a → decode_record p bs msg = Ok a.
Proof.
  intros Hr. specialize (Hr 0 []). unfold decode_record, reader_of. by rewrite app_nil_r in Hr; rewrite Hr.
Qed.

Definition record_wf (rec : StoreRecord) : Prop :=
  is_u8 (sr_tag rec) ∧ Z.of_nat (length (sr_payload rec)) <= kMaxFileSize.

Lemma reads_record rec : record_wf rec → reads read_record (put_record rec) rec.
Proof.
  intros [Ht Hlen]. unfold read_record, put_record.
  eapply reads_bind; [by apply (reads_require _ ""), reads_u8|].
  eapply reads_bind; [by apply (reads_require _ ""), reads_count|].
  eapply reads_bind; [apply (reads_require _ ""), reads_u32, crc32_compute_u32|].
  eapply reads_last.
  - apply (reads_require _ ""), expect_read_raw. intros. unfold read_raw_bytes.
    rewrite Nat2Z.id. by apply read_raw_app.
  - rewrite Z.eqb_refl. by destruct rec.
Qed.

Lemma apply_records_app s xs ys :
  apply_records s (xs ++ ys) = result_bind (apply_records s xs) (λ s, apply_records s ys).
Proof.
  revert s. induction xs as [|x xs IH]; intros s; simpl; [done|].
  destruct (apply_record s x); simpl; [apply IH|done].
Qed.

Lemma apply_records_map {A} (f : A → StoreRecord) (g : DurableState → A → DurableState) l s :
  (∀ s x, x ∈ l → apply_record s (f x) = Ok (g s x)) →
  apply_records s (map f l) = Ok (foldl g s l).
Proof.
  revert s. induction l as [|x l IH]; intros s Hf; simpl; [done|].
  rewrite Hf by set_solver. simpl. apply IH. set_solver.
Qed.

(** ** States that can be saved *)

Definition placement_entry_wf (sp : StoredPlacement) : Prop :=
  id_wf (sp_task_id sp) ∧ is_u64 (sp_sequence sp) ∧ placement_wf (sp_decision sp).

Record durable_wf (s : DurableState) : Prop := {
  dw_epoch : is_u64 (ds_epoch s);
  dw_workloads : map_Forall (λ k w, wl_id w = k ∧ workload_wf w) (ds_workloads s);
  dw_tasks : map_Forall (λ k t, ct_id t = k ∧ task_wf t) (ds_tasks s);
  dw_states : map_Forall (λ k ts, id_wf k ∧ enum_wf ts) (ds_task_states s);
  dw_attempts : map_Forall (λ k l, l ≠ [] ∧
    Forall (λ a, at_task_id a = k ∧ at_committed a = true ∧ attempt_wf a) l) (ds_attempts s);
  dw_retry : map_Forall (λ k c, id_wf k ∧ is_u32 c) (ds_retry_counts s);
  dw_placements : Forall placement_entry_wf (ds_placements s)
}.

(** Reduce the [switch] on a known tag. *)
Tactic Notation "select_tag" reference(rec) :=
  cbv beta iota zeta delta [apply_record rec sr_tag sr_payload fst snd kRecEpoch kRecWorkload
    kRecTask kRecTaskState kRecAttempt kRecRetryCount kRecPlacement Z.eqb Pos.eqb].

Section apply.
Context (s0 : DurableState) (Hwf : durable_wf s0).

Lemma apply_epoch s : apply_record s (epoch_record s0) = Ok (set_epoch s (ds_epoch s0)).
Proof using Hwf.
  select_tag epoch_record.
  rewrite (decode_record_reads _ _ _ (ds_epoch s0)); [done|].
  apply (reads_require _ ""), reads_u64, dw_epoch, Hwf.
Qed.

Lemma apply_workload s kv :
  kv ∈ in_order (ds_workloads s0) → apply_record s (workload_record kv) = Ok (set_workload s kv.2).
Proof using Hwf.
  destruct kv as [k w]. intros [_ Hw]%elem_of_in_order%(dw_workloads s0 Hwf).
  select_tag workload_record.
  by rewrite (decode_record_reads _ _ _ w) by (by apply workload_reads).
Qed.

Lemma apply_task s kv :
  kv ∈ in_order (ds_tasks s0) → apply_record s (task_record kv) = Ok (set_task s kv.2).
Proof using Hwf.
  destruct kv as [k t]. intros [_ Ht]%elem_of_in_order%(dw_tasks s0 Hwf).
  select_tag task_record.
  by rewrite (decode_record_reads _ _ _ t) by (by apply task_reads).
Qed.

Lemma apply_task_state s kv :
  kv ∈ in_order (ds_task_states s0) →
  apply_record s (task_state_record kv) = Ok (set_task_state s kv.1 kv.2).
Proof using Hwf.
  destruct kv as [k ts]. intros [Hk [Hu Hof]]%elem_of_in_order%(dw_states s0 Hwf).
  select_tag task_state_record.
  rewrite (decode_record_reads _ _ _ (k, enum_to ts)).
  - simpl in *. by rewrite Hof.
  - eapply reads_bind; [by apply (reads_require _ ""), reads_id|].
    eapply reads_last; [by apply (reads_require _ ""), reads_u8|done].
Qed.

Lemma apply_attempt s a :
  a ∈ flat_map snd (in_order (ds_attempts s0)) →
  apply_record s (attempt_record a) = Ok (add_attempt s a).
Proof using Hwf.
  intros Ha. apply list_elem_of_In, in_flat_map in Ha as ([k l] & Hl & Ha).
  apply list_elem_of_In in Hl, Ha. simpl in Ha.
  apply elem_of_in_order, (dw_attempts s0 Hwf) in Hl as [_ Hl].
  rewrite Forall_forall in Hl. destruct (Hl a Ha) as (_ & Hc & Hw).
  select_tag attempt_record.
  rewrite (decode_record_reads _ _ _ a) by (by apply attempt_reads). simpl. by rewrite Hc.
Qed.

Lemma apply_retry s kv :
  kv ∈ in_order (ds_retry_counts s0) →
  apply_record s (retry_record kv) = Ok (set_retry s kv.1 kv.2).
Proof using Hwf.
  destruct kv as [k c]. intros [Hk Hc]%elem_of_in_order%(dw_retry s0 Hwf).
  select_tag retry_record.
  rewrite (decode_record_reads _ _ _ (k, c)); [done|].
  eapply reads_bind; [by apply (reads_require _ ""), reads_id|].
  eapply reads_last; [by apply (reads_require _ ""), reads_u32|done].
Qed.

Lemma apply_placement s sp :
  sp ∈ ds_placements s0 → apply_record s (placement_record sp) = Ok (add_placement s sp).
Proof using Hwf.
  pose proof (dw_placements s0 Hwf) as Hp. rewrite Forall_forall in Hp.
  intros (Hid & Hseq & Hd)%Hp. select_tag placement_record.
  rewrite (decode_record_reads _ _ _ sp); [done|]. unfold parse_placement_record.
  eapply reads_bind; [by apply (reads_require _ ""), reads_id|].
  eapply reads_bind; [by apply (reads_require _ ""), reads_u64|].
  eapply reads_last; [by apply placement_reads|]. by destruct sp.
Qed.
End apply.

(** ** Rebuilding the state *)

Lemma foldl_set_workloads l s :
  (∀ kv, kv ∈ l → wl_id kv.2 = kv.1) →
  foldl (λ s kv, set_workload s kv.2) s l =
  mkDurableState (ds_epoch s) (foldl (λ m kv, <[kv.1 := kv.2]> m) (ds_workloads s) l)
    (ds_tasks s) (ds_task_states s) (ds_attempts s) (ds_retry_counts s) (ds_placements s).
Proof.
  revert s. induction l as [|[k w] l IH]; intros s Hl; simpl; [by destruct s|].
  assert (wl_id w = k) as E by (apply (Hl (k, w)); set_solver).
  rewrite IH by set_solver. simpl. by rewrite E.
Qed.

Lemma foldl_set_tasks l s :
  (∀ kv, kv ∈ l → ct_id kv.2 = kv.1) →
  foldl (λ s kv, set_task s kv.2) s l =
  mkDurableState (ds_epoch s) (ds_workloads s)
    (foldl (λ m kv, <[kv.1 := kv.2]> m) (ds_tasks s) l) (ds_task_states s) (ds_attempts s)
    (ds_retry_counts s) (ds_placements s).
Proof.
  revert s. induction l as [|[k t] l IH]; intros s Hl; simpl; [by destruct s|].
  assert (ct_id t = k) as E by (apply (Hl (k, t)); set_solver).
  rewrite IH by set_solver. simpl. by rewrite E.
Qed.

Lemma foldl_set_states l s :
  foldl (λ s kv, set_task_state s kv.1 kv.2) s l =
  mkDurableState (ds_epoch s) (ds_workloads s) (ds_tasks s)
    (foldl (λ m kv, <[kv.1 := kv.2]> m) (ds_task_states s) l) (ds_attempts s)
    (ds_retry_counts s) (ds_placements s).
Proof. revert s. induction l as [|kv l IH]; intros s; simpl; [by destruct s|]. by rewrite IH. Qed.

Lemma foldl_set_retries l s :
  foldl (λ s kv, set_retry s kv.1 kv.2) s l =
  mkDurableState (ds_epoch s) (ds_workloads s) (ds_tasks s) (ds_task_states s) (ds_attempts s)
    (foldl (λ m kv, <[kv.1 := kv.2]> m) (ds_retry_counts s) l) (ds_placements s).
Proof. revert s. induction l as [|kv l IH]; intros s; simpl; [by destruct s|]. by rewrite IH. Qed.

Lemma foldl_add_attempts l s :
  foldl add_attempt s l =
  mkDurableState (ds_epoch s) (ds_workloads s) (ds_tasks s) (ds_task_states s)
    (foldl push_attempt (ds_attempts s) l) (ds_retry_counts s) (ds_placements s).
Proof. revert s. induction l as [|a l IH]; intros s; simpl; [by destruct s|]. by rewrite IH. Qed.

Lemma foldl_add_placements l s :
  foldl add_placement s l =
  mkDurableState (ds_epoch s) (ds_workloads s) (ds_tasks s) (ds_task_states s)
    (ds_attempts s) (ds_retry_counts s) (ds_placements s ++ l).
Proof.
  revert s. induction l as [|p l IH]; intros s; simpl; [rewrite app_nil_r; by destruct s|].
  rewrite IH. simpl. by rewrite <-app_assoc.
Qed.

Lemma push_attempts_one k l (m : gmap Id128 (list ExecutionAttempt)) :
  Forall (λ a, at_task_id a = k) l → l ≠ [] →
  foldl push_attempt m l = <[k := default [] (m !! k) ++ l]> m.
Proof.
  intros Hl. revert m. induction Hl as [|a l <- Hl IH]; intros m Hne; [done|]. simpl.
  destruct l as [|b l]; [done|]. rewrite IH by done. unfold push_attempt.
  rewrite insert_insert_eq, lookup_insert_eq. simpl. by rewrite <-app_assoc.
Qed.

Lemma push_attempts_all l (m : gmap Id128 (list ExecutionAttempt)) :
  NoDup l.*1 → (∀ k, k ∈ l.*1 → m !! k = None) →
  Forall (λ kv, kv.2 ≠ [] ∧ Forall (λ a, at_task_id a = kv.1) kv.2) l →
  foldl push_attempt m (flat_map snd l) = foldl (λ m kv, <[kv.1 := kv.2]> m) m l.
Proof.
  revert m. induction l as [|[k as_] l IH]; intros m Hnd Hm Hl; csimpl in *; [done|].
  apply NoDup_cons in Hnd as [Hk Hnd]. apply Forall_cons in Hl as [[Hne Has] Hl]. cbn in Hne, Has.
  rewrite foldl_app, (push_attempts_one k as_ m) by done.
  rewrite (Hm k) by (apply elem_of_cons; by left). cbn [default app].
  apply IH; [done| |done]. intros k' Hk'.
  rewrite lookup_insert_ne by (intros ->; done). apply Hm, elem_of_cons. by right.
Qed.

Lemma rebuild s : durable_wf s → apply_records empty_durable (store_records s) = Ok s.
Proof.
  intros Hwf. unfold store_records. rewrite apply_records_app.
  cbn [apply_records]. rewrite (apply_epoch s Hwf). cbn [result_bind].
  rewrite apply_records_app, (apply_records_map _ _ _ _ (apply_workload s Hwf)). cbn [result_bind].
  rewrite apply_records_app, (apply_records_map _ _ _ _ (apply_task s Hwf)). cbn [result_bind].
  rewrite apply_records_app, (apply_records_map _ _ _ _ (apply_task_state s Hwf)). cbn [result_bind].
  rewrite apply_records_app, (apply_records_map _ _ _ _ (apply_attempt s Hwf)). cbn [result_bind].
  rewrite apply_records_app, (apply_records_map _ _ _ _ (apply_retry s Hwf)). cbn [result_bind].
  rewrite (apply_records_map _ _ _ _ (apply_placement s Hwf)).
  rewrite foldl_add_placements, foldl_set_retries, foldl_add_attempts, foldl_set_states.
  rewrite foldl_set_tasks, foldl_set_workloads; simpl.
  - rewrite push_attempts_all, !foldl_insert_in_order; [by destruct s|apply NoDup_in_order_keys|done|].
    apply Forall_forall. intros [k l] Hl%elem_of_in_order%(dw_attempts s Hwf). simpl.
    destruct Hl as [? Hl]. split; [done|]. eapply Forall_impl; [exact Hl|]. naive_solver.
  - intros [k w] Hw%elem_of_in_order%(dw_workloads s Hwf). naive_solver.
  - intros [k t] Ht%elem_of_in_order%(dw_tasks s Hwf). naive_solver.
Qed.

(** ** The record counter *)

Lemma u32_add_r a b : u32 (a + u32 b) = u32 (a + b).
Proof. unfold u32. by rewrite Zplus_mod_idemp_r. Qed.
Lemma u32_add_l a b : u32 (u32 a + b) = u32 (a + b).
Proof. unfold u32. by rewrite Zplus_mod_idemp_l. Qed.

Lemma foldl_u32_lengths {A B} (l : list (A * list B)) c :
  foldl (λ c kv, u32 (c + u32 (Z.of_nat (length kv.2)))) (u32 c) l =
  u32 (c + Z.of_nat (length (flat_map snd l))).
Proof.
  revert c. induction l as [|[k xs] l IH]; intros c; simpl; [by rewrite Z.add_0_r|].
  rewrite u32_add_r, u32_add_l, IH, length_app. f_equal. lia.
Qed.

Lemma record_count_length s : record_count s = u32 (Z.of_nat (length (store_records s))).
Proof.
  unfold record_count. cbv zeta. rewrite !u32_add_r, !u32_add_l, foldl_u32_lengths.
  rewrite <-!Z.add_assoc, u32_add_l, <-!Z.add_assoc, u32_add_l. f_equal.
  unfold store_records. rewrite !length_app, !length_map, !length_in_order. simpl. lia.
Qed.

(** ** The file image *)

Lemma length_put_record rec :
  Z.of_nat (length (put_record rec)) = 9 + Z.of_nat (length (sr_payload rec)).
Proof.
  unfold put_record, put_u8, put_u32, put_bytes. rewrite !length_app, !length_be_bytes. simpl. lia.
Qed.

Lemma payload_length_le rec recs :
  rec ∈ recs → Z.of_nat (length (sr_payload rec)) <= Z.of_nat (length (flat_map put_record recs)).
Proof.
  induction recs as [|r recs IH]; [set_solver|]. cbn [flat_map]. rewrite length_app, Nat2Z.inj_add.
  intros [->|Hin]%elem_of_cons; [rewrite length_put_record|specialize (IH Hin)]; lia.
Qed.

Lemma length_encode_store s :
  Z.of_nat (length (encode_store s)) = 20 + Z.of_nat (length (encode_body s)).
Proof.
  unfold encode_store, put_u32, put_u64, put_bytes.
  rewrite !length_app, !length_be_bytes. lia.
Qed.

Lemma store_tags_wf s rec : rec ∈ store_records s → is_u8 (sr_tag rec).
Proof.
  unfold store_records. rewrite !elem_of_app, !list_elem_of_fmap, list_elem_of_singleton.
  intros H. repeat match goal with
  | H : _ ∨ _ |- _ => destruct H
  | H : ∃ _, _ |- _ => destruct H
  | H : _ ∧ _ |- _ => destruct H
  end; subst; done.
Qed.

(** The header is the first 20 bytes. *)
Lemma parse_header_app h body :
  length h = 20%nat →
  parse_header (reader_of (h ++ body)) =
  (Ok (be_value (take 4 h), be_value (take 4 (drop 4 h)), be_value (take 8 (drop 8 h)),
       be_value (take 4 (drop 16 h))), mkReader 20 body).
Proof.
  intros Hl.
  assert (Hread : ∀ (k : Z → Parse (Z * Z * Z * Z)) n msg pos bs rest, (n <= length bs)%nat →
    (require (read_map be_value (read_raw n)) msg ≫= k) (mkReader pos (bs ++ rest)) =
    k (be_value (take n bs)) (mkReader (pos + Z.of_nat n) (drop n bs ++ rest))).
  { intros k n msg pos bs rest Hn. unfold mbind, Parse_bind, require, read_map.
    rewrite <-(take_drop n bs) at 1. rewrite <-app_assoc, read_raw_app; [done|].
    rewrite length_take. lia. }
  unfold parse_header, reader_of, read_u32, read_u64.
  rewrite !Hread; rewrite ?length_drop; try lia. rewrite !drop_drop. simpl.
  rewrite (drop_ge h 20) by lia. done.
Qed.

Definition header_of (file : bytes) : bytes := take 20 file.

Lemma parse_store_spec file :
  (20 <= length file)%nat → Z.of_nat (length file) <= kMaxFileSize →
  parse_store file =
  let h := header_of file in
  let body := drop 20 file in
  if negb (be_value (take 4 h) =? kStoreMagic) then corrupt "store magic mismatch"
  else if negb (be_value (take 4 (drop 4 h)) =? kFormatVersion) then
    err EPersistenceError "store format version unsupported"
  else if negb (Z.of_nat (length body) =? be_value (take 8 (drop 8 h))) then
    corrupt "store body size mismatch (truncated)"
  else if negb (crc32_compute body =? be_value (take 4 (drop 16 h))) then
    corrupt "store body checksum mismatch"
  else
    recs <-- (parse_records (reader_of body)).1 ;;; apply_records empty_durable recs.
Proof.
  intros H20 Hmax. unfold parse_store.
  replace (length file <? 20)%nat with false by (symmetry; apply Nat.ltb_ge; lia).
  replace (kMaxFileSize <? _) with false by lia.
  rewrite <-(take_drop 20 file) at 1.
  rewrite parse_header_app by (rewrite length_take; lia). done.
Qed.

(** The header [save] writes. *)
Definition store_header (body : bytes) : bytes :=
  put_u32 kStoreMagic ++ put_u32 kFormatVersion ++ put_u64 (Z.of_nat (length body))
  ++ put_u32 (crc32_compute body).

Lemma length_store_header body : length (store_header body) = 20%nat.
Proof. unfold store_header, put_u32, put_u64. by rewrite !length_app, !length_be_bytes. Qed.

Lemma encode_store_app s : encode_store s = store_header (encode_body s) ++ encode_body s.
Proof. unfold encode_store, store_header. by rewrite <-!app_assoc. Qed.

Lemma parse_encoded body :
  Z.of_nat (length body) + 20 <= kMaxFileSize →
  parse_store (store_header body ++ body) =
  (recs <-- (parse_records (reader_of body)).1 ;;; apply_records empty_durable recs).
Proof.
  intros Hmax. assert (Hh := length_store_header body). unfold kMaxFileSize in Hmax.
  rewrite parse_store_spec by (rewrite length_app, Hh; unfold kMaxFileSize; lia).
  unfold header_of. rewrite take_app_length', drop_app_length' by done. cbv zeta.
  unfold store_header, put_u32, put_u64.
  rewrite take_app_length' by (by rewrite length_be_bytes).
  rewrite (drop_app_length' (be_bytes 4 _)) by (by rewrite length_be_bytes).
  rewrite take_app_length' by (by rewrite length_be_bytes).
  rewrite (app_assoc (be_bytes 4 _) (be_bytes 4 _)).
  rewrite drop_app_length' by (by rewrite length_app, !length_be_bytes).
  rewrite take_app_length' by (by rewrite length_be_bytes).
  rewrite (app_assoc (_ ++ _) (be_bytes 8 _)).
  rewrite drop_app_length' by (by rewrite !length_app, !length_be_bytes).
  rewrite (firstn_all2 (be_bytes 4 _)) by (by rewrite length_be_bytes).
  rewrite !be_value_be_bytes; [|apply crc32_compute_u32|lia|done|done].
  by rewrite !Z.eqb_refl.
Qed.

(** The limits [load] imposes and [save] does not check. *)
Definition within_limits (s : DurableState) : Prop :=
  Z.of_nat (length (store_records s)) <= kMaxRecords ∧
  Z.of_nat (length (encode_store s)) <= kMaxFileSize.

Lemma parse_records_body s :
  within_limits s → (parse_records (reader_of (encode_body s))).1 = Ok (store_records s).
Proof.
  intros [Hn Hsize]. rewrite length_encode_store in Hsize.
  assert (Hr : reads parse_records (encode_body s) (store_records s)).
  { unfold parse_records, encode_body. rewrite record_count_length.
    eapply reads_bind; [by apply (reads_require _ ""), reads_count|].
    rewrite Nat2Z.id. apply reads_repeat, Forall_forall. intros rec Hrec.
    apply reads_record. split; [by eapply store_tags_wf|].
    etrans; [by apply payload_length_le|]. unfold encode_body in Hsize.
    rewrite length_app in Hsize. lia. }
  specialize (Hr 0 []). rewrite app_nil_r in Hr. unfold reader_of. by rewrite Hr.
Qed.

Lemma parse_encode_store s :
  durable_wf s → within_limits s → parse_store (encode_store s) = Ok s.
Proof.
  intros Hwf Hlim. pose proof Hlim as [_ Hsize]. rewrite length_encode_store in Hsize.
  rewrite encode_store_app, parse_encoded by lia.
  rewrite parse_records_body by done. by apply rebuild.
Qed.

Lemma string_app_length s t : String.length (s +:+ t) = (String.length s + String.length t)%nat.
Proof. induction s as [|a s IH]; [done|]. exact (f_equal S IH). Qed.

Lemma staging_ne path : staging path ≠ path.
Proof.
  unfold staging. intros E. apply (f_equal String.length) in E.
  rewrite string_app_length in E. simpl in E. lia.
Qed.

(** What a file that loads satisfies. *)
Lemma parse_store_inv file s :
  parse_store file = Ok s →
  (20 <= length file)%nat ∧ Z.of_nat (length file) <= kMaxFileSize ∧
  be_value (take 4 (header_of file)) = kStoreMagic ∧
  be_value (take 4 (drop 4 (header_of file))) = kFormatVersion ∧
  Z.of_nat (length (drop 20 file)) = be_value (take 8 (drop 8 (header_of file))) ∧
  crc32_compute (drop 20 file) = be_value (take 4 (drop 16 (header_of file))).
Proof.
  intros Hs.
  destruct (decide (20 <= length file)%nat) as [H20|H20].
  2:{ unfold parse_store in Hs.
      replace (length file <? 20)%nat with true in Hs by (symmetry; apply Nat.ltb_lt; lia). done. }
  destruct (decide (Z.of_nat (length file) <= kMaxFileSize)) as [Hmax|Hmax].
  2:{ unfold parse_store in Hs. case_match; [done|].
      by replace (kMaxFileSize <? _) with true in Hs by lia. }
  rewrite parse_store_spec in Hs by done. cbv zeta in Hs.
  do 4 (case_match; [done|]). clear Hs.
  repeat match goal with H : negb (_ =? _) = false |- _ => apply negb_false_iff, Z.eqb_eq in H end.
  done.
Qed.

(** ** Claims *)

(** C13: durability.  A state within the limits of the format, once saved, is
    loaded back exactly: epoch, workloads, tasks, task states, committed
    attempts, retry counters and placements, maps and order included. *)
Theorem store_roundtrip (fs : FileSystem) (path : string) (s : DurableState) :
  durable_wf s → within_limits s →
  store_load (store_save fs path s W_Done).1 path = Ok s.
Proof.
  intros Hwf Hlim. unfold store_load, store_save, write_file_atomic. simpl.
  rewrite lookup_insert_eq. by apply parse_encode_store.
Qed.

(** C12: crash atomicity.  Whatever happens while a state is written (the
    staging file cannot be opened, the write stops after any number of bytes,
    the rename fails), a later load sees the previous store unchanged; only a
    save that reports success changes what is loaded, and then to the new state. *)
Theorem store_atomic (fs : FileSystem) (path : string) (s : DurableState) (o : WriteOutcome) :
  durable_wf s → within_limits s →
  let '(fs', r) := store_save fs path s o in
  if is_ok r then store_load fs' path = Ok s
  else store_load fs' path = store_load fs path ∧ fs' !! path = fs !! path.
Proof.
  intros Hwf Hlim. pose proof (staging_ne path).
  unfold store_save, write_file_atomic, store_load. destruct o; simpl.
  - done.
  - by rewrite lookup_insert_ne.
  - by rewrite lookup_insert_ne.
  - rewrite lookup_insert_eq. by apply parse_encode_store.
Qed.

(** C40: damage is detected.  For a store image that loads: every proper prefix
    is rejected as corrupt, and so is the image with any run of at most four
    consecutive body bytes changed. *)
Theorem store_damage_detected (file : bytes) (s : DurableState) :
  parse_store file = Ok s →
  (∀ k, (k < length file)%nat → ∃ msg, parse_store (take k file) = corrupt msg) ∧
  (∀ h pre bs bs' post, file = h ++ pre ++ bs ++ post → length h = 20%nat →
     length bs = length bs' → (length bs <= 4)%nat → are_bytes bs → are_bytes bs' → bs ≠ bs' →
     parse_store (h ++ pre ++ bs' ++ post) = corrupt "store body checksum mismatch").
Proof.
  intros Hs. destruct (parse_store_inv file s Hs) as (H20 & Hmax & Hm & Hv & Hlen & Hcrc).
  split.
  - intros k Hk. destruct (decide (k < 20)%nat) as [|Hge].
    { exists "store file too small". unfold parse_store. rewrite length_take.
      by replace (_ <? 20)%nat with true by (symmetry; apply Nat.ltb_lt; lia). }
    exists "store body size mismatch (truncated)".
    rewrite parse_store_spec by (rewrite length_take; lia).
    unfold header_of in *. cbv zeta.
    assert (take 20 (take k file) = take 20 file) as -> by (rewrite take_take; f_equal; lia).
    rewrite Hm, Hv, <-Hlen, !Z.eqb_refl. simpl negb.
    rewrite !length_drop, length_take, Nat.min_l by lia.
    destruct (Z.eqb_spec (Z.of_nat (k - 20)) (Z.of_nat (length file - 20))); [lia|done].
  - intros h pre bs bs' post -> Hh Hl H4 Hb Hb' Hne. unfold header_of in *.
    rewrite !length_app, Hl in H20, Hmax.
    assert (Ht : ∀ x, take 20 (h ++ x) = h) by (intros; by apply take_app_length').
    assert (Hd : ∀ x, drop 20 (h ++ x) = x) by (intros; by apply drop_app_length').
    rewrite !Ht in Hm, Hv, Hlen, Hcrc. rewrite !Hd in Hlen, Hcrc.
    rewrite parse_store_spec by (rewrite !length_app; lia). unfold header_of.
    rewrite Ht, Hd. cbv zeta.
    rewrite Hm, Hv, <-Hlen, !length_app, Hl, !Z.eqb_refl. simpl negb.
    destruct (Z.eqb_spec (crc32_compute (pre ++ bs' ++ post)) (be_value (take 4 (drop 16 h))))
      as [E|]; [|done].
    exfalso. apply Hne. apply (crc32_burst pre _ _ post); try done. by rewrite E.
Qed.

(** [save] does not check the limits that [load] enforces.  A state with
    more than 2^20 records (fewer than 2^32) is written and reported saved, and
    the file is then rejected as corrupt when the coordinator restarts. *)
Theorem store_limit_unchecked (fs : FileSystem) (path : string) (s : DurableState) :
  kMaxRecords < Z.of_nat (length (store_records s)) < 4294967296 →
  (store_save fs path s W_Done).2 = Ok tt ∧
  ∃ msg, store_load (store_save fs path s W_Done).1 path = corrupt msg.
Proof.
  intros Hn. split; [done|]. unfold store_load, store_save, write_file_atomic. simpl.
  rewrite lookup_insert_eq. destruct (decide (Z.of_nat (length (encode_store s)) <= kMaxFileSize)).
  - exists "store record count invalid". rewrite length_encode_store in l.
    rewrite encode_store_app, parse_encoded by lia.
    unfold parse_records, encode_body, reader_of, mbind, Parse_bind, require, read_count, read_u32, put_u32.
    rewrite record_count_length, u32_id by int_solve. rewrite read_be_app by lia.
    by replace (kMaxRecords <? _) with true by lia.
  - exists "store file exceeds size bound". unfold parse_store.
    pose proof (length_encode_store s).
    replace (length (encode_store s) <? 20)%nat with false by (symmetry; apply Nat.ltb_ge; lia).
    by replace (kMaxFileSize <? _) with true by lia.
Qed.

(** *** Witnesses *)

Definition sample_attempt : ExecutionAttempt :=
  mkExecutionAttempt (mkId 0 21) (mkId 0 1) (mkId 0 7) (mkId 0 8) 1 (mkId 0 31) EX_Cpu 1 5 6 7
    AS_Succeeded FK_None "" 64 "crc:1" f64_0 0 "cpu" true.
Definition sample_state : DurableState :=
  mkDurableState 3 {[mkId 0 40 := mkWorkload (mkId 0 40) "w" ∅]}
    {[mkId 0 1 := default_task (mkId 0 1) []]} {[mkId 0 1 := TS_Succeeded]}
    {[mkId 0 1 := [sample_attempt]]} {[mkId 0 1 := 2]} [].

Lemma sample_state_wf : durable_wf sample_state ∧ within_limits sample_state.
Proof.
  split; [split|split; vm_compute; congruence]; try apply map_Forall_singleton.
  - range_solve.
  - split; [done|]. unfold workload_wf. split_and?; wf_field.
  - split; [done|]. unfold task_wf, retry_policy_wf. split_and?; wf_field.
  - split; wf_field.
  - split; [done|]. constructor; [|constructor]. split_and!; [done|done|].
    unfold attempt_wf. split_and?; wf_field.
  - split; wf_field.
  - constructor.
Qed.

Lemma store_roundtrip_witness :
  store_load (store_save ∅ "d/coordinator.store" sample_state W_Done).1 "d/coordinator.store"
  = Ok sample_state.
Proof. apply (store_roundtrip ∅ "d/coordinator.store" sample_state); apply sample_state_wf. Defined.

Lemma store_atomic_witness :
  let '(fs', r) := store_save ∅ "d/coordinator.store" sample_state (W_WriteFailed 17) in
  if is_ok r then store_load fs' "d/coordinator.store" = Ok sample_state
  else store_load fs' "d/coordinator.store" = store_load ∅ "d/coordinator.store" ∧
       fs' !! "d/coordinator.store" = (∅ : FileSystem) !! "d/coordinator.store".
Proof.
  apply (store_atomic ∅ "d/coordinator.store" sample_state (W_WriteFailed 17)); apply sample_state_wf.
Defined.

Lemma store_damage_witness :
  ∃ msg, parse_store (take 25 (encode_store empty_durable)) = corrupt msg.
Proof.
  refine (proj1 (store_damage_detected (encode_store empty_durable) empty_durable _) 25%nat _);
    [vm_compute; reflexivity|vm_compute; lia].
Defined.

Definition sample_placement : StoredPlacement :=
  mkStoredPlacement (mkId 0 1) 0
    (mkPlacementDecision false None None "" [] [] 0 0 0 0 0 0 0 0 0 0 "none").

Lemma store_limit_witness :
  let s := mkDurableState 1 ∅ ∅ ∅ ∅ ∅ (replicate (Z.to_nat 1048576) sample_placement) in
  (store_save ∅ "p" s W_Done).2 = Ok tt ∧
  ∃ msg, store_load (store_save ∅ "p" s W_Done).1 "p" = corrupt msg.
Proof.
  apply store_limit_unchecked. unfold store_records. cbn [ds_workloads ds_tasks ds_task_states
    ds_attempts ds_retry_counts ds_placements].
  rewrite !in_order_empty, !length_app, !length_map, length_replicate.
  cbn [length flat_map map]. unfold kMaxRecords. lia.
Defined.
