(* ===== verification/Locality.v ===== *)
(** * Locality: the registry of reusable-state locations
    (state/state_locality.h, state_locality.cpp, state/context_adapter.h)

    The registry is the map [by_id_].  Sums of seconds are double arithmetic in
    the order of the source's loops. *)

From S2P Require Import Prelude Status Ids Float64 Task.

Local Open Scope Z_scope.

Record StateLocation := mkStateLocation {
  sl_state_id : string;
  sl_generation : string;
  sl_size_bytes : Z;                  (* uint64_t *)
  sl_resident_nodes : list Id128;
  sl_locality_quality : Z;            (* double *)
  sl_transfer_estimate_seconds : Z;   (* double *)
  sl_recompute_estimate_seconds : Z;  (* double *)
  sl_compatibility : string
}.

Abbreviation Locality := (gmap string StateLocation).

Definition upsert (m : Locality) (loc : StateLocation) : Locality := <[sl_state_id loc := loc]> m.
Definition remove_state (m : Locality) (state_id : string) : Locality := delete state_id m.
Definition find_state (m : Locality) (state_id : string) : option StateLocation := m !! state_id.

Definition resident_nodes (m : Locality) (state_id : string) : list Id128 :=
  match m !! state_id with None => [] | Some loc => sl_resident_nodes loc end.
Definition resident_on (m : Locality) (state_id : string) (node : Id128) : bool :=
  match m !! state_id with
  | None => false
  | Some loc => existsb (λ n, bool_decide (n = node)) (sl_resident_nodes loc)
  end.
Definition all_states (m : Locality) : list StateLocation := (in_order m).*2.

(** One iteration of the loop of [transfer_seconds_for]. *)
Definition transfer_step (m : Locality) (node : Id128) (bandwidth latency : Z)
    (total : Z) (dep : StateDependency) : Z :=
  if resident_on m (sd_state_id dep) node then total
  else if f64_geb (sd_transfer_estimate_seconds dep) f64_0 then
    f64_add total (sd_transfer_estimate_seconds dep)
  else
    let loc := find_state m (sd_state_id dep) in
    match loc with
    | Some l =>
        if f64_geb (sl_transfer_estimate_seconds l) f64_0 then
          f64_add total (sl_transfer_estimate_seconds l)
        else
          let total := if f64_gtb bandwidth f64_0
                       then f64_add total (f64_div (f64_of_Z (sl_size_bytes l)) bandwidth)
                       else total in
          f64_add total latency
    | None =>
        let total := if f64_gtb bandwidth f64_0
                     then f64_add total (f64_div (f64_of_Z (sd_size_bytes dep)) bandwidth)
                     else total in
        f64_add total latency
    end.

Definition transfer_seconds_for (m : Locality) (task : ComputeTask) (node : Id128)
    (bandwidth latency : Z) : Z :=
  foldl (transfer_step m node bandwidth latency) f64_0 (ct_state_dependencies task).

Definition recompute_step (m : Locality) (total : Z) (dep : StateDependency) : Z :=
  if f64_geb (sd_recompute_estimate_seconds dep) f64_0 then
    f64_add total (sd_recompute_estimate_seconds dep)
  else
    match find_state m (sd_state_id dep) with
    | Some l =>
        if f64_geb (sl_recompute_estimate_seconds l) f64_0 then
          f64_add total (sl_recompute_estimate_seconds l)
        else total
    | None => total
    end.

Definition recompute_seconds_for (m : Locality) (task : ComputeTask) : Z :=
  foldl (recompute_step m) f64_0 (ct_state_dependencies task).

(** The size the registry knows, or the one the task declares. *)
Definition known_bytes (m : Locality) (dep : StateDependency) : Z :=
  match find_state m (sd_state_id dep) with
  | Some l => sl_size_bytes l
  | None => sd_size_bytes dep
  end.

Definition state_bytes_for (m : Locality) (task : ComputeTask) : Z :=
  foldl (λ total dep, u64 (total + known_bytes m dep)) 0 (ct_state_dependencies task).

(** [ContextAdapterManager]: the attached provider, if any. *)
Definition adapter_get {P : Type} (provider : option P) : option P := provider.
Definition adapter_set {P : Type} (_ : option P) (provider : option P) : option P := provider.
Definition adapter_attached {P : Type} (provider : option P) : bool := bool_decide (is_Some (adapter_get provider)).

(** ** Facts *)

Lemma resident_on_spec m s n : resident_on m s n = true ↔ n ∈ resident_nodes m s.
Proof.
  unfold resident_on, resident_nodes. destruct (m !! s) as [loc|]; [|set_solver].
  rewrite existsb_exists. setoid_rewrite <-list_elem_of_In. split.
  - intros (x & Hx & ->%bool_decide_eq_true). done.
  - intros Hn. exists n. by rewrite bool_decide_true.
Qed.

(** A node that holds every state object of a task pays no transfer. *)
Lemma transfer_all_resident m task node bandwidth latency :
  (∀ dep, dep ∈ ct_state_dependencies task → node ∈ resident_nodes m (sd_state_id dep)) →
  transfer_seconds_for m task node bandwidth latency = f64_0.
Proof.
  unfold transfer_seconds_for. generalize f64_0.
  induction (ct_state_dependencies task) as [|dep deps IH]; intros total Hres; [done|]. simpl.
  unfold transfer_step at 2.
  rewrite (proj2 (resident_on_spec _ _ _) (Hres dep ltac:(set_solver))). apply IH. set_solver.
Qed.

Lemma state_bytes_for_sum m task :
  state_bytes_for m task = u64 (sumZ (known_bytes m) (ct_state_dependencies task)).
Proof.
  unfold state_bytes_for, u64.
  rewrite <-(Z.add_0_l (sumZ _ _)), <-foldl_mod_sumZ by lia. done.
Qed.
