(* ===== verification/Scheduler.v ===== *)
(** * Scheduler: the cost model and the placement engine
    (scheduler/cost_model.h, cost_model.cpp, scheduler.h, scheduler.cpp)

    Costs are doubles in the source's order of operations.  [std::sort] with
    [better] followed by [front()] is [best_of]: [best_of_sorted] shows that it is
    the front of every list sorted by [better], as long as no score is NaN (with
    a NaN score [better] is not an order and the behaviour of [std::sort] is
    undefined). *)

From S2P Require Import Prelude Status Ids Float64 Task Placement Reservation Locality.

Local Open Scope Z_scope.

(** ** Cost model *)

Record CostWeights := mkCostWeights {
  cw_execution : Z;
  cw_queue : Z;
  cw_transfer : Z;
  cw_recompute : Z;
  cw_pressure : Z;
  cw_affinity : Z;
  cw_capability : Z;
  cw_state_locality : Z
}.
Definition default_weights : CostWeights :=
  mkCostWeights f64_1 f64_1 f64_1 f64_1 f64_1 f64_1 f64_1e9 f64_1.

Record CostContext := mkCostContext {
  cc_bandwidth_bytes_per_sec : Z;
  cc_transfer_latency_seconds : Z;
  cc_pressure_threshold : Z;
  cc_pressure_weight : Z
}.
Definition default_context : CostContext := mkCostContext f64_1e9 f64_0_001 f64_0_8 f64_2.

Record CostBreakdown := mkCostBreakdown {
  cb_execution : Z;
  cb_queue : Z;
  cb_transfer : Z;
  cb_recompute : Z;
  cb_pressure : Z;
  cb_affinity : Z;
  cb_capability : Z;
  cb_total : Z;
  cb_state_locality_score : Z;
  cb_resource_pressure_score : Z
}.

Record CostModel := mkCostModel { cm_weights : CostWeights; cm_context : CostContext }.

Definition find_executor_cap (node : NodeRecord) (type : ExecutorType) : option ExecutorCapability :=
  find_executor node (if bool_decide (type = EX_Any_) then EX_Cpu else type).

Definition pressure_score (node : NodeRecord) (executor : ExecutorType) (reservations : Registry) : Z :=
  match find_executor_cap node executor with
  | None => f64_1
  | Some cap =>
      if xc_slots cap <=? 0 then f64_1
      else
        let used_total :=
          if bool_decide (executor = EX_Cpu) then
            foldl (λ acc r, if bool_decide (rv_node_id r = nr_id node) then u32 (acc + rv_slots r) else acc)
              0 (all_active reservations)
          else used_slots reservations (nr_id node) executor in
        let ratio := f64_div (f64_of_Z used_total)
                       (f64_of_Z (if 0 <? xc_slots cap then xc_slots cap else 1)) in
        f64_min f64_1 ratio
  end.

Definition queue_cost (task : ComputeTask) (node : NodeRecord) (reservations : Registry) : Z :=
  foldl (λ total r, if bool_decide (rv_node_id r = nr_id node)
                    then f64_add total (f64_max f64_0 (ct_estimated_duration_seconds task))
                    else total)
    f64_0 (all_active reservations).

Definition state_locality_score (task : ComputeTask) (node : NodeRecord) (state : Locality) : Z :=
  match ct_state_dependencies task with
  | [] => f64_1
  | deps =>
      let '(resident_bytes, total_bytes) :=
        foldl (λ acc dep,
          let bytes := known_bytes state dep in
          let total := f64_add acc.2 (f64_of_Z bytes) in
          let resident := if resident_on state (sd_state_id dep) (nr_id node)
                          then f64_add acc.1 (f64_of_Z bytes) else acc.1 in
          (resident, total)) (f64_0, f64_0) deps in
      if f64_leb total_bytes f64_0 then f64_1 else f64_div resident_bytes total_bytes
  end.

Definition affinity_delta (task : ComputeTask) (node : NodeRecord) : Z :=
  let d := foldl (λ d pn, if bool_decide (pn = nr_id node) then f64_sub d f64_tenth else d)
             f64_0 (ct_preferred_nodes task) in
  foldl (λ d pt, if bool_decide (nc_tags (nr_capacity node) !! pt = None)
                 then f64_add d f64_tenth else d)
    d (ct_preferred_tags task).

Definition evaluate (m : CostModel) (task : ComputeTask) (node : NodeRecord)
    (reservations : Registry) (state : Locality) (execution_duration_override : Z) : CostBreakdown :=
  let w := cm_weights m in
  let ctx := cm_context m in
  match find_executor_cap node (ct_required_executor task) with
  | None =>
      mkCostBreakdown f64_0 f64_0 f64_0 f64_0 f64_0 f64_0 (cw_capability w) (cw_capability w)
        f64_0 f64_0
  | Some _ =>
      let duration := if f64_geb execution_duration_override f64_0
                      then execution_duration_override
                      else ct_estimated_duration_seconds task in
      let execution := f64_mul duration (cw_execution w) in
      let queue := f64_mul (queue_cost task node reservations) (cw_queue w) in
      let transfer := f64_mul (transfer_seconds_for state task (nr_id node)
                        (cc_bandwidth_bytes_per_sec ctx) (cc_transfer_latency_seconds ctx))
                        (cw_transfer w) in
      let recompute := f64_mul (recompute_seconds_for state task) (cw_recompute w) in
      let score := pressure_score node (ct_required_executor task) reservations in
      let pressure :=
        if f64_gtb score (cc_pressure_threshold ctx) then
          f64_mul (f64_mul (f64_sub score (cc_pressure_threshold ctx)) (cc_pressure_weight ctx))
            (cw_pressure w)
        else f64_0 in
      let affinity := f64_mul (affinity_delta task node) (cw_affinity w) in
      let locality := state_locality_score task node state in
      let total := f64_add (f64_add (f64_add (f64_add (f64_add (f64_add execution queue)
                     transfer) recompute) pressure) affinity) f64_0 in
      mkCostBreakdown execution queue transfer recompute pressure affinity f64_0 total
        locality score
  end.

(** ** The engine *)

(** A key of [history_]: the class, the backend and the node, compared in that order. *)
Abbreviation HistoryKey := (Z * Z * Id128)%type.
Definition history_key (c : TaskClass) (backend : ExecutorType) (node : Id128) : HistoryKey :=
  (enum_to c, enum_to backend, node).

Record HistoryStats := mkHistoryStats {
  hs_run_count : Z;               (* uint64_t *)
  hs_success_count : Z;           (* uint64_t *)
  hs_failure_count : Z;           (* uint64_t *)
  hs_mean_duration_seconds : Z;   (* double *)
  hs_recent_duration_seconds : Z; (* double *)
  hs_bytes_transferred : Z;       (* uint64_t *)
  hs_queue_delay_seconds : Z      (* double *)
}.
Definition default_stats : HistoryStats := mkHistoryStats 0 0 0 f64_0 f64_0 0 f64_0.

Record SchedulerPolicyEngine := mkEngine {
  se_policy : SchedulerPolicy;
  se_cost_model : CostModel;
  se_history : gmap HistoryKey HistoryStats
}.
Definition default_engine : SchedulerPolicyEngine :=
  mkEngine SP_CostAware (mkCostModel default_weights default_context) ∅.

Definition set_policy (e : SchedulerPolicyEngine) (p : SchedulerPolicy) : SchedulerPolicyEngine :=
  mkEngine p (se_cost_model e) (se_history e).

Definition record_history (e : SchedulerPolicyEngine) (key : HistoryKey) (duration_seconds : Z)
    (success : bool) (bytes_transferred : Z) : SchedulerPolicyEngine :=
  let s := default default_stats (se_history e !! key) in
  let run_count := u64 (hs_run_count s + 1) in
  let success_count := if success then u64 (hs_success_count s + 1) else hs_success_count s in
  let failure_count := if success then hs_failure_count s else u64 (hs_failure_count s + 1) in
  let total := f64_mul (hs_mean_duration_seconds s) (f64_of_Z (u64 (run_count - 1))) in
  let mean := f64_div (f64_add total duration_seconds) (f64_of_Z run_count) in
  let s' := mkHistoryStats run_count success_count failure_count mean duration_seconds
              (u64 (hs_bytes_transferred s + bytes_transferred)) (hs_queue_delay_seconds s) in
  mkEngine (se_policy e) (se_cost_model e) (<[key := s']> (se_history e)).

Definition capability_compatible (task : ComputeTask) (node : NodeRecord) : bool :=
  match find_executor_cap node (ct_required_executor task) with
  | None => false
  | Some cap =>
      if negb (xc_healthy cap) then false
      else if xc_slots cap <=? 0 then false
      else if bool_decide (ct_required_executor task = EX_Cuda)
              && (0 <? ct_min_compute_capability_major task) then
        if xc_major cap <? ct_min_compute_capability_major task then false
        else if (xc_major cap =? ct_min_compute_capability_major task)
                && (xc_minor cap <? ct_min_compute_capability_minor task) then false
        else true
      else true
  end.

Definition required_slots (task : ComputeTask) : Z :=
  if bool_decide (ct_required_executor task = EX_Cuda) then ct_required_gpu_slots task
  else ct_required_cpu_slots task.

(** [if (b) reasons.push_back(msg);] *)
Definition reason_if (b : bool) (msg : string) : list string := if b then [msg] else [].

Definition exclusion_reasons (task : ComputeTask) (node : NodeRecord) : list string :=
  reason_if (bool_decide (nr_health node = NH_Offline)) "node offline"
  ++ reason_if (bool_decide (nr_health node = NH_Draining)) "node draining"
  ++ reason_if (bool_decide (nr_health node = NH_Suspect)) "node suspect"
  ++ reason_if (negb (nr_connected node) && negb (bool_decide (nr_health node = NH_Online)))
       "not connected"
  ++ reason_if (negb (capability_compatible task node))
       "capability mismatch or executor unavailable"
  ++ match find_executor_cap node (ct_required_executor task) with
     | Some cap => reason_if (xc_slots cap <? i32 (required_slots task)) "insufficient executor slots"
     | None => []
     end
  ++ reason_if (nc_host_memory_scheduling_bytes (nr_capacity node) <? ct_scratch_memory_bytes task)
       "insufficient scratch budget"
  ++ flat_map (λ fn, reason_if (bool_decide (fn = nr_id node)) "node forbidden by task")
       (ct_forbidden_nodes task)
  ++ flat_map (λ rt, reason_if (bool_decide (nc_tags (nr_capacity node) !! rt = None))
                       ("missing required tag: " +:+ rt))
       (ct_required_tags task).

Definition eligible_nodes (task : ComputeTask) (nodes : gmap Id128 NodeRecord) : list Id128 :=
  (filter (λ kv, exclusion_reasons task kv.2 = []) (in_order nodes)).*1.

Definition better (a b : CandidateScore) : bool :=
  if negb (f64_eqb (cs_score a) (cs_score b)) then f64_ltb (cs_score a) (cs_score b)
  else if negb (bool_decide (cs_node_id a = cs_node_id b)) then id_ltb (cs_node_id a) (cs_node_id b)
  else enum_to (cs_executor a) <? enum_to (cs_executor b).

(** The candidate of an eligible node. *)
Definition candidate_of (e : SchedulerPolicyEngine) (task : ComputeTask) (reservations : Registry)
    (state : Locality) (node : NodeRecord) : CandidateScore :=
  let cap := find_executor_cap node (ct_required_executor task) in
  let executor := match cap with Some c => xc_type c | None => ct_required_executor task end in
  let device := match cap with Some c => xc_name c | None => "unknown" end in
  let m := se_cost_model e in
  if bool_decide (se_policy e = SP_Baseline) then
    let score := f64_add (f64_add f64_0 (transfer_seconds_for state task (nr_id node)
                   (cc_bandwidth_bytes_per_sec (cm_context m))
                   (cc_transfer_latency_seconds (cm_context m))))
                   (ct_estimated_duration_seconds task) in
    let locality := state_locality_score task node state in
    let b := evaluate m task node reservations state f64_minus_1 in
    mkCandidateScore (nr_id node) executor device score (cb_execution b) (cb_queue b)
      (cb_transfer b) (cb_recompute b) f64_0 f64_0 f64_0 locality (cb_resource_pressure_score b)
  else
    let duration :=
      match se_history e !! history_key (ct_task_class task) (ct_required_executor task) (nr_id node) with
      | Some s => if 0 <? hs_run_count s then hs_mean_duration_seconds s
                  else ct_estimated_duration_seconds task
      | None => ct_estimated_duration_seconds task
      end in
    let b := evaluate m task node reservations state duration in
    mkCandidateScore (nr_id node) executor device (cb_total b) (cb_execution b) (cb_queue b)
      (cb_transfer b) (cb_recompute b) (cb_pressure b) (cb_affinity b) (cb_capability b)
      (cb_state_locality_score b) (cb_resource_pressure_score b).

(** [std::sort(.., better); front()] *)
Definition best_of (c : CandidateScore) (cs : list CandidateScore) : CandidateScore :=
  foldl (λ best x, if better x best then x else best) c cs.

(** The loop over the nodes: candidates and exclusions, in node order. *)
Definition place_step (e : SchedulerPolicyEngine) (task : ComputeTask) (reservations : Registry)
    (state : Locality) (acc : list CandidateScore * list Exclusion) (node : NodeRecord) :=
  match exclusion_reasons task node with
  | [] => (acc.1 ++ [candidate_of e task reservations state node], acc.2)
  | reasons => (acc.1, acc.2 ++ [mkExclusion (nr_id node) reasons])
  end.
Definition place_loop (e : SchedulerPolicyEngine) (task : ComputeTask) (reservations : Registry)
    (state : Locality) (nodes : list NodeRecord) : list CandidateScore * list Exclusion :=
  foldl (place_step e task reservations state) ([], []) nodes.

Definition place (e : SchedulerPolicyEngine) (task : ComputeTask) (nodes : gmap Id128 NodeRecord)
    (reservations : Registry) (state : Locality) : PlacementDecision :=
  let '(candidates, excluded) := place_loop e task reservations state (in_order nodes).*2 in
  match candidates with
  | [] =>
      mkPlacementDecision false None None "" candidates excluded f64_0 f64_0 f64_0 f64_0 f64_0
        f64_0 f64_0 f64_0 f64_0 f64_0 "no schedulable node"
  | c :: cs =>
      let best := best_of c cs in
      mkPlacementDecision true (Some (cs_node_id best)) (Some (cs_executor best)) (cs_device best)
        candidates excluded (cs_score best) (cs_execution_cost best) (cs_queue_cost best)
        (cs_transfer_cost best) (cs_recompute_cost best) (cs_pressure_cost best)
        (cs_affinity_cost best) (cs_capability_cost best) (cs_state_locality_score best)
        (cs_resource_pressure_score best) "best candidate"
  end.

(** ** Eligibility *)

(** What [exclusion_reasons] checks, as a specification. *)
Record schedulable (task : ComputeTask) (node : NodeRecord) : Prop := {
  sch_health : nr_health node ≠ NH_Offline ∧ nr_health node ≠ NH_Draining ∧
    nr_health node ≠ NH_Suspect;
  sch_connected : nr_connected node = true ∨ nr_health node = NH_Online;
  sch_executor : ∃ cap, find_executor_cap node (ct_required_executor task) = Some cap ∧
    xc_healthy cap = true ∧ 0 < xc_slots cap ∧ i32 (required_slots task) <= xc_slots cap ∧
    (ct_required_executor task = EX_Cuda → 0 < ct_min_compute_capability_major task →
       ct_min_compute_capability_major task < xc_major cap ∨
       (ct_min_compute_capability_major task = xc_major cap ∧
        ct_min_compute_capability_minor task <= xc_minor cap));
  sch_scratch : ct_scratch_memory_bytes task <= nc_host_memory_scheduling_bytes (nr_capacity node);
  sch_allowed : nr_id node ∉ ct_forbidden_nodes task;
  sch_tags : ∀ rt, rt ∈ ct_required_tags task → is_Some (nc_tags (nr_capacity node) !! rt)
}.

Lemma reason_if_nil b msg : reason_if b msg = [] ↔ b = false.
Proof. by destruct b. Qed.

Lemma flat_map_nil {A B} (f : A → list B) l : flat_map f l = [] ↔ ∀ x, x ∈ l → f x = [].
Proof.
  induction l as [|x l IH]; simpl; [set_solver|]. split.
  - intros [H1 H2]%app_eq_nil. rewrite IH in H2. set_solver.
  - intros H. rewrite (H x) by set_solver. apply IH. set_solver.
Qed.

Lemma app_nil {A} (l k : list A) : l ++ k = [] ↔ l = [] ∧ k = [].
Proof. split; [apply app_eq_nil|by intros [-> ->]]. Qed.

Lemma capability_compatible_spec task node :
  capability_compatible task node = true ↔
  ∃ cap, find_executor_cap node (ct_required_executor task) = Some cap ∧
    xc_healthy cap = true ∧ 0 < xc_slots cap ∧
    (ct_required_executor task = EX_Cuda → 0 < ct_min_compute_capability_major task →
       ct_min_compute_capability_major task < xc_major cap ∨
       (ct_min_compute_capability_major task = xc_major cap ∧
        ct_min_compute_capability_minor task <= xc_minor cap)).
Proof.
  unfold capability_compatible. destruct (find_executor_cap _ _) as [cap|]; [|naive_solver].
  destruct (xc_healthy cap) eqn:Hh; simpl; [|naive_solver].
  destruct (Z.leb_spec (xc_slots cap) 0); [naive_solver lia|].
  case_bool_decide; simpl; [|naive_solver].
  destruct (Z.ltb_spec 0 (ct_min_compute_capability_major task)); [|naive_solver lia].
  destruct (Z.ltb_spec (xc_major cap) (ct_min_compute_capability_major task)); [naive_solver lia|].
  destruct (Z.eqb_spec (xc_major cap) (ct_min_compute_capability_major task)); simpl;
    [|naive_solver lia].
  destruct (Z.ltb_spec (xc_minor cap) (ct_min_compute_capability_minor task)); naive_solver lia.
Qed.

Lemma exclusion_reasons_nil task node : exclusion_reasons task node = [] ↔ schedulable task node.
Proof.
  unfold exclusion_reasons. rewrite !app_nil, !reason_if_nil, !flat_map_nil.
  rewrite !bool_decide_eq_false, andb_false_iff, !negb_false_iff, Z.ltb_ge, bool_decide_eq_true.
  setoid_rewrite reason_if_nil. setoid_rewrite bool_decide_eq_false.
  rewrite capability_compatible_spec. split.
  - intros (H1 & H2 & H3 & H4 & (cap & Hc & Hh & Hs & Hcc) & H6 & H7 & H8 & H9).
    rewrite Hc in H6. apply reason_if_nil, Z.ltb_ge in H6. split; try done.
    + by exists cap.
    + intros Hin. by apply (H8 _ Hin).
    + intros rt Hrt. specialize (H9 rt Hrt). by apply not_eq_None_Some.
  - intros [(H1 & H2 & H3) H4 (cap & Hc & Hh & Hs & Hr & Hcc) H7 H8 H9]. split_and!; try done.
    + by exists cap.
    + rewrite Hc. by apply reason_if_nil, Z.ltb_ge.
    + intros fn Hfn ->. done.
    + intros rt Hrt. by apply not_eq_None_Some, H9.
Qed.

#[export] Instance exclusion_dec task node : Decision (exclusion_reasons task node = []).
Proof. apply _. Defined.

Lemma place_loop_spec e task reservations state nodes :
  place_loop e task reservations state nodes =
  (candidate_of e task reservations state <$> filter (λ n, exclusion_reasons task n = []) nodes,
   (λ n, mkExclusion (nr_id n) (exclusion_reasons task n)) <$>
     filter (λ n, exclusion_reasons task n ≠ []) nodes).
Proof.
  assert (Hin : ∀ acc n, exclusion_reasons task n = [] → place_step e task reservations state acc n =
    (acc.1 ++ [candidate_of e task reservations state n], acc.2)).
  { intros acc n E. unfold place_step. by rewrite E. }
  assert (Hout : ∀ acc n, exclusion_reasons task n ≠ [] → place_step e task reservations state acc n =
    (acc.1, acc.2 ++ [mkExclusion (nr_id n) (exclusion_reasons task n)])).
  { intros acc n E. unfold place_step. by destruct (exclusion_reasons task n). }
  unfold place_loop.
  assert (Hgen : ∀ cs xs, foldl (place_step e task reservations state) (cs, xs) nodes =
    (cs ++ (candidate_of e task reservations state <$> filter (λ n, exclusion_reasons task n = []) nodes),
     xs ++ ((λ n, mkExclusion (nr_id n) (exclusion_reasons task n)) <$>
       filter (λ n, exclusion_reasons task n ≠ []) nodes))); [|by rewrite Hgen].
  induction nodes as [|n nodes IH]; intros cs xs; [by rewrite !app_nil_r|]. cbn [foldl].
  rewrite !filter_cons. destruct (decide (exclusion_reasons task n = [])) as [E|E].
  - rewrite Hin, IH, decide_False by (done || (intros H; by apply H)).
    csimpl. by rewrite <-app_assoc.
  - rewrite Hout, IH, decide_True by done. csimpl. by rewrite <-app_assoc.
Qed.

(** ** The order of candidates *)

Lemma id_ltb_trans a b c : id_ltb a b → id_ltb b c → id_ltb a c.
Proof.
  intros [H1 N1]%(proj1 (id_ltb_key a b)) [H2 N2]%(proj1 (id_ltb_key b c)).
  apply (proj2 (id_ltb_key a c)). split; [by transitivity b|].
  intros ->. apply N1. by apply (anti_symm key_le).
Qed.

Lemma id_ltb_irrefl a : id_ltb a a = false.
Proof.
  destruct (id_ltb a a) eqn:E; [|done]. apply Is_true_true in E.
  by destruct (proj1 (id_ltb_key a a) E).
Qed.

Lemma id_ltb_total a b : a ≠ b → id_ltb a b = true ∨ id_ltb b a = true.
Proof.
  intros Hne. destruct (total key_le a b) as [H|H]; [left|right]; apply Is_true_true;
    apply (proj2 (id_ltb_key _ _)); (split; [exact H|congruence]).
Qed.

Lemma better_trans a b c : better a b = true → better b c = true → better a c = true.
Proof.
  unfold better.
  destruct (f64_eqb (cs_score a) (cs_score b)) eqn:E1,
    (f64_eqb (cs_score b) (cs_score c)) eqn:E2; cbn [negb].
  - destruct (f64_eqb_cmp _ _ (cs_score c) E1) as (_ & _ & -> & _). rewrite E2. cbn [negb].
    repeat case_bool_decide; cbn [negb]; try congruence.
    + rewrite !Z.ltb_lt. lia.
    + intros G1 G2. apply Is_true_true in G1, G2. pose proof (id_ltb_trans _ _ _ G1 G2) as G3.
      replace (cs_node_id c) with (cs_node_id a) in G3. by rewrite id_ltb_irrefl in G3.
    + intros G1 G2. apply Is_true_true in G1, G2. apply Is_true_true. by eapply id_ltb_trans.
  - intros _ H. destruct (f64_eqb_cmp _ _ (cs_score c) E1) as (-> & _ & -> & _). by rewrite E2.
  - intros H _. destruct (f64_eqb_cmp _ _ (cs_score a) E2) as (_ & E3 & _ & E4).
    rewrite <-E3, <-E4, E1. done.
  - intros H1 H2. pose proof (f64_ltb_trans _ _ _ H1 H2) as H3.
    by rewrite (f64_ltb_not_eqb _ _ H3).
Qed.

Lemma best_of_in c cs : best_of c cs ∈ c :: cs.
Proof.
  unfold best_of. revert c. induction cs as [|x cs IH]; intros c; cbn [foldl].
  { by apply list_elem_of_singleton. }
  destruct (better x c); [specialize (IH x)|specialize (IH c)];
    rewrite !elem_of_cons in *; tauto.
Qed.

Lemma best_of_min c cs x : x ∈ c :: cs → better x (best_of c cs) = false.
Proof.
  assert (Hirr : ∀ y, better y y = false).
  { intros y. unfold better. destruct (f64_eqb _ _); cbn [negb]; [|apply f64_ltb_irrefl].
    rewrite bool_decide_true by done. cbn [negb]. apply Z.ltb_irrefl. }
  assert (Hgen : ∀ cs c y, better y c = false → better y (best_of c cs) = false).
  { clear c cs x. unfold best_of. induction cs as [|z cs IH]; intros c y Hy; cbn [foldl]; [done|].
    destruct (better z c) eqn:Hz; apply IH; [|done].
    destruct (better y z) eqn:Hyz; [|done]. by rewrite (better_trans _ _ _ Hyz Hz) in Hy. }
  revert c. induction cs as [|z cs IH]; intros c Hx.
  - apply list_elem_of_singleton in Hx as ->. apply Hirr.
  - change (best_of c (z :: cs)) with (best_of (if better z c then z else c) cs).
    destruct (better z c) eqn:Hz.
    + apply elem_of_cons in Hx as [->|Hx]; [|by apply IH].
      apply Hgen. destruct (better c z) eqn:Hcz; [|done].
      pose proof (better_trans _ _ _ Hcz Hz) as H. by rewrite Hirr in H.
    + apply elem_of_cons in Hx as [->|Hx]; [by apply Hgen|].
      apply elem_of_cons in Hx as [->|Hx]; [by apply Hgen|]. apply IH, elem_of_cons. by right.
Qed.

(** Without NaN scores and with distinct nodes, the front of every list that
    [std::sort] may produce is [best_of]. *)
Lemma best_of_sorted c cs h rest :
  Forall (λ x, f64_is_nan (cs_score x) = false) (c :: cs) →
  NoDup (cs_node_id <$> c :: cs) → h :: rest ≡ₚ c :: cs →
  StronglySorted (λ a b, better b a = false) (h :: rest) → h = best_of c cs.
Proof.
  intros Hnan Hnd Hperm Hsort. pose proof (best_of_in c cs) as Hin.
  assert (Hh : h ∈ c :: cs) by (rewrite <-Hperm; apply elem_of_cons; by left).
  pose proof (best_of_min c cs h Hh) as H1.
  assert (H2 : best_of c cs = h ∨ better (best_of c cs) h = false).
  { rewrite <-Hperm in Hin. apply elem_of_cons in Hin as [?|Hin]; [by left|right].
    apply StronglySorted_inv in Hsort as [_ Hall]. rewrite Forall_forall in Hall. by apply Hall. }
  destruct H2 as [?|H2]; [done|]. set (b := best_of c cs) in *.
  rewrite Forall_forall in Hnan. pose proof (Hnan h Hh) as N1. pose proof (Hnan b Hin) as N2.
  unfold better in H1, H2. rewrite (f64_eqb_sym (cs_score b)) in H2.
  destruct (f64_trichotomy _ _ N1 N2) as [T|[T|T]].
  - rewrite (f64_ltb_not_eqb _ _ T) in H1. cbn [negb] in H1. congruence.
  - rewrite T in H1, H2. cbn [negb] in H1, H2. destruct (decide (cs_node_id h = cs_node_id b)) as [E|E].
    + apply list_elem_of_lookup_1 in Hh as [i Hi], Hin as [j Hj].
      assert (i = j) as ->; [|congruence].
      eapply (NoDup_lookup _ _ _ (cs_node_id h) Hnd); rewrite list_lookup_fmap; [by rewrite Hi|].
      rewrite Hj. cbn. by rewrite E.
    + rewrite bool_decide_false in H1 by done. rewrite bool_decide_false in H2 by done.
      cbn [negb] in H1, H2. destruct (id_ltb_total _ _ E); congruence.
  - rewrite (f64_eqb_sym (cs_score h)), (f64_ltb_not_eqb _ _ T) in H2. cbn [negb] in H2. congruence.
Qed.

(** ** Placement *)

(** The coordinator keys its node table by the node's own identifier. *)
Definition nodes_wf (nodes : gmap Id128 NodeRecord) : Prop :=
  ∀ k n, nodes !! k = Some n → nr_id n = k.

Lemma node_ids_in_order (nodes : gmap Id128 NodeRecord) : nodes_wf nodes → nr_id <$> (in_order nodes).*2 = (in_order nodes).*1.
Proof.
  intros Hwf. rewrite <-list_fmap_compose. apply list_fmap_ext. intros i [k n] Hi. simpl.
  apply Hwf, elem_of_in_order. by eapply list_elem_of_lookup_2.
Qed.

Lemma elem_of_nodes (nodes : gmap Id128 NodeRecord) n : n ∈ (in_order nodes).*2 ↔ ∃ k, nodes !! k = Some n.
Proof.
  rewrite list_elem_of_fmap. split.
  - intros ([k m] & -> & Hin%elem_of_in_order). by exists k.
  - intros [k Hk]. exists (k, n). by rewrite elem_of_in_order.
Qed.

Lemma candidate_of_node e task reg state n : cs_node_id (candidate_of e task reg state n) = nr_id n.
Proof. unfold candidate_of. by case_bool_decide. Qed.

Lemma candidate_of_executor e task reg state n cap :
  find_executor_cap n (ct_required_executor task) = Some cap →
  cs_executor (candidate_of e task reg state n) = xc_type cap ∧
  cs_device (candidate_of e task reg state n) = xc_name cap.
Proof. intros E. unfold candidate_of. rewrite E. by case_bool_decide. Qed.

Lemma filter_split_perm {A} (P : A → Prop) `{∀ x, Decision (P x)} l :
  filter P l ++ filter (λ x, ¬ P x) l ≡ₚ l.
Proof.
  induction l as [|x l IH]; [done|]. rewrite !filter_cons.
  destruct (decide (P x)); [rewrite decide_False by naive_solver; simpl; by rewrite IH|].
  rewrite decide_True by done. rewrite <-Permutation_middle. by rewrite IH.
Qed.

Section placement.
Context (e : SchedulerPolicyEngine) (task : ComputeTask) (nodes : gmap Id128 NodeRecord)
  (reservations : Registry) (state : Locality).

Abbreviation d := (place e task nodes reservations state).
Abbreviation good := (filter (λ n, exclusion_reasons task n = []) (in_order nodes).*2).

Lemma place_candidates : pd_candidates d = candidate_of e task reservations state <$> good.
Proof. unfold place. rewrite place_loop_spec. by case_match eqn:E; rewrite <-E. Qed.

Lemma place_excluded :
  pd_excluded d = (λ n, mkExclusion (nr_id n) (exclusion_reasons task n)) <$>
    filter (λ n, exclusion_reasons task n ≠ []) (in_order nodes).*2.
Proof. unfold place. rewrite place_loop_spec. by case_match. Qed.

Lemma place_cases :
  (good = [] ∧ pd_feasible d = false ∧ pd_chosen_node d = None ∧ pd_chosen_executor d = None) ∨
  (∃ c cs, pd_candidates d = c :: cs ∧ pd_feasible d = true ∧
     pd_chosen_node d = Some (cs_node_id (best_of c cs)) ∧
     pd_chosen_executor d = Some (cs_executor (best_of c cs)) ∧
     pd_chosen_device d = cs_device (best_of c cs) ∧ pd_total_cost d = cs_score (best_of c cs)).
Proof.
  unfold place. rewrite place_loop_spec. destruct good as [|n ns]; [by left|right].
  csimpl. eexists _, _. done.
Qed.

Lemma elem_of_good n : n ∈ good ↔ (∃ k, nodes !! k = Some n) ∧ schedulable task n.
Proof. rewrite list_elem_of_filter, elem_of_nodes, exclusion_reasons_nil. tauto. Qed.
(** The chosen node is a registered one that meets every constraint. *)
Lemma place_chosen k :
  nodes_wf nodes → pd_chosen_node d = Some k →
  ∃ n cap, nodes !! k = Some n ∧ schedulable task n ∧
    find_executor_cap n (ct_required_executor task) = Some cap ∧
    pd_chosen_executor d = Some (xc_type cap) ∧ pd_chosen_device d = xc_name cap.
Proof.
  intros Hwf Hk. pose proof place_candidates as Hc.
  destruct place_cases as [(_ & _ & Hn & _)|(c & cs & Hcs & _ & Hn & Hx & Hd & _)]; [congruence|].
  pose proof (best_of_in c cs) as Hin. rewrite <-Hcs, Hc in Hin.
  apply list_elem_of_fmap in Hin as (n & Eb & Hin). rewrite Eb in Hn, Hx, Hd.
  apply elem_of_good in Hin as [[k' Hk'] Hs].
  destruct (sch_executor _ _ Hs) as (cap & Hcap & _). exists n, cap.
  destruct (candidate_of_executor e task reservations state n cap Hcap) as [E1 E2].
  rewrite candidate_of_node in Hn. rewrite (Hwf _ _ Hk') in Hn.
  assert (k' = k) as -> by congruence. split_and!; try done; congruence.
Qed.
End placement.

(** ** Claims *)

(** C10: placement is sound, complete and explained.  A decision is feasible
    exactly when some registered node meets every constraint of the task
    (health, connection, executor and compute capability, slots, scratch memory,
    forbidden nodes, required tags); the chosen node is such a node and the
    chosen executor and device are its matching executor; and every registered
    node is listed exactly once, as a candidate or as an exclusion with reasons. *)
Theorem place_correct (e : SchedulerPolicyEngine) (task : ComputeTask)
    (nodes : gmap Id128 NodeRecord) (reservations : Registry) (state : Locality) :
  nodes_wf nodes →
  let d := place e task nodes reservations state in
  (pd_feasible d = true ↔ ∃ k n, nodes !! k = Some n ∧ schedulable task n) ∧
  (∀ k, pd_chosen_node d = Some k →
     ∃ n cap, nodes !! k = Some n ∧ schedulable task n ∧
       find_executor_cap n (ct_required_executor task) = Some cap ∧
       pd_chosen_executor d = Some (xc_type cap) ∧ pd_chosen_device d = xc_name cap) ∧
  (cs_node_id <$> pd_candidates d) ++ (ex_node_id <$> pd_excluded d) ≡ₚ (in_order nodes).*1 ∧
  Forall (λ x, ex_reasons x ≠ []) (pd_excluded d).
Proof.
  intros Hwf d. pose proof (place_candidates e task nodes reservations state) as Hc.
  pose proof (place_cases e task nodes reservations state) as Hpc.
  fold d in Hc, Hpc. split_and!.
  - destruct Hpc as [(Hg & Hf & _)|(c & cs & Hcs & Hf & _)].
    + rewrite Hf. split; [done|]. intros (k & n & Hk & Hs).
      assert (Hin : n ∈ filter (λ n, exclusion_reasons task n = []) (in_order nodes).*2)
        by (apply elem_of_good; eauto).
      rewrite Hg in Hin. by apply elem_of_nil in Hin.
    + split; [|done]. intros _. rewrite Hcs in Hc. symmetry in Hc.
      apply fmap_cons_inv in Hc as (n & ns & -> & -> & Hg).
      assert (Hin : n ∈ filter (λ n, exclusion_reasons task n = []) (in_order nodes).*2)
        by (rewrite Hg; apply elem_of_cons; by left).
      apply elem_of_good in Hin as [[k Hk] Hs]. eauto.
  - intros k. by apply place_chosen.
  - rewrite Hc. unfold d. rewrite place_excluded, <-!list_fmap_compose.
    rewrite <-(node_ids_in_order nodes Hwf).
    rewrite (list_fmap_ext (cs_node_id ∘ _) nr_id) by (intros; apply candidate_of_node).
    transitivity (nr_id <$> (filter (λ n, exclusion_reasons task n = []) (in_order nodes).*2 ++
      filter (λ n, exclusion_reasons task n ≠ []) (in_order nodes).*2)).
    + by rewrite fmap_app.
    + by rewrite filter_split_perm.
  - unfold d. rewrite place_excluded. apply Forall_fmap, Forall_forall. intros n Hn.
    by apply list_elem_of_filter in Hn as [? _].
Qed.

(** C11: placement is optimal and deterministic.  When no candidate's score is
    NaN, whatever order [std::sort] produces from [better], the chosen node is the
    one in front: no candidate has a lower score, and among equal scores the
    lowest node identifier wins. *)
Theorem place_optimal (e : SchedulerPolicyEngine) (task : ComputeTask)
    (nodes : gmap Id128 NodeRecord) (reservations : Registry) (state : Locality)
    (h : CandidateScore) (rest : list CandidateScore) :
  nodes_wf nodes →
  let d := place e task nodes reservations state in
  Forall (λ x, f64_is_nan (cs_score x) = false) (pd_candidates d) →
  h :: rest ≡ₚ pd_candidates d →
  StronglySorted (λ a b, better b a = false) (h :: rest) →
  pd_chosen_node d = Some (cs_node_id h) ∧ pd_total_cost d = cs_score h ∧
  (∀ x, x ∈ pd_candidates d → f64_ltb (cs_score x) (cs_score h) = false ∧
     (f64_eqb (cs_score x) (cs_score h) = true → id_ltb (cs_node_id x) (cs_node_id h) = false)).
Proof.
  intros Hwf d Hnan Hperm Hsort.
  pose proof (place_cases e task nodes reservations state) as Hpc. fold d in Hpc.
  destruct Hpc as [(Hg & _)|(c & cs & Hcs & _ & Hn & _ & _ & Ht)].
  { unfold d in Hperm. rewrite place_candidates, Hg in Hperm. by apply Permutation_nil_r in Hperm. }
  assert (Hnd : NoDup (cs_node_id <$> pd_candidates d)).
  { unfold d. rewrite place_candidates, <-list_fmap_compose.
    rewrite (list_fmap_ext _ nr_id); [|intros i n _; apply candidate_of_node].
    apply (sublist_NoDup _ (nr_id <$> (in_order nodes).*2)).
    - rewrite node_ids_in_order by done. apply NoDup_in_order_keys.
    - apply fmap_sublist, sublist_filter. }
  rewrite Hcs in Hnan, Hperm, Hnd |- *.
  pose proof (best_of_sorted c cs h rest Hnan Hnd Hperm Hsort) as ->.
  split_and!; [done|done|]. intros x Hx. pose proof (best_of_min c cs x Hx) as Hb.
  unfold better in Hb. destruct (f64_eqb _ _) eqn:E; cbn [negb] in Hb.
  - split; [|intros _].
    + destruct (f64_ltb _ _) eqn:L; [|done]. by rewrite (f64_ltb_not_eqb _ _ L) in E.
    + case_bool_decide as Ei; [rewrite Ei; apply id_ltb_irrefl|done].
  - done.
Qed.

Lemma no_any_slots reservations n :
  (∀ k r, reservations !! k = Some r → rv_executor r ≠ EX_Any_) →
  used_slots reservations n EX_Any_ = 0.
Proof.
  intros Hany. unfold used_slots, used_executor_slots.
  rewrite (usage_loop_mod _ _ 4294967296) by done.
  unfold active_sum. rewrite (sumZ_ext _ (λ _, 0)).
  - assert (∀ l : list (Id128 * Reservation), sumZ (λ _, 0) l = 0) as -> by (by induction l). done.
  - intros [k r] Hin%elem_of_map_to_list. unfold holds_slots. simpl.
    rewrite (bool_decide_false (rv_executor r = EX_Any_)) by (by eapply Hany).
    by rewrite andb_false_r.
Qed.

(** Load is ignored for tasks that accept any executor.  Such a task runs
    on the CPU executor and its reservations are booked there, but
    [pressure_score] counts the slots booked under [Any_]: as no reservation
    ever is, the score of a node is that of an idle node, however loaded it is. *)
Theorem any_executor_ignores_pressure (node : NodeRecord) (reservations : Registry) :
  (∀ k r, reservations !! k = Some r → rv_executor r ≠ EX_Any_) →
  pressure_score node EX_Any_ reservations = pressure_score node EX_Any_ ∅.
Proof.
  intros Hany. unfold pressure_score. destruct (find_executor_cap node EX_Any_); [|done].
  case_match; [done|]. rewrite bool_decide_false by done. by rewrite !no_any_slots.
Qed.

(** *** Witnesses *)

Definition sample_nodes : gmap Id128 NodeRecord := {[mkId 0 7 := cpu_node 4]}.
Definition sample_task : ComputeTask := default_task (mkId 0 1) [].

Lemma sample_nodes_wf : nodes_wf sample_nodes.
Proof. intros k n Hk. unfold sample_nodes in Hk. by apply lookup_singleton_Some in Hk as [<- <-]. Qed.

Lemma place_correct_witness :
  pd_feasible (place default_engine sample_task sample_nodes ∅ ∅) = true ↔
  ∃ k n, sample_nodes !! k = Some n ∧ schedulable sample_task n.
Proof. apply (place_correct default_engine sample_task sample_nodes ∅ ∅ sample_nodes_wf). Defined.

Definition sample_candidate : CandidateScore :=
  candidate_of default_engine sample_task ∅ ∅ (cpu_node 4).

Lemma sample_candidates :
  pd_candidates (place default_engine sample_task sample_nodes ∅ ∅) = [sample_candidate].
Proof. vm_compute. reflexivity. Qed.

Lemma place_optimal_witness :
  pd_chosen_node (place default_engine sample_task sample_nodes ∅ ∅)
  = Some (cs_node_id sample_candidate).
Proof.
  refine (proj1 (place_optimal default_engine sample_task sample_nodes ∅ ∅
    sample_candidate [] sample_nodes_wf _ _ _)); [rewrite sample_candidates..|].
  - constructor; [vm_compute; reflexivity|constructor].
  - constructor. constructor.
  - repeat constructor.
Defined.

Lemma any_executor_witness :
  used_slots three_taken (nr_id (cpu_node 4)) EX_Cpu = 3 ∧
  pressure_score (cpu_node 4) EX_Any_ three_taken = pressure_score (cpu_node 4) EX_Any_ ∅.
Proof.
  split; [vm_compute; reflexivity|]. apply any_executor_ignores_pressure.
  intros k r Hr.
  assert (Hall : map_Forall (λ _ r, rv_executor r ≠ EX_Any_) three_taken).
  { apply map_Forall_to_list. vm_compute. repeat constructor; discriminate. }
  exact (Hall k r Hr).
Defined.
