(* ===== verification/Outbound.v ===== *)
(** * Outbound: the bounded output of a connection and the idempotency cache
    (coordinator/coordinator.h and the first part of coordinator.cpp)

    [Conn] is the template parameter of [stop_connection] and [queue_outbound]:
    the fields [NodeConn] and [ClientConn] share.  Every operation runs under the
    mutex [wmu] of the connection and is one step here; [take_frame] and
    [frame_sent] are the two critical sections of the writer threads. *)

From S2P Require Import Prelude Status Ids Digest Task Wire Frame.

Local Open Scope Z_scope.

Definition kMaxOutboundFrames : nat := 256.
Definition kMaxOutboundBytes : Z := 16777216.

Definition frame_wire_size (f : Frame) : Z :=
  Z.of_nat kHeaderSize + Z.of_nat (length (fr_payload f)).

(** [cn_id] is [NodeConn::node_id] or [ClientConn::id]; only node connections
    have a session. *)
Record Conn := mkConn {
  cn_id : Id128;
  cn_session : Id128;
  cn_open : bool;                (* the channel has not been closed *)
  cn_outbound : list Frame;
  cn_outbound_bytes : Z;         (* size_t *)
  cn_writer_in_flight : bool;
  cn_stop : bool;
  cn_retirement_queued : bool
}.

(** A connection as the accept loops create it. *)
Definition new_conn (id : Id128) : Conn := mkConn id id_zero true [] 0 false false false.

Definition stop_connection (c : Conn) : Conn :=
  mkConn (cn_id c) (cn_session c) false [] 0 (cn_writer_in_flight c) true
    (cn_retirement_queued c).

Definition outbound_overflow (c : Conn) (frame_bytes : Z) : bool :=
  (kMaxOutboundFrames <=? length (cn_outbound c))%nat
  || (kMaxOutboundBytes <? frame_bytes)
  || (kMaxOutboundBytes - frame_bytes <? cn_outbound_bytes c).

Definition queue_outbound (c : Conn) (f : Frame) : Conn * bool :=
  if cn_stop c then (c, false)
  else
    let frame_bytes := frame_wire_size f in
    if outbound_overflow c frame_bytes then (stop_connection c, false)
    else
      (mkConn (cn_id c) (cn_session c) (cn_open c) (cn_outbound c ++ [f])
         (u64 (cn_outbound_bytes c + frame_bytes)) (cn_writer_in_flight c) (cn_stop c)
         (cn_retirement_queued c), true).

(** The first critical section of a writer: [None] when it waits or has to exit. *)
Definition take_frame (c : Conn) : option (Frame * Conn) :=
  if cn_stop c then None
  else
    match cn_outbound c with
    | [] => None
    | f :: rest =>
        let frame_bytes := frame_wire_size f in
        Some (f, mkConn (cn_id c) (cn_session c) (cn_open c) rest
                   (if frame_bytes <=? cn_outbound_bytes c
                    then cn_outbound_bytes c - frame_bytes else 0)
                   true (cn_stop c) (cn_retirement_queued c))
    end.

(** What follows [send_frame], which succeeded or not. *)
Definition frame_sent (c : Conn) (ok : bool) : Conn :=
  let c := mkConn (cn_id c) (cn_session c) (cn_open c) (cn_outbound c) (cn_outbound_bytes c)
             false (cn_stop c) (cn_retirement_queued c) in
  if ok then c else stop_connection c.

(** The predicate [wait_for_outbound_drain] returns. *)
Definition outbound_drained (c : Conn) : bool :=
  match cn_outbound c with [] => negb (cn_writer_in_flight c) | _ => false end.

(** [conn->retirement_queued.exchange(true)]: whether this call queues it. *)
Definition retire_connection (c : Conn) : Conn * bool :=
  (mkConn (cn_id c) (cn_session c) (cn_open c) (cn_outbound c) (cn_outbound_bytes c)
     (cn_writer_in_flight c) (cn_stop c) true, negb (cn_retirement_queued c)).

(** ** Invariant *)

Record conn_ok (c : Conn) : Prop := {
  co_frames : (length (cn_outbound c) <= kMaxOutboundFrames)%nat;
  co_exact : cn_outbound_bytes c = sumZ frame_wire_size (cn_outbound c);
  co_bytes : cn_outbound_bytes c <= kMaxOutboundBytes;
  co_stopped : cn_stop c = true → cn_outbound c = [] ∧ cn_open c = false
}.

Lemma frame_wire_size_pos f : 0 < frame_wire_size f.
Proof. unfold frame_wire_size, kHeaderSize. lia. Qed.

Lemma outbound_nonneg l : 0 <= sumZ frame_wire_size l.
Proof.
  apply sumZ_nonneg, Forall_forall. intros f _. pose proof (frame_wire_size_pos f). lia.
Qed.

Lemma new_conn_ok id : conn_ok (new_conn id).
Proof. split; cbn; unfold kMaxOutboundFrames, kMaxOutboundBytes; (done || lia). Qed.

Lemma stop_connection_ok c : conn_ok (stop_connection c).
Proof. split; cbn; unfold kMaxOutboundFrames, kMaxOutboundBytes; (done || lia). Qed.

Lemma queue_outbound_cases c f :
  (cn_stop c = true ∧ queue_outbound c f = (c, false)) ∨
  (cn_stop c = false ∧ queue_outbound c f = (stop_connection c, false)) ∨
  (cn_stop c = false ∧ (length (cn_outbound c) < kMaxOutboundFrames)%nat ∧
   cn_outbound_bytes c + frame_wire_size f <= kMaxOutboundBytes ∧
   queue_outbound c f =
     (mkConn (cn_id c) (cn_session c) (cn_open c) (cn_outbound c ++ [f])
        (u64 (cn_outbound_bytes c + frame_wire_size f)) (cn_writer_in_flight c) (cn_stop c)
        (cn_retirement_queued c), true)).
Proof.
  unfold queue_outbound. destruct (cn_stop c) eqn:Hs; [by left|right].
  destruct (outbound_overflow c _) eqn:Ho; [by left|right]. unfold outbound_overflow in Ho.
  apply orb_false_iff in Ho as [[Hf Hb]%orb_false_iff Ht].
  apply Nat.leb_gt in Hf. apply Z.ltb_ge in Hb, Ht. split_and!; try done. lia.
Qed.

Lemma queue_outbound_ok c f : conn_ok c → conn_ok (queue_outbound c f).1.
Proof.
  intros Hc. destruct (queue_outbound_cases c f)
    as [[_ ->]|[[_ ->]|(Hs & Hf & Hb & ->)]]; [done|apply stop_connection_ok|].
  destruct Hc as [H1 H2 H3 H4].
  pose proof (outbound_nonneg (cn_outbound c)). pose proof (frame_wire_size_pos f).
  assert (Eu : u64 (cn_outbound_bytes c + frame_wire_size f) =
               cn_outbound_bytes c + frame_wire_size f).
  { apply u64_id. unfold is_u64. unfold kMaxOutboundBytes in Hb. lia. }
  split; cbn [fst cn_outbound cn_outbound_bytes cn_stop cn_open]; rewrite ?Eu.
  - rewrite length_app. cbn [length]. lia.
  - rewrite sumZ_app. cbn [sumZ foldr]. lia.
  - lia.
  - congruence.
Qed.

Lemma take_frame_inv c f c' :
  take_frame c = Some (f, c') →
  cn_stop c = false ∧ cn_outbound c = f :: cn_outbound c' ∧ cn_stop c' = false ∧
  (conn_ok c → conn_ok c').
Proof.
  unfold take_frame. destruct (cn_stop c) eqn:Hs; [done|].
  destruct (cn_outbound c) as [|f0 rest] eqn:Ho; [done|]. intros [= <- <-].
  split_and!; try done. intros [H1 H2 H3 H4]. rewrite Ho in H1, H2.
  cbn [sumZ foldr length] in H1, H2. fold (sumZ frame_wire_size rest) in H2.
  pose proof (outbound_nonneg rest). pose proof (frame_wire_size_pos f0).
  assert (Hle : (frame_wire_size f0 <=? cn_outbound_bytes c) = true) by (apply Z.leb_le; lia).
  split; cbn [cn_outbound cn_outbound_bytes cn_stop cn_open]; rewrite ?Hle; (lia || congruence).
Qed.

Lemma frame_sent_ok c ok : conn_ok c → conn_ok (frame_sent c ok).
Proof. intros [? ? ? ?]. unfold frame_sent. destruct ok; [by split|apply stop_connection_ok]. Qed.

Lemma retire_connection_ok c : conn_ok c → conn_ok (retire_connection c).1.
Proof. intros [? ? ? ?]. by split. Qed.

#[export] Hint Resolve new_conn_ok stop_connection_ok queue_outbound_ok frame_sent_ok
  retire_connection_ok : cf.

(** ** Histories of one connection *)

Inductive ConnOp :=
| QueueFrame (f : Frame)      (* the core thread queues a frame *)
| TakeFrame                   (* the writer takes the next one *)
| FrameSent (ok : bool)       (* the writer's send returns *)
| StopConn.                   (* any thread stops the connection *)

(** The connection, the frames accepted and the frames handed to the channel. *)
Record ConnTrace := mkConnTrace {
  tr_conn : Conn;
  tr_accepted : list Frame;
  tr_taken : list Frame
}.

Definition conn_op (t : ConnTrace) (op : ConnOp) : ConnTrace :=
  match op with
  | QueueFrame f =>
      let '(c, ok) := queue_outbound (tr_conn t) f in
      mkConnTrace c (if ok then tr_accepted t ++ [f] else tr_accepted t) (tr_taken t)
  | TakeFrame =>
      match take_frame (tr_conn t) with
      | Some (f, c) => mkConnTrace c (tr_accepted t) (tr_taken t ++ [f])
      | None => t
      end
  | FrameSent ok => mkConnTrace (frame_sent (tr_conn t) ok) (tr_accepted t) (tr_taken t)
  | StopConn => mkConnTrace (stop_connection (tr_conn t)) (tr_accepted t) (tr_taken t)
  end.
Definition run_conn (ops : list ConnOp) (id : Id128) : ConnTrace :=
  foldl conn_op (mkConnTrace (new_conn id) [] []) ops.

(** First in, first out: what was accepted is what was taken, what is queued and,
    once stopped, what the stop discarded. *)
Definition fifo (t : ConnTrace) : Prop :=
  ∃ lost, tr_accepted t = tr_taken t ++ cn_outbound (tr_conn t) ++ lost ∧
          (cn_stop (tr_conn t) = false → lost = []).

Lemma stopped_fifo c acc taken lost :
  acc = taken ++ cn_outbound c ++ lost →
  fifo (mkConnTrace (stop_connection c) acc taken).
Proof. intros ->. by exists (cn_outbound c ++ lost). Qed.

Lemma conn_op_fifo t op : fifo t → fifo (conn_op t op).
Proof.
  destruct t as [c acc taken]. intros (lost & Hacc & Hlost).
  cbn [tr_conn tr_accepted tr_taken] in *. destruct op as [f| |ok|]; cbn [conn_op tr_conn].
  - destruct (queue_outbound_cases c f) as [[Hs ->]|[[Hs ->]|(Hs & _ & _ & ->)]].
    + by exists lost.
    + by eapply stopped_fifo.
    + exists []. cbn [tr_conn tr_accepted tr_taken cn_outbound]. split; [|done].
      rewrite Hacc, (Hlost Hs), !app_nil_r. by rewrite <-app_assoc.
  - destruct (take_frame c) as [[f c']|] eqn:Ht; [|by exists lost].
    apply take_frame_inv in Ht as (Hs & Ho & Hs' & _). exists [].
    cbn [tr_conn tr_accepted tr_taken]. split; [|done].
    by rewrite Hacc, (Hlost Hs), !app_nil_r, Ho, <-app_assoc.
  - unfold frame_sent. destruct ok; [by exists lost|]. by eapply stopped_fifo.
  - by eapply stopped_fifo.
Qed.

Lemma conn_op_ok t op : conn_ok (tr_conn t) → conn_ok (tr_conn (conn_op t op)).
Proof.
  intros Hc. destruct op as [f| |ok|]; cbn [conn_op]; eauto with cf.
  - pose proof (queue_outbound_ok _ f Hc). by destruct (queue_outbound _ f).
  - destruct (take_frame _) as [[f c']|] eqn:Ht; [|done].
    apply take_frame_inv in Ht as (_ & _ & _ & H). by apply H.
Qed.

Lemma run_conn_inv ops id :
  conn_ok (tr_conn (run_conn ops id)) ∧ fifo (run_conn ops id).
Proof.
  assert (Hgen : ∀ t, conn_ok (tr_conn t) → fifo t →
    conn_ok (tr_conn (foldl conn_op t ops)) ∧ fifo (foldl conn_op t ops)).
  { induction ops as [|op ops IH]; intros t Hc Hf; [done|].
    cbn [foldl]. apply IH; [by apply conn_op_ok|by apply conn_op_fifo]. }
  apply Hgen; [apply new_conn_ok|by exists []].
Qed.

(** C35: a slow peer cannot exhaust the coordinator.  Over every interleaving of
    the core thread and the writer of a connection, at most 256 frames and 16 MiB
    are queued, the byte counter is the exact size of the queue (so it neither
    drifts nor wraps), frames leave in the order they were accepted and none is
    lost before the connection is stopped. *)
Theorem outbound_bounded_fifo (ops : list ConnOp) (id : Id128) :
  let t := run_conn ops id in
  let c := tr_conn t in
  (length (cn_outbound c) <= kMaxOutboundFrames)%nat ∧
  cn_outbound_bytes c = sumZ frame_wire_size (cn_outbound c) ∧
  cn_outbound_bytes c <= kMaxOutboundBytes ∧
  (cn_stop c = false → tr_accepted t = tr_taken t ++ cn_outbound c) ∧
  tr_taken t `prefix_of` tr_accepted t.
Proof.
  intros t c.
  assert (Hinv : conn_ok c ∧ fifo t) by (apply run_conn_inv).
  destruct Hinv as [[H1 H2 H3 H4] (lost & Hacc & Hlost)]. split_and!; try done.
  - intros Hs. by rewrite Hacc, (Hlost Hs), app_nil_r.
  - rewrite Hacc. by apply prefix_app_r.
Qed.

(** ** Idempotency cache *)

Module IdempotencyCache.

Definition kMaxEntries : nat := 512.

Record Cache := mkCache {
  entries : gmap string (Z * bytes);   (* message type and payload *)
  order : list string
}.
Definition empty : Cache := mkCache ∅ [].

(** [while (order_.size() > kMaxEntries)] *)
Fixpoint evict (es : gmap string (Z * bytes)) (order : list string) : Cache :=
  match order with
  | [] => mkCache es []
  | key :: rest =>
      if (kMaxEntries <? length order)%nat then evict (delete key es) rest
      else mkCache es order
  end.

Definition put (c : Cache) (key : string) (message_type : Z) (payload : bytes) : Cache :=
  match entries c !! key with
  | Some _ => c
  | None => evict (<[key := (message_type, payload)]> (entries c)) (order c ++ [key])
  end.

Definition get (c : Cache) (key : string) : option (Z * bytes) := entries c !! key.

(** [Coordinator::idem_key] *)
Definition idem_key (sender : Id128) (request_id : Z) : string :=
  to_hex sender +:+ ":" +:+ to_string request_id.

Record cache_ok (c : Cache) : Prop := {
  ca_bound : (length (order c) <= kMaxEntries)%nat;
  ca_nodup : NoDup (order c);
  ca_keys : ∀ k, is_Some (entries c !! k) ↔ k ∈ order c
}.

Lemma empty_ok : cache_ok empty.
Proof.
  split; cbn [order entries empty].
  - unfold kMaxEntries. cbn. lia.
  - constructor.
  - intros k. rewrite lookup_empty, elem_of_nil. split; [by intros [? ?]|done].
Qed.

(** Eviction drops the oldest keys and keeps the entries of the others. *)
Lemma evict_spec es l :
  NoDup l → (∀ k, is_Some (es !! k) ↔ k ∈ l) →
  let c := evict es l in
  let n := (length l - kMaxEntries)%nat in
  order c = drop n l ∧ ∀ k, entries c !! k = if decide (k ∈ drop n l) then es !! k else None.
Proof.
  revert es. induction l as [|key l IH]; intros es Hnd Hk; cbn [evict].
  - split; [done|]. intros k. rewrite drop_nil. case_decide as Hin; [done|].
    apply eq_None_not_Some. by rewrite Hk.
  - apply NoDup_cons in Hnd as [Hkey Hnd]. destruct (Nat.ltb_spec kMaxEntries (length (key :: l))).
    + replace (length (key :: l) - kMaxEntries)%nat with (S (length l - kMaxEntries))
        by (cbn [length] in *; lia).
      cbn [drop]. destruct (IH (delete key es)) as [E1 E2]; [done| |].
      * intros k. rewrite lookup_delete_is_Some, Hk, elem_of_cons. naive_solver.
      * split; [done|]. intros k. rewrite E2. case_decide as Hin; [|done].
        apply lookup_delete_ne. intros ->. apply Hkey.
        eapply elem_of_sublist; [exact Hin|apply sublist_drop].
    + replace (length (key :: l) - kMaxEntries)%nat with 0%nat by lia. split; [done|].
      intros k. cbn [drop entries]. case_decide as Hin; [done|].
      apply eq_None_not_Some. by rewrite Hk.
Qed.

Section put.
Context (c : Cache) (key : string) (t : Z) (p : bytes).
Context (Hc : cache_ok c) (Hnew : entries c !! key = None).

Lemma put_new :
  let n := (S (length (order c)) - kMaxEntries)%nat in
  order (put c key t p) = drop n (order c ++ [key]) ∧
  ∀ k, entries (put c key t p) !! k =
       if decide (k ∈ drop n (order c ++ [key]))
       then <[key := (t, p)]> (entries c) !! k else None.
Proof using Hc Hnew.
  destruct Hc as [Hb Hnd Hk]. unfold put. rewrite Hnew.
  replace (S (length (order c))) with (length (order c ++ [key])) by (rewrite length_app; cbn; lia).
  apply evict_spec.
  - apply NoDup_app. split_and!; [done| |apply NoDup_singleton].
    intros k Hin ->%list_elem_of_singleton. apply Hk in Hin as [? ?]. congruence.
  - intros k. rewrite lookup_insert_is_Some', Hk, elem_of_app, list_elem_of_singleton. naive_solver.
Qed.

(** At most the oldest key goes. *)
Lemma put_new_order :
  (length (order c) < kMaxEntries)%nat ∧ order (put c key t p) = order c ++ [key] ∨
  ∃ old rest, length (order c) = kMaxEntries ∧ order c = old :: rest ∧
    order (put c key t p) = rest ++ [key].
Proof using Hc Hnew.
  destruct put_new as [-> _]. pose proof (ca_bound c Hc).
  destruct (decide (length (order c) < kMaxEntries)%nat).
  - left. split; [done|]. by replace (S (length (order c)) - kMaxEntries)%nat with 0%nat by lia.
  - right. assert (El : length (order c) = kMaxEntries) by lia. rewrite El.
    replace (S kMaxEntries - kMaxEntries)%nat with 1%nat by lia.
    destruct (order c) as [|old rest]; [done|]. by exists old, rest.
Qed.
End put.

Lemma put_ok c key t p : cache_ok c → cache_ok (put c key t p).
Proof.
  intros Hc. destruct (entries c !! key) as [e|] eqn:Hkey; [unfold put; by rewrite Hkey|].
  destruct (put_new c key t p Hc Hkey) as [E1 E2].
  assert (Hnd : NoDup (order c ++ [key])).
  { apply NoDup_app. split_and!; [apply Hc| |apply NoDup_singleton].
    intros k Hin ->%list_elem_of_singleton. apply (ca_keys c Hc) in Hin as [? ?]. congruence. }
  split.
  - rewrite E1, length_drop, length_app. cbn [length]. lia.
  - rewrite E1. eapply sublist_NoDup; [exact Hnd|apply sublist_drop].
  - intros k. rewrite E1, E2. case_decide as Hin; [|by split; [intros [? ?]|]].
    split; [done|intros _]. apply lookup_insert_is_Some'.
    assert (Hin' : k ∈ order c ++ [key]) by (eapply elem_of_sublist; [exact Hin|apply sublist_drop]).
    apply elem_of_app in Hin' as [Hk| ->%list_elem_of_singleton]; [right; by apply Hc|by left].
Qed.

(** A history of [put]s. *)
Definition run_puts (ps : list (string * (Z * bytes))) : Cache :=
  foldl (λ c x, put c x.1 x.2.1 x.2.2) empty ps.

Lemma run_puts_ok ps : cache_ok (run_puts ps).
Proof.
  unfold run_puts. generalize empty_ok. generalize empty.
  induction ps as [|x ps IH]; intros c Hc; [done|]. cbn [foldl]. by apply IH, put_ok.
Qed.

(** The idempotency cache is a bounded first-in first-out memory.  After any
    history of responses it holds at most 512 of them; storing a response under a
    new key makes it retrievable, under a known key keeps the first one; and the
    other responses stay, except that a full cache forgets its oldest key. *)
Theorem cache_put_get (ps : list (string * (Z * bytes))) (key : string) (t : Z) (p : bytes) :
  let c := run_puts ps in
  let c' := put c key t p in
  (length (order c') <= kMaxEntries)%nat ∧
  get c' key = match get c key with Some e => Some e | None => Some (t, p) end ∧
  ∀ k, k ≠ key → get c' k = get c k ∨
    (length (order c) = kMaxEntries ∧ head (order c) = Some k ∧ get c key = None ∧ get c' k = None).
Proof.
  intros c c'. pose proof (run_puts_ok ps) as Hc. fold c in Hc.
  pose proof (put_ok c key t p Hc) as Hc'. fold c' in Hc'. split; [apply Hc'|]. unfold get.
  destruct (entries c !! key) as [e|] eqn:Hkey.
  { assert (c' = c) as -> by (unfold c', put; by rewrite Hkey). split; [done|]. by left. }
  destruct (put_new c key t p Hc Hkey) as [E1 E2]. fold c' in E1, E2. rewrite <-E1 in E2.
  assert (Hord := put_new_order c key t p Hc Hkey). fold c' in Hord. split.
  - rewrite E2, decide_True, lookup_insert_eq; [done|].
    destruct Hord as [[_ ->]|(old & rest & _ & _ & ->)]; apply elem_of_app; right;
      by apply list_elem_of_singleton.
  - intros k Hne. rewrite E2, lookup_insert_ne by done.
    case_decide as Hin; [by left|].
    destruct (entries c !! k) as [e|] eqn:Hk; [|by left]. right.
    assert (Hkc : k ∈ order c) by (apply (ca_keys c Hc); eauto).
    destruct Hord as [[_ E]|(old & rest & El & Eo & E)]; rewrite E in Hin.
    + destruct Hin. apply elem_of_app. by left.
    + rewrite Eo in Hkc. apply elem_of_cons in Hkc as [->|Hkc]; [split_and!; [done|by rewrite Eo|done|done]|].
      destruct Hin. apply elem_of_app. by left.
Qed.

End IdempotencyCache.
