(* ===== verification/CoordState.v ===== *)
(** * CoordState: the coordinator's state and the helpers of its handlers
    (coordinator/coordinator.h, coordinator.cpp)

    [Coordinator] is the class's members; the connections the shared pointers of
    [node_conns_], [client_conns_] and of the commands point to live in one store
    [c_conns], so that a handler that stops a connection is seen through every
    pointer.  [World] is what the environment decides: the readings of the clock,
    the identifiers [Id128::random] draws, the outcome of each write of the store
    file.  Handlers are programs of the monad [Core], which threads the state.
    Logging and telemetry write to files nobody reads back and are left out;
    waiting for a queue to drain does not change the state. *)

From S2P Require Import Prelude Status Ids Digest Float64 Task Lifecycle Dag Reservation Placement.
From S2P Require Import Wire Frame Serialize Messages Store Locality Scheduler Outbound.

Local Open Scope Z_scope.

Record CoordinatorConfig := mkCoordinatorConfig {
  cfg_node_host : string;
  cfg_node_port : Z;               (* uint16_t *)
  cfg_client_host : string;
  cfg_client_port : Z;             (* uint16_t *)
  cfg_store_dir : string;
  cfg_policy : SchedulerPolicy;
  cfg_heartbeat_timeout_ms : Z;    (* int64_t *)
  cfg_dispatch_timeout_ms : Z;     (* int64_t *)
  cfg_telemetry_path : string;
  cfg_telemetry_human : bool;
  cfg_command_timeout_ms : Z       (* int64_t *)
}.

(** The member initialisers of the struct, for a given store directory. *)
Definition default_config (store_dir : string) : CoordinatorConfig :=
  mkCoordinatorConfig "127.0.0.1" 0 "127.0.0.1" 0 store_dir SP_CostAware 3000 5000 "" false 5000.

Definition kMaxQueue : nat := 8192.
Definition kDispatchTimeoutMs : Z := 5000.

(** ** Commands of the core thread *)

(** [CoreCommand::Kind] with the payload the kind selects. *)
Inductive CommandKind :=
| K_NodeRegister (reg : NodeRegister)
| K_NodeHeartbeat (hb : NodeHeartbeat)
| K_NodeShutdownMsg
| K_NodeDisconnected
| K_DispatchAck (da : DispatchAck)
| K_AttemptStarted (st : AttemptStarted)
| K_AttemptProgress (pr : AttemptProgress)
| K_AttemptComplete (co : AttemptComplete)
| K_AttemptFailed (fa : AttemptFailed)
| K_AttemptCancelled (ca : AttemptCancelled)
| K_ReservationRelease (rel : ReservationRelease)
| K_ClientConnected
| K_ClientTaskSubmit (submit : TaskSubmit)
| K_ClientTaskInspect (inspect : TaskInspect)
| K_ClientTaskList (l : TaskList)
| K_ClientTaskCancel (cancel : TaskCancel)
| K_ClientWorkloadInspect (wl : WorkloadInspect)
| K_ClientFabricStatus (fs : FabricStatus)
| K_ClientPlacementQuery (pq : PlacementQuery)
| K_ClientNodeList
| K_ClientNodeDrain (drain : NodeDrain)
| K_ClientCoordinatorShutdown
| K_ClientDisconnected
| K_Sweep
| K_Shutdown.

(** A [std::shared_ptr] to a connection. *)
Abbreviation ConnRef := nat.

Record CoreCommand := mkCoreCommand {
  cmd_kind : CommandKind;
  cmd_node_conn : option ConnRef;
  cmd_client_conn : option ConnRef;
  cmd_request_id : Z;              (* uint64_t *)
  cmd_node_id : Id128;
  cmd_client_id : Id128
}.

(** ** State *)

Record World := mkWorld {
  w_clock : nat → Z;               (* now_millis, int64_t *)
  w_random : nat → Id128;          (* Id128::random *)
  w_disk : nat → WriteOutcome      (* write_file_atomic *)
}.

Record Coordinator := mkCoordinator {
  c_config : CoordinatorConfig;
  c_world : World;
  c_ticks : nat;   (* readings of the clock so far *)
  c_draws : nat;   (* random identifiers drawn so far *)
  c_saves : nat;   (* store writes so far *)
  c_durable : DurableState;
  c_files : FileSystem;
  c_store : option string;   (* the path of store_ *)
  c_graph : TaskGraph;
  c_reservations : Registry;
  c_locality : Locality;
  c_scheduler : SchedulerPolicyEngine;
  c_nodes : gmap Id128 NodeRecord;
  c_attempts : gmap Id128 (list ExecutionAttempt);
  c_retry_ready_at : gmap Id128 Z;   (* int64_t *)
  c_ready_at : gmap Id128 Z;   (* int64_t *)
  c_dispatch_at : gmap Id128 Z;   (* int64_t *)
  c_cancel_requested : gmap Id128 bool;
  c_last_placements : gmap Id128 PlacementDecision;
  c_placement_records : gmap Id128 StoredPlacement;
  c_task_reservation : gmap Id128 Id128;
  c_attempt_by_reservation : gmap Id128 ExecutionAttempt;
  c_conns : gmap ConnRef Conn;   (* what the shared pointers point to *)
  c_node_conns : gmap Id128 ConnRef;
  c_client_conns : gmap Id128 ConnRef;
  c_queue : list CoreCommand;   (* core_queue_ *)
  c_core_running : bool;
  c_stopping : bool;
  c_placement_sequence : Z   (* uint64_t *)
}.

(** ** Assignments to the members *)

Definition set_ticks (v : nat) (s : Coordinator) : Coordinator :=
  mkCoordinator (c_config s) (c_world s) v (c_draws s) (c_saves s) (c_durable s) (c_files s)
    (c_store s) (c_graph s) (c_reservations s) (c_locality s) (c_scheduler s) (c_nodes s)
    (c_attempts s) (c_retry_ready_at s) (c_ready_at s) (c_dispatch_at s) (c_cancel_requested
    s) (c_last_placements s) (c_placement_records s) (c_task_reservation s)
    (c_attempt_by_reservation s) (c_conns s) (c_node_conns s) (c_client_conns s) (c_queue s)
    (c_core_running s) (c_stopping s) (c_placement_sequence s).
Definition set_draws (v : nat) (s : Coordinator) : Coordinator :=
  mkCoordinator (c_config s) (c_world s) (c_ticks s) v (c_saves s) (c_durable s) (c_files s)
    (c_store s) (c_graph s) (c_reservations s) (c_locality s) (c_scheduler s) (c_nodes s)
    (c_attempts s) (c_retry_ready_at s) (c_ready_at s) (c_dispatch_at s) (c_cancel_requested
    s) (c_last_placements s) (c_placement_records s) (c_task_reservation s)
    (c_attempt_by_reservation s) (c_conns s) (c_node_conns s) (c_client_conns s) (c_queue s)
    (c_core_running s) (c_stopping s) (c_placement_sequence s).
Definition set_saves (v : nat) (s : Coordinator) : Coordinator :=
  mkCoordinator (c_config s) (c_world s) (c_ticks s) (c_draws s) v (c_durable s) (c_files s)
    (c_store s) (c_graph s) (c_reservations s) (c_locality s) (c_scheduler s) (c_nodes s)
    (c_attempts s) (c_retry_ready_at s) (c_ready_at s) (c_dispatch_at s) (c_cancel_requested
    s) (c_last_placements s) (c_placement_records s) (c_task_reservation s)
    (c_attempt_by_reservation s) (c_conns s) (c_node_conns s) (c_client_conns s) (c_queue s)
    (c_core_running s) (c_stopping s) (c_placement_sequence s).
Definition set_durable (v : DurableState) (s : Coordinator) : Coordinator :=
  mkCoordinator (c_config s) (c_world s) (c_ticks s) (c_draws s) (c_saves s) v (c_files s)
    (c_store s) (c_graph s) (c_reservations s) (c_locality s) (c_scheduler s) (c_nodes s)
    (c_attempts s) (c_retry_ready_at s) (c_ready_at s) (c_dispatch_at s) (c_cancel_requested
    s) (c_last_placements s) (c_placement_records s) (c_task_reservation s)
    (c_attempt_by_reservation s) (c_conns s) (c_node_conns s) (c_client_conns s) (c_queue s)
    (c_core_running s) (c_stopping s) (c_placement_sequence s).
Definition set_files (v : FileSystem) (s : Coordinator) : Coordinator :=
  mkCoordinator (c_config s) (c_world s) (c_ticks s) (c_draws s) (c_saves s) (c_durable s) v
    (c_store s) (c_graph s) (c_reservations s) (c_locality s) (c_scheduler s) (c_nodes s)
    (c_attempts s) (c_retry_ready_at s) (c_ready_at s) (c_dispatch_at s) (c_cancel_requested
    s) (c_last_placements s) (c_placement_records s) (c_task_reservation s)
    (c_attempt_by_reservation s) (c_conns s) (c_node_conns s) (c_client_conns s) (c_queue s)
    (c_core_running s) (c_stopping s) (c_placement_sequence s).
Definition set_store (v : option string) (s : Coordinator) : Coordinator :=
  mkCoordinator (c_config s) (c_world s) (c_ticks s) (c_draws s) (c_saves s) (c_durable s)
    (c_files s) v (c_graph s) (c_reservations s) (c_locality s) (c_scheduler s) (c_nodes s)
    (c_attempts s) (c_retry_ready_at s) (c_ready_at s) (c_dispatch_at s) (c_cancel_requested
    s) (c_last_placements s) (c_placement_records s) (c_task_reservation s)
    (c_attempt_by_reservation s) (c_conns s) (c_node_conns s) (c_client_conns s) (c_queue s)
    (c_core_running s) (c_stopping s) (c_placement_sequence s).
Definition set_graph (v : TaskGraph) (s : Coordinator) : Coordinator :=
  mkCoordinator (c_config s) (c_world s) (c_ticks s) (c_draws s) (c_saves s) (c_durable s)
    (c_files s) (c_store s) v (c_reservations s) (c_locality s) (c_scheduler s) (c_nodes s)
    (c_attempts s) (c_retry_ready_at s) (c_ready_at s) (c_dispatch_at s) (c_cancel_requested
    s) (c_last_placements s) (c_placement_records s) (c_task_reservation s)
    (c_attempt_by_reservation s) (c_conns s) (c_node_conns s) (c_client_conns s) (c_queue s)
    (c_core_running s) (c_stopping s) (c_placement_sequence s).
Definition set_reservations (v : Registry) (s : Coordinator) : Coordinator :=
  mkCoordinator (c_config s) (c_world s) (c_ticks s) (c_draws s) (c_saves s) (c_durable s)
    (c_files s) (c_store s) (c_graph s) v (c_locality s) (c_scheduler s) (c_nodes s)
    (c_attempts s) (c_retry_ready_at s) (c_ready_at s) (c_dispatch_at s) (c_cancel_requested
    s) (c_last_placements s) (c_placement_records s) (c_task_reservation s)
    (c_attempt_by_reservation s) (c_conns s) (c_node_conns s) (c_client_conns s) (c_queue s)
    (c_core_running s) (c_stopping s) (c_placement_sequence s).
Definition set_locality (v : Locality) (s : Coordinator) : Coordinator :=
  mkCoordinator (c_config s) (c_world s) (c_ticks s) (c_draws s) (c_saves s) (c_durable s)
    (c_files s) (c_store s) (c_graph s) (c_reservations s) v (c_scheduler s) (c_nodes s)
    (c_attempts s) (c_retry_ready_at s) (c_ready_at s) (c_dispatch_at s) (c_cancel_requested
    s) (c_last_placements s) (c_placement_records s) (c_task_reservation s)
    (c_attempt_by_reservation s) (c_conns s) (c_node_conns s) (c_client_conns s) (c_queue s)
    (c_core_running s) (c_stopping s) (c_placement_sequence s).
Definition set_scheduler (v : SchedulerPolicyEngine) (s : Coordinator) : Coordinator :=
  mkCoordinator (c_config s) (c_world s) (c_ticks s) (c_draws s) (c_saves s) (c_durable s)
    (c_files s) (c_store s) (c_graph s) (c_reservations s) (c_locality s) v (c_nodes s)
    (c_attempts s) (c_retry_ready_at s) (c_ready_at s) (c_dispatch_at s) (c_cancel_requested
    s) (c_last_placements s) (c_placement_records s) (c_task_reservation s)
    (c_attempt_by_reservation s) (c_conns s) (c_node_conns s) (c_client_conns s) (c_queue s)
    (c_core_running s) (c_stopping s) (c_placement_sequence s).
Definition set_nodes (v : gmap Id128 NodeRecord) (s : Coordinator) : Coordinator :=
  mkCoordinator (c_config s) (c_world s) (c_ticks s) (c_draws s) (c_saves s) (c_durable s)
    (c_files s) (c_store s) (c_graph s) (c_reservations s) (c_locality s) (c_scheduler s) v
    (c_attempts s) (c_retry_ready_at s) (c_ready_at s) (c_dispatch_at s) (c_cancel_requested
    s) (c_last_placements s) (c_placement_records s) (c_task_reservation s)
    (c_attempt_by_reservation s) (c_conns s) (c_node_conns s) (c_client_conns s) (c_queue s)
    (c_core_running s) (c_stopping s) (c_placement_sequence s).
Definition set_attempts (v : gmap Id128 (list ExecutionAttempt)) (s : Coordinator) : Coordinator :=
  mkCoordinator (c_config s) (c_world s) (c_ticks s) (c_draws s) (c_saves s) (c_durable s)
    (c_files s) (c_store s) (c_graph s) (c_reservations s) (c_locality s) (c_scheduler s)
    (c_nodes s) v (c_retry_ready_at s) (c_ready_at s) (c_dispatch_at s) (c_cancel_requested s)
    (c_last_placements s) (c_placement_records s) (c_task_reservation s)
    (c_attempt_by_reservation s) (c_conns s) (c_node_conns s) (c_client_conns s) (c_queue s)
    (c_core_running s) (c_stopping s) (c_placement_sequence s).
Definition set_retry_ready_at (v : gmap Id128 Z) (s : Coordinator) : Coordinator :=
  mkCoordinator (c_config s) (c_world s) (c_ticks s) (c_draws s) (c_saves s) (c_durable s)
    (c_files s) (c_store s) (c_graph s) (c_reservations s) (c_locality s) (c_scheduler s)
    (c_nodes s) (c_attempts s) v (c_ready_at s) (c_dispatch_at s) (c_cancel_requested s)
    (c_last_placements s) (c_placement_records s) (c_task_reservation s)
    (c_attempt_by_reservation s) (c_conns s) (c_node_conns s) (c_client_conns s) (c_queue s)
    (c_core_running s) (c_stopping s) (c_placement_sequence s).
Definition set_ready_at (v : gmap Id128 Z) (s : Coordinator) : Coordinator :=
  mkCoordinator (c_config s) (c_world s) (c_ticks s) (c_draws s) (c_saves s) (c_durable s)
    (c_files s) (c_store s) (c_graph s) (c_reservations s) (c_locality s) (c_scheduler s)
    (c_nodes s) (c_attempts s) (c_retry_ready_at s) v (c_dispatch_at s) (c_cancel_requested s)
    (c_last_placements s) (c_placement_records s) (c_task_reservation s)
    (c_attempt_by_reservation s) (c_conns s) (c_node_conns s) (c_client_conns s) (c_queue s)
    (c_core_running s) (c_stopping s) (c_placement_sequence s).
Definition set_dispatch_at (v : gmap Id128 Z) (s : Coordinator) : Coordinator :=
  mkCoordinator (c_config s) (c_world s) (c_ticks s) (c_draws s) (c_saves s) (c_durable s)
    (c_files s) (c_store s) (c_graph s) (c_reservations s) (c_locality s) (c_scheduler s)
    (c_nodes s) (c_attempts s) (c_retry_ready_at s) (c_ready_at s) v (c_cancel_requested s)
    (c_last_placements s) (c_placement_records s) (c_task_reservation s)
    (c_attempt_by_reservation s) (c_conns s) (c_node_conns s) (c_client_conns s) (c_queue s)
    (c_core_running s) (c_stopping s) (c_placement_sequence s).
Definition set_cancel_requested (v : gmap Id128 bool) (s : Coordinator) : Coordinator :=
  mkCoordinator (c_config s) (c_world s) (c_ticks s) (c_draws s) (c_saves s) (c_durable s)
    (c_files s) (c_store s) (c_graph s) (c_reservations s) (c_locality s) (c_scheduler s)
    (c_nodes s) (c_attempts s) (c_retry_ready_at s) (c_ready_at s) (c_dispatch_at s) v
    (c_last_placements s) (c_placement_records s) (c_task_reservation s)
    (c_attempt_by_reservation s) (c_conns s) (c_node_conns s) (c_client_conns s) (c_queue s)
    (c_core_running s) (c_stopping s) (c_placement_sequence s).
Definition set_last_placements (v : gmap Id128 PlacementDecision) (s : Coordinator) : Coordinator :=
  mkCoordinator (c_config s) (c_world s) (c_ticks s) (c_draws s) (c_saves s) (c_durable s)
    (c_files s) (c_store s) (c_graph s) (c_reservations s) (c_locality s) (c_scheduler s)
    (c_nodes s) (c_attempts s) (c_retry_ready_at s) (c_ready_at s) (c_dispatch_at s)
    (c_cancel_requested s) v (c_placement_records s) (c_task_reservation s)
    (c_attempt_by_reservation s) (c_conns s) (c_node_conns s) (c_client_conns s) (c_queue s)
    (c_core_running s) (c_stopping s) (c_placement_sequence s).
Definition set_placement_records (v : gmap Id128 StoredPlacement) (s : Coordinator) : Coordinator :=
  mkCoordinator (c_config s) (c_world s) (c_ticks s) (c_draws s) (c_saves s) (c_durable s)
    (c_files s) (c_store s) (c_graph s) (c_reservations s) (c_locality s) (c_scheduler s)
    (c_nodes s) (c_attempts s) (c_retry_ready_at s) (c_ready_at s) (c_dispatch_at s)
    (c_cancel_requested s) (c_last_placements s) v (c_task_reservation s)
    (c_attempt_by_reservation s) (c_conns s) (c_node_conns s) (c_client_conns s) (c_queue s)
    (c_core_running s) (c_stopping s) (c_placement_sequence s).
Definition set_task_reservation (v : gmap Id128 Id128) (s : Coordinator) : Coordinator :=
  mkCoordinator (c_config s) (c_world s) (c_ticks s) (c_draws s) (c_saves s) (c_durable s)
    (c_files s) (c_store s) (c_graph s) (c_reservations s) (c_locality s) (c_scheduler s)
    (c_nodes s) (c_attempts s) (c_retry_ready_at s) (c_ready_at s) (c_dispatch_at s)
    (c_cancel_requested s) (c_last_placements s) (c_placement_records s) v
    (c_attempt_by_reservation s) (c_conns s) (c_node_conns s) (c_client_conns s) (c_queue s)
    (c_core_running s) (c_stopping s) (c_placement_sequence s).
Definition set_attempt_by_reservation (v : gmap Id128 ExecutionAttempt) (s : Coordinator) : Coordinator :=
  mkCoordinator (c_config s) (c_world s) (c_ticks s) (c_draws s) (c_saves s) (c_durable s)
    (c_files s) (c_store s) (c_graph s) (c_reservations s) (c_locality s) (c_scheduler s)
    (c_nodes s) (c_attempts s) (c_retry_ready_at s) (c_ready_at s) (c_dispatch_at s)
    (c_cancel_requested s) (c_last_placements s) (c_placement_records s) (c_task_reservation
    s) v (c_conns s) (c_node_conns s) (c_client_conns s) (c_queue s) (c_core_running s)
    (c_stopping s) (c_placement_sequence s).
Definition set_conns (v : gmap ConnRef Conn) (s : Coordinator) : Coordinator :=
  mkCoordinator (c_config s) (c_world s) (c_ticks s) (c_draws s) (c_saves s) (c_durable s)
    (c_files s) (c_store s) (c_graph s) (c_reservations s) (c_locality s) (c_scheduler s)
    (c_nodes s) (c_attempts s) (c_retry_ready_at s) (c_ready_at s) (c_dispatch_at s)
    (c_cancel_requested s) (c_last_placements s) (c_placement_records s) (c_task_reservation
    s) (c_attempt_by_reservation s) v (c_node_conns s) (c_client_conns s) (c_queue s)
    (c_core_running s) (c_stopping s) (c_placement_sequence s).
Definition set_node_conns (v : gmap Id128 ConnRef) (s : Coordinator) : Coordinator :=
  mkCoordinator (c_config s) (c_world s) (c_ticks s) (c_draws s) (c_saves s) (c_durable s)
    (c_files s) (c_store s) (c_graph s) (c_reservations s) (c_locality s) (c_scheduler s)
    (c_nodes s) (c_attempts s) (c_retry_ready_at s) (c_ready_at s) (c_dispatch_at s)
    (c_cancel_requested s) (c_last_placements s) (c_placement_records s) (c_task_reservation
    s) (c_attempt_by_reservation s) (c_conns s) v (c_client_conns s) (c_queue s)
    (c_core_running s) (c_stopping s) (c_placement_sequence s).
Definition set_client_conns (v : gmap Id128 ConnRef) (s : Coordinator) : Coordinator :=
  mkCoordinator (c_config s) (c_world s) (c_ticks s) (c_draws s) (c_saves s) (c_durable s)
    (c_files s) (c_store s) (c_graph s) (c_reservations s) (c_locality s) (c_scheduler s)
    (c_nodes s) (c_attempts s) (c_retry_ready_at s) (c_ready_at s) (c_dispatch_at s)
    (c_cancel_requested s) (c_last_placements s) (c_placement_records s) (c_task_reservation
    s) (c_attempt_by_reservation s) (c_conns s) (c_node_conns s) v (c_queue s) (c_core_running
    s) (c_stopping s) (c_placement_sequence s).
Definition set_queue (v : list CoreCommand) (s : Coordinator) : Coordinator :=
  mkCoordinator (c_config s) (c_world s) (c_ticks s) (c_draws s) (c_saves s) (c_durable s)
    (c_files s) (c_store s) (c_graph s) (c_reservations s) (c_locality s) (c_scheduler s)
    (c_nodes s) (c_attempts s) (c_retry_ready_at s) (c_ready_at s) (c_dispatch_at s)
    (c_cancel_requested s) (c_last_placements s) (c_placement_records s) (c_task_reservation
    s) (c_attempt_by_reservation s) (c_conns s) (c_node_conns s) (c_client_conns s) v
    (c_core_running s) (c_stopping s) (c_placement_sequence s).
Definition set_core_running (v : bool) (s : Coordinator) : Coordinator :=
  mkCoordinator (c_config s) (c_world s) (c_ticks s) (c_draws s) (c_saves s) (c_durable s)
    (c_files s) (c_store s) (c_graph s) (c_reservations s) (c_locality s) (c_scheduler s)
    (c_nodes s) (c_attempts s) (c_retry_ready_at s) (c_ready_at s) (c_dispatch_at s)
    (c_cancel_requested s) (c_last_placements s) (c_placement_records s) (c_task_reservation
    s) (c_attempt_by_reservation s) (c_conns s) (c_node_conns s) (c_client_conns s) (c_queue
    s) v (c_stopping s) (c_placement_sequence s).
Definition set_stopping (v : bool) (s : Coordinator) : Coordinator :=
  mkCoordinator (c_config s) (c_world s) (c_ticks s) (c_draws s) (c_saves s) (c_durable s)
    (c_files s) (c_store s) (c_graph s) (c_reservations s) (c_locality s) (c_scheduler s)
    (c_nodes s) (c_attempts s) (c_retry_ready_at s) (c_ready_at s) (c_dispatch_at s)
    (c_cancel_requested s) (c_last_placements s) (c_placement_records s) (c_task_reservation
    s) (c_attempt_by_reservation s) (c_conns s) (c_node_conns s) (c_client_conns s) (c_queue
    s) (c_core_running s) v (c_placement_sequence s).
Definition set_placement_sequence (v : Z) (s : Coordinator) : Coordinator :=
  mkCoordinator (c_config s) (c_world s) (c_ticks s) (c_draws s) (c_saves s) (c_durable s)
    (c_files s) (c_store s) (c_graph s) (c_reservations s) (c_locality s) (c_scheduler s)
    (c_nodes s) (c_attempts s) (c_retry_ready_at s) (c_ready_at s) (c_dispatch_at s)
    (c_cancel_requested s) (c_last_placements s) (c_placement_records s) (c_task_reservation
    s) (c_attempt_by_reservation s) (c_conns s) (c_node_conns s) (c_client_conns s) (c_queue
    s) (c_core_running s) (c_stopping s) v.

(** Reduce members of updated states. *)
Ltac core_cbn := cbn [
    c_config c_world c_ticks c_draws c_saves c_durable c_files c_store c_graph
    c_reservations c_locality c_scheduler c_nodes c_attempts c_retry_ready_at c_ready_at
    c_dispatch_at c_cancel_requested c_last_placements c_placement_records
    c_task_reservation c_attempt_by_reservation c_conns c_node_conns c_client_conns
    c_queue c_core_running c_stopping c_placement_sequence set_ticks set_draws set_saves
    set_durable set_files set_store set_graph set_reservations set_locality set_scheduler
    set_nodes set_attempts set_retry_ready_at set_ready_at set_dispatch_at
    set_cancel_requested set_last_placements set_placement_records set_task_reservation
    set_attempt_by_reservation set_conns set_node_conns set_client_conns set_queue
    set_core_running set_stopping set_placement_sequence].
Tactic Notation "core_cbn" "in" "*" := cbn [
    c_config c_world c_ticks c_draws c_saves c_durable c_files c_store c_graph
    c_reservations c_locality c_scheduler c_nodes c_attempts c_retry_ready_at c_ready_at
    c_dispatch_at c_cancel_requested c_last_placements c_placement_records
    c_task_reservation c_attempt_by_reservation c_conns c_node_conns c_client_conns
    c_queue c_core_running c_stopping c_placement_sequence set_ticks set_draws set_saves
    set_durable set_files set_store set_graph set_reservations set_locality set_scheduler
    set_nodes set_attempts set_retry_ready_at set_ready_at set_dispatch_at
    set_cancel_requested set_last_placements set_placement_records set_task_reservation
    set_attempt_by_reservation set_conns set_node_conns set_client_conns set_queue
    set_core_running set_stopping set_placement_sequence] in *.

(** ** The monad *)

Definition Core (A : Type) : Type := Coordinator → A * Coordinator.

#[export] Instance core_ret : MRet Core := λ A a s, (a, s).
#[export] Instance core_bind : MBind Core := λ A B k m s, let '(a, s') := m s in k a s'.

Definition gets {A} (f : Coordinator → A) : Core A := λ s, (f s, s).
Definition modify (f : Coordinator → Coordinator) : Core unit := λ s, (tt, f s).
Definition when (b : bool) (m : Core unit) : Core unit := if b then m else mret tt.
Definition ignore {A} (m : Core A) : Core unit := m ;; mret tt.

Fixpoint for_each {A} (l : list A) (body : A → Core unit) : Core unit :=
  match l with
  | [] => mret tt
  | x :: l => body x ;; for_each l body
  end.

(** The state after a program. *)
Definition exec {A} (m : Core A) (s : Coordinator) : Coordinator := (m s).2.

Definition now_millis : Core Z := λ s,
  (w_clock (c_world s) (c_ticks s), set_ticks (S (c_ticks s)) s).
Definition random_id : Core Id128 := λ s,
  (w_random (c_world s) (c_draws s), set_draws (S (c_draws s)) s).

(** ** Members as sub-states *)

(** [graph_.set_state(id, st)] *)
Definition set_task_st (id : Id128) (st : TaskState) : Core (Result unit) := λ s,
  let '(g, r) := set_state (c_graph s) id st in (r, set_graph g s).
Definition state_of (id : Id128) : Core TaskState := gets (λ s, task_state (c_graph s) id).

(** [reservations_.try_reserve(..)]: a reservation draws an identifier and reads
    the clock. *)
Definition reserve (node : NodeRecord) (task_id : Id128) (executor : ExecutorType)
    (slots scratch : Z) : Core ReservationResult := λ s,
  let '(reg, rr) := try_reserve (c_reservations s) node (ds_epoch (c_durable s)) task_id executor
                      slots scratch (w_random (c_world s) (c_draws s))
                      (w_clock (c_world s) (c_ticks s)) in
  let s' := match rr_reservation rr with
            | Some _ => set_ticks (S (c_ticks s)) (set_draws (S (c_draws s)) s)
            | None => s
            end in
  (rr, set_reservations reg s').

Definition release_reservation (id : Id128) : Core unit := modify (λ s,
  set_reservations (release (c_reservations s) id).1 s).

(** [Coordinator::release_task_reservation] *)
Definition release_task_reservation (task_id : Id128) : Core unit :=
  it ← gets (λ s, c_task_reservation s !! task_id);
  match it with
  | Some rid =>
      release_reservation rid ;;
      modify (λ s, set_attempt_by_reservation (delete rid (c_attempt_by_reservation s)) s) ;;
      modify (λ s, set_task_reservation (delete task_id (c_task_reservation s)) s)
  | None => mret tt
  end.

(** ** Attempts *)

(** [Coordinator::find_active_attempt]: the pointer is the position of the first
    match, in task order, then in the order of the task's attempts. *)
Definition AttemptPtr : Type := Id128 * nat.

Fixpoint find_in_lists (id : Id128) (ls : list (Id128 * list ExecutionAttempt))
    : option (AttemptPtr * ExecutionAttempt) :=
  match ls with
  | [] => None
  | (tid, l) :: ls =>
      match list_find (λ a, at_id a = id) l with
      | Some (i, a) => Some ((tid, i), a)
      | None => find_in_lists id ls
      end
  end.

Definition find_active_attempt (id : Id128) : Core (option (AttemptPtr * ExecutionAttempt)) :=
  gets (λ s, find_in_lists id (in_order (c_attempts s))).

(** Writing through the pointer. *)
Definition update_attempt (p : AttemptPtr) (f : ExecutionAttempt → ExecutionAttempt)
    : Core unit := modify (λ s,
  set_attempts (alter (alter f p.2) p.1 (c_attempts s)) s).

(** [attempts_[task_id]]: the entry is created when there is none. *)
Definition attempts_at (task_id : Id128) : Core (list ExecutionAttempt) := λ s,
  match c_attempts s !! task_id with
  | Some l => (l, s)
  | None => ([], set_attempts (<[task_id := []]> (c_attempts s)) s)
  end.
Definition push_task_attempt (task_id : Id128) (a : ExecutionAttempt) : Core unit := modify (λ s,
  set_attempts (<[task_id := default [] (c_attempts s !! task_id) ++ [a]]> (c_attempts s)) s).

(** [cancel_requested_[task_id]] *)
Definition cancel_requested_at (task_id : Id128) : Core bool := λ s,
  match c_cancel_requested s !! task_id with
  | Some b => (b, s)
  | None => (false, set_cancel_requested (<[task_id := false]> (c_cancel_requested s)) s)
  end.

(** ** Persistence *)

(** [Coordinator::graph_to_tasks] and [Coordinator::graph_states] *)
Definition graph_to_tasks (g : TaskGraph) : gmap Id128 ComputeTask :=
  foldl (λ out id, match find_task g id with Some t => <[id := t]> out | None => out end)
    ∅ (task_ids g).
Definition graph_states (g : TaskGraph) : gmap Id128 TaskState :=
  foldl (λ out id, <[id := task_state g id]> out) ∅ (task_ids g).

(** The loops of [persist] over [attempts_]. *)
Definition committed_attempts (m : gmap Id128 (list ExecutionAttempt))
    : gmap Id128 (list ExecutionAttempt) :=
  foldl (λ out kv, foldl (λ out a, if at_committed a
                                   then <[kv.1 := default [] (out !! kv.1) ++ [a]]> out
                                   else out) out kv.2)
    ∅ (in_order m).
Definition retry_counts_of (m : gmap Id128 (list ExecutionAttempt)) : gmap Id128 Z :=
  foldl (λ out kv, <[kv.1 := u32 (Z.of_nat (length kv.2))]> out) ∅ (in_order m).

Definition snapshot (s : Coordinator) : DurableState :=
  mkDurableState (ds_epoch (c_durable s)) (ds_workloads (c_durable s))
    (graph_to_tasks (c_graph s)) (graph_states (c_graph s))
    (committed_attempts (c_attempts s)) (retry_counts_of (c_attempts s))
    (in_order (c_placement_records s)).*2.

(** [store_->save(durable_)] *)
Definition save_durable : Core unit := λ s,
  match c_store s with
  | None => (tt, s)
  | Some path =>
      let '(files, _) := store_save (c_files s) path (c_durable s)
                           (w_disk (c_world s) (c_saves s)) in
      (tt, set_files files (set_saves (S (c_saves s)) s))
  end.

Definition persist : Core unit :=
  modify (λ s, set_durable (snapshot s) s) ;; save_durable.

(** ** Sending *)

Definition conn_stopped (s : Coordinator) (ref : ConnRef) : bool :=
  match c_conns s !! ref with Some c => cn_stop c | None => true end.

Definition stop_conn (ref : ConnRef) : Core unit := modify (λ s,
  set_conns (alter stop_connection ref (c_conns s)) s).

(** [queue_outbound(conn, frame)] *)
Definition queue_frame (ref : ConnRef) (f : Frame) : Core unit := modify (λ s,
  set_conns (alter (λ c, (queue_outbound c f).1) ref (c_conns s)) s).

Definition coordinator_frame (message_type request_id : Z) (payload : bytes) : Frame :=
  make_frame message_type SK_Coordinator id_zero request_id payload.

Definition respond_client (cmd : CoreCommand) (message_type : Z) (payload : bytes) : Core unit :=
  match cmd_client_conn cmd with
  | None => mret tt
  | Some ref =>
      it ← gets (λ s, c ← c_conns s !! ref; c_client_conns s !! cn_id c);
      if bool_decide (it = Some ref)
      then queue_frame ref (coordinator_frame message_type (cmd_request_id cmd) payload)
      else mret tt
  end.

Definition send_to_node (node_id : Id128) (message_type : Z) (payload : bytes) : Core unit :=
  it ← gets (λ s, c_node_conns s !! node_id);
  match it with
  | None => mret tt
  | Some ref =>
      stopped ← gets (λ s, conn_stopped s ref);
      if (stopped : bool) then mret tt
      else queue_frame ref (coordinator_frame message_type 0 payload)
  end.

Definition respond_node (cmd : CoreCommand) (message_type : Z) (payload : bytes) : Core unit :=
  match cmd_node_conn cmd with
  | None => mret tt
  | Some ref => queue_frame ref (coordinator_frame message_type (cmd_request_id cmd) payload)
  end.
