(* ===== verification/CoordNodes.v ===== *)
(** * CoordNodes: registration, heartbeats and loss of nodes
    (coordinator.cpp: the node handlers) *)

From S2P Require Import Prelude Status Ids Float64 Task Lifecycle Dag Reservation Placement.
From S2P Require Import Wire Frame Serialize Messages Store Scheduler Outbound CoordState.

Local Open Scope Z_scope.

(** Assignments through an iterator of [nodes_]. *)
Definition with_health (h : NodeHealth) (r : NodeRecord) : NodeRecord :=
  mkNodeRecord (nr_id r) (nr_session r) (nr_epoch r) (nr_session_epoch r) h (nr_capacity r)
    (nr_last_heartbeat_ms r) (nr_register_ms r) (nr_connected r).
Definition with_heartbeat (at_ms : Z) (r : NodeRecord) : NodeRecord :=
  mkNodeRecord (nr_id r) (nr_session r) (nr_epoch r) (nr_session_epoch r) (nr_health r)
    (nr_capacity r) at_ms (nr_register_ms r) (nr_connected r).
Definition with_connected (b : bool) (r : NodeRecord) : NodeRecord :=
  mkNodeRecord (nr_id r) (nr_session r) (nr_epoch r) (nr_session_epoch r) (nr_health r)
    (nr_capacity r) (nr_last_heartbeat_ms r) (nr_register_ms r) b.

Definition update_node (id : Id128) (f : NodeRecord → NodeRecord) : Core unit := modify (λ s,
  set_nodes (alter f id (c_nodes s)) s).

(** [conn->node_id = id; conn->session = session;] *)
Definition name_conn (ref : ConnRef) (id session : Id128) : Core unit := modify (λ s,
  set_conns (alter (λ c, mkConn id session (cn_open c) (cn_outbound c) (cn_outbound_bytes c)
                           (cn_writer_in_flight c) (cn_stop c) (cn_retirement_queued c))
               ref (c_conns s)) s).

Definition handle_node_register (cmd : CoreCommand) (reg : NodeRegister) : Core unit :=
  match cmd_node_conn cmd with
  | None => mret tt
  | Some conn =>
      stopped ← gets (λ s, conn_stopped s conn);
      if (stopped : bool) then mret tt
      else
        let id := nreg_node_id reg in
        epoch ← gets (λ s, ds_epoch (c_durable s));
        existing ← gets (λ s, c_nodes s !! id);
        old ← gets (λ s, c_node_conns s !! id);
        let ack session session_epoch :=
          respond_node cmd kNodeRegisterAck
            (serialize_node_register_ack (mkNodeRegisterAck id session epoch session_epoch "")) in
        let register :=
          when (match old with Some ref => negb (Nat.eqb ref conn) | None => false end)
            (match old with Some ref => stop_conn ref | None => mret tt end) ;;
          session ← random_id;
          heartbeat ← now_millis;
          registered ← now_millis;
          let session_epoch :=
            match existing with Some r => u64 (nr_session_epoch r + 1) | None => 1 end in
          let rec := mkNodeRecord id session epoch session_epoch NH_Online (nreg_capacity reg)
                       heartbeat registered true in
          modify (λ s, set_nodes (<[id := rec]> (c_nodes s)) s) ;;
          name_conn conn id session ;;
          modify (λ s, set_node_conns (<[id := conn]> (c_node_conns s)) s) ;;
          ack session session_epoch in
        match existing with
        | Some r =>
            if nr_connected r && bool_decide (old = Some conn)
            then ack (nr_session r) (nr_session_epoch r)
            else register
        | None => register
        end
  end.

Definition handle_node_heartbeat (cmd : CoreCommand) (hb : NodeHeartbeat) : Core unit :=
  it ← gets (λ s, c_nodes s !! hb_node_id hb);
  epoch ← gets (λ s, ds_epoch (c_durable s));
  ack ← match it with
        | None => mret (mkNodeHeartbeatAck false "unknown node")
        | Some r =>
            if negb (bool_decide (nr_session r = hb_session_id hb))
               || negb (nr_session_epoch r =? hb_session_epoch hb)
            then mret (mkNodeHeartbeatAck false "stale session; re-register")
            else if negb (hb_coordinator_epoch hb =? epoch)
            then mret (mkNodeHeartbeatAck false "stale coordinator epoch; re-register")
            else
              now ← now_millis;
              update_node (hb_node_id hb) (λ r, with_health NH_Online (with_heartbeat now r)) ;;
              mret (mkNodeHeartbeatAck true "")
        end;
  respond_node cmd kNodeHeartbeatAck (serialize_node_heartbeat_ack ack).

(** [Kind::NodeShutdownMsg] *)
Definition handle_node_shutdown (cmd : CoreCommand) : Core unit :=
  it ← gets (λ s, c_node_conns s !! cmd_node_id cmd);
  match it with
  | Some ref =>
      if bool_decide (cmd_node_conn cmd = Some ref) then
        respond_node cmd kNodeShutdownAck (serialize_node_shutdown_ack (mkNodeShutdownAck true)) ;;
        stop_conn ref
      else mret tt
  | None => mret tt
  end.

Definition handle_node_disconnect (node_id : Id128) (conn : option ConnRef) : Core unit :=
  nc ← gets (λ s, c_node_conns s !! node_id);
  match nc with
  | None => mret tt
  | Some ref =>
      if negb (bool_decide (conn = Some ref)) then mret tt
      else
        modify (λ s, set_node_conns (delete node_id (c_node_conns s)) s) ;;
        it ← gets (λ s, c_nodes s !! node_id);
        match it with
        | None => mret tt
        | Some r =>
            if bool_decide (nr_health r = NH_Offline) then mret tt
            else
              timeout ← gets (λ s, cfg_heartbeat_timeout_ms (c_config s));
              now ← now_millis;
              update_node node_id
                (λ r, with_heartbeat (now - timeout + 100) (with_connected false r))
        end
  end.

(** ** Loss of a node *)

(** The tasks of [attempts_] with a live attempt on the node, once per attempt. *)
Definition on_lost_node (node_id : Id128) (a : ExecutionAttempt) : bool :=
  bool_decide (at_node_id a = node_id) && negb (at_committed a)
  && (bool_decide (at_state a = AS_Started) || bool_decide (at_state a = AS_Dispatched)).

Definition affected_tasks (node_id : Id128) (m : gmap Id128 (list ExecutionAttempt))
    : list Id128 :=
  flat_map (λ kv, map (λ _, kv.1) (List.filter (on_lost_node node_id) kv.2)) (in_order m).

(** The loop over the affected tasks. *)
Definition requeue_lost (tid : Id128) : Core unit :=
  task ← gets (λ s, find_task (c_graph s) tid);
  match task with
  | None => mret tt
  | Some t =>
      let can_retry := rp_retry_on_node_loss (ct_retry t) && (1 <? rp_max_attempts (ct_retry t)) in
      ignore (set_task_st tid TS_Lost) ;;
      (if can_retry then
         ignore (set_task_st tid TS_RetryPending) ;;
         now ← now_millis;
         modify (λ s, set_retry_ready_at
                        (<[tid := now + i64 (rp_retry_backoff_ms (ct_retry t))]>
                           (c_retry_ready_at s)) s)
       else ignore (set_task_st tid TS_Failed)) ;;
      release_task_reservation tid
  end.

Definition handle_node_loss (node_id : Id128) : Core unit :=
  it ← gets (λ s, c_nodes s !! node_id);
  match it with
  | None => mret tt
  | Some r =>
      if bool_decide (nr_health r = NH_Offline) then mret tt
      else
        update_node node_id (λ r, with_connected false (with_health NH_Offline r)) ;;
        when (negb (bool_decide (nr_id r = id_zero)))
          (conn ← gets (λ s, c_node_conns s !! node_id);
           match conn with Some ref => stop_conn ref | None => mret tt end) ;;
        modify (λ s, set_reservations (release_all_for_node (c_reservations s) node_id) s) ;;
        affected ← gets (λ s, affected_tasks node_id (c_attempts s));
        for_each affected requeue_lost ;;
        persist
  end.

(** ** Draining *)

Definition handle_node_drain (cmd : CoreCommand) (drain : NodeDrain) : Core unit :=
  it ← gets (λ s, c_nodes s !! nd_node_id drain);
  resp ← match it with
         | None => mret (mkNodeDrainResponse false false "node not found")
         | Some r =>
             if bool_decide (nr_health r = NH_Offline)
             then mret (mkNodeDrainResponse true false "node offline")
             else
               update_node (nd_node_id drain)
                 (with_health (if nd_drain drain then NH_Draining else NH_Online)) ;;
               mret (mkNodeDrainResponse true true "")
         end;
  respond_client cmd kNodeDrainResponse (serialize_node_drain_response resp).
