(* ===== verification/CoordAttempts.v ===== *)
(** * CoordAttempts: execution authority and readiness
    (coordinator.cpp: the attempt handlers and [on_task_succeeded_recursive])

    [propagate] is the recursion of [on_task_succeeded_recursive] with a fuel for
    its depth, and returns whether the fuel sufficed; [propagate_returns] (in
    CoordProps) shows that one more than the number of tasks always does. *)

From S2P Require Import Prelude Status Ids Float64 Task Lifecycle Dag Reservation Placement.
From S2P Require Import Wire Frame Serialize Messages Store Scheduler Outbound CoordState.

Local Open Scope Z_scope.

(** ** Assignments to an attempt *)

Definition mark_started (started_at : Z) (device : string) (a : ExecutionAttempt)
    : ExecutionAttempt :=
  mkExecutionAttempt (at_id a) (at_task_id a) (at_node_id a) (at_node_session a)
    (at_coordinator_epoch a) (at_reservation_id a) (at_executor a) (at_attempt_number a)
    (at_dispatched_at_ms a) started_at (at_completed_at_ms a) AS_Started (at_failure_kind a)
    (at_failure_reason a) (at_output_size a) (at_output_integrity a) (at_cpu_millis a)
    (at_bytes_transferred a) device (at_committed a).

Definition mark_ended (state : AttemptState) (kind : FailureKind) (reason : string)
    (completed_at : Z) (a : ExecutionAttempt) : ExecutionAttempt :=
  mkExecutionAttempt (at_id a) (at_task_id a) (at_node_id a) (at_node_session a)
    (at_coordinator_epoch a) (at_reservation_id a) (at_executor a) (at_attempt_number a)
    (at_dispatched_at_ms a) (at_started_at_ms a) completed_at state kind reason
    (at_output_size a) (at_output_integrity a) (at_cpu_millis a) (at_bytes_transferred a)
    (at_device a) (at_committed a).

Definition mark_committed (co : AttemptComplete) (completed_at : Z) (a : ExecutionAttempt)
    : ExecutionAttempt :=
  mkExecutionAttempt (at_id a) (at_task_id a) (at_node_id a) (at_node_session a)
    (at_coordinator_epoch a) (at_reservation_id a) (at_executor a) (at_attempt_number a)
    (at_dispatched_at_ms a) (at_started_at_ms a) completed_at AS_Succeeded (at_failure_kind a)
    (at_failure_reason a) (acm_output_size co) (acm_output_integrity co) (acm_duration_ms co)
    (acm_bytes_transferred co) (acm_device co) true.

(** ** Readiness propagation *)

(** The first [if] of the loop: all dependencies of a blocked task succeeded. *)
Definition make_ready (dep : Id128) : Core unit :=
  unblocked ← gets (λ s, bool_decide (task_state (c_graph s) dep = TS_Blocked)
                         && dependencies_satisfied (c_graph s) dep);
  when unblocked
    (ignore (set_task_st dep TS_Ready) ;;
     now ← now_millis;
     modify (λ s, set_ready_at (<[dep := now]> (c_ready_at s)) s)).

(** The condition of the second [if]. *)
Definition poisoned_now (s : Coordinator) (dep : Id128) : bool :=
  dependency_poisoned (c_graph s) dep
  && (bool_decide (task_state (c_graph s) dep = TS_Blocked)
      || bool_decide (task_state (c_graph s) dep = TS_Submitted)).

(** The loop over the dependents; the recursive call is a parameter. *)
Fixpoint propagate_loop (recurse : Id128 → Core bool) (deps : list Id128) : Core bool :=
  match deps with
  | [] => mret true
  | dep :: deps =>
      make_ready dep ;;
      poisoned ← gets (λ s, poisoned_now s dep);
      returned ← (if (poisoned : bool) then
                    ignore (set_task_st dep TS_Lost) ;;
                    ignore (set_task_st dep TS_Failed) ;;
                    recurse dep
                  else mret true);
      rest ← propagate_loop recurse deps;
      mret (returned && rest)
  end.

Fixpoint propagate (fuel : nat) (id : Id128) : Core bool :=
  match fuel with
  | O => mret false
  | S fuel =>
      deps ← gets (λ s, dependents (c_graph s) id);
      propagate_loop (propagate fuel) deps
  end.

Definition on_task_succeeded_recursive (id : Id128) : Core unit :=
  fuel ← gets (λ s, S (size (g_tasks (c_graph s))));
  ignore (propagate fuel id).

(** ** Handlers *)

(** The first attempt, in the order of [attempts_], with this identifier. *)
Definition handle_dispatch_ack (cmd : CoreCommand) (da : DispatchAck) : Core unit :=
  if dak_accepted da then mret tt
  else
    found ← find_active_attempt (dak_attempt_id da);
    match found with
    | None => mret tt
    | Some ((tid, _), _) =>
        release_task_reservation tid ;;
        ignore (set_task_st tid TS_Ready) ;;
        persist
    end.

Definition handle_attempt_started (cmd : CoreCommand) (st : AttemptStarted) : Core unit :=
  found ← find_active_attempt (ast_attempt_id st);
  epoch ← gets (λ s, ds_epoch (c_durable s));
  match found with
  | None => mret tt
  | Some (p, a) =>
      if negb (at_coordinator_epoch a =? epoch) then mret tt
      else
        update_attempt p (mark_started (ast_started_at_ms st) (ast_device st)) ;;
        ignore (set_task_st (at_task_id a) TS_Running) ;;
        persist
  end.

(** The chain of checks before a commit: the reason of a rejection. *)
Definition completion_error (s : Coordinator) (co : AttemptComplete) (a : ExecutionAttempt)
    : option string :=
  let st := task_state (c_graph s) (at_task_id a) in
  if negb (at_coordinator_epoch a =? ds_epoch (c_durable s)) then Some "stale coordinator epoch"
  else if negb (bool_decide (at_state a = AS_Started))
          && negb (bool_decide (at_state a = AS_Dispatched)) then Some "attempt not active"
  else if negb (bool_decide (at_reservation_id a = acm_reservation_id co)) then
    Some "reservation token mismatch"
  else if negb (bool_decide (st = TS_Running)) && negb (bool_decide (st = TS_Dispatching)) then
    Some "task lifecycle invalid for completion"
  else None.

Definition complete_ack (cmd : CoreCommand) (co : AttemptComplete) (accepted : bool)
    (error : string) : Core unit :=
  respond_node cmd kAttemptCompleteAck
    (serialize_attempt_ack (mkAttemptAck (acm_attempt_id co) accepted error)).

(** The branch "Treat as cancelled/preempted". *)
Definition preempt_attempt (p : AttemptPtr) (a : ExecutionAttempt) : Core unit :=
  now ← now_millis;
  update_attempt p (mark_ended AS_Cancelled FK_Cancelled "cancelled" now) ;;
  ignore (set_task_st (at_task_id a) TS_Preempted) ;;
  release_task_reservation (at_task_id a) ;;
  persist.

(** The part of [handle_attempt_complete] after "Commit." *)
Definition commit_attempt (cmd : CoreCommand) (co : AttemptComplete) (p : AttemptPtr)
    (a : ExecutionAttempt) : Core unit :=
  let tid := at_task_id a in
  now ← now_millis;
  update_attempt p (mark_committed co now) ;;
  ignore (set_task_st tid TS_Succeeded) ;;
  release_task_reservation tid ;;
  modify (λ s, set_cancel_requested (delete tid (c_cancel_requested s)) s) ;;
  task ← gets (λ s, find_task (c_graph s) tid);
  match task with
  | Some t =>
      modify (λ s, set_scheduler
        (record_history (c_scheduler s) (history_key (ct_task_class t) (at_executor a) (at_node_id a))
           (f64_div (acm_duration_ms co) f64_1000) true (acm_bytes_transferred co)) s)
  | None => mret tt
  end ;;
  complete_ack cmd co true "" ;;
  on_task_succeeded_recursive tid ;;
  persist.

Definition handle_attempt_complete (cmd : CoreCommand) (co : AttemptComplete) : Core unit :=
  found ← find_active_attempt (acm_attempt_id co);
  match found with
  | None => complete_ack cmd co false "stale_attempt"
  | Some (p, a) =>
      if at_committed a then complete_ack cmd co true ""
      else
        error ← gets (λ s, completion_error s co a);
        cancelled ← cancel_requested_at (at_task_id a);
        let error := if (cancelled : bool) then Some "task cancelled" else error in
        match error with
        | Some reason =>
            when (bool_decide (reason = "task cancelled")) (preempt_attempt p a) ;;
            complete_ack cmd co false reason
        | None => commit_attempt cmd co p a
        end
  end.

Definition failed_ack (cmd : CoreCommand) (fa : AttemptFailed) (accepted : bool)
    (error : string) : Core unit :=
  respond_node cmd kAttemptFailedAck
    (serialize_attempt_ack (mkAttemptAck (afl_attempt_id fa) accepted error)).

Definition can_retry (task : option ComputeTask) (attempt_number : Z) (kind : FailureKind) : bool :=
  match task with
  | None => false
  | Some t =>
      let r := ct_retry t in
      (1 <? rp_max_attempts r) && (u32 (attempt_number + 1) <? rp_max_attempts r)
      && (negb (bool_decide (kind = FK_NodeLost)) || rp_retry_on_node_loss r)
      && (negb (bool_decide (kind = FK_ExecutorFailed)) || rp_retry_on_executor_failure r)
  end.

Definition handle_attempt_failed (cmd : CoreCommand) (fa : AttemptFailed) : Core unit :=
  found ← find_active_attempt (afl_attempt_id fa);
  epoch ← gets (λ s, ds_epoch (c_durable s));
  match found with
  | None => failed_ack cmd fa false "stale_attempt"
  | Some (p, a) =>
      let tid := at_task_id a in
      if negb (at_coordinator_epoch a =? epoch) then mret tt
      else if bool_decide (at_state a = AS_Succeeded) || at_committed a then mret tt
      else
        let kind := enum_of (afl_failure_kind fa) in
        ended ← now_millis;
        update_attempt p (mark_ended AS_Failed kind (afl_failure_reason fa) ended) ;;
        task ← gets (λ s, find_task (c_graph s) tid);
        current ← state_of tid;
        release_task_reservation tid ;;
        when (negb (bool_decide (current = TS_Succeeded)))
          (if can_retry task (at_attempt_number a) kind then
             ignore (set_task_st tid TS_RetryPending) ;;
             now ← now_millis;
             modify (λ s, set_retry_ready_at
               (<[tid := now + i64 (match task with
                                    | Some t => rp_retry_backoff_ms (ct_retry t)
                                    | None => 0
                                    end)]> (c_retry_ready_at s)) s)
           else ignore (set_task_st tid TS_Failed)) ;;
        failed_ack cmd fa true "" ;;
        persist
  end.

Definition handle_attempt_cancelled (cmd : CoreCommand) (ca : AttemptCancelled) : Core unit :=
  found ← find_active_attempt (acd_attempt_id ca);
  epoch ← gets (λ s, ds_epoch (c_durable s));
  match found with
  | None => mret tt
  | Some (p, a) =>
      if negb (at_coordinator_epoch a =? epoch) then mret tt
      else
        now ← now_millis;
        update_attempt p (mark_ended AS_Cancelled FK_Cancelled (acd_reason ca) now) ;;
        release_task_reservation (at_task_id a) ;;
        ignore (set_task_st (at_task_id a) TS_Preempted) ;;
        persist
  end.

Definition handle_reservation_release (cmd : CoreCommand) (rel : ReservationRelease) : Core unit :=
  r ← gets (λ s, find_reservation (c_reservations s) (rel_reservation_id rel));
  epoch ← gets (λ s, ds_epoch (c_durable s));
  match r with
  | Some r => when (rv_coordinator_epoch r =? epoch) (release_reservation (rel_reservation_id rel))
  | None => mret tt
  end ;;
  respond_node cmd kReservationReleaseAck
    (serialize_reservation_release_ack
       (mkReservationReleaseAck (rel_reservation_id rel) true "")).
