(* ===== verification/CoordSched.v ===== *)
(** * CoordSched: scheduling of ready tasks and the periodic sweep
    (coordinator.cpp: [schedule_ready_tasks] and [sweep]) *)

From S2P Require Import Prelude Status Ids Float64 Task Lifecycle Dag Reservation Placement.
From S2P Require Import Wire Frame Serialize Messages Store Locality Scheduler Outbound CoordState CoordNodes.

Local Open Scope Z_scope.

(** ** The order of scheduling *)

(** What the comparison of [std::sort] looks at: priority, time the task became
    ready, identifier.  Identifiers differ, so the sorted order is unique. *)
Abbreviation ReadyKey := (Z * (Z * Id128))%type.

Definition ready_key (s : Coordinator) (id : Id128) : ReadyKey :=
  (enum_to (match find_task (c_graph s) id with Some t => ct_priority t | None => PR_Normal end),
   (default 0 (c_ready_at s !! id), id)).

Definition ready_tasks (s : Coordinator) : list Id128 :=
  let ready := List.filter (λ id, bool_decide (task_state (c_graph s) id = TS_Ready))
                 (task_ids (c_graph s)) in
  map (λ k, k.2.2) (merge_sort (key_le : relation ReadyKey) (map (ready_key s) ready)).

(** ** Dispatching one task *)

(** The attempt created for a reservation. *)
Definition new_attempt (id task_id node_id session : Id128) (epoch : Z) (reservation : Id128)
    (executor : ExecutorType) (number dispatched_at : Z) (device : string) : ExecutionAttempt :=
  mkExecutionAttempt id task_id node_id session epoch reservation executor number dispatched_at 0 0
    AS_Dispatched FK_None "" 0 "" f64_0 0 device false.

(** From "Create attempt." to the final [persist]. *)
Definition dispatch_task (task_id : Id128) (task : ComputeTask) (node : NodeRecord)
    (node_id : Id128) (executor : ExecutorType) (resv : Reservation) (device : string) : Core unit :=
  epoch ← gets (λ s, ds_epoch (c_durable s));
  attempt_id ← random_id;
  previous ← attempts_at task_id;
  now ← now_millis;
  let number := u32 (Z.of_nat (length previous)) in
  let a := new_attempt attempt_id task_id node_id (nr_session node) epoch (rv_id resv) executor
             number now device in
  push_task_attempt task_id a ;;
  modify (λ s, set_attempt_by_reservation (<[rv_id resv := a]> (c_attempt_by_reservation s)) s) ;;
  modify (λ s, set_dispatch_at (<[task_id := now]> (c_dispatch_at s)) s) ;;
  send_to_node node_id kDispatchAttempt
    (serialize_dispatch_attempt (mkDispatchAttempt task attempt_id (rv_id resv) epoch number)) ;;
  ignore (set_task_st task_id TS_Dispatching) ;;
  persist.

(** The two lifecycle steps before the attempt exists; the reservation goes back
    when one of them is refused. *)
Definition plan_and_dispatch (task_id : Id128) (task : ComputeTask) (node : NodeRecord)
    (node_id : Id128) (executor : ExecutorType) (resv : Reservation) (device : string) : Core unit :=
  t1 ← set_task_st task_id TS_Planning;
  if failed t1 then release_reservation (rv_id resv)
  else
    t2 ← set_task_st task_id TS_Reserved;
    if failed t2 then release_reservation (rv_id resv)
    else
      modify (λ s, set_task_reservation (<[task_id := rv_id resv]> (c_task_reservation s)) s) ;;
      dispatch_task task_id task node node_id executor resv device.

(** [last_placements_[id] = decision; placement_records_[id] = ..] *)
Definition record_placement (task_id : Id128) (decision : PlacementDecision) : Core unit :=
  modify (λ s, set_last_placements (<[task_id := decision]> (c_last_placements s)) s) ;;
  modify (λ s, set_placement_sequence (u64 (c_placement_sequence s + 1)) s) ;;
  modify (λ s, set_placement_records
    (<[task_id := mkStoredPlacement task_id (c_placement_sequence s) decision]>
       (c_placement_records s)) s).

Definition place_and_dispatch (task_id : Id128) (task : ComputeTask) : Core unit :=
  decision ← gets (λ s, place (c_scheduler s) task (c_nodes s) (c_reservations s) (c_locality s));
  record_placement task_id decision ;;
  match (if pd_feasible decision then pd_chosen_node decision else None) with
  | None => mret tt
  | Some node_id =>
      nit ← gets (λ s, c_nodes s !! node_id);
      match nit with
      | None => mret tt
      | Some node =>
          if negb (nr_connected node) then mret tt
          else
            let executor := default (ct_required_executor task) (pd_chosen_executor decision) in
            let slots := if bool_decide (executor = EX_Cuda) then ct_required_gpu_slots task
                         else ct_required_cpu_slots task in
            rr ← reserve node task_id executor slots (ct_scratch_memory_bytes task);
            match rr_reservation rr with
            | None => mret tt
            | Some resv =>
                plan_and_dispatch task_id task node node_id executor resv
                  (pd_chosen_device decision)
            end
      end
  end.

(** One iteration of the loop over the ready tasks.  [now_millis] is only read
    when there is a deadline. *)
Definition schedule_task (task_id : Id128) : Core unit :=
  stopping ← gets c_stopping;
  if (stopping : bool) then mret tt
  else
    task ← gets (λ s, find_task (c_graph s) task_id);
    match task with
    | None => mret tt
    | Some t =>
        st ← state_of task_id;
        if negb (bool_decide (st = TS_Ready)) then mret tt
        else
          expired ← (if ct_has_deadline t
                     then (now ← now_millis; mret (ct_deadline_epoch_ms t <=? now))
                     else mret false);
          if (expired : bool) then ignore (set_task_st task_id TS_Expired) ;; persist
          else place_and_dispatch task_id t
    end.

Definition schedule_ready_tasks : Core unit :=
  ready ← gets ready_tasks;
  for_each ready schedule_task.

(** ** The sweep *)

(** The nodes of the first loop, in node order; the two conditions exclude each
    other. *)
Definition timed_out (now timeout : Z) (r : NodeRecord) : bool :=
  (timeout <? now - nr_last_heartbeat_ms r)
  && (nr_connected r || negb (bool_decide (nr_health r = NH_Offline))).
Definition lost_nodes (s : Coordinator) (now : Z) : list Id128 :=
  (filter (λ kv, timed_out now (cfg_heartbeat_timeout_ms (c_config s)) kv.2 = true)
     (in_order (c_nodes s))).*1.

Definition stale_dispatches (s : Coordinator) (now : Z) : list Id128 :=
  (filter (λ kv, bool_decide (task_state (c_graph s) kv.1 = TS_Dispatching)
                 && (kDispatchTimeoutMs <? now - kv.2) = true)
     (in_order (c_dispatch_at s))).*1.

Definition requeue_dispatch (now : Z) (tid : Id128) : Core unit :=
  release_task_reservation tid ;;
  ignore (set_task_st tid TS_Ready) ;;
  modify (λ s, set_ready_at (<[tid := now]> (c_ready_at s)) s) ;;
  persist.

Definition retry_step (now : Z) (kv : Id128 * Z) : Core unit :=
  st ← state_of kv.1;
  when (bool_decide (st = TS_RetryPending) && (kv.2 <=? now))
    (ignore (set_task_st kv.1 TS_Ready) ;;
     modify (λ s, set_ready_at (<[kv.1 := now]> (c_ready_at s)) s) ;;
     persist).

Definition expires_in (st : TaskState) : bool :=
  match st with TS_Ready | TS_Blocked | TS_RetryPending => true | _ => false end.

Definition deadline_step (now : Z) (id : Id128) : Core unit :=
  t ← gets (λ s, find_task (c_graph s) id);
  match t with
  | None => mret tt
  | Some t =>
      if negb (ct_has_deadline t) then mret tt
      else
        st ← state_of id;
        when (expires_in st && (ct_deadline_epoch_ms t <=? now))
          (release_task_reservation id ;;
           ignore (set_task_st id TS_Expired) ;;
           persist)
  end.

Definition sweep : Core unit :=
  now ← now_millis;
  lost ← gets (λ s, lost_nodes s now);
  for_each lost handle_node_loss ;;
  stale ← gets (λ s, stale_dispatches s now);
  for_each stale (requeue_dispatch now) ;;
  retries ← gets (λ s, in_order (c_retry_ready_at s));
  for_each retries (retry_step now) ;;
  ids ← gets (λ s, task_ids (c_graph s));
  for_each ids (deadline_step now) ;;
  schedule_ready_tasks.
