(* ===== verification/CoordClient.v ===== *)
(** * CoordClient: the handlers of client requests (coordinator.cpp) *)

From S2P Require Import Prelude Status Ids Float64 Task Lifecycle Dag Reservation Placement.
From S2P Require Import Wire Frame Serialize Messages Store Locality Scheduler Outbound CoordState.

Local Open Scope Z_scope.

(** ** Submission *)

(** [StateLocation loc; ... state_locality_.upsert(loc)] *)
Definition location_of (dep : StateDependency) : StateLocation :=
  mkStateLocation (sd_state_id dep) (sd_generation dep) (sd_size_bytes dep)
    (sd_resident_nodes dep) (sd_locality_quality dep) (sd_transfer_estimate_seconds dep)
    (sd_recompute_estimate_seconds dep) "".

(** What follows a successful [graph_.add_task]. *)
Definition accept_task (submit : TaskSubmit) : Core unit :=
  let task := tsub_task submit in
  modify (λ s,
    if bool_decide (is_Some (ds_workloads (c_durable s) !! tsub_workload_id submit)) then s
    else set_durable (set_workload (c_durable s)
                        (mkWorkload (tsub_workload_id submit) (tsub_workload_name submit) ∅)) s) ;;
  modify (λ s, set_locality
    (foldl (λ m dep, upsert m (location_of dep)) (c_locality s) (ct_state_dependencies task)) s) ;;
  let initial := match ct_dependencies task with [] => TS_Ready | _ => TS_Blocked end in
  ignore (set_task_st (ct_id task) initial) ;;
  now ← now_millis;
  modify (λ s, set_ready_at (<[ct_id task := now]> (c_ready_at s)) s) ;;
  persist.

Definition missing_dependency (g : TaskGraph) (task : ComputeTask) : option Id128 :=
  snd <$> list_find (λ d, has_task g d = false) (ct_dependencies task).

(** The outcome of a submission: accepted, and the error reported. *)
Definition submit_task (submit : TaskSubmit) : Core (bool * string) :=
  let task := tsub_task submit in
  known ← gets (λ s, has_task (c_graph s) (ct_id task));
  stopping ← gets c_stopping;
  missing ← gets (λ s, missing_dependency (c_graph s) task);
  if (known : bool) then mret (true, "")
  else if (stopping : bool) then mret (false, "coordinator shutting down")
  else if id_is_zero (ct_id task) then mret (false, "task id must be nonzero")
  else
    match missing with
    | Some d => mret (false, "missing dependency: " +:+ to_hex d)
    | None =>
        r ← (λ s, let '(g, r) := add_task (c_graph s) task in (r, set_graph g s)) : Core (Result unit);
        match r with
        | Err e => mret (false, err_message e)
        | Ok _ => accept_task submit ;; mret (true, "")
        end
    end.

Definition handle_task_submit (cmd : CoreCommand) (submit : TaskSubmit) : Core unit :=
  resp ← submit_task submit;
  respond_client cmd kTaskSubmitResponse
    (serialize_task_submit_response (mkTaskSubmitResponse resp.1 (ct_id (tsub_task submit)) resp.2)).

(** ** Inspection *)

Definition handle_task_inspect (cmd : CoreCommand) (inspect : TaskInspect) : Core unit :=
  let id := tin_task_id inspect in
  task ← gets (λ s, find_task (c_graph s) id);
  resp ← match task with
         | None =>
             mret (mkTaskInspectResponse false id "" TC_Generic TS_Submitted "task not found" [] 0 "")
         | Some t =>
             st ← state_of id;
             attempts ← attempts_at id;
             mret (mkTaskInspectResponse true id (ct_name t) (ct_task_class t) st "" attempts
                     (u32 (Z.of_nat (length attempts))) (to_hex (ct_workload t)))
         end;
  respond_client cmd kTaskInspectResponse (serialize_task_inspect_response resp).

Definition list_entry (g : TaskGraph) (id : Id128) (t : ComputeTask) : TaskListEntry :=
  mkTaskListEntry id (ct_name t) (task_state g id) (ct_task_class t) (ct_priority t).

(** The tasks of the graph, in order, that satisfy a predicate. *)
Definition list_tasks (g : TaskGraph) (keep : Id128 → ComputeTask → bool) : list TaskListEntry :=
  flat_map (λ id, match find_task g id with
                  | Some t => if keep id t then [list_entry g id t] else []
                  | None => []
                  end) (task_ids g).

Definition handle_task_list (cmd : CoreCommand) (l : TaskList) : Core unit :=
  let wanted := if bool_decide (tl_filter_state l = "") then None
                else parse_task_state (tl_filter_state l) in
  tasks ← gets (λ s, list_tasks (c_graph s)
    (λ id _, match wanted with
             | Some st => bool_decide (task_state (c_graph s) id = st)
             | None => true
             end));
  respond_client cmd kTaskListResponse (serialize_task_list_response (mkTaskListResponse tasks)).

Definition handle_workload_inspect (cmd : CoreCommand) (wl : WorkloadInspect) : Core unit :=
  let id := wi_workload_id wl in
  it ← gets (λ s, ds_workloads (c_durable s) !! id);
  tasks ← gets (λ s, list_tasks (c_graph s) (λ _ t, bool_decide (ct_workload t = id)));
  let resp := match it with
              | None => mkWorkloadInspectResponse false id "" [] "workload not found"
              | Some w => mkWorkloadInspectResponse true id (wl_name w) tasks ""
              end in
  respond_client cmd kWorkloadInspectResponse (serialize_workload_inspect_response resp).

Definition node_status (reservations : Registry) (kv : Id128 * NodeRecord) : NodeStatusEntry :=
  let '(id, r) := kv in
  let cap := nr_capacity r in
  mkNodeStatusEntry id (nc_label cap) (nc_address cap) (nr_health r) (nr_connected r)
    (u32 (nc_cpu_worker_slots cap)) (used_slots reservations id EX_Cpu) (nr_session_epoch r)
    (map (λ x, xc_name x +:+ ":" +:+ to_string (xc_slots x)) (nc_executors cap)).

(** [for (..) if (p(x)) ++count;] with a [uint32_t] counter *)
Definition count32 {A} (p : A → bool) (l : list A) : Z :=
  foldl (λ n x, if p x then u32 (n + 1) else n) 0 l.

Definition fabric_status (s : Coordinator) : FabricStatusResponse :=
  let states := map (task_state (c_graph s)) (task_ids (c_graph s)) in
  mkFabricStatusResponse (ds_epoch (c_durable s)) (scheduler_policy_name (cfg_policy (c_config s)))
    (count32 nr_connected (in_order (c_nodes s)).*2)
    (u32 (Z.of_nat (graph_size (c_graph s))))
    (count32 (λ st, bool_decide (st = TS_Running)) states)
    (u32 (Z.of_nat (active_count (c_reservations s))))
    (count32 is_terminal states)
    (map (node_status (c_reservations s)) (in_order (c_nodes s))) "".

Definition handle_fabric_status (cmd : CoreCommand) (fs : FabricStatus) : Core unit :=
  resp ← gets fabric_status;
  respond_client cmd kFabricStatusResponse (serialize_fabric_status_response resp).

Definition handle_placement_query (cmd : CoreCommand) (pq : PlacementQuery) : Core unit :=
  decision ← gets (λ s, place (c_scheduler s) (pq_task pq) (c_nodes s) (c_reservations s) (c_locality s));
  respond_client cmd kPlacementResponse
    (serialize_placement_response (mkPlacementResponse true decision "")).

Definition handle_node_list (cmd : CoreCommand) : Core unit :=
  nodes ← gets (λ s, map (node_status (c_reservations s)) (in_order (c_nodes s)));
  respond_client cmd kNodeListResponse (serialize_node_list_response (mkNodeListResponse nodes)).

(** ** Cancellation *)

(** Cooperative cancellation of a running task. *)
Definition request_cancel (task_id : Id128) : Core unit :=
  modify (λ s, set_cancel_requested (<[task_id := true]> (c_cancel_requested s)) s) ;;
  attempts ← attempts_at task_id;
  match list_find (λ a, at_state a = AS_Started ∨ at_state a = AS_Dispatched) attempts with
  | Some (_, a) =>
      send_to_node (at_node_id a) kAttemptCancel
        (serialize_attempt_cancel (mkAttemptCancel (at_id a) "task cancelled by client"))
  | None => mret tt
  end.

Definition cancel_task (task_id : Id128) : Core TaskCancelResponse :=
  task ← gets (λ s, find_task (c_graph s) task_id);
  st ← state_of task_id;
  match task with
  | None => mret (mkTaskCancelResponse false false "task not found")
  | Some _ =>
      if is_terminal st then
        mret (mkTaskCancelResponse true false ("task already " +:+ task_state_name st))
      else if bool_decide (st = TS_Running) then
        request_cancel task_id ;;
        mret (mkTaskCancelResponse true true "cancel requested; will take effect cooperatively")
      else
        r ← set_task_st task_id TS_Cancelled;
        match r with
        | Err e => mret (mkTaskCancelResponse true false (err_message e))
        | Ok _ =>
            release_task_reservation task_id ;;
            modify (λ s, set_cancel_requested (delete task_id (c_cancel_requested s)) s) ;;
            persist ;;
            mret (mkTaskCancelResponse true true "")
        end
  end.

Definition handle_task_cancel (cmd : CoreCommand) (cancel : TaskCancel) : Core unit :=
  resp ← cancel_task (tcl_task_id cancel);
  respond_client cmd kTaskCancelResponse (serialize_task_cancel_response resp).

(** ** Shutdown *)

(** The loop over [node_conns_]. *)
Definition shutdown_node (kv : Id128 * ConnRef) : Core unit :=
  let '(id, ref) := kv in
  conn ← gets (λ s, c_conns s !! ref);
  rec ← gets (λ s, c_nodes s !! id);
  match conn, rec with
  | Some c, Some r =>
      when (negb (cn_stop c) && nr_connected r)
        (send_to_node id kNodeShutdown (serialize_node_shutdown (mkNodeShutdown id (cn_session c))))
  | _, _ => mret tt
  end.

Definition shutdown_command : CoreCommand := mkCoreCommand K_Shutdown None None 0 id_zero id_zero.

Definition handle_coordinator_shutdown (cmd : CoreCommand) : Core unit :=
  respond_client cmd kCoordinatorShutdownResponse
    (serialize_coordinator_shutdown_response (mkCoordinatorShutdownResponse true "")) ;;
  conns ← gets (λ s, in_order (c_node_conns s));
  for_each conns shutdown_node ;;
  modify (set_stopping true) ;;
  persist ;;
  modify (λ s, set_queue (shutdown_command :: c_queue s) s).
