(* ===== verification/Coordinator.v ===== *)
(** * Coordinator: start-up and recovery, the command loop, the reader threads
    (coordinator.cpp: [start], [process], [core_loop], [node_reader],
    [client_reader] and the accept loops)

    The core thread owns the state and takes commands from a queue the reader
    threads fill; writers drain the output queues.  [Event] lists what the threads
    do, one critical section or one command at a time, and [run] is an arbitrary
    interleaving of them. *)

From S2P Require Import Prelude Status Ids Digest Float64 Task Lifecycle Dag Reservation Placement.
From S2P Require Import Wire Frame Serialize Messages Store Locality Scheduler Outbound CoordState.
From S2P Require Import CoordNodes CoordAttempts CoordSched CoordClient.

Local Open Scope Z_scope.

(** ** Start-up and recovery *)

(** [Coordinator::Coordinator] *)
Definition new_coordinator (config : CoordinatorConfig) (world : World) (files : FileSystem)
    : Coordinator :=
  mkCoordinator config world 0 0 0 empty_durable files None empty_graph ∅ ∅
    (set_policy default_engine (cfg_policy config)) ∅ ∅ ∅ ∅ ∅ ∅ ∅ ∅ ∅ ∅ ∅ ∅ ∅ [] false false 0.

(** [Store::open(config_.store_dir, true)], which may write an initial store. *)
Definition open_store (dir_ok : bool) : Core (Result string) := λ s,
  let dir := cfg_store_dir (c_config s) in
  let '(files, r) := store_open (c_files s) dir true dir_ok (w_disk (c_world s) (c_saves s)) in
  (r, set_files files (set_saves (S (c_saves s)) s)).

Definition bump_epoch (d : DurableState) : DurableState :=
  set_epoch d (if ds_epoch d =? 0 then 1 else u64 (ds_epoch d + 1)).

(** The loop that rebuilds the graph, in task order. *)
Fixpoint rebuild_graph (tasks : list (Id128 * ComputeTask)) : Core (Result unit) :=
  match tasks with
  | [] => mret (Ok tt)
  | (_, t) :: tasks =>
      r ← (λ s, let '(g, r) := add_task (c_graph s) t in (r, set_graph g s)) : Core (Result unit);
      match r with
      | Err e => mret (err ECorruptionDetected (err_message e))
      | Ok _ => rebuild_graph tasks
      end
  end.

(** [if (graph_.has_task(id)) graph_.restore_state(id, state);] *)
Definition restore_task (kv : Id128 * TaskState) : Core unit := modify (λ s,
  if has_task (c_graph s) kv.1 then set_graph (restore_state (c_graph s) kv.1 kv.2) s else s).

(** The recovery loop: execution authority does not survive a restart. *)
Definition recover_task (kv : Id128 * ComputeTask) : Core unit :=
  let '(id, task) := kv in
  st ← state_of id;
  if negb (is_active st) then mret tt
  else
    r ← set_task_st id TS_Lost;
    if failed r then mret tt
    else if rp_retry_on_node_loss (ct_retry task) && (1 <? rp_max_attempts (ct_retry task)) then
      ignore (set_task_st id TS_RetryPending) ;;
      now ← now_millis;
      modify (λ s, set_retry_ready_at
        (<[id := now + i64 (rp_retry_backoff_ms (ct_retry task))]> (c_retry_ready_at s)) s)
    else ignore (set_task_st id TS_Failed).

(** From the durable state to the recovered coordinator. *)
Definition recover (d : DurableState) : Core (Result unit) :=
  modify (set_durable (bump_epoch d)) ;;
  built ← rebuild_graph (in_order (ds_tasks d));
  match built with
  | Err e => mret (Err e)
  | Ok _ =>
      for_each (in_order (ds_task_states d)) restore_task ;;
      modify (set_attempts (ds_attempts d)) ;;
      modify (set_last_placements
        (foldl (λ m sp, <[sp_task_id sp := sp_decision sp]> m) ∅ (ds_placements d))) ;;
      for_each (in_order (ds_tasks d)) recover_task ;;
      mret (Ok tt)
  end.

(** [Coordinator::start]; [dir_ok] is whether the store directory exists
    afterwards, [bind] the outcome of binding the two listeners. *)
Definition start (dir_ok : bool) (bind : Result unit) : Core (Result unit) :=
  opened ← open_store dir_ok;
  match opened with
  | Err e => mret (Err e)
  | Ok path =>
      modify (set_store (Some path)) ;;
      loaded ← gets (λ s, store_load (c_files s) path);
      match loaded with
      | Err e => mret (Err e)
      | Ok d =>
          recovered ← recover d;
          match recovered, bind with
          | Err e, _ => mret (Err e)
          | Ok _, Err e => mret (Err e)
          | Ok _, Ok _ =>
              persist ;;
              modify (set_core_running true) ;;
              mret (Ok tt)
          end
      end
  end.

(** ** Commands *)

Definition handle_client_connected (cmd : CoreCommand) : Core unit :=
  match cmd_client_conn cmd with
  | None => mret tt
  | Some ref =>
      stopped ← gets (λ s, conn_stopped s ref);
      if (stopped : bool) then mret tt
      else
        existing ← gets (λ s, c_client_conns s !! cmd_client_id cmd);
        match existing with
        | Some old => when (negb (Nat.eqb old ref)) (stop_conn old)
        | None => mret tt
        end ;;
        modify (λ s, set_client_conns (<[cmd_client_id cmd := ref]> (c_client_conns s)) s)
  end.

Definition handle_client_disconnected (cmd : CoreCommand) : Core unit :=
  it ← gets (λ s, c_client_conns s !! cmd_client_id cmd);
  when (bool_decide (is_Some it) && bool_decide (it = cmd_client_conn cmd))
    (modify (λ s, set_client_conns (delete (cmd_client_id cmd) (c_client_conns s)) s)).

Definition process (cmd : CoreCommand) : Core unit :=
  match cmd_kind cmd with
  | K_NodeRegister reg => handle_node_register cmd reg
  | K_NodeHeartbeat hb => handle_node_heartbeat cmd hb
  | K_NodeShutdownMsg => handle_node_shutdown cmd
  | K_NodeDisconnected => handle_node_disconnect (cmd_node_id cmd) (cmd_node_conn cmd)
  | K_DispatchAck da => handle_dispatch_ack cmd da
  | K_AttemptStarted st => handle_attempt_started cmd st
  | K_AttemptProgress _ => mret tt
  | K_AttemptComplete co => handle_attempt_complete cmd co
  | K_AttemptFailed fa => handle_attempt_failed cmd fa
  | K_AttemptCancelled ca => handle_attempt_cancelled cmd ca
  | K_ReservationRelease rel => handle_reservation_release cmd rel
  | K_ClientConnected => handle_client_connected cmd
  | K_ClientTaskSubmit submit => handle_task_submit cmd submit
  | K_ClientTaskInspect inspect => handle_task_inspect cmd inspect
  | K_ClientTaskList l => handle_task_list cmd l
  | K_ClientTaskCancel cancel => handle_task_cancel cmd cancel
  | K_ClientWorkloadInspect wl => handle_workload_inspect cmd wl
  | K_ClientFabricStatus fs => handle_fabric_status cmd fs
  | K_ClientPlacementQuery pq => handle_placement_query cmd pq
  | K_ClientNodeList => handle_node_list cmd
  | K_ClientNodeDrain drain => handle_node_drain cmd drain
  | K_ClientCoordinatorShutdown => handle_coordinator_shutdown cmd
  | K_ClientDisconnected => handle_client_disconnected cmd
  | K_Sweep | K_Shutdown => mret tt
  end.

(** One iteration of [core_loop] with a command. *)
Definition core_step : Core unit :=
  queue ← gets c_queue;
  match queue with
  | [] => mret tt
  | cmd :: rest =>
      modify (set_queue rest) ;;
      match cmd_kind cmd with
      | K_Shutdown => modify (set_core_running false)
      | _ => process cmd
      end
  end.

(** ** Reader threads *)

(** A frame's command, [None] when it is not one (the kind stays [Sweep]). *)
Definition parsed {A} (p : Parse A) (frame : Frame) (k : A → CommandKind) : option CommandKind :=
  match (p (reader_of (fr_payload frame))).1 with
  | Ok m => Some (k m)
  | Err _ => None
  end.

Definition node_command (frame : Frame) : option CommandKind :=
  let t := fh_message_type (fr_header frame) in
  if t =? kNodeRegister then parsed deserialize_node_register frame K_NodeRegister
  else if t =? kNodeHeartbeat then parsed deserialize_node_heartbeat frame K_NodeHeartbeat
  else if t =? kNodeShutdown then parsed deserialize_node_shutdown frame (λ _, K_NodeShutdownMsg)
  else if t =? kAttemptStarted then parsed deserialize_attempt_started frame K_AttemptStarted
  else if t =? kAttemptProgress then parsed deserialize_attempt_progress frame K_AttemptProgress
  else if t =? kAttemptComplete then parsed deserialize_attempt_complete frame K_AttemptComplete
  else if t =? kAttemptFailed then parsed deserialize_attempt_failed frame K_AttemptFailed
  else if t =? kAttemptCancelled then parsed deserialize_attempt_cancelled frame K_AttemptCancelled
  else if t =? kReservationRelease then
    parsed deserialize_reservation_release frame K_ReservationRelease
  else None.

Definition client_command (frame : Frame) : option CommandKind :=
  let t := fh_message_type (fr_header frame) in
  if t =? kTaskSubmit then parsed deserialize_task_submit frame K_ClientTaskSubmit
  else if t =? kTaskInspect then parsed deserialize_task_inspect frame K_ClientTaskInspect
  else if t =? kTaskList then parsed deserialize_task_list frame K_ClientTaskList
  else if t =? kTaskCancel then parsed deserialize_task_cancel frame K_ClientTaskCancel
  else if t =? kWorkloadInspect then
    parsed deserialize_workload_inspect frame K_ClientWorkloadInspect
  else if t =? kFabricStatus then parsed deserialize_fabric_status frame K_ClientFabricStatus
  else if t =? kPlacementQuery then parsed deserialize_placement_query frame K_ClientPlacementQuery
  else if t =? kNodeList then parsed deserialize_node_list frame (λ _, K_ClientNodeList)
  else if t =? kNodeDrain then parsed deserialize_node_drain frame K_ClientNodeDrain
  else if t =? kCoordinatorShutdown then
    parsed deserialize_coordinator_shutdown frame (λ _, K_ClientCoordinatorShutdown)
  else None.

(** The handshake of a peer with the given role. *)
Definition hello_ok (role : string) (frame : Frame) : bool :=
  (fh_message_type (fr_header frame) =? kHello)
  && match (deserialize_hello (reader_of (fr_payload frame))).1 with
     | Ok h => bool_decide (hl_role h = role) && (hl_protocol_version h =? kProtocolVersion)
     | Err _ => false
     end.

(** The local variables of [node_reader]. *)
Record NodeReader := mkNodeReader { nrd_handshake_done : bool; nrd_registered : Id128 }.

Inductive ReaderAction :=
| R_Continue
| R_Break
| R_Push (cmd : CoreCommand).

(** The [node_id] of a shutdown message is the command's. *)
Definition shutdown_target (frame : Frame) : Id128 :=
  match (deserialize_node_shutdown (reader_of (fr_payload frame))).1 with
  | Ok m => if fh_message_type (fr_header frame) =? kNodeShutdown then nsd_node_id m else id_zero
  | Err _ => id_zero
  end.

(** One iteration of the loop of [node_reader], on the result of [recv_frame]. *)
Definition node_reader_step (conn : ConnRef) (r : NodeReader) (received : Result Frame)
    : NodeReader * ReaderAction :=
  match received with
  | Err e =>
      if bool_decide (err_code e = ETimeout) && nrd_handshake_done r
      then (r, R_Continue) else (r, R_Break)
  | Ok frame =>
      if negb (nrd_handshake_done r) then
        if hello_ok "node" frame then (mkNodeReader true (nrd_registered r), R_Continue)
        else (r, R_Break)
      else
        match node_command frame with
        | None => (r, R_Continue)
        | Some kind =>
            let r' := match kind with
                      | K_NodeRegister reg => mkNodeReader true (nreg_node_id reg)
                      | _ => r
                      end in
            (r', R_Push (mkCoreCommand kind (Some conn) None
                           (fh_request_id (fr_header frame)) (shutdown_target frame) id_zero))
        end
  end.

(** One iteration of the loop of [client_reader]. *)
Definition client_reader_step (conn : ConnRef) (received : Result Frame) : ReaderAction :=
  match received with
  | Err e => if bool_decide (err_code e = ETimeout) then R_Continue else R_Break
  | Ok frame =>
      match client_command frame with
      | None => R_Continue
      | Some kind =>
          R_Push (mkCoreCommand kind None (Some conn) (fh_request_id (fr_header frame))
                    id_zero id_zero)
      end
  end.

(** Pushing a reader's command: the wait for room has a time limit, after which
    the reader gives up. *)
Definition can_push (s : Coordinator) : bool :=
  negb (c_stopping s) && (length (c_queue s) <? kMaxQueue)%nat.
Definition push_command (cmd : CoreCommand) : Core unit := modify (λ s,
  if can_push s then set_queue (c_queue s ++ [cmd]) s else s).

(** What follows the loops: the connection stops and its end is reported. *)
Definition reader_exit (conn : ConnRef) (cmd : CoreCommand) (report : bool) : Core unit :=
  stop_conn conn ;;
  stopping ← gets c_stopping;
  when (report && negb stopping) (modify (λ s, set_queue (c_queue s ++ [cmd]) s)).

Definition node_exit (conn : ConnRef) (r : NodeReader) : Core unit :=
  reader_exit conn
    (mkCoreCommand K_NodeDisconnected (Some conn) None 0 (nrd_registered r) id_zero)
    (negb (bool_decide (nrd_registered r = id_zero))).
Definition client_exit (conn : ConnRef) : Core unit :=
  id ← gets (λ s, match c_conns s !! conn with Some c => cn_id c | None => id_zero end);
  reader_exit conn (mkCoreCommand K_ClientDisconnected None (Some conn) 0 id_zero id) true.

(** ** Interleavings *)

Inductive Event :=
| E_Accept (ref : ConnRef) (id : Id128)            (* a connection is accepted *)
| E_NodeFrame (ref : ConnRef) (r : NodeReader) (received : Result Frame)
| E_ClientHello (ref : ConnRef) (id : Id128) (frame : Frame)
| E_ClientFrame (ref : ConnRef) (received : Result Frame)
| E_Command                                        (* the core takes a command *)
| E_Sweep                                          (* the core sweeps *)
| E_Take (ref : ConnRef)                           (* a writer takes a frame *)
| E_Sent (ref : ConnRef) (ok : bool).              (* a writer's send returns *)

Definition reader_action (ref : ConnRef) (a : ReaderAction) (leave : Core unit) : Core unit :=
  match a with
  | R_Continue => mret tt
  | R_Break => leave
  | R_Push cmd =>
      room ← gets can_push;
      if (room : bool) then push_command cmd else leave
  end.

Definition event (e : Event) : Core unit :=
  match e with
  | E_Accept ref id =>
      modify (λ s, match c_conns s !! ref with
                   | Some _ => s
                   | None => set_conns (<[ref := new_conn id]> (c_conns s)) s
                   end)
  | E_NodeFrame ref r received =>
      let '(r', a) := node_reader_step ref r received in
      reader_action ref a (node_exit ref r')
  | E_ClientHello ref id frame =>
      stopping ← gets c_stopping;
      if hello_ok "client" frame && negb stopping then
        modify (λ s, set_queue (c_queue s ++
          [mkCoreCommand K_ClientConnected None (Some ref) 0 id_zero id]) s)
      else stop_conn ref
  | E_ClientFrame ref received =>
      reader_action ref (client_reader_step ref received) (client_exit ref)
  | E_Command => running ← gets c_core_running; when running core_step
  | E_Sweep => running ← gets c_core_running; when running sweep
  | E_Take ref =>
      modify (λ s, match c ← c_conns s !! ref; take_frame c with
                   | Some (_, c') => set_conns (<[ref := c']> (c_conns s)) s
                   | None => s
                   end)
  | E_Sent ref ok => modify (λ s, set_conns (alter (λ c, frame_sent c ok) ref (c_conns s)) s)
  end.

Definition run (events : list Event) (s : Coordinator) : Coordinator :=
  foldl (λ s e, exec (event e) s) s events.
