(* ===== verification/CoordInv.v ===== *)
(** * CoordInv: the coordinator's invariant and what persistence records

    A small program logic for [Core] ([hoare], [preserves] and the tactic
    [solve_core]), the invariant [core_ok] that every handler keeps, and
    [mirror]: between two commands the durable state is the graph's. *)

From S2P Require Import Prelude Status Ids Digest Float64 Task Lifecycle Dag Reservation Placement.
From S2P Require Import Wire Frame Serialize Messages Store Locality Scheduler Outbound CoordState.
From S2P Require Import CoordNodes CoordAttempts CoordSched CoordClient Coordinator.

Local Open Scope Z_scope.

(** ** Program logic *)

Definition hoare {A} (P : Coordinator → Prop) (m : Core A) (Q : A → Coordinator → Prop) : Prop :=
  ∀ s, P s → Q (m s).1 (m s).2.
Definition preserves {A} (I : Coordinator → Prop) (m : Core A) : Prop := hoare I m (λ _, I).

Section logic.
Context (I : Coordinator → Prop).

Lemma hoare_bind {A B} P (m : Core A) (k : A → Core B) R Q :
  hoare P m R → (∀ a, hoare (R a) (k a) Q) → hoare P (m ≫= k) Q.
Proof.
  intros Hm Hk s Hs. specialize (Hm s Hs). unfold mbind, core_bind.
  destruct (m s) as [a s']. by apply Hk.
Qed.
Lemma hoare_conseq {A} (P P' : Coordinator → Prop) (m : Core A) Q Q' :
  (∀ s, P' s → P s) → (∀ a s, Q a s → Q' a s) → hoare P m Q → hoare P' m Q'.
Proof. intros HP HQ Hm s Hs. apply HQ, Hm, HP, Hs. Qed.

Lemma preserves_ret {A} (a : A) : preserves I (mret a).
Proof. by intros s Hs. Qed.
Lemma preserves_gets {A} (f : Coordinator → A) : preserves I (gets f).
Proof. by intros s Hs. Qed.
Lemma preserves_bind {A B} (m : Core A) (k : A → Core B) :
  preserves I m → (∀ a, preserves I (k a)) → preserves I (m ≫= k).
Proof. apply hoare_bind. Qed.
Lemma preserves_modify f : (∀ s, I s → I (f s)) → preserves I (modify f).
Proof. intros Hf s Hs. by apply Hf. Qed.
Lemma preserves_when b m : preserves I m → preserves I (when b m).
Proof. intros Hm. destruct b; [done|apply preserves_ret]. Qed.
Lemma preserves_ignore {A} (m : Core A) : preserves I m → preserves I (ignore m).
Proof. intros Hm. apply preserves_bind; [done|intros; apply preserves_ret]. Qed.
Lemma preserves_for_each {A} (l : list A) body :
  (∀ x, x ∈ l → preserves I (body x)) → preserves I (for_each l body).
Proof.
  induction l as [|x l IH]; intros Hb; [apply preserves_ret|].
  apply preserves_bind; [apply Hb, elem_of_cons; by left|intros _].
  apply IH. intros y Hy. apply Hb, elem_of_cons. by right.
Qed.

(** A value read from the state is known as long as the invariant fixes it. *)
Lemma preserves_gets_val {A B} (f : Coordinator → A) (v : A) (k : A → Core B) :
  (∀ s, I s → f s = v) → preserves I (k v) → preserves I (gets f ≫= k).
Proof. intros Hv Hk s Hs. unfold mbind, core_bind, gets. rewrite (Hv s Hs). by apply Hk. Qed.
End logic.

Create HintDb core.
#[export] Hint Resolve preserves_ret preserves_gets preserves_when : core.

(** [solve_core]: descend through a program, closing the primitives by hints. *)
Ltac core_step :=
  match goal with
  | |- preserves _ (mbind _ _) => apply preserves_bind; [|intros ?]
  | |- preserves _ (when _ _) => apply preserves_when
  | |- preserves _ (ignore _) => apply preserves_ignore
  | |- preserves _ (for_each _ _) => apply preserves_for_each; intros ? _
  | |- preserves _ (match ?x with _ => _ end) => destruct x
  | |- preserves _ (let '(_, _) := ?x in _) => destruct x
  end.
Ltac solve_core := repeat first [core_step | solve [eauto with core]].

(** ** What the graph records *)

Lemma task_ids_elem g id : id ∈ task_ids g ↔ is_Some (g_tasks g !! id).
Proof.
  unfold task_ids. rewrite list_elem_of_fmap. split.
  - intros ([k t] & -> & Hk). apply elem_of_in_order in Hk. eauto.
  - intros [t Ht]. exists (id, t). split; [done|]. by apply elem_of_in_order.
Qed.

(** Writing a value per key of a list. *)
Lemma foldl_insert_lookup {V} (f : Id128 → V) (ids : list Id128) (m : gmap Id128 V) k :
  foldl (λ out id, <[id := f id]> out) m ids !! k =
  if decide (k ∈ ids) then Some (f k) else m !! k.
Proof.
  revert m. induction ids as [|id ids IH]; intros m; cbn [foldl].
  - rewrite decide_False by (by intros ?%elem_of_nil). done.
  - rewrite IH. destruct (decide (k ∈ ids)) as [Hin|Hin].
    + rewrite decide_True by (apply elem_of_cons; by right). done.
    + destruct (decide (k = id)) as [->|Hne].
      * rewrite decide_True by (apply elem_of_cons; by left). by rewrite lookup_insert_eq.
      * rewrite decide_False by (by intros [?|?]%elem_of_cons). by rewrite lookup_insert_ne.
Qed.

Lemma graph_to_tasks_eq g : graph_to_tasks g = g_tasks g.
Proof.
  transitivity (foldl (λ acc kv, <[kv.1 := kv.2]> acc) (∅ : gmap Id128 ComputeTask)
                  (in_order (g_tasks g))); [|apply foldl_insert_in_order].
  unfold graph_to_tasks, task_ids, find_task.
  assert (Hl : ∀ kv, kv ∈ in_order (g_tasks g) → g_tasks g !! kv.1 = Some kv.2).
  { intros [k t] Hk. by apply elem_of_in_order. }
  revert Hl. generalize (∅ : gmap Id128 ComputeTask). induction (in_order (g_tasks g)) as [|kv l IH];
    intros m Hl; cbn [fmap list_fmap foldl]; [done|].
  rewrite (Hl kv) by (apply elem_of_cons; by left). apply IH.
  intros x Hx. apply Hl, elem_of_cons. by right.
Qed.

Lemma graph_states_eq g : graph_ok g → graph_states g = g_states g.
Proof.
  intros Hg. apply map_eq. intros k. unfold graph_states.
  rewrite (foldl_insert_lookup (task_state g)), lookup_empty. unfold task_state.
  pose proof (ok_states g Hg) as Hdom.
  destruct (decide (k ∈ task_ids g)) as [Hk|Hk]; rewrite task_ids_elem in Hk.
  - assert (is_Some (g_states g !! k)) as [st ->]; [|done].
    apply elem_of_dom. rewrite Hdom. by apply elem_of_dom.
  - symmetry. apply not_elem_of_dom. rewrite Hdom. by rewrite elem_of_dom.
Qed.

(** The committed attempts of each task, in order; no entry for a task without. *)
Definition committed_of (l : list ExecutionAttempt) : list ExecutionAttempt :=
  filter (λ a, at_committed a = true) l.

Lemma committed_fold (k : Id128) l (out : gmap Id128 (list ExecutionAttempt)) :
  foldl (λ out a, if at_committed a then <[k := default [] (out !! k) ++ [a]]> out else out)
    out l =
  match committed_of l with
  | [] => out
  | l' => <[k := default [] (out !! k) ++ l']> out
  end.
Proof.
  revert out. unfold committed_of. induction l as [|a l IH]; intros out; cbn [foldl]; [done|].
  rewrite IH, filter_cons. destruct (at_committed a) eqn:Ha.
  - rewrite decide_True by done. rewrite lookup_insert_eq. cbn [default].
    destruct (filter _ l) as [|b l'].
    + done.
    + rewrite insert_insert_eq. cbn [id]. by rewrite <-app_assoc.
  - by rewrite decide_False by done.
Qed.

Lemma committed_lookup m k :
  committed_attempts m !! k =
  match committed_of (default [] (m !! k)) with [] => None | l => Some l end.
Proof.
  unfold committed_attempts.
  assert (Hgen : ∀ ls (out : gmap Id128 (list ExecutionAttempt)), NoDup ls.*1 →
    (∀ kv, kv ∈ ls → out !! kv.1 = None) →
    foldl (λ out kv, foldl (λ out a, if at_committed a
       then <[kv.1 := default [] (out !! kv.1) ++ [a]]> out else out) out kv.2) out ls !! k =
    match (list_to_map ls : gmap Id128 (list ExecutionAttempt)) !! k with
    | Some l => match committed_of l with [] => out !! k | l => Some l end
    | None => out !! k
    end).
  { induction ls as [|[j l] ls IH]; intros out Hnd Hout; cbn [foldl]; [by rewrite list_to_map_nil, lookup_empty|].
    apply NoDup_cons in Hnd as [Hj Hnd]. cbn [fst snd] in *.
    pose proof (Hout (j, l)) as Hoj. cbn [fst] in Hoj. rewrite committed_fold.
    rewrite Hoj by (apply elem_of_cons; by left). cbn [default app].
    assert (Hne : ∀ kv, kv ∈ ls → kv.1 ≠ j).
    { intros kv Hkv E. apply Hj. rewrite <-E. by apply list_elem_of_fmap_2. }
    rewrite IH; [|done|].
    - rewrite list_to_map_cons. destruct (decide (k = j)) as [->|Hkj].
      + rewrite lookup_insert_eq. rewrite not_elem_of_list_to_map_1 by done.
        destruct (committed_of l); [done|by rewrite lookup_insert_eq].
      + rewrite (lookup_insert_ne _ j) by done. destruct (committed_of l);
          [done|by rewrite lookup_insert_ne].
    - intros kv Hkv. destruct (committed_of l); [|rewrite lookup_insert_ne by (symmetry; by apply Hne)];
        apply Hout, elem_of_cons; by right. }
  rewrite Hgen; [|apply NoDup_in_order_keys|intros; apply lookup_empty].
  rewrite list_to_map_in_order, lookup_empty. by destruct (m !! k).
Qed.

(** ** The invariant *)

(** Every dependency of a task is a task of the graph. *)
Definition closed (g : TaskGraph) : Prop :=
  ∀ x t d, g_tasks g !! x = Some t → d ∈ ct_dependencies t → is_Some (g_tasks g !! d).

(** An attempt of task [tid]; one that is not committed has authority of epoch [e]. *)
Definition attempt_ok (e : Z) (tid : Id128) (a : ExecutionAttempt) : Prop :=
  at_task_id a = tid ∧ (at_committed a = false → at_coordinator_epoch a = e).

Record core_ok (e : Z) (s : Coordinator) : Prop := {
  ck_epoch : ds_epoch (c_durable s) = e;
  ck_graph : graph_ok (c_graph s);
  ck_reverse : reverse_complete (c_graph s);
  ck_closed : closed (c_graph s);
  ck_nodes : nodes_wf (c_nodes s);
  ck_attempts : map_Forall (λ tid l, Forall (attempt_ok e tid) l) (c_attempts s);
  ck_reservations :
    map_Forall (λ rid r, rv_id r = rid ∧ rv_coordinator_epoch r = e) (c_reservations s);
  ck_placements : map_Forall (λ tid p, sp_task_id p = tid) (c_placement_records s);
  ck_conns : map_Forall (λ _ c, conn_ok c) (c_conns s)
}.

(** A program that changes none of the members the invariant is about. *)
Ltac core_frame := let H := fresh in intros ? H; destruct H; split; unfold snd, modify; core_cbn; assumption.
#[export] Hint Extern 5 (preserves (core_ok _) (modify _)) =>
  solve [apply preserves_modify; core_frame] : core.

(** [core_update]: a program that changes one member; the goal left is about it. *)
Ltac core_update := destruct 1; split; cbn [snd]; core_cbn; try assumption.

Section primitives.
Context (e : Z).
Abbreviation OK := (core_ok e).

Lemma now_millis_ok : preserves OK now_millis.
Proof. unfold now_millis. core_frame. Qed.
Lemma random_id_ok : preserves OK random_id.
Proof. unfold random_id. core_frame. Qed.

Lemma closed_tasks g h : g_tasks h = g_tasks g → closed g → closed h.
Proof. intros E Hc x t d. rewrite E. apply Hc. Qed.

Lemma set_task_st_ok id st : preserves OK (set_task_st id st).
Proof.
  intros s Hs. unfold set_task_st. destruct (set_state_cases (c_graph s) id st)
    as [E|(cur & Hcur & _ & E)]; destruct (set_state _ _ _) as [g r].
  - cbn [fst] in E. subst g. destruct Hs; split; cbn [snd]; core_cbn; assumption.
  - injection E as -> ->. destruct Hs; split; cbn [snd]; core_cbn; try assumption.
    apply update_states_ok; [by eexists|assumption].
Qed.

Lemma state_of_ok id : preserves OK (state_of id).
Proof. apply preserves_gets. Qed.

Lemma reserve_ok node tid ex slots scratch : preserves OK (reserve node tid ex slots scratch).
Proof.
  intros s Hs. unfold reserve.
  pose proof (try_reserve_cases (c_reservations s) node (ds_epoch (c_durable s)) tid ex slots
    scratch (w_random (c_world s) (c_draws s)) (w_clock (c_world s) (c_ticks s))) as Hc.
  destruct (try_reserve _ _ _ _ _ _ _ _ _) as [reg rr]. cbn [fst snd] in *.
  assert (Hreg : map_Forall (λ rid r, rv_id r = rid ∧ rv_coordinator_epoch r = e) reg).
  { destruct Hc as [[-> _]|(cap & E & _)]; [apply Hs|]. injection E as -> _.
    apply map_Forall_insert_2; [split; [done|apply Hs]|apply Hs]. }
  destruct (rr_reservation rr); destruct Hs; split; core_cbn; assumption.
Qed.

Lemma release_where_forall (P : Id128 → Reservation → Prop) reg id :
  (∀ k r, P k r → P k (mark_released r)) → map_Forall P reg → map_Forall P (release reg id).1.
Proof.
  intros HP Hreg. unfold release. destruct (reg !! id) as [r|] eqn:Hr; [|done].
  destruct (rv_released r); [done|]. cbn [fst]. apply map_Forall_insert_2; [|done].
  apply HP, (Hreg id r Hr).
Qed.

Lemma release_reservation_ok id : preserves OK (release_reservation id).
Proof.
  apply preserves_modify. intros s. core_update. by apply release_where_forall.
Qed.

Lemma release_task_reservation_ok tid : preserves OK (release_task_reservation tid).
Proof.
  unfold release_task_reservation. solve_core. apply release_reservation_ok.
Qed.

(** Rewriting an attempt in place. *)
Definition keeps_authority (f : ExecutionAttempt → ExecutionAttempt) : Prop :=
  ∀ a, at_task_id (f a) = at_task_id a ∧ at_coordinator_epoch (f a) = at_coordinator_epoch a ∧
       (at_committed (f a) = false → at_committed a = false).

Lemma update_attempt_ok p f : keeps_authority f → preserves OK (update_attempt p f).
Proof.
  intros Hf. apply preserves_modify. intros s. core_update.
  intros tid l Hl. rewrite lookup_alter_Some in Hl.
  destruct Hl as [(<- & l' & Hl' & ->)|[_ Hl]]; [|by apply (ck_attempts0 tid l)].
  apply Forall_alter; [by apply (ck_attempts0 p.1 l')|].
  intros a _ [Ht He]. destruct (Hf a) as (E1 & E2 & E3). split; [by rewrite E1|].
  intros Hc. rewrite E2. by apply He, E3.
Qed.

Lemma attempts_at_ok tid : preserves OK (attempts_at tid).
Proof.
  intros s Hs. unfold attempts_at. destruct (c_attempts s !! tid); [done|].
  revert Hs. core_update. apply map_Forall_insert_2; [by constructor|done].
Qed.

Lemma push_task_attempt_ok tid a : attempt_ok e tid a → preserves OK (push_task_attempt tid a).
Proof.
  intros Ha. apply preserves_modify. intros s. core_update.
  apply map_Forall_insert_2; [|done]. apply Forall_app. split; [|by constructor].
  destruct (c_attempts s !! tid) as [l|] eqn:Hl; [by apply (ck_attempts0 tid l)|constructor].
Qed.

Lemma cancel_requested_at_ok tid : preserves OK (cancel_requested_at tid).
Proof. intros s Hs. unfold cancel_requested_at. destruct (_ !! _); [done|]. by revert Hs; core_update. Qed.

Lemma save_durable_ok : preserves OK save_durable.
Proof.
  intros s Hs. unfold save_durable. destruct (c_store s) as [path|]; [|done].
  destruct (store_save _ _ _ _). revert Hs. core_update.
Qed.

Lemma persist_ok : preserves OK persist.
Proof.
  unfold persist. apply preserves_bind; [|intros _; apply save_durable_ok].
  apply preserves_modify. intros s. by core_update.
Qed.

(** Connections *)
Lemma alter_conn_ok (f : Conn → Conn) ref s :
  (∀ c, conn_ok c → conn_ok (f c)) → OK s → OK (set_conns (alter f ref (c_conns s)) s).
Proof.
  intros Hf. core_update. intros r c Hc. rewrite lookup_alter_Some in Hc.
  destruct Hc as [(<- & c' & Hc' & ->)|[_ Hc]]; [apply Hf|]; by eapply ck_conns0.
Qed.

Lemma stop_conn_ok ref : preserves OK (stop_conn ref).
Proof. apply preserves_modify. intros s. apply alter_conn_ok. auto with cf. Qed.
Lemma queue_frame_ok ref f : preserves OK (queue_frame ref f).
Proof. apply preserves_modify. intros s. apply alter_conn_ok. intros c. apply queue_outbound_ok. Qed.
Lemma name_conn_ok ref id session : preserves OK (name_conn ref id session).
Proof. apply preserves_modify. intros s. apply alter_conn_ok. intros c []. by split. Qed.

Lemma respond_client_ok cmd t payload : preserves OK (respond_client cmd t payload).
Proof. unfold respond_client. solve_core. apply queue_frame_ok. Qed.
Lemma respond_node_ok cmd t payload : preserves OK (respond_node cmd t payload).
Proof. unfold respond_node. solve_core. apply queue_frame_ok. Qed.
Lemma send_to_node_ok id t payload : preserves OK (send_to_node id t payload).
Proof. unfold send_to_node. solve_core. apply queue_frame_ok. Qed.

(** Nodes *)
Lemma update_node_ok id f : (∀ r, nr_id (f r) = nr_id r) → preserves OK (update_node id f).
Proof.
  intros Hf. apply preserves_modify. intros s. core_update.
  intros k n Hn. rewrite lookup_alter_Some in Hn.
  destruct Hn as [(<- & n' & Hn' & ->)|[_ Hn]]; [rewrite Hf|]; by apply ck_nodes0.
Qed.

Lemma read_epoch_ok {B} (k : Z → Core B) :
  preserves OK (k e) → preserves OK (gets (λ s, ds_epoch (c_durable s)) ≫= k).
Proof. apply preserves_gets_val. by intros s []. Qed.
End primitives.

#[export] Hint Resolve now_millis_ok random_id_ok set_task_st_ok state_of_ok reserve_ok
  release_reservation_ok release_task_reservation_ok update_attempt_ok attempts_at_ok
  push_task_attempt_ok cancel_requested_at_ok persist_ok stop_conn_ok queue_frame_ok
  name_conn_ok respond_client_ok respond_node_ok send_to_node_ok update_node_ok : core.

Lemma mark_started_keeps t d : keeps_authority (mark_started t d).
Proof. done. Qed.
Lemma mark_ended_keeps st k r t : keeps_authority (mark_ended st k r t).
Proof. done. Qed.
Lemma mark_committed_keeps co t : keeps_authority (mark_committed co t).
Proof. done. Qed.
#[export] Hint Resolve mark_started_keeps mark_ended_keeps mark_committed_keeps : core.

(** ** Every handler keeps the invariant *)

Ltac core_step ::=
  match goal with
  | |- preserves (core_ok _) (mbind _ (gets (λ s, ds_epoch (c_durable s)))) => apply read_epoch_ok
  | |- preserves _ (mbind _ _) => apply preserves_bind; [|intros ?]
  | |- preserves _ (when _ _) => apply preserves_when
  | |- preserves _ (ignore _) => apply preserves_ignore
  | |- preserves _ (for_each _ _) => apply preserves_for_each; intros ? _
  | |- preserves _ (let '(_, _) := ?x in _) => destruct x
  | |- preserves _ (match ?x with _ => _ end) => destruct x
  | |- preserves _ (let _ := _ in _) => cbv zeta
  end.

Section handlers.
Context (e : Z).
Abbreviation OK := (core_ok e).

Lemma handle_node_register_ok cmd reg : preserves OK (handle_node_register cmd reg).
Proof.
  unfold handle_node_register. solve_core; apply preserves_modify; intros s; core_update;
    by apply map_Forall_insert_2.
Qed.
Lemma handle_node_heartbeat_ok cmd hb : preserves OK (handle_node_heartbeat cmd hb).
Proof. unfold handle_node_heartbeat. solve_core. Qed.
Lemma handle_node_shutdown_ok cmd : preserves OK (handle_node_shutdown cmd).
Proof. unfold handle_node_shutdown. solve_core. Qed.
Lemma handle_node_disconnect_ok id conn : preserves OK (handle_node_disconnect id conn).
Proof. unfold handle_node_disconnect. solve_core. Qed.
Lemma handle_node_drain_ok cmd d : preserves OK (handle_node_drain cmd d).
Proof. unfold handle_node_drain. solve_core. Qed.

Lemma release_all_for_node_ok id :
  preserves OK (modify (λ s, set_reservations (release_all_for_node (c_reservations s) id) s)).
Proof.
  apply preserves_modify. intros s. core_update. intros k r Hr.
  unfold release_all_for_node, release_where in Hr. rewrite lookup_fmap_Some in Hr.
  destruct Hr as (r' & <- & Hr'). apply ck_reservations0 in Hr'. by destruct (bool_decide _).
Qed.
Hint Resolve release_all_for_node_ok : core.

Lemma requeue_lost_ok tid : preserves OK (requeue_lost tid).
Proof. unfold requeue_lost. solve_core. Qed.
Hint Resolve requeue_lost_ok : core.
Lemma handle_node_loss_ok id : preserves OK (handle_node_loss id).
Proof. unfold handle_node_loss. solve_core. Qed.
Hint Resolve handle_node_loss_ok : core.

Lemma make_ready_ok dep : preserves OK (make_ready dep).
Proof. unfold make_ready. solve_core. Qed.
Hint Resolve make_ready_ok : core.
Lemma propagate_ok fuel id : preserves OK (propagate fuel id).
Proof.
  revert id. induction fuel as [|fuel IH]; intros id; cbn [propagate]; [solve_core|].
  apply preserves_bind; [solve_core|]. intros deps.
  induction deps as [|dep deps IHd]; cbn [propagate_loop]; solve_core.
Qed.
Hint Resolve propagate_ok : core.
Lemma on_task_succeeded_ok id : preserves OK (on_task_succeeded_recursive id).
Proof. unfold on_task_succeeded_recursive. solve_core. Qed.
Hint Resolve on_task_succeeded_ok : core.

Lemma find_active_attempt_ok id : preserves OK (find_active_attempt id).
Proof. apply preserves_gets. Qed.
Hint Resolve find_active_attempt_ok : core.
Lemma handle_dispatch_ack_ok cmd da : preserves OK (handle_dispatch_ack cmd da).
Proof. unfold handle_dispatch_ack. solve_core. Qed.
Lemma handle_attempt_started_ok cmd st : preserves OK (handle_attempt_started cmd st).
Proof. unfold handle_attempt_started. solve_core. Qed.
Lemma complete_ack_ok cmd co b err : preserves OK (complete_ack cmd co b err).
Proof. unfold complete_ack. solve_core. Qed.
Hint Resolve complete_ack_ok : core.
Lemma commit_attempt_ok cmd co p a : preserves OK (commit_attempt cmd co p a).
Proof. unfold commit_attempt. solve_core. Qed.
Lemma preempt_attempt_ok p a : preserves OK (preempt_attempt p a).
Proof. unfold preempt_attempt. solve_core. Qed.
Hint Resolve commit_attempt_ok preempt_attempt_ok : core.
Lemma handle_attempt_complete_ok cmd co : preserves OK (handle_attempt_complete cmd co).
Proof. unfold handle_attempt_complete. solve_core. Qed.
Lemma handle_attempt_failed_ok cmd fa : preserves OK (handle_attempt_failed cmd fa).
Proof. unfold handle_attempt_failed, failed_ack. solve_core. Qed.
Lemma handle_attempt_cancelled_ok cmd ca : preserves OK (handle_attempt_cancelled cmd ca).
Proof. unfold handle_attempt_cancelled. solve_core. Qed.
Lemma handle_reservation_release_ok cmd rel : preserves OK (handle_reservation_release cmd rel).
Proof. unfold handle_reservation_release. solve_core. Qed.

Lemma dispatch_task_ok tid t n nid ex r d : preserves OK (dispatch_task tid t n nid ex r d).
Proof. unfold dispatch_task. solve_core. by apply push_task_attempt_ok. Qed.
Hint Resolve dispatch_task_ok : core.
Lemma plan_and_dispatch_ok tid t n nid ex r d : preserves OK (plan_and_dispatch tid t n nid ex r d).
Proof. unfold plan_and_dispatch. solve_core. Qed.
Hint Resolve plan_and_dispatch_ok : core.
Lemma record_placement_ok tid d : preserves OK (record_placement tid d).
Proof.
  unfold record_placement. solve_core. apply preserves_modify. intros s. core_update.
  by apply map_Forall_insert_2.
Qed.
Hint Resolve record_placement_ok : core.
Lemma place_and_dispatch_ok tid t : preserves OK (place_and_dispatch tid t).
Proof. unfold place_and_dispatch. solve_core. Qed.
Hint Resolve place_and_dispatch_ok : core.
Lemma schedule_task_ok tid : preserves OK (schedule_task tid).
Proof. unfold schedule_task. solve_core. Qed.
Hint Resolve schedule_task_ok : core.
Lemma schedule_ready_tasks_ok : preserves OK schedule_ready_tasks.
Proof. unfold schedule_ready_tasks. solve_core. Qed.
Hint Resolve schedule_ready_tasks_ok : core.
Lemma requeue_dispatch_ok now tid : preserves OK (requeue_dispatch now tid).
Proof. unfold requeue_dispatch. solve_core. Qed.
Lemma retry_step_ok now kv : preserves OK (retry_step now kv).
Proof. unfold retry_step. solve_core. Qed.
Lemma deadline_step_ok now id : preserves OK (deadline_step now id).
Proof. unfold deadline_step. solve_core. Qed.
Hint Resolve requeue_dispatch_ok retry_step_ok deadline_step_ok : core.
Lemma sweep_ok : preserves OK sweep.
Proof. unfold sweep. solve_core. Qed.

(** A submission adds a task whose dependencies exist: no cycle can arise. *)
Lemma missing_dependency_none g t d :
  missing_dependency g t = None → d ∈ ct_dependencies t → is_Some (g_tasks g !! d).
Proof.
  unfold missing_dependency. rewrite fmap_None, list_find_None, Forall_forall.
  intros Hall Hd%Hall. apply not_false_iff_true in Hd. unfold has_task in Hd.
  by apply bool_decide_eq_true in Hd.
Qed.

Lemma closed_no_path g x y :
  graph_ok g → closed g → rtc (edge (g_deps g)) x y → is_Some (g_tasks g !! x) →
  is_Some (g_tasks g !! y).
Proof.
  intros Hg Hc. induction 1 as [|x y z Hxy _ IH]; [done|]. intros [t Ht]. apply IH.
  apply (Hc x t y Ht). unfold edge in Hxy. rewrite (proj2 (ok_deps g Hg x t Ht)) in Hxy.
  by apply elem_of_list_to_set in Hxy.
Qed.

(** What [add_task] does to a closed graph, given that no dependency is missing. *)
Lemma add_task_closed g t :
  graph_ok g → closed g → g_tasks g !! ct_id t = None → missing_dependency g t = None →
  Acc (λ y x, edge (g_deps (linked g t)) x y) (ct_id t) ∧ add_task g t = (linked g t, Ok tt).
Proof.
  intros Hg Hc Hnew Hm.
  assert (Hdeps : ∀ d, d ∈ ct_dependencies t → is_Some (g_tasks g !! d))
    by (intros d; by apply missing_dependency_none).
  destruct (add_task_cases g t Hg)
    as [[[t' Ht'] _]|[(_ & Hself & _)|[(_ & _ & Hacc & E)|(_ & _ & (d & Hd & Hpath) & _)]]].
  - congruence.
  - apply Hdeps in Hself as [? ?]. congruence.
  - done.
  - apply (closed_no_path g d) in Hpath as [? ?]; [congruence|done..|by apply Hdeps].
Qed.

Lemma linked_closed g t :
  graph_ok g → closed g → g_tasks g !! ct_id t = None → missing_dependency g t = None →
  closed (linked g t).
Proof.
  intros Hg Hc Hnew Hm x t' d Ht' Hd. unfold linked in *. cbn [g_tasks] in *.
  apply lookup_insert_is_Some'. right.
  destruct (decide (x = ct_id t)) as [->|Hne].
  - rewrite lookup_insert_eq in Ht'. injection Ht' as <-. by eapply missing_dependency_none.
  - rewrite lookup_insert_ne in Ht' by done. by eapply Hc.
Qed.

Lemma accept_task_ok submit : preserves OK (accept_task submit).
Proof.
  unfold accept_task. solve_core. apply preserves_modify. intros s Hs.
  destruct (bool_decide _); [done|]. by revert Hs; core_update.
Qed.

Lemma added_task_ok s t :
  OK s → g_tasks (c_graph s) !! ct_id t = None → missing_dependency (c_graph s) t = None →
  add_task (c_graph s) t = (linked (c_graph s) t, Ok tt) ∧
  OK (set_graph (linked (c_graph s) t) s).
Proof.
  intros Hs Hk Hm. destruct (add_task_closed (c_graph s) t) as [Hacc E];
    [apply Hs|apply Hs|done|done|]. split; [done|].
  destruct Hs; split; core_cbn; try assumption.
  - by apply linked_ok.
  - by apply linked_reverse_complete.
  - by apply linked_closed.
Qed.

Lemma submit_task_ok submit : preserves OK (submit_task submit).
Proof.
  intros s Hs. unfold submit_task, gets, mbind, core_bind. cbv beta iota.
  destruct (has_task (c_graph s) _) eqn:Hk; [exact Hs|].
  destruct (c_stopping s); [exact Hs|]. destruct (id_is_zero _); [exact Hs|].
  destruct (missing_dependency _ _) eqn:Hm; [exact Hs|].
  apply bool_decide_eq_false in Hk. apply eq_None_not_Some in Hk.
  destruct (added_task_ok s (tsub_task submit) Hs Hk Hm) as [E Hs']. rewrite E.
  apply (accept_task_ok submit) in Hs'. by destruct (accept_task submit _).
Qed.
Hint Resolve submit_task_ok : core.
Lemma handle_task_submit_ok cmd m : preserves OK (handle_task_submit cmd m).
Proof. unfold handle_task_submit. solve_core. Qed.
Lemma handle_task_inspect_ok cmd m : preserves OK (handle_task_inspect cmd m).
Proof. unfold handle_task_inspect. solve_core. Qed.
Lemma handle_task_list_ok cmd m : preserves OK (handle_task_list cmd m).
Proof. unfold handle_task_list. solve_core. Qed.
Lemma handle_workload_inspect_ok cmd m : preserves OK (handle_workload_inspect cmd m).
Proof. unfold handle_workload_inspect. solve_core. Qed.
Lemma handle_fabric_status_ok cmd m : preserves OK (handle_fabric_status cmd m).
Proof. unfold handle_fabric_status. solve_core. Qed.
Lemma handle_placement_query_ok cmd m : preserves OK (handle_placement_query cmd m).
Proof. unfold handle_placement_query. solve_core. Qed.
Lemma handle_node_list_ok cmd : preserves OK (handle_node_list cmd).
Proof. unfold handle_node_list. solve_core. Qed.
Lemma request_cancel_ok id : preserves OK (request_cancel id).
Proof. unfold request_cancel. solve_core. Qed.
Hint Resolve request_cancel_ok : core.
Lemma cancel_task_ok id : preserves OK (cancel_task id).
Proof. unfold cancel_task. solve_core. Qed.
Hint Resolve cancel_task_ok : core.
Lemma handle_task_cancel_ok cmd m : preserves OK (handle_task_cancel cmd m).
Proof. unfold handle_task_cancel. solve_core. Qed.
Lemma shutdown_node_ok kv : preserves OK (shutdown_node kv).
Proof. unfold shutdown_node. solve_core. Qed.
Hint Resolve shutdown_node_ok : core.
Lemma handle_coordinator_shutdown_ok cmd : preserves OK (handle_coordinator_shutdown cmd).
Proof. unfold handle_coordinator_shutdown. solve_core. Qed.
Lemma handle_client_connected_ok cmd : preserves OK (handle_client_connected cmd).
Proof. unfold handle_client_connected. solve_core. Qed.
Lemma handle_client_disconnected_ok cmd : preserves OK (handle_client_disconnected cmd).
Proof. unfold handle_client_disconnected. solve_core. Qed.
End handlers.

#[export] Hint Resolve handle_node_register_ok handle_node_heartbeat_ok handle_node_shutdown_ok
  handle_node_disconnect_ok handle_node_drain_ok handle_dispatch_ack_ok handle_attempt_started_ok
  handle_attempt_complete_ok handle_attempt_failed_ok handle_attempt_cancelled_ok
  handle_reservation_release_ok sweep_ok handle_task_submit_ok handle_task_inspect_ok
  handle_task_list_ok handle_workload_inspect_ok handle_fabric_status_ok handle_placement_query_ok
  handle_node_list_ok handle_task_cancel_ok handle_coordinator_shutdown_ok
  handle_client_connected_ok handle_client_disconnected_ok : core.

#[export] Hint Resolve release_all_for_node_ok requeue_lost_ok handle_node_loss_ok make_ready_ok
  propagate_ok on_task_succeeded_ok find_active_attempt_ok complete_ack_ok commit_attempt_ok
  preempt_attempt_ok dispatch_task_ok plan_and_dispatch_ok record_placement_ok
  place_and_dispatch_ok schedule_task_ok schedule_ready_tasks_ok requeue_dispatch_ok retry_step_ok
  deadline_step_ok accept_task_ok submit_task_ok request_cancel_ok cancel_task_ok
  shutdown_node_ok : core.

Lemma process_ok e cmd : preserves (core_ok e) (process cmd).
Proof. unfold process. solve_core. Qed.
#[export] Hint Resolve process_ok : core.

Lemma event_ok e ev : preserves (core_ok e) (event ev).
Proof.
  unfold event. destruct ev; unfold reader_action, node_exit, client_exit, reader_exit,
    push_command, core_step; solve_core; apply preserves_modify; intros s Hs.
  - destruct (c_conns s !! ref); [done|]. revert Hs. core_update.
    apply map_Forall_insert_2; [apply new_conn_ok|done].
  - destruct (can_push s); [by revert Hs; core_update|done].
  - destruct (can_push s); [by revert Hs; core_update|done].
  - destruct (c_conns s !! ref) as [c|] eqn:Hc; [|done]. cbn [mbind option_bind].
    destruct (take_frame c) as [[f c']|] eqn:Ht; [|done]. revert Hs. core_update.
    apply map_Forall_insert_2; [|done]. apply take_frame_inv in Ht as (_ & _ & _ & Ht).
    by apply Ht, (ck_conns0 ref).
  - apply alter_conn_ok; [|done]. intros c. apply frame_sent_ok.
Qed.

(** ** Between commands, the durable state is the graph's *)

Record mirror (s : Coordinator) : Prop := {
  mi_tasks : ds_tasks (c_durable s) = g_tasks (c_graph s);
  mi_states : ds_task_states (c_durable s) = g_states (c_graph s);
  mi_attempts : ds_attempts (c_durable s) = committed_attempts (c_attempts s);
  (* once the last write succeeded, the store file is the durable state *)
  mi_file : ∀ path n, c_store s = Some path → c_saves s = S n → w_disk (c_world s) n = W_Done →
    c_files s !! path = Some (encode_store (c_durable s))
}.
Definition clean (e : Z) (s : Coordinator) : Prop := core_ok e s ∧ mirror s.

(** A program that keeps the invariant and leaves the recorded members alone. *)
Abbreviation unrecorded := (preserves mirror).

Lemma clean_intro {A} e (m : Core A) :
  preserves (core_ok e) m → unrecorded m → preserves (clean e) m.
Proof. intros H1 H2 s [Hs Hm]. split; [by apply H1|by apply H2]. Qed.

Ltac mirror_frame := let H := fresh in intros ? H; destruct H; split; unfold snd, modify; core_cbn; assumption.
#[export] Hint Extern 5 (preserves mirror (modify _)) =>
  solve [apply preserves_modify; mirror_frame] : core.

Lemma now_millis_unrecorded : unrecorded now_millis.
Proof. unfold now_millis. mirror_frame. Qed.
Lemma random_id_unrecorded : unrecorded random_id.
Proof. unfold random_id. mirror_frame. Qed.
Lemma reserve_unrecorded n t x sl sc : unrecorded (reserve n t x sl sc).
Proof.
  intros s Hs. unfold reserve. destruct (try_reserve _ _ _ _ _ _ _ _ _) as [reg rr].
  destruct (rr_reservation rr); destruct Hs; split; cbn [snd]; core_cbn; assumption.
Qed.
Lemma attempts_at_unrecorded tid : unrecorded (attempts_at tid).
Proof.
  intros s Hs. unfold attempts_at. destruct (c_attempts s !! tid) eqn:Hl; [done|].
  destruct Hs as [H1 H2 H3 H4]; split; cbn [snd]; core_cbn; try assumption. rewrite H3.
  apply map_eq. intros k. rewrite !committed_lookup.
  destruct (decide (k = tid)) as [->|]; [by rewrite lookup_insert_eq, Hl|by rewrite lookup_insert_ne].
Qed.
Lemma cancel_requested_at_unrecorded tid : unrecorded (cancel_requested_at tid).
Proof.
  intros s Hs. unfold cancel_requested_at. destruct (_ !! _); [done|].
  destruct Hs; split; cbn [snd]; core_cbn; assumption.
Qed.
#[export] Hint Resolve now_millis_unrecorded random_id_unrecorded reserve_unrecorded
  attempts_at_unrecorded cancel_requested_at_unrecorded : core.

Lemma release_reservation_unrecorded id : unrecorded (release_reservation id).
Proof. apply preserves_modify. mirror_frame. Qed.
Lemma stop_conn_unrecorded ref : unrecorded (stop_conn ref).
Proof. apply preserves_modify. mirror_frame. Qed.
Lemma queue_frame_unrecorded ref f : unrecorded (queue_frame ref f).
Proof. apply preserves_modify. mirror_frame. Qed.
Lemma name_conn_unrecorded ref id session : unrecorded (name_conn ref id session).
Proof. apply preserves_modify. mirror_frame. Qed.
Lemma update_node_unrecorded id f : unrecorded (update_node id f).
Proof. apply preserves_modify. mirror_frame. Qed.
#[export] Hint Resolve release_reservation_unrecorded stop_conn_unrecorded queue_frame_unrecorded
  name_conn_unrecorded update_node_unrecorded : core.

Lemma release_task_reservation_unrecorded tid : unrecorded (release_task_reservation tid).
Proof. unfold release_task_reservation. solve_core. Qed.
Lemma respond_client_unrecorded cmd t p : unrecorded (respond_client cmd t p).
Proof. unfold respond_client. solve_core. Qed.
Lemma respond_node_unrecorded cmd t p : unrecorded (respond_node cmd t p).
Proof. unfold respond_node. solve_core. Qed.
Lemma send_to_node_unrecorded id t p : unrecorded (send_to_node id t p).
Proof. unfold send_to_node. solve_core. Qed.
#[export] Hint Resolve release_task_reservation_unrecorded respond_client_unrecorded
  respond_node_unrecorded send_to_node_unrecorded : core.

(** [persist] brings the two back together. *)
Lemma persist_clean e : hoare (core_ok e) persist (λ _, clean e).
Proof.
  intros s Hs. split; [by apply persist_ok|].
  assert (Htasks : graph_to_tasks (c_graph s) = g_tasks (c_graph s)) by apply graph_to_tasks_eq.
  assert (Hstates : graph_states (c_graph s) = g_states (c_graph s)) by apply graph_states_eq, Hs.
  unfold persist, mbind, core_bind, modify, save_durable. core_cbn.
  destruct (c_store s) as [path|] eqn:Hstore.
  - unfold store_save, write_file_atomic.
    destruct (w_disk (c_world s) (c_saves s)) eqn:Hw; split; cbn [snd]; core_cbn; try done;
      intros path' n; rewrite Hstore; intros [= <-] [= <-] Hd; rewrite Hw in Hd; try done.
    by rewrite lookup_insert_eq.
  - split; cbn [snd]; core_cbn; try done. by rewrite Hstore.
Qed.
