(* ===== verification/CoordDurable.v ===== *)
(** * CoordDurable: what a crash can lose

    Every event leaves the durable state equal to the graph's ([event_clean]);
    with a working disk the store file is that durable state; and a restart from
    that file rebuilds the same tasks, with execution authority revoked. *)

From S2P Require Import Prelude Status Ids Digest Float64 Task Lifecycle Dag Reservation Placement.
From S2P Require Import Wire Frame Serialize Messages Store Locality Scheduler Outbound CoordState.
From S2P Require Import CoordNodes CoordAttempts CoordSched CoordClient Coordinator CoordInv.

Local Open Scope Z_scope.

(** ** Programs that record what they change *)

(** From any good state, the program ends in a recorded one. *)
Definition settles {A} (e : Z) (m : Core A) : Prop := hoare (core_ok e) m (λ _, clean e).

Section settle.
Context (e : Z).

Lemma settles_clean {A} (m : Core A) : settles e m → preserves (clean e) m.
Proof. intros Hm s [Hs _]. by apply Hm. Qed.
Lemma settles_bind {A B} (m : Core A) (k : A → Core B) :
  preserves (core_ok e) m → (∀ a, settles e (k a)) → settles e (m ≫= k).
Proof. apply hoare_bind. Qed.
Lemma settles_then {A B} (m : Core A) (k : A → Core B) :
  settles e m → (∀ a, preserves (clean e) (k a)) → settles e (m ≫= k).
Proof. apply hoare_bind. Qed.
Lemma settles_read_epoch {B} (k : Z → Core B) :
  settles e (k e) → settles e (gets (λ s, ds_epoch (c_durable s)) ≫= k).
Proof.
  intros Hk s Hs. unfold mbind, core_bind, gets. rewrite (ck_epoch e s Hs). by apply Hk.
Qed.
Lemma persist_settles : settles e persist.
Proof. apply persist_clean. Qed.
Lemma persist_clean' : preserves (clean e) persist.
Proof. apply settles_clean, persist_settles. Qed.
End settle.
#[export] Hint Resolve persist_settles persist_clean' : core.

#[export] Hint Extern 6 (preserves (clean _) _) =>
  apply clean_intro; [solve [eauto with core]|solve [eauto with core]] : core.

#[export] Hint Extern 1 (attempt_ok _ _ (new_attempt _ _ _ _ _ _ _ _ _ _)) => done : core.

Ltac core_close := solve [eauto with core].
Ltac settle_step :=
  match goal with
  | |- settles _ persist => apply persist_settles
  | |- settles _ (mbind _ (gets (λ s, ds_epoch (c_durable s)))) => apply settles_read_epoch
  | |- settles _ (mbind _ persist) => apply settles_then; [apply persist_settles|intros ?]
  | |- settles _ (mbind _ _) =>
      first [apply settles_bind; [solve [solve_core]|intros ?]
            |apply settles_then; [core_close|intros ?]]
  | |- settles _ (match ?x with _ => _ end) => destruct x
  | |- preserves (clean _) (mbind _ _) =>
      first [apply preserves_bind; [solve [repeat first [core_close | core_step]]|intros ?]
            |apply settles_clean; apply settles_bind; [solve [solve_core]|intros ?]
            |apply preserves_bind; [|intros ?]]
  | |- preserves _ _ => core_step
  end.
Ltac solve_settle := repeat first [core_close | settle_step].

Section handlers.
Context (e : Z).
Abbreviation CLEAN := (clean e).

Lemma handle_node_register_clean cmd reg : preserves CLEAN (handle_node_register cmd reg).
Proof. apply clean_intro; [auto with core|]. unfold handle_node_register. solve_core. Qed.
Lemma handle_node_heartbeat_clean cmd hb : preserves CLEAN (handle_node_heartbeat cmd hb).
Proof. apply clean_intro; [auto with core|]. unfold handle_node_heartbeat. solve_core. Qed.
Lemma handle_node_shutdown_clean cmd : preserves CLEAN (handle_node_shutdown cmd).
Proof. apply clean_intro; [auto with core|]. unfold handle_node_shutdown. solve_core. Qed.
Lemma handle_node_disconnect_clean id conn : preserves CLEAN (handle_node_disconnect id conn).
Proof. apply clean_intro; [auto with core|]. unfold handle_node_disconnect. solve_core. Qed.
Lemma handle_node_drain_clean cmd d : preserves CLEAN (handle_node_drain cmd d).
Proof. apply clean_intro; [auto with core|]. unfold handle_node_drain. solve_core. Qed.

Lemma handle_node_loss_clean id : preserves CLEAN (handle_node_loss id).
Proof. unfold handle_node_loss. solve_settle. Qed.
Hint Resolve handle_node_loss_clean : core.

Lemma find_active_attempt_clean id : preserves CLEAN (find_active_attempt id).
Proof. apply preserves_gets. Qed.
Lemma state_of_clean id : preserves CLEAN (state_of id).
Proof. apply preserves_gets. Qed.
Hint Resolve find_active_attempt_clean state_of_clean : core.

Lemma handle_dispatch_ack_clean cmd da : preserves CLEAN (handle_dispatch_ack cmd da).
Proof. unfold handle_dispatch_ack. solve_settle. Qed.
Lemma handle_attempt_started_clean cmd st : preserves CLEAN (handle_attempt_started cmd st).
Proof. unfold handle_attempt_started. solve_settle. Qed.
Lemma complete_ack_unrecorded cmd co b err : unrecorded (complete_ack cmd co b err).
Proof. unfold complete_ack. auto with core. Qed.
Hint Resolve complete_ack_unrecorded : core.
Lemma commit_attempt_clean cmd co p a : preserves CLEAN (commit_attempt cmd co p a).
Proof. unfold commit_attempt. solve_settle. Qed.
Lemma preempt_attempt_clean p a : preserves CLEAN (preempt_attempt p a).
Proof. unfold preempt_attempt. solve_settle. Qed.
Hint Resolve commit_attempt_clean preempt_attempt_clean : core.
Lemma handle_attempt_complete_clean cmd co : preserves CLEAN (handle_attempt_complete cmd co).
Proof.
  unfold handle_attempt_complete. solve_settle.
Qed.
Lemma handle_attempt_failed_clean cmd fa : preserves CLEAN (handle_attempt_failed cmd fa).
Proof. unfold handle_attempt_failed, failed_ack. solve_settle. Qed.
Lemma handle_attempt_cancelled_clean cmd ca : preserves CLEAN (handle_attempt_cancelled cmd ca).
Proof. unfold handle_attempt_cancelled. solve_settle. Qed.
Lemma handle_reservation_release_clean cmd rel :
  preserves CLEAN (handle_reservation_release cmd rel).
Proof. apply clean_intro; [auto with core|]. unfold handle_reservation_release. solve_core. Qed.

(** A refused transition changes nothing; one that is accepted is known. *)
Lemma set_task_st_result id st :
  hoare (clean e) (set_task_st id st) (λ r s,
    if failed r then clean e s else core_ok e s ∧ g_states (c_graph s) !! id = Some st).
Proof.
  intros s [Hs Hm]. pose proof (set_task_st_ok e id st s Hs) as Hok. revert Hok.
  unfold set_task_st, set_state. destruct (g_states (c_graph s) !! id) as [cur|] eqn:Hcur.
  - destruct (is_legal cur st) eqn:Hl; cbn [negb failed is_ok fst snd]; intros Hok.
    + split; [done|]. core_cbn. cbn [g_states]. by rewrite lookup_insert_eq.
    + split; [done|]. destruct Hm. by split.
  - intros Hok. split; [done|]. destruct Hm. by split.
Qed.

(** After planning, a reservation cannot be refused. *)
Lemma planned_reserved id :
  hoare (λ s, core_ok e s ∧ g_states (c_graph s) !! id = Some TS_Planning)
    (set_task_st id TS_Reserved) (λ r s, failed r = false ∧ core_ok e s).
Proof.
  intros s [Hs Hp]. pose proof (set_task_st_ok e id TS_Reserved s Hs) as Hok. revert Hok.
  unfold set_task_st, set_state. rewrite Hp. cbn. by intros ?.
Qed.

Lemma dispatch_task_settles tid t n nid ex r d : settles e (dispatch_task tid t n nid ex r d).
Proof. unfold dispatch_task. solve_settle. Qed.
Hint Resolve dispatch_task_settles : core.

Lemma plan_and_dispatch_clean tid t n nid ex r d :
  preserves CLEAN (plan_and_dispatch tid t n nid ex r d).
Proof.
  unfold plan_and_dispatch. eapply hoare_bind; [apply set_task_st_result|]. intros r1.
  destruct r1 as [[]|err]; cbn [failed is_ok negb]; [|change (preserves CLEAN (release_reservation (rv_id r))); core_close].
  eapply hoare_bind; [apply planned_reserved|]. intros r2 s [-> Hs]. revert s Hs.
  apply settles_bind; [auto with core|intros _; auto with core].
Qed.
Hint Resolve plan_and_dispatch_clean : core.

Lemma record_placement_unrecorded tid d : unrecorded (record_placement tid d).
Proof. unfold record_placement. solve_core. Qed.
Hint Resolve record_placement_unrecorded : core.
Lemma place_and_dispatch_clean tid t : preserves CLEAN (place_and_dispatch tid t).
Proof. unfold place_and_dispatch. solve_settle. Qed.
Hint Resolve place_and_dispatch_clean : core.
Lemma schedule_task_clean tid : preserves CLEAN (schedule_task tid).
Proof. unfold schedule_task. solve_settle. Qed.
Hint Resolve schedule_task_clean : core.
Lemma schedule_ready_tasks_clean : preserves CLEAN schedule_ready_tasks.
Proof. unfold schedule_ready_tasks. solve_settle. Qed.
Hint Resolve schedule_ready_tasks_clean : core.
Lemma requeue_dispatch_clean now tid : preserves CLEAN (requeue_dispatch now tid).
Proof. unfold requeue_dispatch. solve_settle. Qed.
Lemma retry_step_clean now kv : preserves CLEAN (retry_step now kv).
Proof. unfold retry_step. solve_settle. Qed.
Lemma deadline_step_clean now id : preserves CLEAN (deadline_step now id).
Proof. unfold deadline_step. solve_settle. Qed.
Hint Resolve requeue_dispatch_clean retry_step_clean deadline_step_clean : core.
Lemma sweep_clean : preserves CLEAN sweep.
Proof. unfold sweep. solve_settle. Qed.

Lemma accept_task_settles submit : settles e (accept_task submit).
Proof.
  unfold accept_task. apply settles_bind; [|intros _; solve_settle].
  apply preserves_modify. intros s Hs. destruct (bool_decide _); [done|].
  destruct Hs; split; core_cbn; assumption.
Qed.

Lemma submit_task_clean submit : preserves CLEAN (submit_task submit).
Proof.
  intros s Hs. unfold submit_task, gets, mbind, core_bind. cbv beta iota.
  destruct (has_task (c_graph s) _) eqn:Hk; [exact Hs|].
  destruct (c_stopping s); [exact Hs|]. destruct (id_is_zero _); [exact Hs|].
  destruct (missing_dependency _ _) eqn:Hm; [exact Hs|].
  apply bool_decide_eq_false in Hk. apply eq_None_not_Some in Hk.
  pose proof (added_task_ok e s (tsub_task submit) (proj1 Hs) Hk Hm) as [E Hs']. rewrite E.
  apply (accept_task_settles submit) in Hs'. by destruct (accept_task submit _).
Qed.
Hint Resolve submit_task_clean : core.
Lemma handle_task_submit_clean cmd m : preserves CLEAN (handle_task_submit cmd m).
Proof. unfold handle_task_submit. solve_settle. Qed.
Lemma handle_task_inspect_clean cmd m : preserves CLEAN (handle_task_inspect cmd m).
Proof. apply clean_intro; [auto with core|]. unfold handle_task_inspect, state_of. solve_core. Qed.
Lemma handle_task_list_clean cmd m : preserves CLEAN (handle_task_list cmd m).
Proof. unfold handle_task_list. solve_settle. Qed.
Lemma handle_workload_inspect_clean cmd m : preserves CLEAN (handle_workload_inspect cmd m).
Proof. unfold handle_workload_inspect. solve_settle. Qed.
Lemma handle_fabric_status_clean cmd m : preserves CLEAN (handle_fabric_status cmd m).
Proof. unfold handle_fabric_status. solve_settle. Qed.
Lemma handle_placement_query_clean cmd m : preserves CLEAN (handle_placement_query cmd m).
Proof. unfold handle_placement_query. solve_settle. Qed.
Lemma handle_node_list_clean cmd : preserves CLEAN (handle_node_list cmd).
Proof. unfold handle_node_list. solve_settle. Qed.
Lemma request_cancel_clean id : preserves CLEAN (request_cancel id).
Proof. apply clean_intro; [auto with core|]. unfold request_cancel. solve_core. Qed.
Hint Resolve request_cancel_clean : core.
Lemma cancel_task_clean id : preserves CLEAN (cancel_task id).
Proof.
  unfold cancel_task. do 2 (apply preserves_bind; [core_close|intros ?]).
  case_match; [|core_close]. case_match; [core_close|]. case_match; [solve_settle|].
  eapply hoare_bind; [apply set_task_st_result|]. intros [[]|err]; cbn [failed is_ok negb].
  - intros s [Hs _]. revert s Hs.
    change (settles e (release_task_reservation id ;;
      modify (λ s, set_cancel_requested (delete id (c_cancel_requested s)) s) ;;
      persist ;; mret (mkTaskCancelResponse true true ""))). solve_settle.
  - by intros s Hs.
Qed.
Hint Resolve cancel_task_clean : core.
Lemma handle_task_cancel_clean cmd m : preserves CLEAN (handle_task_cancel cmd m).
Proof. unfold handle_task_cancel. solve_settle. Qed.
Lemma shutdown_node_unrecorded kv : unrecorded (shutdown_node kv).
Proof. unfold shutdown_node. solve_core. Qed.
Hint Resolve shutdown_node_unrecorded : core.
Lemma handle_coordinator_shutdown_clean cmd : preserves CLEAN (handle_coordinator_shutdown cmd).
Proof. unfold handle_coordinator_shutdown. solve_settle. Qed.
Lemma handle_client_connected_clean cmd : preserves CLEAN (handle_client_connected cmd).
Proof. apply clean_intro; [auto with core|]. unfold handle_client_connected. solve_core. Qed.
Lemma handle_client_disconnected_clean cmd : preserves CLEAN (handle_client_disconnected cmd).
Proof. apply clean_intro; [auto with core|]. unfold handle_client_disconnected. solve_core. Qed.
End handlers.

#[export] Hint Resolve handle_node_register_clean handle_node_heartbeat_clean
  handle_node_shutdown_clean handle_node_disconnect_clean handle_node_drain_clean
  handle_dispatch_ack_clean handle_attempt_started_clean handle_attempt_complete_clean
  handle_attempt_failed_clean handle_attempt_cancelled_clean handle_reservation_release_clean
  sweep_clean handle_task_submit_clean handle_task_inspect_clean handle_task_list_clean
  handle_workload_inspect_clean handle_fabric_status_clean handle_placement_query_clean
  handle_node_list_clean handle_task_cancel_clean handle_coordinator_shutdown_clean
  handle_client_connected_clean handle_client_disconnected_clean : core.

Lemma process_clean e cmd : preserves (clean e) (process cmd).
Proof. unfold process. solve_settle. Qed.
#[export] Hint Resolve process_clean : core.

(** Reader and writer threads touch queues and connections only. *)
Lemma event_clean e ev : preserves (clean e) (event ev).
Proof.
  destruct ev; try (apply clean_intro; [apply event_ok|];
    unfold event, reader_action, node_exit, client_exit, reader_exit, push_command; solve_core;
    apply preserves_modify; intros s Hs; repeat case_match; by destruct Hs; split).
  - unfold event, core_step. solve_settle.
  - unfold event. solve_settle.
Qed.

Lemma run_clean e evs s : clean e s → clean e (run evs s).
Proof.
  unfold run. revert s. induction evs as [|ev evs IH]; intros s Hs; [done|].
  cbn [foldl]. by apply IH, event_clean.
Qed.
