(* ===== verification/CoordRecovery.v ===== *)
(** * CoordRecovery: a restart from the store file

    [rebuild_graph] accepts the tasks of every acyclic store in whatever order
    the identifiers put them; recovery then revokes execution authority.  The
    claims are about [reachable] coordinators: fresh starts, any interleaving of
    events, crashes and restarts. *)

From S2P Require Import Prelude Status Ids Digest Float64 Task Lifecycle Dag Reservation Placement.
From S2P Require Import Wire Frame Serialize Messages Store Locality Scheduler Outbound CoordState.
From S2P Require Import CoordNodes CoordAttempts CoordSched CoordClient Coordinator CoordInv CoordDurable.

Local Open Scope Z_scope.

(** ** Running programs *)

Lemma core_bind_eq {A B} (m : Core A) (k : A → Core B) s a s' :
  m s = (a, s') → (m ≫= k) s = k a s'.
Proof. intros E. unfold mbind, core_bind. by rewrite E. Qed.

Lemma exec_unit (m : Core unit) s : m s = (tt, exec m s).
Proof. unfold exec. by destruct (m s) as [[] s']. Qed.

(** ** Rebuilding the graph *)

(** The dependencies declared by a map of tasks. *)
Definition declared (tasks : gmap Id128 ComputeTask) (x y : Id128) : Prop :=
  ∃ t, tasks !! x = Some t ∧ y ∈ ct_dependencies t.

Definition acyclic_tasks (tasks : gmap Id128 ComputeTask) : Prop :=
  ∀ x, Acc (λ y x, declared tasks x y) x.

Lemma edge_declared g tasks x y :
  graph_ok g → g_tasks g ⊆ tasks → edge (g_deps g) x y → declared tasks x y.
Proof.
  intros Hg Hsub Hxy. pose proof (edge_dom g x y Hg Hxy) as [t Ht]%elem_of_dom.
  exists t. split; [by eapply lookup_weaken|]. unfold edge in Hxy.
  rewrite (proj2 (ok_deps g Hg x t Ht)) in Hxy. by apply elem_of_list_to_set in Hxy.
Qed.

Lemma add_task_acyclic g tasks t :
  graph_ok g → g_tasks g ⊆ tasks → acyclic_tasks tasks →
  tasks !! ct_id t = Some t → g_tasks g !! ct_id t = None →
  Acc (λ y x, edge (g_deps (linked g t)) x y) (ct_id t) ∧ add_task g t = (linked g t, Ok tt).
Proof.
  intros Hg Hsub Hac Ht Hnew.
  assert (Hd : ∀ d, d ∈ ct_dependencies t → declared tasks (ct_id t) d) by (intros d Hd; by exists t).
  assert (Hno : ¬ tc (declared tasks) (ct_id t) (ct_id t)).
  { apply (Acc_no_cycle _ (ct_id t)); [apply Hac|apply rtc_refl]. }
  destruct (add_task_cases g t Hg)
    as [[[t' Ht'] _]|[(_ & Hself & _)|[(_ & _ & Hacc & E)|(_ & _ & (d & Hdep & Hpath) & _)]]].
  - congruence.
  - destruct Hno. by apply tc_once, Hd.
  - done.
  - destruct Hno. eapply tc_rtc_r; [by apply tc_once, Hd|].
    revert Hpath. apply (rtc_congruence id). intros x y. by apply edge_declared.
Qed.

(** The new tasks are in state [Submitted]. *)
Definition submitted (tasks : gmap Id128 ComputeTask) : gmap Id128 TaskState :=
  (λ _, TS_Submitted) <$> tasks.

Lemma rebuild_graph_spec tasks l s :
  acyclic_tasks tasks → NoDup l.*1 →
  (∀ k t, (k, t) ∈ l → tasks !! k = Some t ∧ ct_id t = k ∧ g_tasks (c_graph s) !! k = None) →
  graph_ok (c_graph s) → reverse_complete (c_graph s) → g_tasks (c_graph s) ⊆ tasks →
  g_states (c_graph s) = submitted (g_tasks (c_graph s)) →
  ∃ g, rebuild_graph l s = (Ok tt, set_graph g s) ∧ graph_ok g ∧ reverse_complete g ∧
    g_tasks g = list_to_map l ∪ g_tasks (c_graph s) ∧ g_states g = submitted (g_tasks g).
Proof.
  intros Hac. revert s. induction l as [|[k t] l IH]; intros s Hnd Hl Hg Hrc Hsub Hst.
  - exists (c_graph s). split_and!; try done; [by destruct s|].
    by rewrite list_to_map_nil, (left_id_L ∅ (∪)).
  - apply NoDup_cons in Hnd as [Hk Hnd].
    destruct (Hl k t) as (Ht & <- & Hnew); [apply elem_of_cons; by left|].
    destruct (add_task_acyclic (c_graph s) tasks t Hg Hsub Hac Ht Hnew) as [Hacc E].
    cbn [rebuild_graph]. unfold mbind, core_bind. rewrite E.
    destruct (IH (set_graph (linked (c_graph s) t) s)) as (g & E' & Hg' & Hrc' & Ht' & Hst').
    + done.
    + intros k' t' Hin. destruct (Hl k' t') as (H1 & H2 & H3); [apply elem_of_cons; by right|].
      split_and!; [done..|]. core_cbn. unfold linked. cbn [g_tasks].
      rewrite lookup_insert_ne; [done|]. intros <-. apply Hk.
      by apply (list_elem_of_fmap_2 fst l (ct_id t, t')).
    + by apply linked_ok.
    + by apply linked_reverse_complete.
    + core_cbn. unfold linked. cbn [g_tasks]. by apply insert_subseteq_l.
    + core_cbn. unfold linked, submitted. cbn [g_tasks g_states].
      rewrite fmap_insert. by f_equal.
    + exists g. split_and!; try done. rewrite Ht'. core_cbn. unfold linked. cbn [g_tasks].
      rewrite list_to_map_cons, <-insert_union_l. symmetry. apply insert_union_r.
      apply not_elem_of_list_to_map_1, Hk.
Qed.

(** ** Restoring the recorded states *)

Definition with_states (st : gmap Id128 TaskState) (g : TaskGraph) : TaskGraph :=
  mkTaskGraph (g_tasks g) st (g_deps g) (g_dependents g).

Lemma with_states_ok st g : dom st = dom (g_states g) → graph_ok g → graph_ok (with_states st g).
Proof. intros Hd [H1 H2 H3 H4 H5]. split; try done. cbn [with_states g_states g_tasks]. congruence. Qed.

Lemma restore_task_spec k st s :
  is_Some (g_tasks (c_graph s) !! k) → is_Some (g_states (c_graph s) !! k) →
  restore_task (k, st) s =
  (tt, set_graph (with_states (<[k := st]> (g_states (c_graph s))) (c_graph s)) s).
Proof.
  intros Ht [old Hs]. unfold restore_task, modify, has_task, restore_state. cbn [fst snd].
  rewrite bool_decide_true by done. by rewrite Hs.
Qed.

Lemma restore_loop l s :
  graph_ok (c_graph s) → NoDup l.*1 → (∀ k st, (k, st) ∈ l → is_Some (g_tasks (c_graph s) !! k)) →
  for_each l restore_task s =
  (tt, set_graph (with_states (list_to_map l ∪ g_states (c_graph s)) (c_graph s)) s).
Proof.
  revert s. induction l as [|[k st] l IH]; intros s Hg Hnd Hl.
  - rewrite list_to_map_nil, (left_id_L ∅ (∪)). by destruct s as [? ? ? ? ? ? ? ? []].
  - apply NoDup_cons in Hnd as [Hk Hnd].
    assert (Ht : is_Some (g_tasks (c_graph s) !! k)) by (apply (Hl k st), elem_of_cons; by left).
    assert (Hst : is_Some (g_states (c_graph s) !! k)).
    { apply elem_of_dom. rewrite (ok_states _ Hg). by apply elem_of_dom. }
    cbn [for_each]. unfold mbind, core_bind. rewrite restore_task_spec by done.
    rewrite IH; core_cbn; unfold with_states; cbn [g_tasks g_states g_deps g_dependents].
    + rewrite list_to_map_cons, <-insert_union_l, insert_union_r; [done|].
      by apply not_elem_of_list_to_map_1.
    + apply with_states_ok; [|done]. rewrite dom_insert_L. apply elem_of_dom in Hst. set_solver.
    + done.
    + intros k' st' Hin. apply (Hl k' st'), elem_of_cons. by right.
Qed.

(** ** Revoking authority *)

Definition recovered (t : ComputeTask) (st : TaskState) : TaskState :=
  if is_active st then
    if rp_retry_on_node_loss (ct_retry t) && (1 <? rp_max_attempts (ct_retry t))
    then TS_RetryPending else TS_Failed
  else st.

Lemma recovered_inactive t st : is_active (recovered t st) = false.
Proof. unfold recovered. destruct (is_active st) eqn:H; [by destruct (_ && _)|done]. Qed.

Lemma set_task_st_legal id st cur s :
  g_states (c_graph s) !! id = Some cur → is_legal cur st = true →
  set_task_st id st s =
  (Ok tt, set_graph (with_states (<[id := st]> (g_states (c_graph s))) (c_graph s)) s).
Proof. intros Hc Hl. unfold set_task_st, set_state. by rewrite Hc, Hl. Qed.

Lemma recover_task_graph id t st s :
  g_states (c_graph s) !! id = Some st →
  c_graph (exec (recover_task (id, t)) s) =
  with_states (<[id := recovered t st]> (g_states (c_graph s))) (c_graph s).
Proof.
  intros Hst. unfold exec, recover_task, state_of, gets, ignore, modify, now_millis, mbind,
    core_bind, mret, core_ret. unfold task_state. rewrite Hst. unfold recovered.
  destruct (is_active st) eqn:Ha; cbn [negb].
  - rewrite (set_task_st_legal id TS_Lost st) by (done || by destruct st).
    cbn [failed is_ok negb]. destruct (rp_retry_on_node_loss (ct_retry t) && _).
    + erewrite set_task_st_legal; [|core_cbn; cbn [with_states g_states]; apply lookup_insert_eq|done].
      core_cbn. unfold with_states. cbn. by rewrite insert_insert_eq.
    + erewrite set_task_st_legal; [|core_cbn; cbn [with_states g_states]; apply lookup_insert_eq|done].
      core_cbn. unfold with_states. cbn. by rewrite insert_insert_eq.
  - core_cbn. unfold with_states. rewrite insert_id by done. cbn. by destruct (c_graph s).
Qed.

Lemma recover_loop l s :
  NoDup l.*1 → (∀ k t, (k, t) ∈ l → is_Some (g_states (c_graph s) !! k)) →
  ∃ st, c_graph (exec (for_each l recover_task) s) = with_states st (c_graph s) ∧
    ∀ k, st !! k = match (list_to_map l : gmap Id128 ComputeTask) !! k with
                   | Some t => recovered t <$> g_states (c_graph s) !! k
                   | None => g_states (c_graph s) !! k
                   end.
Proof.
  revert s. induction l as [|[k t] l IH]; intros s Hnd Hl.
  - exists (g_states (c_graph s)). split; [by destruct s as [? ? ? ? ? ? ? ? []]|].
    intros k. by rewrite list_to_map_nil, lookup_empty.
  - apply NoDup_cons in Hnd as [Hk Hnd].
    destruct (Hl k t) as [cur Hcur]; [apply elem_of_cons; by left|].
    pose proof (recover_task_graph k t cur s Hcur) as Eg. unfold exec in Eg.
    cbn [for_each]. unfold exec, mbind, core_bind.
    destruct (recover_task (k, t) s) as [[] s1]. cbn [snd] in Eg.
    destruct (IH s1) as (st & E & Hst); [done| |].
    + intros k' t' Hin. rewrite Eg. cbn [with_states g_states]. apply lookup_insert_is_Some'. right.
      apply (Hl k' t'), elem_of_cons. by right.
    + exists st. split; [unfold exec in E; by rewrite E, Eg|]. intros k'. rewrite Hst, Eg.
      cbn [with_states g_states]. rewrite list_to_map_cons.
      destruct (decide (k' = k)) as [->|Hne].
      * rewrite !lookup_insert_eq, not_elem_of_list_to_map_1, Hcur by done. done.
      * by rewrite !lookup_insert_ne.
Qed.

(** The members recovery does not touch while it revokes authority. *)
Definition kept (s : Coordinator) :=
  (c_config s, c_world s, c_durable s, c_store s, c_attempts s, c_reservations s, c_nodes s,
   c_node_conns s).

Lemma set_task_st_kept v id st : preserves (λ s, kept s = v) (set_task_st id st).
Proof. intros s Hs. unfold set_task_st. by destruct (set_state _ _ _). Qed.

Lemma recover_task_kept v kv : preserves (λ s, kept s = v) (recover_task kv).
Proof.
  unfold recover_task, state_of. destruct kv as [id t].
  repeat first [apply set_task_st_kept | core_step | by intros s Hs].
Qed.

(** Only an interrupted task gets a time for its retry. *)
Definition no_retry (k : Id128) (s : Coordinator) : Prop :=
  c_retry_ready_at s !! k = None ∧ is_active (task_state (c_graph s) k) = false.

Lemma set_task_st_no_retry k id st : id ≠ k → preserves (no_retry k) (set_task_st id st).
Proof.
  intros Hne s [Hr Hst]. unfold set_task_st. destruct (set_state_cases (c_graph s) id st)
    as [E|(cur & _ & _ & E)]; destruct (set_state _ _ _) as [g r].
  - cbn [fst] in E. by subst g.
  - injection E as -> ->. split; [done|]. revert Hst. unfold task_state. core_cbn. cbn [snd].
    core_cbn. cbn [g_states]. by rewrite lookup_insert_ne.
Qed.

Lemma recover_task_no_retry k kv : preserves (no_retry k) (recover_task kv).
Proof.
  destruct kv as [id t]. destruct (decide (id = k)) as [->|Hne].
  - intros s [Hr Hst]. unfold recover_task, state_of, gets, mbind, core_bind. cbv beta iota.
    by rewrite Hst.
  - unfold recover_task, state_of.
    repeat first [by apply set_task_st_no_retry | core_step | by intros s Hs
      | apply preserves_modify; intros s [Hr Hst]; split; core_cbn; by rewrite ?lookup_insert_ne].
Qed.

(** ** What a store must satisfy to be recovered *)

Record recoverable (d : DurableState) : Prop := {
  rd_keys : ∀ k t, ds_tasks d !! k = Some t → ct_id t = k;
  rd_acyclic : acyclic_tasks (ds_tasks d);
  rd_closed : ∀ x t y, ds_tasks d !! x = Some t → y ∈ ct_dependencies t →
    is_Some (ds_tasks d !! y);
  rd_states : dom (ds_task_states d) = dom (ds_tasks d);
  rd_attempts : map_Forall (λ tid l,
    Forall (λ a, at_task_id a = tid ∧ at_committed a = true) l) (ds_attempts d)
}.

(** The state recovery leads to, from a new coordinator. *)
Record recovery (d : DurableState) (s s' : Coordinator) : Prop := {
  rc_ok : core_ok (ds_epoch (bump_epoch d)) s';
  rc_tasks : g_tasks (c_graph s') = ds_tasks d;
  rc_states : ∀ k, g_states (c_graph s') !! k =
    t ← ds_tasks d !! k; recovered t <$> ds_task_states d !! k;
  rc_attempts : c_attempts s' = ds_attempts d;
  rc_store : c_store s' = c_store s;
  rc_reservations : c_reservations s' = ∅;
  rc_retry : ∀ k st, ds_task_states d !! k = Some st → is_active st = false →
    c_retry_ready_at s' !! k = None
}.

Definition blank (s : Coordinator) : Prop :=
  c_graph s = empty_graph ∧ c_reservations s = ∅ ∧ c_nodes s = ∅ ∧
  c_placement_records s = ∅ ∧ c_conns s = ∅ ∧ c_retry_ready_at s = ∅.

Lemma rebuilt_graph d s :
  recoverable d → c_graph s = empty_graph →
  ∃ g, rebuild_graph (in_order (ds_tasks d)) s = (Ok tt, set_graph g s) ∧
    graph_ok g ∧ reverse_complete g ∧ g_tasks g = ds_tasks d ∧ g_states g = submitted (ds_tasks d).
Proof.
  intros [Hkeys Hac _ _ _] Hg. destruct empty_graph_ok as [H1 H2].
  destruct (rebuild_graph_spec (ds_tasks d) (in_order (ds_tasks d)) s) as (g & E & Hok & Hrc & Ht & Hst);
    rewrite ?Hg; try done.
  - apply NoDup_in_order_keys.
  - intros k t Hin. apply elem_of_in_order in Hin. split_and!; [done|by apply Hkeys|done].
  - apply map_empty_subseteq.
  - exists g. assert (Et : g_tasks g = ds_tasks d).
    { rewrite Ht, Hg, list_to_map_in_order. apply map_union_empty. }
    split_and!; try done. by rewrite Hst, Et.
Qed.

(** The states after the restore loop are the recorded ones. *)
Lemma restored_graph d g :
  recoverable d → graph_ok g → g_tasks g = ds_tasks d → g_states g = submitted (ds_tasks d) →
  with_states (list_to_map (in_order (ds_task_states d)) ∪ g_states g) g =
  with_states (ds_task_states d) g ∧ graph_ok (with_states (ds_task_states d) g).
Proof.
  intros Hd Hok Ht Hs. split.
  - unfold with_states. f_equal. rewrite list_to_map_in_order, Hs. apply map_eq. intros k.
    rewrite lookup_union. unfold submitted. rewrite lookup_fmap.
    destruct (ds_task_states d !! k) eqn:Hk; [by rewrite union_Some_l|].
    assert (ds_tasks d !! k = None) as ->; [|done].
    apply not_elem_of_dom. rewrite <-(rd_states d Hd). by apply not_elem_of_dom.
  - apply with_states_ok; [|done]. rewrite (ok_states g Hok), Ht. apply (rd_states d Hd).
Qed.

(** Just before authority is revoked. *)
Definition restored (d : DurableState) (g : TaskGraph) (s : Coordinator) : Coordinator :=
  set_last_placements (foldl (λ m sp, <[sp_task_id sp := sp_decision sp]> m) ∅ (ds_placements d))
    (set_attempts (ds_attempts d)
       (set_graph (with_states (ds_task_states d) g) (set_durable (bump_epoch d) s))).

Lemma restored_ok d g s :
  recoverable d → blank s → graph_ok (with_states (ds_task_states d) g) → reverse_complete g →
  g_tasks g = ds_tasks d → core_ok (ds_epoch (bump_epoch d)) (restored d g s).
Proof.
  intros Hd (Hg & Hr & Hn & Hp & Hc & _) Hok Hrc Ht. unfold restored. split; core_cbn; try done.
  - intros x t y. cbn [with_states g_tasks]. rewrite Ht. apply (rd_closed d Hd).
  - by rewrite Hn.
  - intros tid l Hl. eapply Forall_impl; [by apply (rd_attempts d Hd tid l Hl)|].
    intros a [H1 H2]. split; [done|]. congruence.
  - by rewrite Hr.
  - by rewrite Hp.
  - by rewrite Hc.
Qed.

Lemma recover_run d s :
  recoverable d → c_graph s = empty_graph →
  ∃ g, graph_ok (with_states (ds_task_states d) g) ∧ reverse_complete g ∧
    g_tasks g = ds_tasks d ∧
    recover d s = (Ok tt, exec (for_each (in_order (ds_tasks d)) recover_task) (restored d g s)).
Proof.
  intros Hd Hg. destruct (rebuilt_graph d (set_durable (bump_epoch d) s) Hd Hg)
    as (g & E & Hok & Hrc & Ht & Hs0).
  destruct (restored_graph d g Hd Hok Ht Hs0) as [Eg Hok']. exists g. split_and!; try done.
  unfold recover. erewrite core_bind_eq by done. erewrite core_bind_eq by exact E.
  cbv beta iota. erewrite core_bind_eq.
  2: { apply restore_loop; core_cbn; [done|apply NoDup_in_order_keys|].
       intros k st Hin. apply elem_of_in_order, elem_of_dom_2 in Hin. rewrite Ht.
       apply elem_of_dom. by rewrite <-(rd_states d Hd). }
  core_cbn. rewrite Eg. erewrite core_bind_eq by done. erewrite core_bind_eq by done.
  erewrite core_bind_eq; [done|]. apply exec_unit.
Qed.

Lemma recover_spec d s :
  recoverable d → blank s → (recover d s).1 = Ok tt ∧ recovery d s (recover d s).2.
Proof.
  intros Hd Hb. destruct (recover_run d s Hd (proj1 Hb)) as (g & Hok & Hrc & Ht & ->).
  split; [done|]. cbn [snd]. set (s1 := restored d g s).
  assert (H1 : core_ok (ds_epoch (bump_epoch d)) s1) by (by apply restored_ok).
  assert (Hkept : kept (exec (for_each (in_order (ds_tasks d)) recover_task) s1) = kept s1).
  { apply (preserves_for_each (λ s, kept s = kept s1)); [|done]. intros kv _. apply recover_task_kept. }
  destruct (recover_loop (in_order (ds_tasks d)) s1) as (st & Eg & Hst).
  - apply NoDup_in_order_keys.
  - intros k t Hin. apply elem_of_in_order, elem_of_dom_2 in Hin.
    apply elem_of_dom. unfold s1, restored. core_cbn. cbn [with_states g_states].
    by rewrite (rd_states d Hd).
  - injection Hkept as _ _ _ K4 K5 K6 _ _. split.
    + apply (preserves_for_each (core_ok _)); [|done]. intros [k t] _. unfold recover_task. solve_core.
    + rewrite Eg. exact Ht.
    + intros k. rewrite Eg. cbn [with_states g_states]. rewrite Hst, list_to_map_in_order.
      unfold s1, restored. core_cbn. cbn [with_states g_states].
      destruct (ds_tasks d !! k) as [t|] eqn:Hk; [done|]. apply not_elem_of_dom.
      rewrite (rd_states d Hd). by apply not_elem_of_dom.
    + rewrite K5. done.
    + rewrite K4. done.
    + rewrite K6. unfold s1, restored. core_cbn. apply Hb.
    + intros k st' Hk Hact.
      apply (preserves_for_each (no_retry k)); [intros kv _; apply recover_task_no_retry|].
      unfold s1, restored, no_retry. core_cbn. unfold task_state. cbn [with_states g_states].
      rewrite Hk. split; [|done]. destruct Hb as (_ & _ & _ & _ & _ & ->). apply lookup_empty.
Qed.

(** ** Starting *)

Definition store_file (config : CoordinatorConfig) : string :=
  cfg_store_dir config +:+ "/coordinator.store".

Lemma persist_graph s : c_graph (exec persist s) = c_graph s.
Proof.
  unfold exec, persist, mbind, core_bind, modify, save_durable. core_cbn.
  destruct (c_store s); [|done]. by destruct (store_save _ _ _ _).
Qed.
Lemma persist_kept s :
  c_attempts (exec persist s) = c_attempts s ∧ c_reservations (exec persist s) = c_reservations s ∧
  c_store (exec persist s) = c_store s ∧ c_retry_ready_at (exec persist s) = c_retry_ready_at s.
Proof.
  unfold exec, persist, mbind, core_bind, modify, save_durable. core_cbn.
  destruct (c_store s) eqn:E; [|done]. destruct (store_save _ _ _ _). by core_cbn.
Qed.

(** A started coordinator: recovery has succeeded and was recorded. *)
Record started (d : DurableState) (config : CoordinatorConfig) (s : Coordinator) : Prop := {
  sd_clean : clean (ds_epoch (bump_epoch d)) s;
  sd_tasks : g_tasks (c_graph s) = ds_tasks d;
  sd_states : ∀ k, g_states (c_graph s) !! k =
    t ← ds_tasks d !! k; recovered t <$> ds_task_states d !! k;
  sd_attempts : c_attempts s = ds_attempts d;
  sd_reservations : c_reservations s = ∅;
  sd_store : c_store s = Some (store_file config);
  sd_retry : ∀ k st, ds_task_states d !! k = Some st → is_active st = false →
    c_retry_ready_at s !! k = None
}.

(** Loading [d] leads to a started coordinator. *)
Lemma start_loaded config world files d :
  let s0 := new_coordinator config world files in
  let s1 := exec (open_store true) s0 in
  (open_store true s0).1 = Ok (store_file config) →
  store_load (c_files s1) (store_file config) = Ok d → recoverable d →
  (start true (Ok tt) s0).1 = Ok tt ∧ started d config (start true (Ok tt) s0).2.
Proof.
  intros s0 s1 Hopen Hload Hd. set (s2 := set_store (Some (store_file config)) s1).
  assert (Hblank : blank s2).
  { unfold s2, s1, exec, open_store. by destruct (store_open _ _ _ _ _). }
  destruct (recover_spec d s2 Hd Hblank) as [Hr Hrec].
  assert (E : start true (Ok tt) s0 =
              (Ok tt, set_core_running true (exec persist (recover d s2).2))).
  { unfold start. erewrite core_bind_eq.
    2: { rewrite (surjective_pairing (open_store true s0)), Hopen. done. }
    cbv beta iota. erewrite core_bind_eq by done. erewrite core_bind_eq by done.
    change (set_store (Some (store_file config)) (open_store true s0).2) with s2.
    change (c_files s2) with (c_files s1). rewrite Hload. cbv beta iota.
    erewrite core_bind_eq.
    2: { rewrite (surjective_pairing (recover d s2)), Hr. done. }
    cbv beta iota. erewrite core_bind_eq by apply exec_unit.
    by erewrite core_bind_eq by done. }
  rewrite E. cbn [fst snd]. split; [done|]. destruct Hrec as [Hok Ht Hst Ha Hs Hres Hrt].
  destruct (persist_kept (recover d s2).2) as (K1 & K2 & K3 & K4).
  pose proof (persist_graph (recover d s2).2) as Kg.
  destruct (persist_clean _ _ Hok) as [Hok' Hm].
  split; core_cbn.
  - split; [destruct Hok'|destruct Hm]; split; core_cbn; assumption.
  - rewrite Kg. exact Ht.
  - intros k. rewrite Kg. apply Hst.
  - rewrite K1. exact Ha.
  - rewrite K2. exact Hres.
  - rewrite K3. exact Hs.
  - intros k st Hk Hact. rewrite K4. by apply (Hrt k st).
Qed.

(** A state between commands can always be recovered. *)
Lemma graph_acyclic g : graph_ok g → acyclic_tasks (g_tasks g).
Proof.
  intros Hg x. pose proof (ok_acyclic g Hg x) as Hacc. induction Hacc as [x _ IH].
  constructor. intros y (t & Ht & Hy). apply IH. unfold edge.
  rewrite (proj2 (ok_deps g Hg x t Ht)). by apply elem_of_list_to_set.
Qed.

Lemma committed_forall e s :
  core_ok e s → map_Forall (λ tid l, Forall (λ a, at_task_id a = tid ∧ at_committed a = true) l)
    (committed_attempts (c_attempts s)).
Proof.
  intros Hs tid l Hl. rewrite committed_lookup in Hl.
  destruct (c_attempts s !! tid) as [l0|] eqn:H0; cbn [default] in Hl; [|done].
  assert (l = committed_of l0) as -> by (unfold id in Hl; by destruct (committed_of l0); simplify_eq).
  pose proof (ck_attempts e s Hs tid l0 H0) as Hall. rewrite Forall_forall in Hall.
  apply Forall_forall. intros a Ha. apply list_elem_of_filter in Ha as [Hc Ha].
  split; [by apply Hall|done].
Qed.

Lemma clean_recoverable e s : clean e s → recoverable (c_durable s).
Proof.
  intros [Hok [Ht Hs Ha _]]. pose proof (ck_graph e s Hok) as Hg. split; rewrite ?Ht, ?Hs, ?Ha.
  - intros k t Hk. by apply (ok_deps _ Hg k t).
  - by apply graph_acyclic.
  - apply Hok.
  - apply (ok_states _ Hg).
  - by eapply committed_forall.
Qed.

(** ** Reachable coordinators *)

(** A process started on the files [files]. *)
Definition boot (config : CoordinatorConfig) (world : World) (files : FileSystem)
    : Result unit * Coordinator :=
  start true (Ok tt) (new_coordinator config world files).

(** The last write of the store succeeded, and what was written is within the
    limits of the format. *)
Record stored (s : Coordinator) (config : CoordinatorConfig) : Prop := {
  so_path : c_store s = Some (store_file config);
  so_done : ∃ n, c_saves s = S n ∧ w_disk (c_world s) n = W_Done;
  so_wf : durable_wf (c_durable s);
  so_limits : within_limits (c_durable s)
}.

Inductive reachable : Coordinator → Prop :=
| reach_fresh config world files :
    files !! store_file config = None →
    (boot config world files).1 = Ok tt → reachable (boot config world files).2
| reach_event s ev : reachable s → reachable (exec (event ev) s)
| reach_restart s config world :
    reachable s → stored s config → reachable (boot config world (c_files s)).2.

Lemma empty_durable_wf : durable_wf empty_durable ∧ within_limits empty_durable.
Proof.
  split; [split; done|]. split; vm_compute; discriminate.
Qed.

Lemma empty_recoverable : recoverable empty_durable.
Proof.
  split; cbn [empty_durable ds_tasks ds_task_states ds_attempts].
  - intros k t Ht. by rewrite lookup_empty in Ht.
  - intros x. constructor. intros y (t & Ht & _). by rewrite lookup_empty in Ht.
  - intros x t y Ht. by rewrite lookup_empty in Ht.
  - by rewrite !dom_empty_L.
  - intros k l Hl. by rewrite lookup_empty in Hl.
Qed.

Lemma boot_fresh config world files :
  files !! store_file config = None → (boot config world files).1 = Ok tt →
  started empty_durable config (boot config world files).2.
Proof.
  intros Hnone Hok. assert (Hw : w_disk world 0 = W_Done).
  { revert Hok. unfold boot, start, open_store, store_open. cbn [negb].
    unfold mbind, core_bind. core_cbn. cbn [new_coordinator c_files c_config c_world c_saves].
    fold (store_file config). rewrite Hnone. unfold store_save, write_file_atomic.
    by destruct (w_disk world 0). }
  apply (start_loaded config world files empty_durable).
  - unfold open_store, store_open. cbn [new_coordinator c_files c_config c_world c_saves negb].
    fold (store_file config). rewrite Hnone, Hw. done.
  - unfold exec, open_store, store_open. cbn [new_coordinator c_files c_config c_world c_saves negb].
    fold (store_file config). rewrite Hnone, Hw. unfold store_save, write_file_atomic.
    cbn [result_bind snd]. core_cbn. unfold store_load. rewrite lookup_insert_eq.
    apply parse_encode_store; apply empty_durable_wf.
  - apply empty_recoverable.
Qed.

Lemma boot_stored e s config world :
  clean e s → stored s config →
  (boot config world (c_files s)).1 = Ok tt ∧
  started (c_durable s) config (boot config world (c_files s)).2.
Proof.
  intros Hs [Hpath (n & Hn & Hw) Hwf Hlim].
  pose proof (mi_file s (proj2 Hs) _ _ Hpath Hn Hw) as Hfile.
  apply start_loaded.
  - unfold open_store, store_open. cbn [new_coordinator c_files c_config c_world c_saves negb].
    fold (store_file config). by rewrite Hfile.
  - unfold exec, open_store, store_open. cbn [new_coordinator c_files c_config c_world c_saves negb].
    fold (store_file config). rewrite Hfile. cbn [snd]. core_cbn.
    unfold store_load. cbn [new_coordinator c_files]. rewrite Hfile. by apply parse_encode_store.
  - by eapply clean_recoverable.
Qed.

Lemma reachable_clean s : reachable s → ∃ e, clean e s.
Proof.
  induction 1 as [config world files Hnone Hok|s ev _ [e Hs]|s config world _ [e Hs] Hst].
  - eexists. by eapply sd_clean, boot_fresh.
  - exists e. by apply event_clean.
  - eexists. eapply (sd_clean _ config). by eapply boot_stored.
Qed.
