(* ===== verification/CoordProps.v ===== *)
(** * CoordProps: the coordinator's promises

    Claims about reachable coordinators, their witnesses, and a sample run that
    goes through the protocol: frames in, commands, sweeps, frames out. *)

From S2P Require Import Prelude Status Ids Digest Float64 Task Lifecycle Dag Reservation Placement.
From S2P Require Import Wire Frame Serialize Messages Store Locality Scheduler Outbound CoordState.
From S2P Require Import CoordNodes CoordAttempts CoordSched CoordClient Coordinator.
From S2P Require Import CoordInv CoordDurable CoordRecovery.

Local Open Scope Z_scope.

(** ** A sample run *)

(** A clock that advances by a millisecond per reading, distinct identifiers, a disk
    that works. *)
Definition sample_world : World :=
  mkWorld (λ n, Z.of_nat n) (λ n, mkId 9 (1 + Z.of_nat n)) (λ _, W_Done).
Definition sample_config : CoordinatorConfig := default_config "d".

Definition node_conn : ConnRef := 0%nat.
Definition client_conn : ConnRef := 1%nat.
Definition sample_node : Id128 := mkId 0 7.
Definition sample_client : Id128 := mkId 0 50.

Definition peer_frame (kind : SenderKind) (m : Message) : Frame :=
  make_frame (message_type m) kind id_zero 1 (serialize_message m).

(** A message of the node or of the client, up to its handling. *)
Definition from_node (m : Message) : list Event :=
  [E_NodeFrame node_conn (mkNodeReader true sample_node) (Ok (peer_frame SK_Node m)); E_Command].
Definition from_client (m : Message) : list Event :=
  [E_ClientFrame client_conn (Ok (peer_frame SK_Client m)); E_Command].

Definition connect : list Event :=
  [E_Accept node_conn id_zero; E_Accept client_conn sample_client;
   E_ClientHello client_conn sample_client
     (peer_frame SK_Client (MHello (mkHello kProtocolVersion "client"))); E_Command].

Definition sample_register : list Event :=
  from_node (MNodeRegister (mkNodeRegister sample_node "n" "a" (cpu_capacity 4))).
Definition sample_submit (id : Id128) (deps : list Id128) : list Event :=
  from_client (MTaskSubmit (mkTaskSubmit (mkId 0 40) "w" (default_task id deps))).

Definition booted : Coordinator := (boot sample_config sample_world ∅).2.

Lemma booted_reachable : reachable booted.
Proof. apply reach_fresh; [apply lookup_empty|vm_compute; reflexivity]. Qed.

Lemma run_reachable evs s : reachable s → reachable (run evs s).
Proof.
  unfold run. revert s. induction evs as [|ev evs IH]; intros s Hs; [done|].
  cbn [foldl]. by apply IH, reach_event.
Qed.

(** Two tasks submitted, the second waiting for the first. *)
Definition submitted_run : Coordinator :=
  run (connect ++ sample_submit (mkId 0 1) [] ++ sample_submit (mkId 0 2) [mkId 0 1]) booted.

(** The same with a node, after the sweep that dispatches the first task. *)
Definition dispatched_run : Coordinator :=
  run (connect ++ sample_register ++ sample_submit (mkId 0 1) []
       ++ sample_submit (mkId 0 2) [mkId 0 1] ++ [E_Sweep]) booted.

Lemma sample_states :
  map (task_state (c_graph submitted_run)) [mkId 0 1; mkId 0 2] = [TS_Ready; TS_Blocked] ∧
  map (task_state (c_graph dispatched_run)) [mkId 0 1; mkId 0 2] = [TS_Dispatching; TS_Blocked].
Proof. split; vm_compute; reflexivity. Qed.

Lemma submitted_reachable : reachable submitted_run.
Proof. apply run_reachable, booted_reachable. Qed.
Lemma dispatched_reachable : reachable dispatched_run.
Proof. apply run_reachable, booted_reachable. Qed.

(** ** Claims *)

(** C1: the coordinator's invariant.  In every reachable coordinator, whatever
    the interleaving of requests, sweeps, network events, crashes and restarts:
    the task graph is well formed and acyclic, every dependency of a task is a
    known task and is inverted exactly; every attempt is filed under its task and,
    unless committed, carries the current epoch, as does every reservation; and
    every connection's output is within its bounds. *)
Theorem coordinator_invariant (s : Coordinator) :
  reachable s →
  graph_ok (c_graph s) ∧ reverse_complete (c_graph s) ∧ closed (c_graph s) ∧
  (∀ tid l a, c_attempts s !! tid = Some l → a ∈ l →
     at_task_id a = tid ∧
     (at_committed a = false → at_coordinator_epoch a = ds_epoch (c_durable s))) ∧
  (∀ rid r, c_reservations s !! rid = Some r →
     rv_id r = rid ∧ rv_coordinator_epoch r = ds_epoch (c_durable s)) ∧
  (∀ ref c, c_conns s !! ref = Some c → conn_ok c).
Proof.
  intros [e [Hok _]]%reachable_clean. pose proof (ck_epoch e s Hok) as ->.
  split_and!; [apply Hok..| |apply Hok|apply Hok].
  intros tid l a Hl Ha. pose proof (ck_attempts _ s Hok tid l Hl) as Hall.
  rewrite Forall_forall in Hall. by apply Hall.
Qed.



Lemma coordinator_invariant_witness : conn_ok (new_conn sample_client) ∧ graph_ok (c_graph dispatched_run).
Proof.
  split; [apply new_conn_ok|]. apply (coordinator_invariant dispatched_run dispatched_reachable).
Defined.

Lemma submitted_stored : stored submitted_run sample_config.
Proof.
  assert (E : c_durable submitted_run =
    mkDurableState 2 {[mkId 0 40 := mkWorkload (mkId 0 40) "w" ∅]}
      (<[mkId 0 1 := default_task (mkId 0 1) []]> {[mkId 0 2 := default_task (mkId 0 2) [mkId 0 1]]})
      (<[mkId 0 1 := TS_Ready]> {[mkId 0 2 := TS_Blocked]}) ∅ ∅ []) by (vm_compute; reflexivity).
  split.
  - vm_compute. reflexivity.
  - exists 3%nat. split; vm_compute; reflexivity.
  - rewrite E. split; cbn [ds_epoch ds_workloads ds_tasks ds_task_states ds_attempts
      ds_retry_counts ds_placements].
    + range_solve.
    + apply map_Forall_singleton. split; [done|]. unfold workload_wf. split_and?; wf_field.
    + apply map_Forall_insert_2; [|apply map_Forall_singleton]; (split; [done|]);
        unfold task_wf, retry_policy_wf; split_and?; wf_field.
    + apply map_Forall_insert_2; [|apply map_Forall_singleton]; split; wf_field.
    + apply map_Forall_empty.
    + apply map_Forall_empty.
    + constructor.
  - split; vm_compute; discriminate.
Qed.


