(* ===== verification/CoordReadiness.v ===== *)
(** * CoordReadiness: what the success of a task triggers

    The recursion of [on_task_succeeded_recursive] returns, and its effect is
    exactly to make ready the blocked dependents whose dependencies have all
    succeeded. *)

From S2P Require Import Prelude Status Ids Digest Float64 Task Lifecycle Dag Reservation Placement.
From S2P Require Import Wire Frame Serialize Messages Store Locality Scheduler Outbound CoordState.
From S2P Require Import CoordNodes CoordAttempts CoordSched CoordClient Coordinator.
From S2P Require Import CoordInv CoordDurable CoordRecovery CoordProps.

Local Open Scope Z_scope.

(** ** The shape of the graph does not change *)

Definition shape (g : TaskGraph) := (g_tasks g, g_deps g, g_dependents g).

Lemma set_task_st_shape v id st : preserves (λ s, shape (c_graph s) = v) (set_task_st id st).
Proof.
  intros s Hs. unfold set_task_st. destruct (set_state_cases (c_graph s) id st)
    as [E|(cur & _ & _ & E)]; destruct (set_state _ _ _) as [g r].
  - cbn [fst] in E. by subst g.
  - by injection E as -> ->.
Qed.

Ltac shape_tac :=
  repeat first [apply set_task_st_shape | core_step | by intros ? ?].

Lemma make_ready_shape v dep : preserves (λ s, shape (c_graph s) = v) (make_ready dep).
Proof. unfold make_ready. shape_tac. Qed.

Lemma propagate_shape v fuel id : preserves (λ s, shape (c_graph s) = v) (propagate fuel id).
Proof.
  revert id. induction fuel as [|fuel IH]; intros id; cbn [propagate]; [by intros s Hs|].
  apply preserves_bind; [by intros s Hs|]. intros deps.
  induction deps as [|dep deps IHd]; cbn [propagate_loop]; [by intros s Hs|].
  apply preserves_bind; [apply make_ready_shape|intros _].
  apply preserves_bind; [by intros s Hs|intros poisoned].
  apply preserves_bind; [destruct poisoned; shape_tac; apply IH|intros returned].
  apply preserves_bind; [apply IHd|intros rest]. by intros s Hs.
Qed.

(** ** The recursion returns *)

Section depth.
Context (T : gmap Id128 ComputeTask) (D R : gmap Id128 (gset Id128)).
Context (Hdom : ∀ x y, x ∈ at_default R y → x ∈ dom T ∧ edge D x y).
Context (Hac : ∀ x, Acc (λ y x, edge D x y) x).

Abbreviation shaped := (λ s, shape (c_graph s) = (T, D, R)).

(** A chain of dependents, the last one first. *)
Definition chain (id : Id128) (path : list Id128) : Prop :=
  NoDup path ∧ ∀ p, p ∈ path → rtc (edge D) id p.

Lemma chain_extend id path x :
  chain id path → edge D x id → chain x (x :: path).
Proof using Hac.
  intros [Hnd Hp] Hx. split.
  - apply NoDup_cons. split; [|done]. intros Hin. apply (Acc_no_cycle _ x (Hac x) x); [apply rtc_refl|].
    eapply tc_rtc_r; [by apply tc_once|by apply Hp].
  - intros p [->|Hin]%elem_of_cons; [apply rtc_refl|]. eapply rtc_l; [done|by apply Hp].
Qed.

Lemma propagate_loop_returns recurse deps :
  (∀ dep, dep ∈ deps → hoare shaped (recurse dep) (λ b s, b = true ∧ shaped s)) →
  hoare shaped (propagate_loop recurse deps) (λ b s, b = true ∧ shaped s).
Proof using.
  induction deps as [|dep deps IH]; intros Hrec; cbn [propagate_loop]; [by intros s Hs|].
  eapply hoare_bind; [apply make_ready_shape|intros []].
  eapply hoare_bind; [apply preserves_gets|intros poisoned].
  eapply (hoare_bind _ _ _ (λ b s, b = true ∧ shaped s)).
  - destruct poisoned; [|by intros s Hs].
    do 2 (eapply hoare_bind; [apply preserves_ignore, set_task_st_shape|intros []]).
    apply Hrec, elem_of_cons. by left.
  - intros b s [-> Hs].
    assert (H : (propagate_loop recurse deps s).1 = true ∧ shaped (propagate_loop recurse deps s).2).
    { apply IH; [|done]. intros d Hd. apply Hrec, elem_of_cons. by right. }
    unfold mbind, core_bind. destruct (propagate_loop recurse deps s) as [b s'].
    cbn [fst snd] in H. by destruct H as [-> H].
Qed.

Lemma propagate_depth fuel id path first :
  chain id path → (∀ p, p ∈ path → p = first ∨ p ∈ dom T) → id ∈ path →
  (S (size T) < fuel + length path)%nat →
  hoare shaped (propagate fuel id) (λ b s, b = true ∧ shaped s).
Proof using Hdom Hac.
  revert id path. induction fuel as [|fuel IH]; intros id path Hc Hin Hid Hlen.
  - exfalso. destruct Hc as [Hnd _].
    assert (Hsub : list_to_set path ⊆@{gset Id128} {[first]} ∪ dom T).
    { intros p Hp%elem_of_list_to_set. destruct (Hin p Hp) as [->|?]; set_solver. }
    apply subseteq_size in Hsub. rewrite size_list_to_set in Hsub by done.
    pose proof (size_union_alt ({[first]} : gset Id128) (dom T)) as Hu. rewrite size_singleton in Hu.
    pose proof (subseteq_size (dom T ∖ {[first]}) (dom T) ltac:(set_solver)) as Hle.
    rewrite size_dom in Hle. lia.
  - cbn [propagate]. intros s Hs. unfold mbind, core_bind, gets.
    assert (Hdeps : ∀ dep, dep ∈ dependents (c_graph s) id → dep ∈ dom T ∧ edge D dep id).
    { intros dep Hd%elem_of_dependents. apply Hdom.
      unfold shape in Hs. injection Hs as _ _ <-. exact Hd. }
    revert s Hs Hdeps. intros s Hs Hdeps. apply propagate_loop_returns; [|done].
    intros dep Hd. destruct (Hdeps dep Hd) as [HT He].
    apply (IH dep (dep :: path)).
    + by apply (chain_extend id).
    + intros p [->|Hp]%elem_of_cons; [by right|by apply Hin].
    + apply elem_of_cons. by left.
    + cbn [length]. lia.
Qed.
End depth.

Lemma propagate_returns_ok s id :
  graph_ok (c_graph s) → (propagate (S (size (g_tasks (c_graph s)))) id s).1 = true.
Proof.
  intros Hg. refine (proj1 (propagate_depth (g_tasks (c_graph s)) (g_deps (c_graph s))
    (g_dependents (c_graph s)) _ _ _ id [id] id _ _ _ _ s eq_refl)).
  - intros x y Hx. apply (ok_reverse _ Hg) in Hx. split; [by eapply edge_dom|done].
  - apply (ok_acyclic _ Hg).
  - split; [apply NoDup_singleton|]. intros p ->%list_elem_of_singleton. apply rtc_refl.
  - intros p ->%list_elem_of_singleton. by left.
  - by apply list_elem_of_singleton.
  - cbn [length]. lia.
Qed.

(** ** Its effect *)

Lemma set_graph_same s : set_graph (c_graph s) s = s.
Proof. by destruct s. Qed.

(** A refused transition leaves the coordinator as it is. *)
Lemma set_task_st_refused id st s :
  is_legal (task_state (c_graph s) id) st = false → exec (set_task_st id st) s = s.
Proof.
  unfold task_state, exec, set_task_st, set_state. destruct (g_states (c_graph s) !! id) as [cur|].
  - intros ->. cbn [negb snd]. apply set_graph_same.
  - intros _. cbn [snd]. apply set_graph_same.
Qed.

Definition unblockable (g : TaskGraph) (dep : Id128) : bool :=
  bool_decide (task_state g dep = TS_Blocked) && dependencies_satisfied g dep.

Lemma make_ready_idle dep s : unblockable (c_graph s) dep = false → exec (make_ready dep) s = s.
Proof.
  unfold unblockable, exec, make_ready, mbind, core_bind, gets. by intros ->.
Qed.

(** A task with a dependency that has not succeeded is not made ready. *)
Lemma unsatisfied g x d :
  graph_ok g → x ∈ dependents g d → task_state g d ≠ TS_Succeeded →
  dependencies_satisfied g x = false.
Proof.
  intros Hg Hx%elem_of_dependents%(ok_reverse g Hg) Hd. unfold edge, at_default in Hx.
  unfold dependencies_satisfied. destruct (g_deps g !! x) as [X|]; cbn [default] in Hx; [|set_solver].
  apply not_true_is_false. rewrite forallb_forall. intros Hall.
  specialize (Hall d). rewrite <-list_elem_of_In, elem_of_set_in_order in Hall.
  unfold task_state in Hd. destruct (g_states g !! d) as [[]|]; naive_solver.
Qed.

(** The branch for poisoned tasks: both transitions are refused, because the
    lifecycle has no way from [Blocked] or [Submitted] to [Lost] or [Failed]. *)
Definition poisoned_branch (recurse : Id128 → Core bool) (dep : Id128) (poisoned : bool) : Core bool :=
  if poisoned then ignore (set_task_st dep TS_Lost) ;; ignore (set_task_st dep TS_Failed) ;; recurse dep
  else mret true.

Lemma poisoned_branch_idle recurse dep s :
  (task_state (c_graph s) dep ≠ TS_Succeeded → exec (recurse dep) s = s) →
  ∃ b, poisoned_branch recurse dep (poisoned_now s dep) s = (b, s).
Proof.
  intros Hrec. unfold poisoned_branch. destruct (poisoned_now s dep) eqn:Hp; [|by exists true].
  assert (Hst : task_state (c_graph s) dep = TS_Blocked ∨ task_state (c_graph s) dep = TS_Submitted).
  { unfold poisoned_now in Hp. apply andb_true_iff in Hp as [_ Hp].
    apply orb_true_iff in Hp as [Hp|Hp]; apply bool_decide_eq_true in Hp; auto. }
  assert (Hno : ∀ st, st = TS_Lost ∨ st = TS_Failed → ignore (set_task_st dep st) s = (tt, s)).
  { intros st Hfail. rewrite exec_unit. f_equal. transitivity (exec (set_task_st dep st) s).
    - unfold exec, ignore, mbind, core_bind. by destruct (set_task_st dep st s).
    - apply set_task_st_refused. by destruct Hst as [->| ->], Hfail as [->| ->]. }
  rewrite (core_bind_eq _ _ s tt s) by auto. rewrite (core_bind_eq _ _ s tt s) by auto.
  exists (recurse dep s).1. rewrite (surjective_pairing (recurse dep s)) at 1.
  f_equal. apply Hrec. by destruct Hst as [->| ->].
Qed.

(** So the loop only makes tasks ready. *)
Lemma propagate_loop_effect recurse deps s :
  (∀ s dep, graph_ok (c_graph s) → task_state (c_graph s) dep ≠ TS_Succeeded →
     exec (recurse dep) s = s) →
  graph_ok (c_graph s) →
  exec (propagate_loop recurse deps) s = exec (for_each deps make_ready) s.
Proof.
  intros Hrec. revert s. induction deps as [|dep deps IH]; intros s Hg; [done|].
  cbn [propagate_loop for_each]. unfold exec. set (s1 := exec (make_ready dep) s).
  assert (Hg1 : graph_ok (c_graph s1)).
  { unfold s1, exec, make_ready, mbind, core_bind, gets. cbv beta iota.
    destruct (_ && _); [|done]. unfold when, ignore, set_task_st, mbind, core_bind.
    pose proof (graph_op_ok (c_graph s) (OpSetState dep TS_Ready) Hg) as Hg'. cbn [graph_op] in Hg'.
    by destruct (set_state (c_graph s) dep TS_Ready). }
  rewrite !(core_bind_eq (make_ready dep) _ s tt s1) by apply exec_unit.
  rewrite (core_bind_eq _ _ s1 (poisoned_now s1 dep) s1) by done.
  destruct (poisoned_branch_idle recurse dep s1) as [b Hb]; [by apply Hrec|].
  unfold poisoned_branch in Hb. erewrite core_bind_eq by exact Hb.
  erewrite core_bind_eq; [|apply surjective_pairing]. by apply IH.
Qed.

(** Below a task that has not succeeded the recursion has no effect. *)
Lemma propagate_idle fuel s id :
  graph_ok (c_graph s) → task_state (c_graph s) id ≠ TS_Succeeded → exec (propagate fuel id) s = s.
Proof.
  revert s id. induction fuel as [|fuel IH]; intros s id Hg Hid; [done|].
  cbn [propagate]. unfold exec, mbind, core_bind, gets. cbv beta iota.
  change (exec (propagate_loop (propagate fuel) (dependents (c_graph s) id)) s = s).
  rewrite propagate_loop_effect by done.
  assert (Hdeps : ∀ dep, dep ∈ dependents (c_graph s) id → unblockable (c_graph s) dep = false).
  { intros dep Hd. unfold unblockable. rewrite (unsatisfied _ dep id) by done. apply andb_false_r. }
  revert Hdeps. generalize (dependents (c_graph s) id) as deps.
  induction deps as [|dep deps IHd]; intros Hdeps; [done|].
  cbn [for_each]. unfold exec. rewrite (core_bind_eq _ _ s tt s).
  - apply IHd. intros d Hd. apply Hdeps, elem_of_cons. by right.
  - rewrite (exec_unit (make_ready dep)), make_ready_idle; [done|]. apply Hdeps, elem_of_cons. by left.
Qed.

(** The whole call makes the dependents ready, each if it can be. *)
Lemma on_task_succeeded_effect s id :
  graph_ok (c_graph s) →
  exec (on_task_succeeded_recursive id) s =
  exec (for_each (dependents (c_graph s) id) make_ready) s.
Proof.
  intros Hg. rewrite <-(propagate_loop_effect (propagate (size (g_tasks (c_graph s))))) by
    (done || apply propagate_idle).
  unfold exec, on_task_succeeded_recursive, ignore, mbind, core_bind, gets. cbv beta iota.
  cbn [propagate]. unfold mbind, core_bind, gets. by destruct (propagate_loop _ _ s).
Qed.

(** [Blocked] to [Ready] does not change what has succeeded. *)
Lemma make_ready_graph dep s :
  c_graph (exec (make_ready dep) s) =
  if unblockable (c_graph s) dep
  then with_states (<[dep := TS_Ready]> (g_states (c_graph s))) (c_graph s) else c_graph s.
Proof.
  unfold unblockable, exec, make_ready, mbind, core_bind, gets. cbv beta iota.
  destruct (bool_decide (task_state (c_graph s) dep = TS_Blocked)) eqn:Hb; cbn [andb]; [|done].
  destruct (dependencies_satisfied (c_graph s) dep); [|done].
  apply bool_decide_eq_true in Hb. unfold task_state in Hb.
  destruct (g_states (c_graph s) !! dep) as [cur|] eqn:Hc; [|done]. subst cur.
  unfold when, ignore, mbind, core_bind. rewrite (set_task_st_legal dep TS_Ready TS_Blocked) by done.
  done.
Qed.

Lemma unblockable_ready g dep k :
  unblockable g dep = true → k ≠ dep →
  unblockable (with_states (<[dep := TS_Ready]> (g_states g)) g) k = unblockable g k.
Proof.
  intros Hu Hne. unfold unblockable, task_state, dependencies_satisfied, with_states.
  cbn [g_states g_deps]. rewrite lookup_insert_ne by done. f_equal.
  destruct (g_deps g !! k) as [X|]; [|done].
  assert (Hdep : g_states g !! dep ≠ Some TS_Succeeded).
  { unfold unblockable, task_state in Hu. intros E. rewrite E in Hu. done. }
  induction (set_in_order X) as [|d l IH]; cbn [forallb]; [done|]. f_equal; [|done].
  destruct (decide (d = dep)) as [->|]; [|by rewrite lookup_insert_ne].
  rewrite lookup_insert_eq. destruct (g_states g !! dep) as [[]|]; done.
Qed.

Lemma make_all_ready deps s :
  NoDup deps →
  g_tasks (c_graph (exec (for_each deps make_ready) s)) = g_tasks (c_graph s) ∧
  ∀ k, task_state (c_graph (exec (for_each deps make_ready) s)) k =
    if bool_decide (k ∈ deps) && unblockable (c_graph s) k then TS_Ready
    else task_state (c_graph s) k.
Proof.
  revert s. induction deps as [|dep deps IH]; intros s Hnd.
  - split; [done|]. intros k. by rewrite bool_decide_false by (by intros ?%elem_of_nil).
  - apply NoDup_cons in Hnd as [Hdep Hnd].
    set (s1 := exec (make_ready dep) s). pose proof (make_ready_graph dep s) as Eg. fold s1 in Eg.
    destruct (IH s1 Hnd) as [IH1 IH2]. clear IH.
    assert (E : exec (for_each (dep :: deps) make_ready) s = exec (for_each deps make_ready) s1).
    { cbn [for_each]. unfold exec. by erewrite core_bind_eq by apply exec_unit. }
    rewrite E. split; [rewrite IH1, Eg; by destruct (unblockable _ _)|].
    intros k. rewrite IH2, Eg. destruct (decide (k = dep)) as [->|Hne].
    + rewrite bool_decide_false by done. cbn [andb].
      rewrite bool_decide_true by (apply elem_of_cons; by left). cbn [andb].
      destruct (unblockable (c_graph s) dep); [|done].
      unfold task_state, with_states. cbn [g_states]. by rewrite lookup_insert_eq.
    + assert (Hk : bool_decide (k ∈ dep :: deps) = bool_decide (k ∈ deps)).
      { apply bool_decide_ext. rewrite elem_of_cons. naive_solver. }
      rewrite Hk. destruct (unblockable (c_graph s) dep) eqn:Hu; [|done].
      rewrite unblockable_ready by done. unfold task_state, with_states. cbn [g_states].
      by rewrite lookup_insert_ne by done.
Qed.

(** ** Claims *)

(** A blocked task that waits for [id] and whose dependencies have all succeeded. *)
Definition released_by (g : TaskGraph) (id k : Id128) : Prop :=
  task_state g k = TS_Blocked ∧
  ∃ t, g_tasks g !! k = Some t ∧ id ∈ ct_dependencies t ∧
       ∀ d, d ∈ ct_dependencies t → g_states g !! d = Some TS_Succeeded.

Lemma released_by_spec g x k :
  graph_ok g → reverse_complete g →
  released_by g x k ↔ bool_decide (k ∈ dependents g x) && unblockable g k = true.
Proof.
  intros Hg Hrc.
  assert (Hdeps : ∀ t, g_tasks g !! k = Some t →
    ∃ X, g_deps g !! k = Some X ∧ X = list_to_set (ct_dependencies t)).
  { intros t Ht. pose proof (ok_deps g Hg k t Ht) as [_ E]. unfold at_default in E.
    assert (is_Some (g_deps g !! k)) as [X HX].
    { apply elem_of_dom. rewrite (ok_deps_dom g Hg). by apply elem_of_dom_2 in Ht. }
    exists X. by rewrite HX in E. }
  unfold unblockable, dependencies_satisfied. rewrite !andb_true_iff, !bool_decide_eq_true.
  rewrite elem_of_dependents. split.
  - intros (Hst & t & Ht & Hid & Hall). destruct (Hdeps t Ht) as (X & HX & ->). rewrite HX.
    split_and!; [|done|].
    + apply Hrc. unfold edge, at_default. rewrite HX. by apply elem_of_list_to_set.
    + apply forallb_forall. intros d Hd%list_elem_of_In%elem_of_set_in_order%elem_of_list_to_set.
      by rewrite Hall.
  - intros (Hin & Hst & Hall). split; [done|]. apply (ok_reverse g Hg) in Hin.
    pose proof (edge_dom g k x Hg Hin) as [t Ht]%elem_of_dom. exists t.
    destruct (Hdeps t Ht) as (X & HX & ->). rewrite HX in Hall. unfold edge, at_default in Hin.
    rewrite HX in Hin. cbn [default] in Hin. unfold id in Hin. apply elem_of_list_to_set in Hin.
    split_and!; [done|done|]. intros d Hd. rewrite forallb_forall in Hall. specialize (Hall d).
    rewrite <-list_elem_of_In, elem_of_set_in_order, elem_of_list_to_set in Hall.
    specialize (Hall Hd). by destruct (g_states g !! d) as [[]|].
Qed.

Lemma readiness_ok (s : Coordinator) (id : Id128) :
  graph_ok (c_graph s) → reverse_complete (c_graph s) →
  let s' := exec (on_task_succeeded_recursive id) s in
  g_tasks (c_graph s') = g_tasks (c_graph s) ∧
  ∀ k, (released_by (c_graph s) id k ∧ task_state (c_graph s') k = TS_Ready) ∨
       (¬ released_by (c_graph s) id k ∧ task_state (c_graph s') k = task_state (c_graph s) k).
Proof.
  intros Hg Hrc s'. unfold s'. rewrite on_task_succeeded_effect by done.
  destruct (make_all_ready (dependents (c_graph s) id) s) as [H1 H2].
  { unfold dependents. destruct (_ !! _); [apply NoDup_set_in_order|constructor]. }
  split; [done|]. intros k. rewrite H2. pose proof (released_by_spec (c_graph s) id k Hg Hrc) as Hr.
  destruct (bool_decide _ && _); [left|right]; split; try done; naive_solver.
Qed.




