(* ===== verification/CoordCommit.v ===== *)
(** * CoordCommit: who may commit a result

    Only a completion that passes every check of [handle_attempt_complete]
    commits an attempt; and what happens when it arrives before the start of the
    attempt was reported. *)

From S2P Require Import Prelude Status Ids Digest Float64 Task Lifecycle Dag Reservation Placement.
From S2P Require Import Wire Frame Serialize Messages Store Locality Scheduler Outbound CoordState.
From S2P Require Import CoordNodes CoordAttempts CoordSched CoordClient Coordinator.
From S2P Require Import CoordInv CoordDurable CoordRecovery CoordProps CoordReadiness.

Local Open Scope Z_scope.

(** ** Committed attempts *)

Definition attempt_at (s : Coordinator) (p : AttemptPtr) : option ExecutionAttempt :=
  l ← c_attempts s !! p.1; l !! p.2.
Definition committed_at (s : Coordinator) (p : AttemptPtr) : Prop :=
  ∃ a, attempt_at s p = Some a ∧ at_committed a = true.

(** No commit but those of [base] and, possibly, [extra]. *)
Definition commits_within (base : Coordinator) (extra : option AttemptPtr) (s : Coordinator) : Prop :=
  ∀ p, committed_at s p → committed_at base p ∨ extra = Some p.

Section within.
Context (base : Coordinator) (extra : option AttemptPtr).
Abbreviation WITHIN := (commits_within base extra).

Lemma within_frame s s' : c_attempts s' = c_attempts s → WITHIN s → WITHIN s'.
Proof. intros E H p. unfold committed_at, attempt_at. rewrite E. apply H. Qed.

Lemma attempt_at_alter f p q s :
  attempt_at (set_attempts (alter (alter f p.2) p.1 (c_attempts s)) s) q =
  if decide (q = p) then f <$> attempt_at s q else attempt_at s q.
Proof.
  unfold attempt_at. core_cbn. destruct p as [t i], q as [u j]. cbn [fst snd].
  destruct (decide (u = t)) as [->|Hu].
  - rewrite lookup_alter_eq. destruct (c_attempts s !! t) as [l|]; cbn [fmap option_fmap option_map mbind option_bind].
    + destruct (decide (j = i)) as [->|Hj].
      * rewrite decide_True by done. apply list_lookup_alter_eq.
      * rewrite decide_False by congruence. by apply list_lookup_alter_ne.
    + by case_decide.
  - rewrite decide_False by congruence. by rewrite lookup_alter_ne.
Qed.

Lemma update_attempt_within p f :
  (∀ a, at_committed (f a) = at_committed a) ∨ extra = Some p →
  preserves WITHIN (update_attempt p f).
Proof.
  intros Hf. apply preserves_modify. intros s Hs q (a & Ha & Hc).
  rewrite attempt_at_alter in Ha. case_decide as Hq; [|apply Hs; by exists a]. subst q.
  destruct Hf as [Hf|Hf]; [|by right]. destruct (attempt_at s p) as [a0|] eqn:H0; [|done].
  injection Ha as <-. apply Hs. exists a0. by rewrite Hf in Hc.
Qed.

Lemma attempts_at_within tid : preserves WITHIN (attempts_at tid).
Proof.
  intros s Hs. unfold attempts_at. destruct (c_attempts s !! tid) eqn:Hl; [done|]. cbn [snd].
  intros [u j] (a & Ha & Hc). apply Hs. exists a. split; [|done]. revert Ha.
  unfold attempt_at. core_cbn. cbn [fst snd]. destruct (decide (u = tid)) as [->|].
  - by rewrite lookup_insert_eq, Hl.
  - by rewrite lookup_insert_ne.
Qed.

Lemma push_task_attempt_within tid a :
  at_committed a = false → preserves WITHIN (push_task_attempt tid a).
Proof.
  intros Hnc. apply preserves_modify. intros s Hs [u j] (b & Hb & Hc). apply Hs. exists b.
  split; [|done]. revert Hb. unfold attempt_at. core_cbn. cbn [fst snd].
  destruct (decide (u = tid)) as [->|]; [|by rewrite lookup_insert_ne].
  rewrite lookup_insert_eq. cbn [mbind option_bind].
  intros [Hb|[_ Hb]]%lookup_app_Some.
  - destruct (c_attempts s !! tid); [done|]. simpl in Hb. by rewrite lookup_nil in Hb.
  - destruct (j - _)%nat; [|done]. injection Hb as <-. congruence.
Qed.

Lemma set_task_st_within id st : preserves WITHIN (set_task_st id st).
Proof. intros s Hs. unfold set_task_st. destruct (set_state _ _ _). by eapply within_frame. Qed.
Lemma now_millis_within : preserves WITHIN now_millis.
Proof. intros s Hs. by eapply within_frame. Qed.
Lemma random_id_within : preserves WITHIN random_id.
Proof. intros s Hs. by eapply within_frame. Qed.
Lemma reserve_within n t x sl sc : preserves WITHIN (reserve n t x sl sc).
Proof.
  intros s Hs. unfold reserve. destruct (try_reserve _ _ _ _ _ _ _ _ _) as [reg rr].
  destruct (rr_reservation rr); by eapply within_frame.
Qed.
Lemma cancel_requested_at_within tid : preserves WITHIN (cancel_requested_at tid).
Proof. intros s Hs. unfold cancel_requested_at. destruct (_ !! _); [done|]. by eapply within_frame. Qed.
Lemma persist_within : preserves WITHIN persist.
Proof. intros s Hs. eapply within_frame; [|done]. apply persist_kept. Qed.
Lemma modify_within f : (∀ s, c_attempts (f s) = c_attempts s) → preserves WITHIN (modify f).
Proof. intros Hf. apply preserves_modify. intros s. by apply within_frame. Qed.
End within.

#[export] Hint Resolve update_attempt_within attempts_at_within push_task_attempt_within
  set_task_st_within now_millis_within random_id_within reserve_within
  cancel_requested_at_within persist_within : core.
#[export] Hint Extern 5 (preserves (commits_within _ _) (modify _)) =>
  apply modify_within; done : core.
#[export] Hint Extern 5 (preserves (commits_within _ _) (update_attempt _ _)) =>
  apply update_attempt_within; by left : core.

Lemma propagate_within base extra fuel id : preserves (commits_within base extra) (propagate fuel id).
Proof.
  revert id. induction fuel as [|fuel IH]; intros id; cbn [propagate]; [solve_core|].
  apply preserves_bind; [solve_core|]. intros deps.
  induction deps as [|dep deps IHd]; cbn [propagate_loop]; unfold make_ready; solve_core.
Qed.
#[export] Hint Resolve propagate_within : core.

(** Unfold the programs the handlers are made of. *)
Ltac unfold_sending :=
  unfold respond_client, respond_node, send_to_node, queue_frame, stop_conn, name_conn,
    release_task_reservation, release_reservation, update_node, state_of, find_active_attempt.

Lemma commit_attempt_within base cmd co p a :
  preserves (commits_within base (Some p)) (commit_attempt cmd co p a).
Proof.
  unfold commit_attempt, complete_ack, on_task_succeeded_recursive. unfold_sending.
  apply preserves_bind; [solve_core|intros now].
  apply preserves_bind; [apply update_attempt_within; by right|intros _]. solve_core.
Qed.

Lemma sweep_within base extra : preserves (commits_within base extra) sweep.
Proof.
  unfold sweep, handle_node_loss, requeue_lost, requeue_dispatch, retry_step, deadline_step,
    schedule_ready_tasks, schedule_task, place_and_dispatch, record_placement, plan_and_dispatch,
    dispatch_task. unfold_sending. solve_core.
Qed.

(** ** Finding an attempt *)

Lemma find_in_lists_some id m p a :
  find_in_lists id (in_order m) = Some (p, a) →
  (l ← m !! p.1; l !! p.2) = Some a ∧ at_id a = id.
Proof.
  assert (Hl : ∀ kv, kv ∈ in_order m → m !! kv.1 = Some kv.2).
  { intros [k l] Hk. by apply elem_of_in_order. }
  revert Hl. induction (in_order m) as [|[tid l] ls IH]; intros Hl; [done|]. cbn [find_in_lists].
  destruct (list_find _ l) as [[i a']|] eqn:Hf.
  - intros [= <- <-]. apply list_find_Some in Hf as (Hi & Hid & _). cbn [fst snd].
    pose proof (Hl (tid, l)) as E. cbn [fst snd] in E. rewrite E by (apply elem_of_cons; by left).
    done.
  - apply IH. intros kv Hkv. apply Hl, elem_of_cons. by right.
Qed.

(** ** Completions *)

(** What [handle_attempt_complete] requires of an attempt that is not committed. *)
Record valid_completion (s : Coordinator) (co : AttemptComplete) (a : ExecutionAttempt) : Prop := {
  vc_id : at_id a = acm_attempt_id co;
  vc_epoch : at_coordinator_epoch a = ds_epoch (c_durable s);
  vc_live : at_state a = AS_Started ∨ at_state a = AS_Dispatched;
  vc_token : at_reservation_id a = acm_reservation_id co;
  vc_task : task_state (c_graph s) (at_task_id a) = TS_Running ∨
            task_state (c_graph s) (at_task_id a) = TS_Dispatching;
  vc_cancel : c_cancel_requested s !! at_task_id a ≠ Some true
}.

Lemma completion_error_none s co a :
  completion_error s co a = None ↔
  at_coordinator_epoch a = ds_epoch (c_durable s) ∧
  (at_state a = AS_Started ∨ at_state a = AS_Dispatched) ∧
  at_reservation_id a = acm_reservation_id co ∧
  (task_state (c_graph s) (at_task_id a) = TS_Running ∨
   task_state (c_graph s) (at_task_id a) = TS_Dispatching).
Proof.
  unfold completion_error.
  destruct (Z.eqb_spec (at_coordinator_epoch a) (ds_epoch (c_durable s))); cbn [negb]; [|naive_solver].
  repeat (case_bool_decide; cbn [negb andb]); naive_solver.
Qed.

(** The state in which a commit starts. *)
Definition cancel_read (s : Coordinator) (tid : Id128) : Coordinator :=
  (cancel_requested_at tid s).2.

Lemma complete_committing s cmd co p a :
  find_in_lists (acm_attempt_id co) (in_order (c_attempts s)) = Some (p, a) →
  at_committed a = false → completion_error s co a = None →
  c_cancel_requested s !! at_task_id a ≠ Some true →
  handle_attempt_complete cmd co s = commit_attempt cmd co p a (cancel_read s (at_task_id a)).
Proof.
  intros Hf Hc He Hk. unfold handle_attempt_complete, find_active_attempt, gets.
  unfold mbind at 1, core_bind at 1. rewrite Hf, Hc. unfold mbind at 1, core_bind at 1. rewrite He.
  unfold mbind, core_bind, cancel_read, cancel_requested_at.
  by destruct (c_cancel_requested s !! at_task_id a) as [[]|].
Qed.

Lemma complete_ack_within base extra cmd co b msg :
  preserves (commits_within base extra) (complete_ack cmd co b msg).
Proof. unfold complete_ack. unfold_sending. solve_core. Qed.
Lemma preempt_attempt_within base extra p a :
  preserves (commits_within base extra) (preempt_attempt p a).
Proof. unfold preempt_attempt. unfold_sending. solve_core. Qed.
#[export] Hint Resolve complete_ack_within preempt_attempt_within : core.

Lemma handle_attempt_complete_commits s cmd co :
  let s' := exec (handle_attempt_complete cmd co) s in
  commits_within s None s' ∨
  ∃ p a, attempt_at s p = Some a ∧ valid_completion s co a ∧ commits_within s (Some p) s'.
Proof.
  cbv zeta. assert (Hrefl : ∀ extra, commits_within s extra s) by (intros extra q Hq; by left).
  destruct (find_in_lists (acm_attempt_id co) (in_order (c_attempts s))) as [[p a]|] eqn:Hf.
  2: { left. unfold exec, handle_attempt_complete, find_active_attempt, gets, mbind, core_bind.
       rewrite Hf. by apply complete_ack_within. }
  destruct (at_committed a) eqn:Hc.
  { left. unfold exec, handle_attempt_complete, find_active_attempt, gets, mbind, core_bind.
    rewrite Hf, Hc. by apply complete_ack_within. }
  destruct (decide (completion_error s co a = None ∧ c_cancel_requested s !! at_task_id a ≠ Some true))
    as [[He Hk]|Hn].
  - right. apply find_in_lists_some in Hf as Hp. destruct Hp as [Hp Hid].
    pose proof He as (H1 & H2 & H3 & H4)%completion_error_none.
    exists p, a. split_and!; [done|by split|]. unfold exec.
    rewrite (complete_committing s cmd co p a) by done.
    apply commit_attempt_within. apply (cancel_requested_at_within s (Some p)), Hrefl.
  - left. unfold exec, handle_attempt_complete, find_active_attempt, gets.
    unfold mbind at 1, core_bind at 1. rewrite Hf, Hc. unfold mbind at 1, core_bind at 1.
    pose proof (cancel_requested_at_within s None (at_task_id a) s (Hrefl None)) as Hw.
    assert (Hb : (cancel_requested_at (at_task_id a) s).1 = true ∨ completion_error s co a ≠ None).
    { unfold cancel_requested_at. destruct (c_cancel_requested s !! at_task_id a) as [[]|]; naive_solver. }
    unfold mbind at 1, core_bind at 1.
    destruct (cancel_requested_at (at_task_id a) s) as [b s1]. cbn [fst snd] in *.
    assert (Herr : ∃ reason, (if b then Some "task cancelled" else completion_error s co a) = Some reason).
    { destruct b; [by eexists|]. destruct Hb as [?|Hb]; [done|].
      destruct (completion_error s co a); [by eexists|done]. }
    destruct Herr as [reason ->].
    assert (Hp : preserves (commits_within s None)
      (when (bool_decide (reason = "task cancelled")) (preempt_attempt p a);;
       complete_ack cmd co false reason)) by solve_core.
    exact (Hp s1 Hw).
Qed.

(** Every other command leaves the commits as they are. *)
Lemma process_within base extra cmd :
  (∀ co, cmd_kind cmd ≠ K_AttemptComplete co) → preserves (commits_within base extra) (process cmd).
Proof.
  intros Hne. unfold process. destruct (cmd_kind cmd) eqn:Hk; try (by destruct (Hne _ eq_refl));
    unfold handle_node_register, handle_node_heartbeat, handle_node_shutdown,
      handle_node_disconnect, handle_node_drain, handle_dispatch_ack, handle_attempt_started,
      handle_attempt_failed, failed_ack, handle_attempt_cancelled, handle_reservation_release,
      handle_client_connected, handle_client_disconnected, handle_task_submit, submit_task,
      accept_task, handle_task_inspect, handle_task_list, handle_task_cancel, cancel_task,
      request_cancel, handle_workload_inspect, handle_fabric_status, handle_placement_query,
      handle_node_list, handle_coordinator_shutdown, shutdown_node, handle_node_loss, requeue_lost;
    unfold_sending; solve_core.
  - intros s Hs. cbv beta. destruct (add_task _ _). by eapply within_frame.
  - apply modify_within. intros s. by case_match.
Qed.

Lemma event_within base extra ev :
  ev ≠ E_Command → preserves (commits_within base extra) (event ev).
Proof.
  intros Hne. unfold event. destruct ev; try done; unfold reader_action, node_exit, client_exit,
    reader_exit, push_command; unfold_sending; pose proof sweep_within; solve_core;
    apply modify_within; intros s; by repeat case_match.
Qed.

(** ** Claims *)

(** C3: who may commit.  Whatever happens to the coordinator, an attempt becomes
    committed only when the core takes a completion message for it that names the
    attempt and its reservation token, while the attempt carries the current
    epoch, is dispatched or started and not yet ended, its task is dispatching or
    running, and no cancellation of the task was requested. *)
Theorem commit_authority (s : Coordinator) (ev : Event) (p : AttemptPtr) :
  committed_at (exec (event ev) s) p → ¬ committed_at s p →
  ev = E_Command ∧
  ∃ cmd rest co a, c_queue s = cmd :: rest ∧ cmd_kind cmd = K_AttemptComplete co ∧
    attempt_at s p = Some a ∧ valid_completion s co a.
Proof.
  intros Hnew Hold.
  assert (Hno : ∀ {A} (m : Core A), preserves (commits_within s None) m → ¬ committed_at (exec m s) p).
  { intros A m Hm Hp. destruct (Hm s ltac:(by intros q Hq; left) p Hp) as [?|?]; done. }
  assert (Hev : ev = E_Command).
  { destruct ev; try done; exfalso;
      (eapply Hno; [|exact Hnew]); by apply event_within. }
  subst ev.
  split; [done|]. revert Hnew. unfold exec, event, mbind, core_bind, gets.
  destruct (c_core_running s); [|done]. unfold when, core_step, mbind, core_bind, gets.
  destruct (c_queue s) as [|cmd rest]; [done|]. cbv beta iota. unfold modify.
  set (s1 := set_queue rest s). intros Hnew.
  assert (Hcmd : ∃ co, cmd_kind cmd = K_AttemptComplete co).
  { pose proof (process_within s None cmd) as Hp.
    destruct (cmd_kind cmd) as [| | | | | | |co| | | | | | | | | | | | | | | | |] eqn:Hk; try (by exists co); exfalso;
      try (by destruct (Hp ltac:(intros ? [=]) s1 ltac:(by intros q Hq; left) p Hnew)).
    by apply Hold. }
  destruct Hcmd as [co Hk]. rewrite Hk in Hnew. unfold process in Hnew. rewrite Hk in Hnew.
  destruct (handle_attempt_complete_commits s1 cmd co) as [Hw|(q & a & Ha & Hv & Hw)].
  - by destruct (Hw p Hnew).
  - destruct (Hw p Hnew) as [?|[= ->]]; [done|]. exists cmd, rest, co, a. split_and!; try done.
    by destruct Hv; split.
Qed.

(** ** What a commit does *)

Lemma persist_keeps s :
  c_attempts (exec persist s) = c_attempts s ∧
  c_task_reservation (exec persist s) = c_task_reservation s ∧
  c_cancel_requested (exec persist s) = c_cancel_requested s.
Proof.
  unfold exec, persist, mbind, core_bind, modify, save_durable. core_cbn.
  destruct (c_store s) eqn:E; [|done]. destruct (store_save _ _ _ _). by core_cbn.
Qed.

Section commit_effect.
Context (s0 : Coordinator) (co : AttemptComplete) (p : AttemptPtr) (a : ExecutionAttempt).
Abbreviation tid := (at_task_id a).
Abbreviation g1 := (set_state (c_graph s0) tid TS_Succeeded).1.

(** The members a commit is about, once the attempt is marked. *)
Record marked (now : Z) (s : Coordinator) : Prop := {
  md_attempts : ∀ q, attempt_at s q =
    if decide (q = p) then mark_committed co now <$> attempt_at s0 q else attempt_at s0 q
}.
Record released (now : Z) (s : Coordinator) : Prop := {
  rl_marked : marked now s;
  rl_reservation : c_task_reservation s !! tid = None;
  rl_cancel : c_cancel_requested s !! tid = None
}.

Lemma released_frame now s s' :
  c_attempts s' = c_attempts s → c_task_reservation s' = c_task_reservation s →
  c_cancel_requested s' = c_cancel_requested s → released now s → released now s'.
Proof.
  intros E1 E2 E3 [[Ha] Hr Hc]. split; [split| |].
  - intros q. rewrite <-Ha. unfold attempt_at. by rewrite E1.
  - by rewrite E2.
  - by rewrite E3.
Qed.
Lemma set_task_st_released now id st : preserves (released now) (set_task_st id st).
Proof. intros s Hs. unfold set_task_st. destruct (set_state _ _ _). by apply (released_frame now s). Qed.
Lemma propagate_released now fuel id : preserves (released now) (propagate fuel id).
Proof.
  pose proof set_task_st_released. revert id.
  induction fuel as [|fuel IH]; intros id; cbn [propagate]; [solve_core|].
  apply preserves_bind; [solve_core|]. intros deps.
  induction deps as [|dep deps IHd]; cbn [propagate_loop]; unfold make_ready; solve_core;
    intros s Hs; by apply (released_frame now s).
Qed.
Lemma on_task_succeeded_released now id : preserves (released now) (on_task_succeeded_recursive id).
Proof.
  unfold on_task_succeeded_recursive. apply preserves_bind; [apply preserves_gets|intros fuel].
  apply preserves_ignore, propagate_released.
Qed.

Definition settled (now : Z) (s : Coordinator) : Prop := released now s ∧ c_graph s = g1.

Lemma settled_frame now s s' :
  c_attempts s' = c_attempts s → c_task_reservation s' = c_task_reservation s →
  c_cancel_requested s' = c_cancel_requested s → c_graph s' = c_graph s →
  settled now s → settled now s'.
Proof. intros E1 E2 E3 E4 [Hr Hg]. split; [by apply (released_frame now s)|by rewrite E4]. Qed.

Lemma release_forgets now :
  hoare (λ s, marked now s ∧ c_graph s = g1) (release_task_reservation tid)
    (λ _ s, marked now s ∧ c_graph s = g1 ∧ c_task_reservation s !! tid = None).
Proof.
  intros s [Hm Hg]. unfold release_task_reservation, release_reservation, mbind, core_bind, gets, modify.
  cbv beta iota. destruct (c_task_reservation s !! tid) eqn:Hr; cbv beta iota; cbn [snd]; [|done].
  split_and!; [by destruct Hm|exact Hg|core_cbn; apply lookup_delete_eq].
Qed.

Lemma settled_ack now cmd b msg : preserves (settled now) (complete_ack cmd co b msg).
Proof.
  unfold complete_ack, respond_node, queue_frame. solve_core; intros s Hs; by apply (settled_frame now s).
Qed.

Lemma commit_attempt_effect cmd :
  hoare (λ s, c_graph s = c_graph s0 ∧ c_attempts s = c_attempts s0)
    (commit_attempt cmd co p a)
    (λ _ s', ∃ now s2, released now s' ∧ c_graph s2 = g1 ∧
       c_graph s' = c_graph (exec (on_task_succeeded_recursive tid) s2)).
Proof.
  unfold commit_attempt. cbv zeta.
  eapply (hoare_bind _ _ _ (λ _ s, c_graph s = c_graph s0 ∧ c_attempts s = c_attempts s0));
    [by intros s Hs|intros now].
  eapply (hoare_bind _ _ _ (λ _ s, marked now s ∧ c_graph s = c_graph s0)).
  { intros s [Hg Ha]. split; [split|exact Hg]. intros q. unfold update_attempt, modify. cbn [snd].
    rewrite attempt_at_alter. unfold attempt_at. by rewrite Ha. }
  intros [].
  eapply (hoare_bind _ _ _ (λ _ s, marked now s ∧ c_graph s = g1)).
  { intros s [Hm Hg]. unfold ignore, set_task_st, mbind, core_bind. rewrite Hg.
    destruct (set_state (c_graph s0) tid TS_Succeeded). split; [by destruct Hm|done]. }
  intros [].
  eapply hoare_bind; [apply release_forgets|intros []].
  eapply (hoare_bind _ _ _ (λ _, settled now)).
  { intros s (Hm & Hg & Hr). split; [|exact Hg]. split; [by destruct Hm|exact Hr|].
    unfold modify. cbn [snd]. core_cbn. apply lookup_delete_eq. }
  intros [].
  eapply hoare_bind; [apply preserves_gets|intros task].
  eapply (hoare_bind _ _ _ (λ _, settled now)).
  { destruct task; [|apply preserves_ret]. intros s Hs. by apply (settled_frame now s). }
  intros [].
  eapply hoare_bind; [apply settled_ack|intros []].
  eapply (hoare_bind _ _ _ (λ _ s, ∃ s2, released now s ∧ c_graph s2 = g1 ∧
    c_graph s = c_graph (exec (on_task_succeeded_recursive tid) s2))).
  { intros s [Hr Hg]. exists s. split_and!; [|done..]. by apply on_task_succeeded_released. }
  intros [] s (s2 & Hr & H2 & Hg). exists now, s2. split_and!; [|done|].
  - apply (released_frame now s); [..|done]; apply persist_keeps.
  - rewrite <-Hg. apply persist_graph.
Qed.
End commit_effect.

Lemma set_state_reverse g id st : reverse_complete g → reverse_complete (set_state g id st).1.
Proof.
  intros Hg. destruct (set_state_cases g id st) as [->|(cur & _ & _ & ->)]; [done|].
  intros x y. exact (Hg x y).
Qed.

Lemma task_state_set_state g id st k :
  is_Some (g_states g !! id) →
  task_state (set_state g id st).1 k =
  if decide (k = id) then (if is_legal (task_state g id) st then st else task_state g id)
  else task_state g k.
Proof.
  intros [cur Hcur]. unfold set_state, task_state. rewrite Hcur.
  destruct (is_legal cur st); cbn [negb fst g_states]; case_decide as Hk; [subst k|..].
  - by rewrite lookup_insert_eq.
  - by rewrite lookup_insert_ne.
  - by rewrite Hk, Hcur.
  - done.
Qed.

Lemma completion_effect_ok (e : Z) (s : Coordinator) (cmd : CoreCommand) (co : AttemptComplete)
    (p : AttemptPtr) (a : ExecutionAttempt) :
  core_ok e s →
  find_in_lists (acm_attempt_id co) (in_order (c_attempts s)) = Some (p, a) →
  at_committed a = false → valid_completion s co a →
  let s' := exec (handle_attempt_complete cmd co) s in
  let tid := at_task_id a in
  let after := (set_state (c_graph s) tid TS_Succeeded).1 in
  (∃ now, attempt_at s' p = Some (mark_committed co now a)) ∧
  (∀ q, q ≠ p → attempt_at s' q = attempt_at s q) ∧
  c_task_reservation s' !! tid = None ∧
  (task_state (c_graph s) tid = TS_Running →
     task_state (c_graph s') tid = TS_Succeeded ∧
     ∀ k, k ≠ tid →
       (released_by after tid k ∧ task_state (c_graph s') k = TS_Ready) ∨
       (¬ released_by after tid k ∧ task_state (c_graph s') k = task_state (c_graph s) k)) ∧
  (task_state (c_graph s) tid = TS_Dispatching →
     ∀ k, task_state (c_graph s') k = task_state (c_graph s) k).
Proof.
  intros Hok Hf Hc [_ H1 H2 H3 H4 H5] s' tid after.
  assert (He : completion_error s co a = None) by (by apply completion_error_none).
  apply find_in_lists_some in Hf as Hp. destruct Hp as [Hp Hid]. fold (attempt_at s p) in Hp.
  destruct (commit_attempt_effect s co p a cmd (cancel_read s (at_task_id a))) as
    (now & s2 & [[Ha] Hr _] & Hg2 & Hg').
  { unfold cancel_read, cancel_requested_at. by destruct (c_cancel_requested s !! at_task_id a). }
  rewrite <-(complete_committing s cmd co p a) in Ha, Hr, Hg' by done.
  fold (exec (handle_attempt_complete cmd co) s) in Ha, Hr, Hg'. fold s' in Ha, Hr, Hg'.
  fold tid after in Hg2, Hg', Hr.
  assert (Hgok : graph_ok after) by
    (pose proof (graph_op_ok (c_graph s) (OpSetState tid TS_Succeeded) (ck_graph e s Hok)); done).
  assert (Hsome : is_Some (g_states (c_graph s) !! tid)).
  { unfold task_state in H4. fold tid in H4. destruct (g_states (c_graph s) !! tid); [by eexists|naive_solver]. }
  pose proof (λ k, task_state_set_state (c_graph s) tid TS_Succeeded k Hsome) as Hafter.
  fold after in Hafter.
  destruct (readiness_ok s2 tid) as [_ Hst]; [by rewrite Hg2|rewrite Hg2; apply set_state_reverse, Hok|].
  rewrite <-Hg', Hg2 in Hst.
  split_and!; [exists now|..].
  - by rewrite Ha, decide_True, Hp by done.
  - intros q Hq. by rewrite Ha, decide_False by done.
  - exact Hr.
  - intros Hrun. rewrite Hrun in Hafter. cbn in Hafter. split.
    + destruct (Hst tid) as [[[Hb _] _]|[_ ->]]; rewrite Hafter, decide_True in * by done; done.
    + intros k Hk. destruct (Hst k) as [?|[? ->]]; [by left|right]. split; [done|].
      by rewrite Hafter, decide_False.
  - intros Hdis k. rewrite Hdis in Hafter. cbn in Hafter.
    destruct (Hst k) as [[(_ & t & _ & Hd & Hall) _]|[_ ->]].
    + specialize (Hafter tid). rewrite decide_True in Hafter by done. unfold task_state in Hafter.
      by rewrite (Hall tid Hd) in Hafter.
    + rewrite Hafter. case_decide as E; [by rewrite E|done].
Qed.


(** ** Witnesses *)

(** The node's report that an attempt ended with a result. *)
Definition sample_complete (attempt reservation : Id128) : AttemptComplete :=
  mkAttemptComplete attempt (mkId 0 1) reservation 2 0 0 "" 0 0 0 "cpu" [].
Definition first_attempt : AttemptPtr := (mkId 0 1, 0%nat).
Definition first_result : AttemptComplete := sample_complete (mkId 9 3) (mkId 9 2).

(** The dispatched task's result has arrived and is queued. *)
Definition reported_run : Coordinator :=
  run [E_NodeFrame node_conn (mkNodeReader true sample_node)
         (Ok (peer_frame SK_Node (MAttemptComplete first_result)))] dispatched_run.

Lemma commit_authority_witness :
  ∃ cmd rest co a, c_queue reported_run = cmd :: rest ∧ cmd_kind cmd = K_AttemptComplete co ∧
    attempt_at reported_run first_attempt = Some a ∧ valid_completion reported_run co a.
Proof.
  apply (commit_authority reported_run E_Command first_attempt).
  - eexists. split; [vm_compute; reflexivity|reflexivity].
  - intros (a & Ha & Hc). vm_compute in Ha. injection Ha as <-. discriminate Hc.
Defined.


(** A clock that jumps by six seconds after the dispatch. *)
Definition jumping_world : World :=
  mkWorld (λ n, if (n <? 7)%nat then Z.of_nat n else 6000 + Z.of_nat n) (w_random sample_world) (w_disk sample_world).

(** A result that arrives before the report of the start does not end its task: the
    task is dispatched again after the timeout, runs again and commits a second
    result. *)
Definition twice_run : Coordinator :=
  run (connect ++ sample_register ++ sample_submit (mkId 0 1) [] ++ [E_Sweep]
       ++ from_node (MAttemptComplete first_result)
       ++ from_node (MNodeHeartbeat (mkNodeHeartbeat sample_node (mkId 9 1) 1 2 0 0 []))
       ++ [E_Sweep] ++ from_node (MAttemptComplete (sample_complete (mkId 9 5) (mkId 9 4))))
    (boot sample_config jumping_world ∅).2.

Lemma committed_twice :
  map at_committed (default [] (c_attempts twice_run !! mkId 0 1)) = [true; true] ∧
  task_state (c_graph twice_run) (mkId 0 1) = TS_Dispatching.
Proof. split; vm_compute; reflexivity. Qed.
