(* ===== verification/CoordDispatch.v ===== *)
(** * CoordDispatch: what scheduling does

    The order in which ready tasks are considered and the exact effect of
    considering one. *)

From S2P Require Import Prelude Status Ids Digest Float64 Task Lifecycle Dag Reservation Placement.
From S2P Require Import Wire Frame Serialize Messages Store Locality Scheduler Outbound CoordState.
From S2P Require Import CoordNodes CoordAttempts CoordSched CoordClient Coordinator.
From S2P Require Import CoordInv CoordDurable CoordRecovery CoordProps CoordReadiness CoordCommit.

Local Open Scope Z_scope.

(** ** The order *)

Lemma key_sorted_perm (l : list ReadyKey) :
  StronglySorted key_le (merge_sort key_le l) ∧ merge_sort key_le l ≡ₚ l.
Proof. split; [by apply (StronglySorted_merge_sort key_le)|apply merge_sort_Permutation]. Qed.

(** The order of scheduling.  The tasks a scheduling pass considers are the
    ready ones, each once, ordered by priority, then by the time they became
    ready, then by identifier. *)
Theorem ready_order (s : Coordinator) :
  (∀ id, id ∈ ready_tasks s ↔
     is_Some (g_tasks (c_graph s) !! id) ∧ task_state (c_graph s) id = TS_Ready) ∧
  NoDup (ready_tasks s) ∧
  StronglySorted key_le (map (ready_key s) (ready_tasks s)).
Proof.
  unfold ready_tasks. set (ready := List.filter _ (task_ids (c_graph s))).
  destruct (key_sorted_perm (map (ready_key s) ready)) as [Hs Hp].
  set (keys := merge_sort _ _) in *.
  assert (Hk : ∀ l, map (λ k : ReadyKey, k.2.2) (map (ready_key s) l) = l).
  { intros l. rewrite map_map. cbn [snd ready_key]. apply map_id. }
  assert (Hperm : map (λ k : ReadyKey, k.2.2) keys ≡ₚ ready).
  { rewrite <-(Hk ready). by apply Permutation_map. }
  split_and!.
  - intros id. rewrite Hperm. unfold ready. rewrite list_elem_of_In, filter_In, <-list_elem_of_In.
    by rewrite task_ids_elem, bool_decide_eq_true.
  - rewrite Hperm. unfold ready. apply NoDup_ListNoDup, List.NoDup_filter, NoDup_ListNoDup.
    apply NoDup_in_order_keys.
  - assert (E : map (ready_key s) (map (λ k : ReadyKey, k.2.2) keys) = keys); [|by rewrite E].
    rewrite map_map. rewrite <-(map_id keys) at 2. apply map_ext_in. intros k Hin.
    apply list_elem_of_In in Hin. rewrite Hp in Hin. apply list_elem_of_In, in_map_iff in Hin as (id & <- & _).
    done.
Qed.

(** ** Considering a task *)

(** What is decided for a ready task: the node and its identifier, the executor,
    the reservation granted and the device; [None] when no node is eligible, the
    chosen one is gone or its slots are taken. *)
Definition dispatch_plan (s : Coordinator) (tid : Id128) (t : ComputeTask)
    : option (NodeRecord * Id128 * ExecutorType * Reservation * string) :=
  let d := place (c_scheduler s) t (c_nodes s) (c_reservations s) (c_locality s) in
  node_id ← (if pd_feasible d then pd_chosen_node d else None);
  node ← c_nodes s !! node_id;
  if negb (nr_connected node) then None
  else
    let executor := default (ct_required_executor t) (pd_chosen_executor d) in
    let slots := if bool_decide (executor = EX_Cuda) then ct_required_gpu_slots t
                 else ct_required_cpu_slots t in
    r ← rr_reservation (try_reserve (c_reservations s) node (ds_epoch (c_durable s)) tid executor
          slots (ct_scratch_memory_bytes t) (w_random (c_world s) (c_draws s))
          (w_clock (c_world s) (c_ticks s))).2;
    Some (node, node_id, executor, r, pd_chosen_device d).

(** The members the claim is about. *)
Definition authority (s : Coordinator) :=
  (c_graph s, c_attempts s, c_reservations s, c_task_reservation s).

Lemma record_placement_keeps tid d s :
  authority (exec (record_placement tid d) s) = authority s ∧
  c_nodes (exec (record_placement tid d) s) = c_nodes s ∧
  c_durable (exec (record_placement tid d) s) = c_durable s ∧
  c_world (exec (record_placement tid d) s) = c_world s ∧
  c_draws (exec (record_placement tid d) s) = c_draws s ∧
  c_ticks (exec (record_placement tid d) s) = c_ticks s.
Proof. done. Qed.

(** The state in which the plan is carried out. *)
Lemma place_and_dispatch_plan s tid t :
  match dispatch_plan s tid t with
  | None => authority (exec (place_and_dispatch tid t) s) = authority s
  | Some (node, node_id, ex, r, device) =>
      ∃ s1, authority s1 = (c_graph s, c_attempts s, <[rv_id r := r]> (c_reservations s),
                            c_task_reservation s) ∧
        c_durable s1 = c_durable s ∧
        exec (place_and_dispatch tid t) s =
        exec (plan_and_dispatch tid t node node_id ex r device) s1
  end.
Proof.
  remember (exec (place_and_dispatch tid t) s) as s' eqn:E. unfold dispatch_plan.
  unfold exec, place_and_dispatch in E. erewrite core_bind_eq in E by reflexivity.
  set (d := place _ _ _ _ _) in *. erewrite core_bind_eq in E by apply exec_unit.
  destruct (record_placement_keeps tid d s) as (K1 & K2 & K3 & K4 & K5 & K6).
  set (s0 := exec (record_placement tid d) s) in *. clearbody s0.
  destruct (if pd_feasible d then pd_chosen_node d else None) as [node_id|]; [|by subst s'].
  cbn [mbind option_bind]. erewrite core_bind_eq in E by reflexivity. rewrite K2 in E.
  destruct (c_nodes s !! node_id) as [node|]; [|by subst s']. cbn [mbind option_bind].
  destruct (nr_connected node); cbn [negb] in *; [|by subst s'].
  injection K1 as G1 G2 G3 G4.
  set (ex := default _ _) in *. set (slots := if bool_decide _ then _ else _) in *.
  pose proof (try_reserve_cases (c_reservations s) node (ds_epoch (c_durable s)) tid ex slots
    (ct_scratch_memory_bytes t) (w_random (c_world s) (c_draws s)) (w_clock (c_world s) (c_ticks s))) as Hc.
  unfold mbind, core_bind, reserve in E. rewrite G3, K3, K4, K5, K6 in E.
  destruct (try_reserve _ _ _ _ _ _ _ _ _) as [reg rr]. cbn [fst snd] in *.
  destruct Hc as [[-> Hn]|(cap & Er & _)].
  - rewrite Hn in *. cbn [mbind option_bind]. subst s'. unfold authority. cbn [mret core_ret snd].
    core_cbn. congruence.
  - injection Er as -> ->. cbn [rr_reservation mbind option_bind] in *. subst s'.
    eexists. split_and!; [| |reflexivity].
    + unfold authority. core_cbn. cbn [rv_id]. congruence.
    + by core_cbn.
Qed.

Lemma send_to_node_keeps id mt payload s :
  authority (exec (send_to_node id mt payload) s) = authority s.
Proof.
  unfold exec, send_to_node, queue_frame, mbind, core_bind, gets, modify. cbv beta iota.
  by repeat case_match.
Qed.

Lemma attempts_at_value tid s :
  (attempts_at tid s).1 = default [] (c_attempts s !! tid) ∧
  (∀ a, let s' := exec (push_task_attempt tid a) (exec (attempts_at tid) s) in
     authority s' = (c_graph s, <[tid := default [] (c_attempts s !! tid) ++ [a]]> (c_attempts s),
                     c_reservations s, c_task_reservation s) ∧
     c_durable s' = c_durable s).
Proof.
  unfold exec, attempts_at, push_task_attempt, modify, authority.
  destruct (c_attempts s !! tid) as [l|] eqn:Hl; (split; [done|]); intros a; cbn [snd]; core_cbn.
  - by rewrite Hl.
  - by rewrite lookup_insert_eq, insert_insert_eq.
Qed.

Lemma authority_eq s g a r tr :
  authority s = (g, a, r, tr) →
  c_graph s = g ∧ c_attempts s = a ∧ c_reservations s = r ∧ c_task_reservation s = tr.
Proof. unfold authority. by intros [= -> -> -> ->]. Qed.

Lemma dispatch_task_effect s tid t node nid ex r device :
  g_states (c_graph s) !! tid = Some TS_Reserved →
  ∃ aid now,
    let a := new_attempt aid tid nid (nr_session node) (ds_epoch (c_durable s)) (rv_id r) ex
               (u32 (Z.of_nat (length (default [] (c_attempts s !! tid))))) now device in
    authority (exec (dispatch_task tid t node nid ex r device) s) =
    (with_states (<[tid := TS_Dispatching]> (g_states (c_graph s))) (c_graph s),
     <[tid := default [] (c_attempts s !! tid) ++ [a]]> (c_attempts s),
     c_reservations s, c_task_reservation s).
Proof.
  intros Hst. remember (exec (dispatch_task tid t node nid ex r device) s) as s' eqn:E.
  unfold exec, dispatch_task in E. erewrite core_bind_eq in E by reflexivity.
  erewrite core_bind_eq in E by reflexivity.
  set (s1 := set_draws _ s) in *.
  erewrite core_bind_eq in E by (rewrite (surjective_pairing (attempts_at tid s1)); reflexivity).
  destruct (attempts_at_value tid s1) as [Ev Hpush]. rewrite Ev in E.
  change (attempts_at tid s1).2 with (exec (attempts_at tid) s1) in E.
  erewrite core_bind_eq in E by reflexivity. cbv zeta in E.
  set (now := w_clock _ _) in E. set (s2 := set_ticks _ _) in E.
  match type of E with context [push_task_attempt tid ?x] => set (a := x) in E end.
  erewrite core_bind_eq in E by apply exec_unit.
  set (s3 := exec (push_task_attempt tid a) s2) in E.
  assert (H3 : authority s3 = (c_graph s, <[tid := default [] (c_attempts s !! tid) ++ [a]]> (c_attempts s),
                     c_reservations s, c_task_reservation s)) by apply Hpush.
  clearbody s3. erewrite core_bind_eq in E by reflexivity. erewrite core_bind_eq in E by reflexivity.
  erewrite core_bind_eq in E by apply exec_unit.
  match type of E with context [exec (send_to_node ?i ?m ?pl) ?x] =>
    pose proof (send_to_node_keeps i m pl x) as H4; set (s4 := exec (send_to_node i m pl) x) in * end.
  clearbody s4. change (authority s4 = authority s3) in H4. rewrite H3 in H4. clear H3.
  apply authority_eq in H4 as (G1 & G2 & G3 & G4).
  erewrite core_bind_eq in E.
  2: { unfold ignore. erewrite core_bind_eq; [reflexivity|].
       apply (set_task_st_legal _ _ TS_Reserved); [by rewrite G1|done]. }
  exists (w_random (c_world s) (c_draws s)), now. cbv zeta. subst s'.
  match goal with |- authority (persist ?x).2 = _ =>
    pose proof (persist_graph x) as P1; pose proof (persist_kept x) as (P2 & P3 & _);
    pose proof (persist_keeps x) as (_ & P4 & _) end.
  unfold authority. unfold exec in *. rewrite P1, P2, P3, P4. core_cbn.
  by rewrite G1, G2, G3, G4.
Qed.

Lemma plan_and_dispatch_effect s tid t node nid ex r device :
  g_states (c_graph s) !! tid = Some TS_Ready →
  ∃ aid now,
    let a := new_attempt aid tid nid (nr_session node) (ds_epoch (c_durable s)) (rv_id r) ex
               (u32 (Z.of_nat (length (default [] (c_attempts s !! tid))))) now device in
    authority (exec (plan_and_dispatch tid t node nid ex r device) s) =
    (with_states (<[tid := TS_Dispatching]> (g_states (c_graph s))) (c_graph s),
     <[tid := default [] (c_attempts s !! tid) ++ [a]]> (c_attempts s),
     c_reservations s, <[tid := rv_id r]> (c_task_reservation s)).
Proof.
  intros Hst. unfold exec, plan_and_dispatch.
  erewrite core_bind_eq by (by apply (set_task_st_legal _ _ TS_Ready)). cbn [failed is_ok negb].
  erewrite core_bind_eq.
  2: { apply (set_task_st_legal _ _ TS_Planning); [|done]. core_cbn. cbn [with_states g_states].
       apply lookup_insert_eq. }
  cbn [failed is_ok negb]. erewrite core_bind_eq by reflexivity.
  match goal with |- context [dispatch_task tid t node nid ex r device ?x] =>
    destruct (dispatch_task_effect x tid t node nid ex r device) as (aid & now & E) end.
  { core_cbn. cbn [with_states g_states]. apply lookup_insert_eq. }
  exists aid, now. cbv zeta in *. unfold exec in E. rewrite E. core_cbn.
  unfold with_states. cbn [g_tasks g_states g_deps g_dependents]. by rewrite !insert_insert_eq.
Qed.


(** ** Witnesses *)

(** A node has joined and a task has been submitted. *)
Definition ready_run : Coordinator :=
  run (connect ++ sample_register ++ sample_submit (mkId 0 1) []) booted.

