(* ===== verification/CoordTasks.v ===== *)
(** * CoordTasks: the life of a task in the coordinator

    Tasks are never dropped and their state only moves along the lifecycle,
    whatever happens; and what a submission does. *)

From S2P Require Import Prelude Status Ids Digest Float64 Task Lifecycle Dag Reservation Placement.
From S2P Require Import Wire Frame Serialize Messages Store Locality Scheduler Outbound CoordState.
From S2P Require Import CoordNodes CoordAttempts CoordSched CoordClient Coordinator.
From S2P Require Import CoordInv CoordDurable CoordRecovery CoordProps CoordReadiness CoordCommit.

Local Open Scope Z_scope.

(** ** Tasks stay and follow the lifecycle *)

Definition graph_follows (g h : TaskGraph) : Prop :=
  ∀ id t, g_tasks g !! id = Some t →
    g_tasks h !! id = Some t ∧ rtc legal_step (task_state g id) (task_state h id).

#[export] Instance graph_follows_preorder : PreOrder graph_follows.
Proof.
  split.
  - intros g id t Ht. split; [done|apply rtc_refl].
  - intros g h k H1 H2 id t Ht. destruct (H1 id t Ht) as [Ht1 Hs1].
    destruct (H2 id t Ht1) as [Ht2 Hs2]. split; [done|]. by etrans.
Qed.

Lemma set_state_follows g id st : graph_follows g (set_state g id st).1.
Proof.
  destruct (set_state_cases g id st) as [->|(cur & Hcur & Hl & ->)]; [done|].
  intros k t Ht. cbn [fst g_tasks]. split; [done|]. unfold task_state. cbn [g_states].
  destruct (decide (k = id)) as [->|Hne].
  - rewrite Hcur, lookup_insert_eq. by apply rtc_once.
  - rewrite lookup_insert_ne by done. apply rtc_refl.
Qed.

Lemma add_task_follows g t : graph_follows g (add_task g t).1.
Proof.
  unfold add_task, has_task. case_bool_decide as Hk; [done|]. case_bool_decide; [done|].
  destruct (link_deps _ _ _) as [deps dependents]. apply eq_None_not_Some in Hk.
  destruct (validate_dependencies _ _); intros k u Hu;
    assert (k ≠ ct_id t) by (intros ->; congruence); unfold task_state; cbn [fst g_tasks g_states].
  - rewrite !lookup_insert_ne by done. split; [done|apply rtc_refl].
  - rewrite !lookup_delete_ne, !lookup_insert_ne by done. split; [done|apply rtc_refl].
Qed.

Definition follows (base s : Coordinator) : Prop := graph_follows (c_graph base) (c_graph s).

Section follows.
Context (base : Coordinator).
Abbreviation FOLLOWS := (follows base).

Lemma follows_frame s s' : c_graph s' = c_graph s → FOLLOWS s → FOLLOWS s'.
Proof. unfold follows. by intros ->. Qed.
Lemma set_task_st_follows id st : preserves FOLLOWS (set_task_st id st).
Proof.
  intros s Hs. unfold set_task_st. pose proof (set_state_follows (c_graph s) id st) as H.
  destruct (set_state _ _ _) as [g r]. unfold follows. core_cbn. by etrans.
Qed.
Lemma reserve_follows n t x sl sc : preserves FOLLOWS (reserve n t x sl sc).
Proof.
  intros s Hs. unfold reserve. destruct (try_reserve _ _ _ _ _ _ _ _ _) as [reg rr].
  by destruct (rr_reservation rr).
Qed.
Lemma persist_follows : preserves FOLLOWS persist.
Proof. intros s Hs. by apply (follows_frame s); [apply persist_graph|]. Qed.
Lemma modify_follows f : (∀ s, c_graph (f s) = c_graph s) → preserves FOLLOWS (modify f).
Proof. intros Hf. apply preserves_modify. intros s. by apply follows_frame. Qed.
Lemma attempts_at_follows tid : preserves FOLLOWS (attempts_at tid).
Proof. intros s Hs. unfold attempts_at. by destruct (c_attempts s !! tid). Qed.
Lemma cancel_requested_at_follows tid : preserves FOLLOWS (cancel_requested_at tid).
Proof. intros s Hs. unfold cancel_requested_at. by destruct (c_cancel_requested s !! tid). Qed.
Lemma update_attempt_follows p f : preserves FOLLOWS (update_attempt p f).
Proof. by apply modify_follows. Qed.
Lemma push_task_attempt_follows tid a : preserves FOLLOWS (push_task_attempt tid a).
Proof. by apply modify_follows. Qed.
Lemma now_millis_follows : preserves FOLLOWS now_millis.
Proof. by intros s Hs. Qed.
Lemma random_id_follows : preserves FOLLOWS random_id.
Proof. by intros s Hs. Qed.
End follows.

#[export] Hint Resolve set_task_st_follows reserve_follows persist_follows attempts_at_follows
  cancel_requested_at_follows update_attempt_follows push_task_attempt_follows
  now_millis_follows random_id_follows : core.
#[export] Hint Extern 5 (preserves (follows _) (modify _)) =>
  apply modify_follows; done : core.

Lemma propagate_follows base fuel id : preserves (follows base) (propagate fuel id).
Proof.
  revert id. induction fuel as [|fuel IH]; intros id; cbn [propagate]; [solve_core|].
  apply preserves_bind; [solve_core|]. intros deps.
  induction deps as [|dep deps IHd]; cbn [propagate_loop]; unfold make_ready; solve_core.
Qed.
#[export] Hint Resolve propagate_follows : core.

(** Every handler, down to the primitives of the monad. *)
Ltac unfold_handlers :=
  unfold handle_node_register, handle_node_heartbeat, handle_node_shutdown,
    handle_node_disconnect, handle_node_drain, handle_dispatch_ack, handle_attempt_started,
    handle_attempt_complete, commit_attempt, preempt_attempt, complete_ack,
    on_task_succeeded_recursive, handle_attempt_failed, failed_ack, handle_attempt_cancelled,
    handle_reservation_release, handle_client_connected, handle_client_disconnected,
    handle_task_submit, submit_task, accept_task, handle_task_inspect, handle_task_list,
    handle_task_cancel, cancel_task, request_cancel, handle_workload_inspect,
    handle_fabric_status, handle_placement_query, handle_node_list, handle_coordinator_shutdown,
    shutdown_node, handle_node_loss, requeue_lost;
  unfold_sending.
Ltac unfold_sweep :=
  unfold sweep, handle_node_loss, requeue_lost, requeue_dispatch, retry_step, deadline_step,
    schedule_ready_tasks, schedule_task, place_and_dispatch, record_placement, plan_and_dispatch,
    dispatch_task;
  unfold_sending.

Lemma sweep_follows base : preserves (follows base) sweep.
Proof. unfold_sweep. solve_core. Qed.

Lemma process_follows base cmd : preserves (follows base) (process cmd).
Proof.
  unfold process. destruct (cmd_kind cmd); unfold_handlers; solve_core.
  - intros s Hs. cbv beta. pose proof (add_task_follows (c_graph s) (tsub_task submit)) as H.
    destruct (add_task _ _) as [g r]. unfold follows. cbn [snd]. core_cbn. by etrans.
  - apply modify_follows. intros s. by case_match.
Qed.

Lemma event_follows base ev : preserves (follows base) (event ev).
Proof.
  pose proof (sweep_follows base). pose proof (process_follows base).
  unfold event. destruct ev; unfold reader_action, node_exit, client_exit, reader_exit,
    push_command, Coordinator.core_step; unfold_sending; solve_core;
    apply modify_follows; intros s; by repeat case_match.
Qed.

Lemma run_follows evs s : follows s (run evs s).
Proof.
  assert (H : ∀ s', follows s s' → follows s (run evs s')); [|apply H; done].
  unfold run. induction evs as [|ev evs IH]; intros s' Hs'; [done|]. cbn [foldl].
  by apply IH, event_follows.
Qed.

Lemma rtc_legal_final st st' :
  rtc legal_step st st' → st ∈ [TS_Succeeded; TS_Cancelled; TS_Expired] → st' = st.
Proof.
  intros Hr Hst. induction Hr as [|x y z [x' y' Hl] _ IH]; [done|].
  assert (E : y' = x').
  { destruct (decide (x' = y')) as [|Hne]; [done|]. unfold is_legal in Hl.
    rewrite decide_False in Hl by done. by destruct x'; set_solver. }
  subst y'. by apply IH.
Qed.

(** ** Submission *)

(** A task the coordinator takes: it has an identifier and knows its dependencies. *)
Record admissible (s : Coordinator) (t : ComputeTask) : Prop := {
  ad_running : c_stopping s = false;
  ad_id : ct_id t ≠ id_zero;
  ad_deps : ∀ d, d ∈ ct_dependencies t → is_Some (g_tasks (c_graph s) !! d)
}.

Definition initial_state (t : ComputeTask) : TaskState :=
  match ct_dependencies t with [] => TS_Ready | _ => TS_Blocked end.

Lemma id_is_zero_spec x : id_is_zero x = true ↔ x = id_zero.
Proof.
  destruct x as [hi lo]. unfold id_is_zero, id_zero. cbn [id_hi id_lo].
  rewrite andb_true_iff, !Z.eqb_eq. split; [by intros [-> ->]|by intros [= -> ->]].
Qed.

Lemma missing_dependency_iff g t :
  missing_dependency g t = None ↔ ∀ d, d ∈ ct_dependencies t → is_Some (g_tasks g !! d).
Proof.
  unfold missing_dependency. rewrite fmap_None. rewrite list_find_None, Forall_forall.
  unfold has_task. split; intros H d Hd; specialize (H d Hd).
  - apply not_false_is_true, bool_decide_eq_true in H. done.
  - by rewrite bool_decide_true.
Qed.

Lemma accept_task_effect submit s :
  let t := tsub_task submit in
  g_states (c_graph s) !! ct_id t = Some TS_Submitted →
  let s' := exec (accept_task submit) s in
  c_graph s' = with_states (<[ct_id t := initial_state t]> (g_states (c_graph s))) (c_graph s) ∧
  c_attempts s' = c_attempts s ∧ c_retry_ready_at s' = c_retry_ready_at s.
Proof.
  intros t Hst s'. unfold s', accept_task. cbv zeta.
  unfold exec. erewrite core_bind_eq; [|reflexivity]. erewrite core_bind_eq; [|reflexivity].
  match goal with |- context [set_locality ?l ?x] => set (s1 := set_locality l x) end.
  assert (E1 : c_graph s1 = c_graph s ∧ c_attempts s1 = c_attempts s ∧
               c_retry_ready_at s1 = c_retry_ready_at s).
  { unfold s1. core_cbn. by destruct (bool_decide _). }
  clearbody s1. destruct E1 as (Eg & Ea & Er).
  erewrite core_bind_eq.
  2: { unfold ignore. erewrite core_bind_eq; [reflexivity|].
       apply (set_task_st_legal _ _ TS_Submitted); [by rewrite Eg|].
       unfold initial_state. by destruct (ct_dependencies _). }
  erewrite core_bind_eq; [|reflexivity]. erewrite core_bind_eq; [|reflexivity].
  match goal with |- context [persist ?x] => set (s2 := x) end.
  pose proof (persist_graph s2) as Pg. pose proof (persist_kept s2) as (Pa & _ & _ & Pr).
  unfold exec in *. rewrite Pg, Pa, Pr. unfold s2. core_cbn. by rewrite Eg.
Qed.

Lemma submit_task_effect e s submit :
  core_ok e s →
  let t := tsub_task submit in
  let '((accepted, _), s') := submit_task submit s in
  (is_Some (g_tasks (c_graph s) !! ct_id t) → accepted = true ∧ s' = s) ∧
  (g_tasks (c_graph s) !! ct_id t = None →
    (accepted = false ∧ s' = s ∧ ¬ admissible s t) ∨
    (accepted = true ∧ admissible s t ∧
     c_graph s' = with_states (<[ct_id t := initial_state t]> (g_states (c_graph s)))
                    (linked (c_graph s) t) ∧
     c_attempts s' = c_attempts s ∧ c_retry_ready_at s' = c_retry_ready_at s)).
Proof.
  intros Hok t. unfold submit_task, gets, mbind, core_bind. cbv beta iota zeta. fold t.
  destruct (has_task (c_graph s) (ct_id t)) eqn:Hk.
  { apply bool_decide_eq_true in Hk. split; [done|]. intros E. rewrite E in Hk. by destruct Hk. }
  apply bool_decide_eq_false, eq_None_not_Some in Hk.
  destruct (c_stopping s) eqn:Hstop.
  { split; [by intros [? ?]; congruence|]. intros _. left. split_and!; [done..|].
    intros [? _ _]. congruence. }
  destruct (id_is_zero (ct_id t)) eqn:Hz.
  { split; [by intros [? ?]; congruence|]. intros _. left. split_and!; [done..|].
    intros [_ Hz' _]. by apply id_is_zero_spec in Hz. }
  destruct (missing_dependency (c_graph s) t) as [d|] eqn:Hm.
  { split; [by intros [? ?]; congruence|]. intros _. left. split_and!; [done..|].
    intros [_ _ Hd]. apply missing_dependency_iff in Hd. congruence. }
  destruct (added_task_ok e s t Hok Hk Hm) as [-> _]. cbv beta iota.
  destruct (accept_task_effect submit (set_graph (linked (c_graph s) t) s)) as (Eg & Ea & Er).
  { core_cbn. unfold linked. cbn [g_states]. apply lookup_insert_eq. }
  unfold exec in *. destruct (accept_task submit _) as [[] s']. cbn [snd] in *.
  split; [by intros [? ?]; congruence|]. intros _. right. split_and!; try done.
  - split; [done| |by apply missing_dependency_iff].
    intros E. apply id_is_zero_spec in E. congruence.
  - rewrite Eg. core_cbn. unfold with_states, linked. cbn [g_tasks g_states g_deps g_dependents].
    by rewrite insert_insert_eq.
Qed.

(** ** Claims *)

(** C17: a task's life.  Over any sequence of connections, messages, timeouts
    and sweeps, no task is dropped or altered, its state changes only along legal
    transitions of the lifecycle, and a task that has succeeded, was cancelled or
    has expired stays so. *)
Theorem lifecycle_respected (s : Coordinator) (evs : list Event) (id : Id128) (t : ComputeTask) :
  g_tasks (c_graph s) !! id = Some t →
  let s' := run evs s in
  g_tasks (c_graph s') !! id = Some t ∧
  rtc legal_step (task_state (c_graph s) id) (task_state (c_graph s') id) ∧
  (task_state (c_graph s) id ∈ [TS_Succeeded; TS_Cancelled; TS_Expired] →
   task_state (c_graph s') id = task_state (c_graph s) id).
Proof.
  intros Ht s'. destruct (run_follows evs s id t Ht) as [Ht' Hr].
  split_and!; [done..|]. by apply rtc_legal_final.
Qed.

Lemma lifecycle_respected_witness :
  g_tasks (c_graph (run [E_Sweep] submitted_run)) !! mkId 0 1 = Some (default_task (mkId 0 1) []).
Proof.
  apply (lifecycle_respected submitted_run [E_Sweep] (mkId 0 1) (default_task (mkId 0 1) [])).
  vm_compute. reflexivity.
Defined.


