(* ===== verification/CoordWaiting.v ===== *)
(** * CoordWaiting: tasks that wait forever

    Two ways into a state that nothing leads out of but a cancellation or a
    deadline: a task submitted after its dependencies have succeeded, and a task
    whose retry was pending when the coordinator restarted.  [waits] is the
    invariant that keeps such a task where it is. *)

From S2P Require Import Prelude Status Ids Digest Float64 Task Lifecycle Dag Reservation Placement.
From S2P Require Import Wire Frame Serialize Messages Store Locality Scheduler Outbound CoordState.
From S2P Require Import CoordNodes CoordAttempts CoordSched CoordClient Coordinator.
From S2P Require Import CoordInv CoordDurable CoordRecovery CoordProps CoordReadiness CoordCommit.
From S2P Require Import CoordTasks.

Local Open Scope Z_scope.

(** A fact about a value read from the state, for the rest of the program. *)
Lemma preserves_bind_fact {A B} (I : Coordinator → Prop) (φ : A → Prop) (m : Core A) (k : A → Core B) :
  preserves I m → (∀ s, I s → φ (m s).1) → (∀ a, φ a → preserves I (k a)) → preserves I (m ≫= k).
Proof.
  intros Hm Hφ Hk s Hs. specialize (Hm s Hs). specialize (Hφ s Hs). unfold mbind, core_bind.
  destruct (m s) as [a s']. by apply Hk.
Qed.

(** ** The invariant *)

(** [id] is stuck in [st0]: it has no attempt, and, if it waits for a retry, no time
    for it, or, if it waits for dependencies, none that will succeed. *)
Record waits (id : Id128) (t : ComputeTask) (st0 : TaskState) (s : Coordinator) : Prop := {
  wt_task : g_tasks (c_graph s) !! id = Some t;
  wt_state : task_state (c_graph s) id ∈ [st0; TS_Cancelled; TS_Expired];
  wt_attempts : default [] (c_attempts s !! id) = [];
  wt_retry : st0 = TS_RetryPending → c_retry_ready_at s !! id = None;
  wt_deps : st0 = TS_Blocked → ∀ d, d ∈ ct_dependencies t → g_states (c_graph s) !! d = Some TS_Succeeded
}.

Section waits.
Context (id : Id128) (t : ComputeTask) (st0 : TaskState).
Context (Hst0 : st0 = TS_Blocked ∨ st0 = TS_RetryPending).
Abbreviation WAITS := (waits id t st0).

Lemma waits_frame s s' :
  c_graph s' = c_graph s → c_attempts s' = c_attempts s →
  c_retry_ready_at s' = c_retry_ready_at s → WAITS s → WAITS s'.
Proof. intros E1 E2 E3 [H1 H2 H3 H4 H5]. split; by rewrite ?E1, ?E2, ?E3. Qed.

Lemma waits_not_active s : WAITS s →
  task_state (c_graph s) id ≠ TS_Ready ∧ task_state (c_graph s) id ≠ TS_Dispatching ∧
  (task_state (c_graph s) id = TS_RetryPending → st0 = TS_RetryPending).
Proof using Hst0.
  intros [_ H _ _ _]. rewrite !elem_of_cons, elem_of_nil in H.
  destruct Hst0 as [->| ->]; destruct H as [->|[->|[->|[]]]]; done.
Qed.

Lemma set_task_st_waits x st :
  st ≠ TS_Ready ∨ x ≠ id → preserves WAITS (set_task_st x st).
Proof using Hst0.
  intros Hx s Hs. pose proof (set_state_follows (c_graph s) x st) as Hf. unfold set_task_st.
  destruct (set_state_cases (c_graph s) x st) as [E|(cur & Hcur & Hl & E)];
    destruct (set_state (c_graph s) x st) as [g r].
  { cbn [fst] in E. subst g. by apply (waits_frame s). }
  injection E as -> ->. cbn [fst snd] in *. destruct Hs as [H1 H2 H3 H4 H5].
  split; core_cbn; try done.
  - unfold task_state. cbn [g_states]. destruct (decide (x = id)) as [->|Hne];
      [|by rewrite lookup_insert_ne].
    rewrite lookup_insert_eq. destruct Hx as [Hx|]; [|done].
    unfold task_state in H2. rewrite Hcur in H2. rewrite !elem_of_cons, elem_of_nil in H2.
    unfold is_legal in Hl. case_decide; [subst cur; set_solver|].
    destruct Hst0 as [-> | ->]; destruct H2 as [->|[->|[->|[]]]]; try done; destruct st; try done;
      set_solver.
  - intros Hb d Hd. cbn [g_states]. destruct (decide (x = d)) as [->|Hne];
      [|rewrite lookup_insert_ne by done; by apply H5].
    rewrite lookup_insert_eq. rewrite (H5 Hb d Hd) in Hcur. injection Hcur as <-.
    unfold is_legal in Hl. by case_decide; [subst st|].
Qed.

Lemma update_attempt_waits p f : preserves WAITS (update_attempt p f).
Proof using.
  apply preserves_modify. intros s [H1 H2 H3 H4 H5]. split; core_cbn; try done.
  destruct (decide (p.1 = id)) as [E|]; [|by rewrite lookup_alter_ne].
  rewrite E, lookup_alter_eq. by destruct (c_attempts s !! id) as [[]|].
Qed.
Lemma attempts_at_waits tid : preserves WAITS (attempts_at tid).
Proof using.
  intros s Hs. unfold attempts_at. destruct (c_attempts s !! tid) eqn:Hl; [done|]. cbn [snd].
  destruct Hs as [H1 H2 H3 H4 H5]. split; core_cbn; try done.
  destruct (decide (tid = id)) as [->|]; [by rewrite lookup_insert_eq|by rewrite lookup_insert_ne].
Qed.
Lemma push_task_attempt_waits tid a : tid ≠ id → preserves WAITS (push_task_attempt tid a).
Proof using.
  intros Hne. apply preserves_modify. intros s [H1 H2 H3 H4 H5]. split; core_cbn; try done.
  by rewrite lookup_insert_ne.
Qed.
Lemma set_retry_waits tid f :
  tid ≠ id → preserves WAITS (modify (λ s, set_retry_ready_at (<[tid := f s]> (c_retry_ready_at s)) s)).
Proof using.
  intros Hne. apply preserves_modify. intros s [H1 H2 H3 H4 H5]. split; core_cbn; try done.
  by rewrite lookup_insert_ne.
Qed.
Lemma reserve_waits n tid x sl sc : preserves WAITS (reserve n tid x sl sc).
Proof using.
  intros s Hs. unfold reserve. destruct (try_reserve _ _ _ _ _ _ _ _ _) as [reg rr].
  destruct (rr_reservation rr); by apply (waits_frame s).
Qed.
Lemma cancel_requested_at_waits tid : preserves WAITS (cancel_requested_at tid).
Proof using.
  intros s Hs. unfold cancel_requested_at. destruct (_ !! _); [done|]. by apply (waits_frame s).
Qed.
Lemma persist_waits : preserves WAITS persist.
Proof using.
  intros s Hs. apply (waits_frame s); [apply persist_graph|apply persist_keeps|apply persist_kept|done].
Qed.
Lemma modify_waits f :
  (∀ s, c_graph (f s) = c_graph s) → (∀ s, c_attempts (f s) = c_attempts s) →
  (∀ s, c_retry_ready_at (f s) = c_retry_ready_at s) → preserves WAITS (modify f).
Proof using. intros H1 H2 H3. apply preserves_modify. intros s. by apply waits_frame. Qed.
Lemma now_millis_waits : preserves WAITS now_millis.
Proof using. intros s Hs. by apply (waits_frame s). Qed.
Lemma random_id_waits : preserves WAITS random_id.
Proof using. intros s Hs. by apply (waits_frame s). Qed.

Hint Resolve update_attempt_waits attempts_at_waits push_task_attempt_waits set_retry_waits
  reserve_waits cancel_requested_at_waits persist_waits now_millis_waits random_id_waits : core.
Hint Extern 5 (preserves (waits _ _ _) (modify _)) => apply modify_waits; done : core.
Hint Extern 5 (preserves (waits _ _ _) (set_task_st _ _)) =>
  apply set_task_st_waits; (by left) || (by right) : core.

(** ** The sweep *)

Lemma requeue_lost_waits tid : tid ≠ id → preserves WAITS (requeue_lost tid).
Proof using Hst0. intros Hne. unfold requeue_lost. unfold_sending. solve_core. Qed.

Lemma affected_not_waiting s n x :
  WAITS s → x ∈ affected_tasks n (c_attempts s) → x ≠ id.
Proof using.
  intros Hs Hx ->. unfold affected_tasks in Hx. apply list_elem_of_In, in_flat_map in Hx as ([k l] & Hk & Hx).
  apply in_map_iff in Hx as (a & E & Ha). cbn [fst snd] in *. subst k.
  apply list_elem_of_In, elem_of_in_order in Hk. pose proof (wt_attempts _ _ _ _ Hs) as Hl.
  rewrite Hk in Hl. cbn [default] in Hl. unfold Datatypes.id in Hl. subst l. done.
Qed.

Lemma handle_node_loss_waits n : preserves WAITS (handle_node_loss n).
Proof using Hst0.
  unfold handle_node_loss. unfold_sending.
  apply preserves_bind; [solve_core|intros it]. destruct it as [r|]; [|solve_core].
  case_bool_decide; [solve_core|].
  do 3 (apply preserves_bind; [solve_core|intros _]).
  apply (preserves_bind_fact _ (λ l, ∀ x, x ∈ l → x ≠ id)); [solve_core| |].
  { intros s Hs x. by apply affected_not_waiting. }
  intros l Hl. apply preserves_bind; [|intros _; solve_core].
  apply preserves_for_each. intros x Hx. by apply requeue_lost_waits, Hl.
Qed.

Lemma requeue_dispatch_waits now x : x ≠ id → preserves WAITS (requeue_dispatch now x).
Proof using Hst0. intros Hne. unfold requeue_dispatch. unfold_sending. solve_core. Qed.

Lemma retry_step_waits now kv :
  (kv.1 = id → st0 ≠ TS_RetryPending) → preserves WAITS (retry_step now kv).
Proof using Hst0.
  intros Hkv. unfold retry_step, state_of.
  apply (preserves_bind_fact _ (λ st, kv.1 = id → st ≠ TS_RetryPending)); [solve_core| |].
  { intros s Hs E. unfold gets. cbn [fst]. rewrite E. intros Hst.
    apply (Hkv E), (waits_not_active s Hs), Hst. }
  intros st Hst. case_bool_decide as Hr; cbn [andb when]; [|solve_core].
  assert (kv.1 ≠ id) by (intros E; by apply (Hst E)). solve_core.
Qed.

Lemma deadline_step_waits now x : preserves WAITS (deadline_step now x).
Proof using Hst0. unfold deadline_step. unfold_sending. solve_core. Qed.

Lemma schedule_task_waits x : preserves WAITS (schedule_task x).
Proof using Hst0.
  unfold schedule_task, state_of. apply preserves_bind; [solve_core|intros stopping].
  destruct stopping; [solve_core|]. apply preserves_bind; [solve_core|intros [u|]]; [|solve_core].
  apply (preserves_bind_fact _ (λ st, st = TS_Ready → x ≠ id)); [solve_core| |].
  { intros s Hs Hr ->. destruct (waits_not_active s Hs) as [Hn _]. by apply Hn. }
  intros st Hst. case_bool_decide as Hr; cbn [negb]; [|solve_core]. specialize (Hst Hr).
  unfold place_and_dispatch, record_placement, plan_and_dispatch, dispatch_task. unfold_sending.
  solve_core.
Qed.

Lemma sweep_waits : preserves WAITS sweep.
Proof using Hst0.
  unfold sweep. apply preserves_bind; [solve_core|intros now].
  apply preserves_bind; [solve_core|intros lost].
  apply preserves_bind; [apply preserves_for_each; intros x _; apply handle_node_loss_waits|intros _].
  apply (preserves_bind_fact _ (λ l, ∀ x, x ∈ l → x ≠ id)); [solve_core| |intros stale Hstale].
  { intros s Hs x Hx ->. unfold gets, stale_dispatches in Hx. cbn [fst] in Hx.
    apply list_elem_of_fmap in Hx as ([k v] & E & Hkv). apply list_elem_of_filter in Hkv as [Hkv _].
    cbn [fst] in *. subst k. apply andb_true_iff in Hkv as [Hkv _]. apply bool_decide_eq_true in Hkv.
    destruct (waits_not_active s Hs) as (_ & Hn & _). by apply Hn. }
  apply preserves_bind; [apply preserves_for_each; intros; by apply requeue_dispatch_waits, Hstale|intros _].
  apply (preserves_bind_fact _ (λ l, ∀ kv, kv ∈ l → kv.1 = id → st0 ≠ TS_RetryPending));
    [solve_core| |intros retries Hretries].
  { intros s Hs [k v] Hkv Hk Hr. unfold gets in Hkv. cbn [fst] in *. apply elem_of_in_order in Hkv.
    pose proof (wt_retry _ _ _ _ Hs Hr). congruence. }
  apply preserves_bind; [apply preserves_for_each; intros; by apply retry_step_waits, Hretries|intros _].
  apply preserves_bind; [solve_core|intros ids].
  apply preserves_bind; [apply preserves_for_each; intros; apply deadline_step_waits|intros _].
  unfold schedule_ready_tasks. apply preserves_bind; [solve_core|intros ready].
  apply preserves_for_each. intros. apply schedule_task_waits.
Qed.

(** ** Commands *)

Lemma found_not_waiting s aid p a :
  WAITS s → find_in_lists aid (in_order (c_attempts s)) = Some (p, a) → p.1 ≠ id.
Proof using.
  intros Hs [Hp _]%find_in_lists_some E. pose proof (wt_attempts _ _ _ _ Hs) as Hl.
  rewrite E in Hp. destruct (c_attempts s !! id) as [l|]; [|done]. cbn in Hl, Hp. subst l.
  by rewrite lookup_nil in Hp.
Qed.

Lemma handle_dispatch_ack_waits cmd da : preserves WAITS (handle_dispatch_ack cmd da).
Proof using Hst0.
  unfold handle_dispatch_ack. destruct (dak_accepted da); [solve_core|].
  apply (preserves_bind_fact _ (λ r, ∀ p a, r = Some (p, a) → p.1 ≠ id));
    [apply preserves_gets| |].
  { intros s Hs p a. by apply found_not_waiting. }
  intros [[[tid i] a]|] Hr; [|solve_core]. specialize (Hr _ _ eq_refl). cbn [fst] in Hr.
  unfold_sending. solve_core.
Qed.

Section with_invariant.
Context (e : Z).
Definition waits_ok (s : Coordinator) : Prop := core_ok e s ∧ WAITS s.

Lemma waits_ok_intro {A} (m : Core A) :
  preserves (core_ok e) m → preserves WAITS m → preserves waits_ok m.
Proof using. intros H1 H2 s [Hok Hw]. split; [by apply H1|by apply H2]. Qed.

(** A new task is not the waiting one. *)
Lemma add_task_waits s u :
  waits_ok s → WAITS (set_graph (add_task (c_graph s) u).1 s).
Proof using.
  intros [Hok [H1 H2 H3 H4 H5]]. unfold add_task, has_task.
  case_bool_decide as Hk; [by split|]. case_bool_decide; [by split|].
  destruct (link_deps _ _ _) as [deps dependents]. apply eq_None_not_Some in Hk.
  assert (Hne : id ≠ ct_id u) by (intros ->; congruence).
  assert (Hst : ∀ d, is_Some (g_states (c_graph s) !! d) → d ≠ ct_id u).
  { intros d Hd ->. apply elem_of_dom in Hd. rewrite (ok_states _ (ck_graph e s Hok)) in Hd.
    apply elem_of_dom in Hd as [v Hv]. congruence. }
  destruct (validate_dependencies _ _); split; core_cbn; cbn [fst g_tasks]; try done;
    unfold task_state; cbn [g_states]; rewrite ?lookup_delete_ne, ?lookup_insert_ne by done; try done;
    intros Hb d Hd; specialize (H5 Hb d Hd);
    rewrite ?lookup_delete_ne, ?lookup_insert_ne by (apply not_eq_sym, Hst; by eexists); done.
Qed.

Lemma accept_task_waits submit :
  ct_id (tsub_task submit) ≠ id → preserves WAITS (accept_task submit).
Proof using Hst0.
  intros Hne. unfold accept_task. solve_core.
  - apply modify_waits; intros s; by case_match.
Qed.

Lemma submit_task_waits submit : preserves waits_ok (submit_task submit).
Proof using Hst0.
  intros s Hs. pose proof (submit_task_ok e submit s (proj1 Hs)) as Hok. split; [done|]. clear Hok.
  unfold submit_task, gets, mbind, core_bind. cbv beta iota.
  destruct (has_task (c_graph s) _) eqn:Hk; [apply Hs|].
  destruct (c_stopping s); [apply Hs|]. destruct (id_is_zero _); [apply Hs|].
  destruct (missing_dependency _ _) eqn:Hm; [apply Hs|].
  assert (Hne : ct_id (tsub_task submit) ≠ id).
  { intros E. apply bool_decide_eq_false in Hk. apply Hk. rewrite E.
    by rewrite (wt_task _ _ _ _ (proj2 Hs)). }
  pose proof (add_task_waits s (tsub_task submit) Hs) as Hw.
  destruct (add_task _ _) as [g [?|err]]; [|done]. cbn [fst] in Hw.
  apply (accept_task_waits submit Hne) in Hw. by destruct (accept_task submit _).
Qed.

(** A program that keeps both parts by itself. *)
Ltac keeps_both := 
  apply waits_ok_intro; [solve [solve_core]|solve [unfold_sending; solve_core]].

Lemma found_waits_ok aid :
  ∀ s, waits_ok s → ∀ p a, (find_active_attempt aid s).1 = Some (p, a) → at_task_id a ≠ id.
Proof using.
  intros s [Hok Hw] p a Hf E. cbn [find_active_attempt gets fst] in Hf.
  apply (found_not_waiting s aid p a Hw Hf). apply find_in_lists_some in Hf as [Hp _].
  destruct (c_attempts s !! p.1) as [l|] eqn:Hl; [|done]. cbn [mbind option_bind] in Hp.
  pose proof (ck_attempts e s Hok _ l Hl) as Hall. rewrite Forall_lookup in Hall.
  destruct (Hall _ _ Hp) as [<- _]. exact E.
Qed.

Lemma handle_attempt_failed_waits cmd fa : preserves waits_ok (handle_attempt_failed cmd fa).
Proof using Hst0.
  unfold handle_attempt_failed.
  apply (preserves_bind_fact _ (λ r, ∀ p a, r = Some (p, a) → at_task_id a ≠ id));
    [apply preserves_gets|apply found_waits_ok|].
  intros [[p a]|] Hne; [specialize (Hne _ _ eq_refl)|]; unfold failed_ack; keeps_both.
Qed.

(** What follows a success does not reach a task with no dependency left to succeed. *)
Lemma on_task_succeeded_waits tid :
  (st0 = TS_Blocked → tid ∉ ct_dependencies t) → preserves waits_ok (on_task_succeeded_recursive tid).
Proof using Hst0.
  intros Htid s [Hok Hw]. split; [by apply on_task_succeeded_ok|].
  pose proof (on_task_succeeded_effect s tid (ck_graph e s Hok)) as E. unfold exec in E. rewrite E.
  apply (preserves_for_each WAITS); [|done]. intros x Hx. unfold make_ready.
  apply (preserves_bind_fact _ (λ b : bool, b = true → x ≠ id)); [apply preserves_gets| |].
  - intros s' Hs' Hb ->. unfold gets in Hb. cbn [fst] in Hb.
    apply andb_true_iff in Hb as [Hb _]. apply bool_decide_eq_true in Hb.
    assert (Est : st0 = TS_Blocked).
    { pose proof (wt_state _ _ _ _ Hs') as Hin. rewrite Hb in Hin. destruct Hst0 as [->| ->]; [done|].
      by rewrite !elem_of_cons, elem_of_nil in Hin; naive_solver. }
    apply (Htid Est). apply elem_of_dependents, (ok_reverse _ (ck_graph e s Hok)) in Hx.
    pose proof (ok_deps _ (ck_graph e s Hok) id t (wt_task _ _ _ _ Hw)) as [_ Hd].
    unfold edge in Hx. rewrite Hd in Hx. by apply elem_of_list_to_set in Hx.
  - intros [|] Hb; cbn [when]; [specialize (Hb eq_refl)|]; solve_core.
Qed.

Lemma commit_attempt_waits cmd co p a :
  (st0 = TS_Blocked → at_task_id a ∉ ct_dependencies t) →
  preserves waits_ok (commit_attempt cmd co p a).
Proof using Hst0.
  intros Ha. unfold commit_attempt, complete_ack. cbv zeta.
  do 5 (apply preserves_bind; [keeps_both|intros ?]).
  do 3 (apply preserves_bind; [keeps_both|intros ?]).
  apply preserves_bind; [by apply on_task_succeeded_waits|intros ?]. keeps_both.
Qed.

Lemma handle_attempt_complete_waits cmd co : preserves waits_ok (handle_attempt_complete cmd co).
Proof using Hst0.
  unfold handle_attempt_complete. apply preserves_bind; [apply preserves_gets|intros [[p a]|]];
    [|unfold complete_ack; keeps_both].
  destruct (at_committed a); [unfold complete_ack; keeps_both|].
  apply (preserves_bind_fact _
    (λ r : option string, r = None → st0 = TS_Blocked → at_task_id a ∉ ct_dependencies t));
    [apply preserves_gets| |].
  { intros s [_ Hw] (_ & _ & _ & Hst)%completion_error_none Hb Hin.
    pose proof (wt_deps _ _ _ _ Hw Hb _ Hin) as Hd. unfold task_state in Hst. rewrite Hd in Hst.
    naive_solver. }
  intros err Herr. apply preserves_bind; [keeps_both|intros cancelled]. cbv zeta.
  destruct (if cancelled : bool then _ else _) as [reason|] eqn:E.
  - unfold preempt_attempt, complete_ack. keeps_both.
  - apply commit_attempt_waits. destruct cancelled; [done|]. by apply Herr.
Qed.

(** Commands that keep [WAITS] whatever the rest of the state. *)
Lemma process_waits cmd : preserves waits_ok (process cmd).
Proof using Hst0.
  assert (Hother : ∀ m : Core unit, preserves WAITS m → hoare waits_ok m (λ _, WAITS)).
  { intros m Hm s [_ Hw]. by apply Hm. }
  assert (Hproc : hoare waits_ok (process cmd) (λ _, WAITS)).
  { pose proof handle_node_loss_waits. pose proof handle_dispatch_ack_waits. unfold process.
    destruct (cmd_kind cmd); try (apply Hother; first [solve [solve_core]|unfold_handlers; solve [solve_core]]).
    - intros s Hs. apply handle_attempt_complete_waits, Hs.
    - intros s Hs. apply handle_attempt_failed_waits, Hs.
    - unfold handle_task_submit. eapply hoare_bind; [apply submit_task_waits|intros r].
      apply Hother. unfold_sending. solve_core. }
  intros s Hs. split; [apply process_ok, Hs|by apply Hproc].
Qed.

Lemma event_waits ev : preserves waits_ok (event ev).
Proof using Hst0.
  pose proof sweep_waits.
  intros s Hs. split; [apply event_ok, Hs|].
  destruct ev; try (match goal with |- WAITS (event ?ev s).2 =>
    assert (Hp : preserves WAITS (event ev)); [|apply Hp, Hs] end;
    unfold event, reader_action, node_exit, client_exit, reader_exit, push_command; unfold_sending;
    solve [solve_core; apply modify_waits; intros s'; by repeat case_match]).
  assert (Hp : preserves waits_ok (event E_Command)); [|apply Hp, Hs].
  unfold event, Coordinator.core_step. apply preserves_bind; [apply preserves_gets|intros running].
  apply preserves_when, preserves_bind; [apply preserves_gets|intros [|cmd rest]]; [apply preserves_ret|].
  apply preserves_bind; [keeps_both|intros _].
  pose proof (process_waits cmd) as Hp. destruct (cmd_kind cmd); try exact Hp. keeps_both.
Qed.

Lemma run_waits evs s : waits_ok s → WAITS (run evs s).
Proof using Hst0.
  intros Hs. enough (waits_ok (run evs s)) as [_ H]; [exact H|]. revert s Hs. unfold run.
  induction evs as [|ev evs IH]; intros s Hs; [done|]. cbn [foldl]. by apply IH, event_waits.
Qed.
End with_invariant.
End waits.

(** ** Attempts are filed under known tasks *)

Definition filed (s : Coordinator) : Prop :=
  ∀ tid, default [] (c_attempts s !! tid) ≠ [] → is_Some (g_tasks (c_graph s) !! tid).

Lemma filed_frame s s' :
  (∀ tid, is_Some (g_tasks (c_graph s) !! tid) → is_Some (g_tasks (c_graph s') !! tid)) →
  (∀ tid, default [] (c_attempts s' !! tid) ≠ [] → default [] (c_attempts s !! tid) ≠ []) →
  filed s → filed s'.
Proof. intros Hg Ha Hs tid Ht. by apply Hg, Hs, Ha. Qed.

Lemma modify_filed f :
  (∀ s, c_graph (f s) = c_graph s) → (∀ s, c_attempts (f s) = c_attempts s) →
  preserves filed (modify f).
Proof. intros E1 E2. apply preserves_modify. intros s. unfold filed. by rewrite E1, E2. Qed.

Lemma follows_filed {A} (m : Core A) :
  (∀ base, preserves (follows base) m) → (∀ s, c_attempts (m s).2 = c_attempts s) →
  preserves filed m.
Proof.
  intros Hm Ha s. apply filed_frame; [|by rewrite Ha].
  intros tid [t Ht]. destruct (Hm s s (reflexivity (c_graph s)) tid t Ht) as [Ht' _]. by eexists.
Qed.

Lemma set_task_st_filed id st : preserves filed (set_task_st id st).
Proof.
  apply follows_filed; [intros; apply set_task_st_follows|].
  intros s. unfold set_task_st. by destruct (set_state _ _ _).
Qed.
Lemma update_attempt_filed p f : preserves filed (update_attempt p f).
Proof.
  apply preserves_modify. intros s. apply filed_frame; [done|]. intros tid. core_cbn.
  destruct (decide (p.1 = tid)) as [->|]; [|by rewrite lookup_alter_ne].
  rewrite lookup_alter_eq. by destruct (c_attempts s !! tid) as [[]|].
Qed.
Lemma attempts_at_filed tid : preserves filed (attempts_at tid).
Proof.
  intros s Hs. unfold attempts_at. destruct (c_attempts s !! tid); [done|]. cbn [snd].
  revert Hs. apply filed_frame; [done|]. intros k. core_cbn.
  destruct (decide (tid = k)) as [->|]; [by rewrite lookup_insert_eq|by rewrite lookup_insert_ne].
Qed.
Lemma reserve_filed n tid x sl sc : preserves filed (reserve n tid x sl sc).
Proof.
  intros s Hs. unfold reserve. destruct (try_reserve _ _ _ _ _ _ _ _ _) as [reg rr].
  by destruct (rr_reservation rr).
Qed.
Lemma cancel_requested_at_filed tid : preserves filed (cancel_requested_at tid).
Proof. intros s Hs. unfold cancel_requested_at. by destruct (_ !! _). Qed.
Lemma persist_filed : preserves filed persist.
Proof. apply follows_filed; [intros; apply persist_follows|intros s; apply persist_kept]. Qed.
Lemma now_millis_filed : preserves filed now_millis.
Proof. by intros s Hs. Qed.
Lemma random_id_filed : preserves filed random_id.
Proof. by intros s Hs. Qed.
#[export] Hint Resolve set_task_st_filed update_attempt_filed attempts_at_filed reserve_filed
  cancel_requested_at_filed persist_filed now_millis_filed random_id_filed : core.
#[export] Hint Extern 5 (preserves filed (modify _)) => apply modify_filed; done : core.

Lemma propagate_filed fuel id : preserves filed (propagate fuel id).
Proof.
  revert id. induction fuel as [|fuel IH]; intros id; cbn [propagate]; [solve_core|].
  apply preserves_bind; [solve_core|]. intros deps.
  induction deps as [|dep deps IHd]; cbn [propagate_loop]; unfold make_ready; solve_core.
Qed.
#[export] Hint Resolve propagate_filed : core.

(** A task that is scheduled is known, and stays so until its attempt is filed. *)
Definition filed_known (tid : Id128) (s : Coordinator) : Prop :=
  filed s ∧ is_Some (g_tasks (c_graph s) !! tid).

Lemma filed_known_intro {A} tid (m : Core A) :
  preserves filed m → (∀ base, preserves (follows base) m) → preserves (filed_known tid) m.
Proof.
  intros H1 H2 s [Hf [t Ht]]. split; [by apply H1|].
  destruct (H2 s s (reflexivity (c_graph s)) tid t Ht) as [Ht' _]. by eexists.
Qed.
Lemma push_task_attempt_filed tid a : preserves (filed_known tid) (push_task_attempt tid a).
Proof.
  apply preserves_modify. intros s [Hf Ht]. split; [|done]. intros k. core_cbn.
  destruct (decide (tid = k)) as [<-|]; [done|rewrite lookup_insert_ne by done; apply Hf].
Qed.
#[export] Hint Resolve push_task_attempt_filed : core.
#[export] Hint Extern 6 (preserves (filed_known _) _) =>
  apply filed_known_intro; [solve [eauto with core]|intros ?; solve [eauto with core]] : core.

Lemma schedule_task_filed tid : preserves filed (schedule_task tid).
Proof.
  intros s Hs. destruct (g_tasks (c_graph s) !! tid) as [t|] eqn:Ht.
  - assert (Hp : preserves (filed_known tid) (schedule_task tid)).
    { unfold schedule_task, place_and_dispatch, record_placement, plan_and_dispatch, dispatch_task.
      unfold_sending. solve_core. }
    apply Hp. split; [done|by eexists].
  - unfold schedule_task, mbind, core_bind, gets. cbv beta iota. destruct (c_stopping s); [done|].
    unfold find_task. cbv beta iota. by rewrite Ht.
Qed.

Lemma sweep_filed : preserves filed sweep.
Proof.
  pose proof schedule_task_filed. unfold sweep, handle_node_loss, requeue_lost, requeue_dispatch,
    retry_step, deadline_step, schedule_ready_tasks. unfold_sending. solve_core.
Qed.

Lemma process_filed cmd : preserves filed (process cmd).
Proof.
  unfold process. destruct (cmd_kind cmd); unfold_handlers; solve_core.
  - apply follows_filed.
    + intros base s Hs. cbv beta. pose proof (add_task_follows (c_graph s) (tsub_task submit)) as H.
      destruct (add_task _ _) as [g r]. unfold follows. cbn [snd]. core_cbn. by etrans.
    + intros s. by destruct (add_task _ _).
  - apply modify_filed; intros s; by case_match.
Qed.

Lemma event_filed ev : preserves filed (event ev).
Proof.
  pose proof sweep_filed. pose proof process_filed. unfold event.
  destruct ev; unfold reader_action, node_exit, client_exit, reader_exit, push_command,
    Coordinator.core_step; unfold_sending; solve_core; apply modify_filed; intros s; by repeat case_match.
Qed.

Lemma reachable_filed s : reachable s → filed s.
Proof.
  induction 1 as [config world files Hnone Hok|s ev _ Hs|s config world Hr Hs Hst].
  - destruct (boot_fresh config world files Hnone Hok) as [_ _ _ Ha _ _ _].
    intros tid. rewrite Ha. intros []. reflexivity.
  - by apply event_filed.
  - apply reachable_clean in Hr as [e Hc].
    destruct (boot_stored e s config world Hc Hst) as [_ [_ Ht _ Ha _ _ _]].
    intros tid. rewrite Ha, Ht, (mi_attempts s (proj2 Hc)), (mi_tasks s (proj2 Hc)), committed_lookup.
    intros Hne. apply Hs. by destruct (default [] (c_attempts s !! tid)).
Qed.

(** ** Claims *)

(** A late dependent never runs.  Submit to a reachable coordinator a new
    task with dependencies that have all succeeded already.  It is accepted, and
    from then on, whatever happens, it is blocked, unless it is cancelled or its
    deadline passes: it never becomes ready and never executes. *)
Theorem late_dependent_waits (s : Coordinator) (submit : TaskSubmit) (evs : list Event) :
  reachable s →
  let t := tsub_task submit in
  g_tasks (c_graph s) !! ct_id t = None → admissible s t → ct_dependencies t ≠ [] →
  (∀ d, d ∈ ct_dependencies t → g_states (c_graph s) !! d = Some TS_Succeeded) →
  let s' := exec (submit_task submit) s in
  task_state (c_graph s') (ct_id t) = TS_Blocked ∧
  task_state (c_graph (run evs s')) (ct_id t) ∈ [TS_Blocked; TS_Cancelled; TS_Expired].
Proof.
  intros Hr t Hnew Had Hne Hdeps s'. pose proof (reachable_filed s Hr) as Hfiled.
  apply reachable_clean in Hr as [e [Hok _]].
  pose proof (submit_task_effect e s submit Hok) as H. pose proof (submit_task_ok e submit s Hok) as Hok'.
  cbv zeta in H. fold t in H. fold (exec (submit_task submit) s) in Hok'. fold s' in Hok'.
  assert (Es : (submit_task submit s).2 = s') by done.
  destruct (submit_task submit s) as [[accepted msg] s'']. cbn [snd] in Es. subst s''.
  destruct H as [_ H]. destruct (H Hnew) as [(_ & _ & [])|(_ & _ & Eg & Ea & _)]; [done|].
  assert (Hini : initial_state t = TS_Blocked).
  { unfold initial_state. by destruct (ct_dependencies t). }
  assert (Hb : task_state (c_graph s') (ct_id t) = TS_Blocked).
  { rewrite Eg, Hini. unfold task_state, with_states. cbn [g_states]. by rewrite lookup_insert_eq. }
  split; [done|]. apply (wt_state _ t TS_Blocked), (run_waits _ _ _ (or_introl eq_refl) e).
  split; [done|]. split; [..|done|].
  - rewrite Eg. unfold with_states, linked. cbn [g_tasks]. apply lookup_insert_eq.
  - rewrite Hb. apply elem_of_cons. by left.
  - rewrite Ea. destruct (default [] (c_attempts s !! ct_id t)) as [|a l] eqn:El; [done|].
    destruct (Hfiled (ct_id t)) as [u Hu]; [by rewrite El|]. congruence.
  - intros _ d Hd. rewrite Eg. unfold with_states. cbn [g_states].
    rewrite lookup_insert_ne; [by apply Hdeps|]. intros <-.
    destruct (ad_deps s t Had (ct_id t) Hd) as [u Hu]. congruence.
Qed.

(** A pending retry does not survive a restart.  A task that waits for its
    retry, and has no committed attempt, when the coordinator stops is still
    waiting for it after the restart, and from then on, whatever happens, it is
    never retried: it waits until it is cancelled or its deadline passes. *)
Theorem retry_lost_on_restart (s : Coordinator) (config : CoordinatorConfig) (world : World)
    (id : Id128) (evs : list Event) :
  reachable s → stored s config →
  task_state (c_graph s) id = TS_RetryPending →
  committed_of (default [] (c_attempts s !! id)) = [] →
  let s' := (boot config world (c_files s)).2 in
  task_state (c_graph s') id = TS_RetryPending ∧
  task_state (c_graph (run evs s')) id ∈ [TS_RetryPending; TS_Cancelled; TS_Expired].
Proof.
  intros [e Hs]%reachable_clean Hst Hid Hnone s'. pose proof Hs as [Hok Hm].
  destruct (boot_stored e s config world Hs Hst) as [_ [[Hok' _] Ht Hstates Ha _ _ Hretry]].
  fold s' in Hok', Ht, Hstates, Ha, Hretry.
  rewrite (mi_states s Hm) in Hstates, Hretry. rewrite (mi_tasks s Hm) in Ht, Hstates.
  rewrite (mi_attempts s Hm) in Ha.
  assert (Hst0 : g_states (c_graph s) !! id = Some TS_RetryPending).
  { unfold task_state in Hid. by destruct (g_states (c_graph s) !! id) as [?|]; [f_equal|]. }
  assert (is_Some (g_tasks (c_graph s) !! id)) as [t Htask].
  { apply elem_of_dom. rewrite <-(ok_states _ (ck_graph e s Hok)). by eapply elem_of_dom_2. }
  assert (Hb : task_state (c_graph s') id = TS_RetryPending).
  { unfold task_state. by rewrite Hstates, Htask, Hst0. }
  split; [done|]. apply (wt_state _ t TS_RetryPending), (run_waits _ _ _ (or_intror eq_refl)
    (ds_epoch (bump_epoch (c_durable s)))).
  split; [exact Hok'|]. split; [by rewrite Ht| | | |done].
  - rewrite Hb. apply elem_of_cons. by left.
  - by rewrite Ha, committed_lookup, Hnone.
  - intros _. by apply (Hretry id TS_RetryPending).
Qed.

(** ** Witnesses *)

(** The first task has run: started and completed. *)
Definition succeeded_run : Coordinator :=
  run (from_node (MAttemptStarted (mkAttemptStarted (mkId 9 3) 5 "cpu"))
       ++ from_node (MAttemptComplete first_result)) dispatched_run.

Lemma succeeded_reachable : reachable succeeded_run.
Proof. apply run_reachable, dispatched_reachable. Qed.

Lemma late_dependent_witness :
  let submit := mkTaskSubmit (mkId 0 40) "w" (default_task (mkId 0 3) [mkId 0 1]) in
  task_state (c_graph (run [E_Sweep; E_Sweep] (exec (submit_task submit) succeeded_run))) (mkId 0 3)
    ∈ [TS_Blocked; TS_Cancelled; TS_Expired].
Proof.
  apply (late_dependent_waits succeeded_run
    (mkTaskSubmit (mkId 0 40) "w" (default_task (mkId 0 3) [mkId 0 1])) [E_Sweep; E_Sweep]
    succeeded_reachable).
  - vm_compute. reflexivity.
  - split; [vm_compute; reflexivity|discriminate|]. intros d Hd%list_elem_of_singleton. subst d.
    vm_compute. eexists. reflexivity.
  - discriminate.
  - intros d Hd%list_elem_of_singleton. subst d. vm_compute. reflexivity.
Defined.

(** A task that may be tried three times, dispatched, started and failed: it waits
    for its retry. *)
Definition retried_task : ComputeTask :=
  mkComputeTask (mkId 0 1) id_zero "" TC_Generic EX_Any_ 0 0 1 1 0 [] [] 0 0 f64_tenth false 0
    PR_Normal (mkRetryPolicy 3 true true false 100) [] [] [] [] "" None None f64_0 f64_0 f64_0
    false KT_None 0 0 0 0 ∅ [].
Definition failed_run : Coordinator :=
  run (connect ++ sample_register
       ++ from_client (MTaskSubmit (mkTaskSubmit (mkId 0 40) "w" retried_task)) ++ [E_Sweep]
       ++ from_node (MAttemptStarted (mkAttemptStarted (mkId 9 3) 5 "cpu"))
       ++ from_node (MAttemptFailed (mkAttemptFailed (mkId 9 3) (mkId 0 1) (mkId 9 2) 2
            (enum_to FK_ExecutorFailed) "x" 0))) booted.

Lemma failed_reachable : reachable failed_run.
Proof. apply run_reachable, booted_reachable. Qed.

Lemma failed_placements : Forall placement_entry_wf (ds_placements (c_durable failed_run)).
Proof.
  assert (E : ∃ d, ds_placements (c_durable failed_run) = [mkStoredPlacement (mkId 0 1) 1 d]
    ∧ placement_wf d).
  { eexists. split; [vm_compute; reflexivity|]. unfold placement_wf. split_and?; try wf_field.
    apply Forall_cons_2; [|apply Forall_nil_2]. unfold candidate_wf. split_and?; wf_field. }
  destruct E as (d & -> & Hd). apply Forall_cons_2; [|apply Forall_nil_2].
  split_and!; [wf_field|range_solve|done].
Qed.

Lemma failed_stored : stored failed_run sample_config.
Proof.
  assert (E1 : ds_epoch (c_durable failed_run) = 2) by (vm_compute; reflexivity).
  assert (E2 : ds_workloads (c_durable failed_run) = {[mkId 0 40 := mkWorkload (mkId 0 40) "w" ∅]})
    by (vm_compute; reflexivity).
  assert (E3 : ds_tasks (c_durable failed_run) = {[mkId 0 1 := retried_task]})
    by (vm_compute; reflexivity).
  assert (E4 : ds_task_states (c_durable failed_run) = {[mkId 0 1 := TS_RetryPending]})
    by (vm_compute; reflexivity).
  assert (E5 : ds_attempts (c_durable failed_run) = ∅) by (vm_compute; reflexivity).
  assert (E6 : ds_retry_counts (c_durable failed_run) = {[mkId 0 1 := 1]}) by (vm_compute; reflexivity).
  split.
  - vm_compute. reflexivity.
  - eexists. split; vm_compute; reflexivity.
  - split; rewrite ?E1, ?E2, ?E3, ?E4, ?E5, ?E6; [..|apply failed_placements].
    + range_solve.
    + apply map_Forall_singleton. split; [done|]. unfold workload_wf. split_and?; wf_field.
    + apply map_Forall_singleton. split; [done|]. unfold task_wf, retry_policy_wf. split_and?; wf_field.
    + apply map_Forall_singleton. split; wf_field.
    + apply map_Forall_empty.
    + apply map_Forall_singleton. split; [wf_field|range_solve].
  - split; vm_compute; discriminate.
Qed.

Lemma retry_lost_witness :
  task_state (c_graph (run [E_Sweep; E_Sweep]
    (boot sample_config sample_world (c_files failed_run)).2)) (mkId 0 1)
    ∈ [TS_RetryPending; TS_Cancelled; TS_Expired].
Proof.
  apply (retry_lost_on_restart failed_run sample_config sample_world (mkId 0 1) [E_Sweep; E_Sweep]
    failed_reachable failed_stored); vm_compute; reflexivity.
Defined.
