(* ===== verification/CoordStop.v ===== *)
(** * CoordStop: the coordinator's threads and [Coordinator::stop] (coordinator/coordinator.cpp)

    Two acceptors, the core thread, the connection reaper, a reader and a writer per
    connection, and the thread that calls [stop], as interleaved atomic steps.  What
    the threads do in between (frames, commands) is modelled elsewhere; here a
    reader or a writer just leaves its loop at some point, the core may stop
    connections, and it takes a posted shutdown command at once, as it is put at the
    front of the queue.

    A connection's [std::thread] members are filled by the acceptor after the threads
    have started, and [retire_..._connection] sets its flag before it queues the
    connection: both are steps of their own. *)

From S2P Require Import Prelude.

(** ** Connections *)

Inductive Kind := K_Node | K_Client.

(** A reader: it has left its loop and stopped the connection ([T_Stopped]), it has
    set the retirement flag itself and is about to queue the connection
    ([T_Flagged]), it has returned.  A writer goes from [T_Running] to [T_Done]. *)
Inductive ThreadState := T_Unborn | T_Running | T_Stopped | T_Flagged | T_Done.

Record Link := mkLink {
  lk_kind : Kind;
  lk_stop : bool;
  lk_retirement_queued : bool;
  lk_reader : ThreadState;
  lk_writer : ThreadState;
  lk_reader_joinable : bool;     (* [conn->reader] holds the thread *)
  lk_writer_joinable : bool
}.
Definition new_link (k : Kind) : Link := mkLink k false false T_Unborn T_Unborn false false.

#[export] Instance Kind_eq_dec : EqDecision Kind.
Proof. solve_decision. Defined.
#[export] Instance ThreadState_eq_dec : EqDecision ThreadState.
Proof. solve_decision. Defined.

Definition stop_link (l : Link) : Link :=
  mkLink (lk_kind l) true (lk_retirement_queued l) (lk_reader l) (lk_writer l) (lk_reader_joinable l) (lk_writer_joinable l).
Definition flag_link (l : Link) : Link :=
  mkLink (lk_kind l) (lk_stop l) true (lk_reader l) (lk_writer l) (lk_reader_joinable l) (lk_writer_joinable l).
Definition set_reader (t : ThreadState) (l : Link) : Link :=
  mkLink (lk_kind l) (lk_stop l) (lk_retirement_queued l) t (lk_writer l) (lk_reader_joinable l) (lk_writer_joinable l).
Definition set_writer (t : ThreadState) (l : Link) : Link :=
  mkLink (lk_kind l) (lk_stop l) (lk_retirement_queued l) (lk_reader l) t (lk_reader_joinable l) (lk_writer_joinable l).
Definition set_reader_joinable (b : bool) (l : Link) : Link :=
  mkLink (lk_kind l) (lk_stop l) (lk_retirement_queued l) (lk_reader l) (lk_writer l) b (lk_writer_joinable l).
Definition set_writer_joinable (b : bool) (l : Link) : Link :=
  mkLink (lk_kind l) (lk_stop l) (lk_retirement_queued l) (lk_reader l) (lk_writer l) (lk_reader_joinable l) b.

(** ** Threads *)

(** An acceptor: at the head of its loop, with an accepted socket before the second
    look at [stopping_], past it, and then with the connection [i] in the list, its
    writer started, its writer stored, its reader started. *)
Inductive AcceptPc := A_Loop | A_Accepted | A_Checked | A_Listed (i : nat) | A_WriterUp (i : nat)
                    | A_WriterSet (i : nat) | A_ReaderUp (i : nat) | A_Done.

(** The reaper: waiting, or with connection [i] to stop, to join, to forget. *)
Inductive ReaperPc := RP_Wait | RP_Stop (i : nat) | RP_Reader (i : nat) | RP_Writer (i : nat) | RP_Erase (i : nat)
                    | RP_Exited.

(** [stop()]: not called, then one state per statement; in the loop over the
    connections the first element is to be stopped, to be retired, to be queued. *)
Inductive StopPc := SP_Idle | SP_SetStopping | SP_Post | SP_CloseNode | SP_CloseClient | SP_JoinNode | SP_JoinClient
                  | SP_Snapshot | SP_StopConn (todo : list nat) | SP_Retire (i : nat) (todo : list nat)
                  | SP_Push (i : nat) (todo : list nat) | SP_JoinCore | SP_StopReaper | SP_JoinReaper | SP_Clear
                  | SP_Returned.

#[export] Instance ReaperPc_eq_dec : EqDecision ReaperPc.
Proof. solve_decision. Defined.

Record Threads := mkThreads {
  th_links : list Link;            (* every connection ever accepted *)
  th_listed : list nat;            (* [all_node_conns_] and [all_client_conns_] *)
  th_retired_node : list nat;      (* [retired_node_conns_] *)
  th_retired_client : list nat;
  th_stopping : bool;
  th_posted : bool;                (* a shutdown command is in the core's queue *)
  th_core_exited : bool;
  th_reaper_stopping : bool;
  th_accept_node : AcceptPc;
  th_accept_client : AcceptPc;
  th_reaper : ReaperPc;
  th_stop : StopPc
}.

(** The state after [start()]. *)
Definition started : Threads := mkThreads [] [] [] [] false false false false A_Loop A_Loop RP_Wait SP_Idle.

Definition set_links (ls : list Link) (s : Threads) : Threads :=
  mkThreads ls (th_listed s) (th_retired_node s) (th_retired_client s) (th_stopping s) (th_posted s) (th_core_exited s)
    (th_reaper_stopping s) (th_accept_node s) (th_accept_client s) (th_reaper s) (th_stop s).
Definition on_link (i : nat) (f : Link → Link) (s : Threads) : Threads := set_links (alter f i (th_links s)) s.
Definition set_listed (l : list nat) (s : Threads) : Threads :=
  mkThreads (th_links s) l (th_retired_node s) (th_retired_client s) (th_stopping s) (th_posted s) (th_core_exited s)
    (th_reaper_stopping s) (th_accept_node s) (th_accept_client s) (th_reaper s) (th_stop s).
Definition set_retired (n c : list nat) (s : Threads) : Threads :=
  mkThreads (th_links s) (th_listed s) n c (th_stopping s) (th_posted s) (th_core_exited s)
    (th_reaper_stopping s) (th_accept_node s) (th_accept_client s) (th_reaper s) (th_stop s).
Definition set_stopping (s : Threads) : Threads :=
  mkThreads (th_links s) (th_listed s) (th_retired_node s) (th_retired_client s) true (th_posted s) (th_core_exited s)
    (th_reaper_stopping s) (th_accept_node s) (th_accept_client s) (th_reaper s) (th_stop s).
Definition set_posted (s : Threads) : Threads :=
  mkThreads (th_links s) (th_listed s) (th_retired_node s) (th_retired_client s) (th_stopping s) true (th_core_exited s)
    (th_reaper_stopping s) (th_accept_node s) (th_accept_client s) (th_reaper s) (th_stop s).
Definition set_core_exited (s : Threads) : Threads :=
  mkThreads (th_links s) (th_listed s) (th_retired_node s) (th_retired_client s) (th_stopping s) (th_posted s) true
    (th_reaper_stopping s) (th_accept_node s) (th_accept_client s) (th_reaper s) (th_stop s).
Definition set_reaper_stopping (s : Threads) : Threads :=
  mkThreads (th_links s) (th_listed s) (th_retired_node s) (th_retired_client s) (th_stopping s) (th_posted s)
    (th_core_exited s) true (th_accept_node s) (th_accept_client s) (th_reaper s) (th_stop s).
Definition set_accept (k : Kind) (pc : AcceptPc) (s : Threads) : Threads :=
  mkThreads (th_links s) (th_listed s) (th_retired_node s) (th_retired_client s) (th_stopping s) (th_posted s)
    (th_core_exited s) (th_reaper_stopping s)
    (match k with K_Node => pc | K_Client => th_accept_node s end)
    (match k with K_Node => th_accept_client s | K_Client => pc end) (th_reaper s) (th_stop s).
Definition set_reaper (pc : ReaperPc) (s : Threads) : Threads :=
  mkThreads (th_links s) (th_listed s) (th_retired_node s) (th_retired_client s) (th_stopping s) (th_posted s)
    (th_core_exited s) (th_reaper_stopping s) (th_accept_node s) (th_accept_client s) pc (th_stop s).
Definition set_stop (pc : StopPc) (s : Threads) : Threads :=
  mkThreads (th_links s) (th_listed s) (th_retired_node s) (th_retired_client s) (th_stopping s) (th_posted s)
    (th_core_exited s) (th_reaper_stopping s) (th_accept_node s) (th_accept_client s) (th_reaper s) pc.

Definition acceptor (k : Kind) (s : Threads) : AcceptPc :=
  match k with K_Node => th_accept_node s | K_Client => th_accept_client s end.
Definition link (s : Threads) (i : nat) : option Link := th_links s !! i.
(** The queue a connection is retired to. *)
Definition queue_retired (i : nat) (s : Threads) : Threads :=
  match link s i with
  | Some l =>
      match lk_kind l with
      | K_Node => set_retired (th_retired_node s ++ [i]) (th_retired_client s) s
      | K_Client => set_retired (th_retired_node s) (th_retired_client s ++ [i]) s
      end
  | None => s
  end.

(** The copy [stop()] makes of the two lists, node connections first. *)
Definition is_kind (s : Threads) (k : Kind) (i : nat) : bool :=
  match link s i with Some l => bool_decide (lk_kind l = k) | None => false end.
Definition conns_snapshot (s : Threads) : list nat :=
  List.filter (is_kind s K_Node) (th_listed s) ++ List.filter (is_kind s K_Client) (th_listed s).

(** ** Steps *)

(** The acceptor is done with connection [i]. *)
Definition stored (i : nat) (pc : AcceptPc) : bool :=
  match pc with
  | A_Listed j | A_WriterUp j | A_WriterSet j | A_ReaderUp j => negb (Nat.eqb i j)
  | _ => true
  end.
(** A reader is between the flag and the queue. *)
Definition none_flagged (s : Threads) : bool := forallb (λ l, negb (bool_decide (lk_reader l = T_Flagged))) (th_links s).

(** With [careful] the scheduler never lets the reaper look at a connection before the
    acceptor has stored its threads, nor exit while a reader is between the flag and
    the queue; nothing in the code enforces either. *)
Section steps.
Context (careful : bool).

(** [connection_reaper_loop], statement by statement *)
Definition reaper_step (s : Threads) : option Threads :=
  match th_reaper s with
  | RP_Wait =>
      match th_retired_node s, th_retired_client s with
      | i :: n, c => Some (set_reaper (RP_Stop i) (set_retired n c s))
      | [], i :: c => Some (set_reaper (RP_Stop i) (set_retired [] c s))
      | [], [] =>
          if th_reaper_stopping s && (negb careful || none_flagged s) then Some (set_reaper RP_Exited s) else None
      end
  | RP_Stop i => Some (set_reaper (RP_Reader i) (on_link i stop_link s))
  | RP_Reader i =>
      if negb careful || (stored i (th_accept_node s) && stored i (th_accept_client s)) then
        match link s i with
        | Some l =>
            if lk_reader_joinable l then
              if bool_decide (lk_reader l = T_Done)
              then Some (set_reaper (RP_Writer i) (on_link i (set_reader_joinable false) s)) else None
            else Some (set_reaper (RP_Writer i) s)
        | None => None
        end
      else None
  | RP_Writer i =>
      match link s i with
      | Some l =>
          if lk_writer_joinable l then
            if bool_decide (lk_writer l = T_Done)
            then Some (set_reaper (RP_Erase i) (on_link i (set_writer_joinable false) s)) else None
          else Some (set_reaper (RP_Erase i) s)
      | None => None
      end
  | RP_Erase i => Some (set_reaper RP_Wait (set_listed (filter (λ j, j ≠ i) (th_listed s)) s))
  | RP_Exited => None
  end.

(** [accept_node_loop] and [accept_client_loop]; [arrives]: a connection is there *)
Definition accept_step (k : Kind) (arrives : bool) (s : Threads) : option Threads :=
  match acceptor k s with
  | A_Loop =>
      if th_stopping s then Some (set_accept k A_Done s)
      else if arrives then Some (set_accept k A_Accepted s) else None
  | A_Accepted => Some (set_accept k (if th_stopping s then A_Done else A_Checked) s)
  | A_Checked =>
      let i := length (th_links s) in
      Some (set_accept k (A_Listed i) (set_listed (th_listed s ++ [i]) (set_links (th_links s ++ [new_link k]) s)))
  | A_Listed i => Some (set_accept k (A_WriterUp i) (on_link i (set_writer T_Running) s))
  | A_WriterUp i => Some (set_accept k (A_WriterSet i) (on_link i (set_writer_joinable true) s))
  | A_WriterSet i => Some (set_accept k (A_ReaderUp i) (on_link i (set_reader T_Running) s))
  | A_ReaderUp i => Some (set_accept k A_Loop (on_link i (set_reader_joinable true) s))
  | A_Done => None
  end.

(** The reader of [i] leaves its loop, then retires the connection. *)
Definition reader_step (i : nat) (s : Threads) : option Threads :=
  l ← link s i;
  match lk_reader l with
  | T_Running => Some (on_link i (set_reader T_Stopped) (on_link i stop_link s))
  | T_Stopped =>
      if lk_retirement_queued l then Some (on_link i (set_reader T_Done) s)
      else Some (on_link i (set_reader T_Flagged) (on_link i flag_link s))
  | T_Flagged => Some (on_link i (set_reader T_Done) (queue_retired i s))
  | _ => None
  end.
(** The writer of [i] leaves: the connection is stopped, or sending failed and the
    writer stops it. *)
Definition writer_step (i : nat) (s : Threads) : option Threads :=
  l ← link s i;
  match lk_writer l with
  | T_Running => Some (on_link i (set_writer T_Done) (on_link i stop_link s))
  | _ => None
  end.

(** The core thread: it exits with a shutdown command, and before may stop a
    connection or, asked by a client, begin the shutdown itself. *)
Definition core_exit (s : Threads) : option Threads :=
  if th_posted s && negb (th_core_exited s) then Some (set_core_exited s) else None.
Definition core_stops (i : nat) (s : Threads) : option Threads :=
  l ← link s i;
  if negb (th_core_exited s) && negb (lk_stop l) then Some (on_link i stop_link s) else None.
Definition core_shutdown (s : Threads) : option Threads :=
  if negb (th_core_exited s) && negb (th_posted s) then Some (set_posted (set_stopping s)) else None.

(** [Coordinator::stop], statement by statement.  The listeners' closing has no
    other effect here: the acceptors look at [stopping_]. *)
Definition stop_step (s : Threads) : option Threads :=
  match th_stop s with
  | SP_Idle => Some (set_stop SP_SetStopping s)
  | SP_SetStopping => Some (set_stop SP_Post (set_stopping s))
  | SP_Post => Some (set_stop SP_CloseNode (set_posted s))
  | SP_CloseNode => Some (set_stop SP_CloseClient s)
  | SP_CloseClient => Some (set_stop SP_JoinNode s)
  | SP_JoinNode => if th_accept_node s is A_Done then Some (set_stop SP_JoinClient s) else None
  | SP_JoinClient => if th_accept_client s is A_Done then Some (set_stop SP_Snapshot s) else None
  | SP_Snapshot => Some (set_stop (SP_StopConn (conns_snapshot s)) s)
  | SP_StopConn [] => Some (set_stop SP_JoinCore s)
  | SP_StopConn (i :: todo) => Some (set_stop (SP_Retire i todo) (on_link i stop_link s))
  | SP_Retire i todo =>
      l ← link s i;
      if lk_retirement_queued l then Some (set_stop (SP_StopConn todo) s)
      else Some (set_stop (SP_Push i todo) (on_link i flag_link s))
  | SP_Push i todo => Some (set_stop (SP_StopConn todo) (queue_retired i s))
  | SP_JoinCore => if th_core_exited s then Some (set_stop SP_StopReaper s) else None
  | SP_StopReaper => Some (set_stop SP_JoinReaper (set_reaper_stopping s))
  | SP_JoinReaper => if th_reaper s is RP_Exited then Some (set_stop SP_Clear s) else None
  | SP_Clear => Some (set_stop SP_Returned (set_listed [] s))
  | SP_Returned => None
  end.

Inductive Action := Act_Accept (k : Kind) | Act_Reader (i : nat) | Act_Writer (i : nat) | Act_Reaper
                  | Act_CoreExit | Act_CoreStops (i : nat) | Act_CoreShutdown | Act_Stop.
Definition act (a : Action) (s : Threads) : option Threads :=
  match a with
  | Act_Accept k => accept_step k true s
  | Act_Reader i => reader_step i s
  | Act_Writer i => writer_step i s
  | Act_Reaper => reaper_step s
  | Act_CoreExit => core_exit s
  | Act_CoreStops i => core_stops i s
  | Act_CoreShutdown => core_shutdown s
  | Act_Stop => stop_step s
  end.
Fixpoint acts (l : list Action) (s : Threads) : option Threads :=
  match l with [] => Some s | a :: l => s ← act a s; acts l s end.

Inductive reachable : Threads → Prop :=
| reach_started : reachable started
| reach_act a s s' : reachable s → act a s = Some s' → reachable s'.
End steps.

(** The threads of a connection have returned and are joined. *)
Definition joined (l : Link) : Prop :=
  lk_reader l = T_Done ∧ lk_writer l = T_Done ∧ lk_reader_joinable l = false ∧ lk_writer_joinable l = false.

(** ** The invariant *)

Definition b2n (b : bool) : nat := if b then 1 else 0.

Definition at_reaper (pc : ReaperPc) (i : nat) : bool :=
  match pc with RP_Stop j | RP_Reader j | RP_Writer j | RP_Erase j => i =? j | _ => false end.
Definition past_reader (pc : ReaperPc) (i : nat) : bool :=
  match pc with RP_Writer j | RP_Erase j => i =? j | _ => false end.
Definition past_writer (pc : ReaperPc) (i : nat) : bool := match pc with RP_Erase j => i =? j | _ => false end.
Definition pushing (pc : StopPc) (i : nat) : bool := match pc with SP_Push j _ => i =? j | _ => false end.
(** How far the acceptor is with a connection; zero: it is stored. *)
Definition stage (pc : AcceptPc) (i : nat) : nat :=
  match pc with
  | A_Listed j => if i =? j then 1 else 0
  | A_WriterUp j => if i =? j then 2 else 0
  | A_WriterSet j => if i =? j then 3 else 0
  | A_ReaderUp j => if i =? j then 4 else 0
  | _ => 0
  end.

Definition born (t : ThreadState) : bool := negb (bool_decide (t = T_Unborn)).
Definition is_done (t : ThreadState) : bool := bool_decide (t = T_Done).

(** What a connection's threads and members are at a stage; [pr] and [pw]: the reaper
    is done with its reader and its writer. *)
Definition shape (st : nat) (pr pw : bool) (l : Link) : bool :=
  match st with
  | 0 => born (lk_reader l) && born (lk_writer l)
         && (if pr then negb (lk_reader_joinable l) && is_done (lk_reader l) else lk_reader_joinable l)
         && (if pw then negb (lk_writer_joinable l) && is_done (lk_writer l) else lk_writer_joinable l)
  | 1 => negb (born (lk_reader l)) && negb (born (lk_writer l)) && negb (lk_reader_joinable l)
         && negb (lk_writer_joinable l) && negb pr && negb pw
  | 2 => negb (born (lk_reader l)) && born (lk_writer l) && negb (lk_reader_joinable l)
         && negb (lk_writer_joinable l) && negb pr && negb pw
  | 3 => negb (born (lk_reader l)) && born (lk_writer l) && negb (lk_reader_joinable l)
         && lk_writer_joinable l && negb pr && negb pw
  | _ => born (lk_reader l) && born (lk_writer l) && negb (lk_reader_joinable l)
         && lk_writer_joinable l && negb pr && negb pw
  end.

(** Every connection is in exactly one place on its way from the list to the reaper:
    not yet retired, held by the thread that queues it, queued, with the reaper, or
    forgotten. *)
Definition places (rp : ReaperPc) (sp : StopPc) (listed : bool) (queued i : nat) (l : Link) : nat :=
  b2n (negb (lk_retirement_queued l)) + b2n (bool_decide (lk_reader l = T_Flagged)) + b2n (pushing sp i) + queued
  + b2n (at_reaper rp i) + b2n (negb listed).

Definition link_inv (ac : AcceptPc) (rp : ReaperPc) (sp : StopPc) (listed : bool) (queued i : nat) (l : Link) : Prop :=
  places rp sp listed queued i l = 1 ∧
  shape (stage ac i) (past_reader rp i || negb listed) (past_writer rp i || negb listed) l = true ∧
  (lk_writer l = T_Unborn ∨ lk_writer l = T_Running ∨ lk_writer l = T_Done).

Definition queued (s : Threads) (i : nat) : nat := count_occ Nat.eq_dec (th_retired_node s ++ th_retired_client s) i.

(** A connection that [stop()] has yet to retire. *)
Definition unswept (pc : StopPc) (i : nat) : Prop :=
  match pc with
  | SP_StopConn todo => i ∈ todo
  | SP_Retire j todo => i = j ∨ i ∈ todo
  | SP_Push j todo => i ∈ todo
  | SP_JoinCore | SP_StopReaper | SP_JoinReaper | SP_Clear | SP_Returned => False
  | _ => True
  end.
Definition todo (pc : StopPc) : list nat :=
  match pc with SP_StopConn l => l | SP_Retire i l | SP_Push i l => i :: l | _ => [] end.

(** The order of [stop()]'s statements. *)
Definition stop_rank (pc : StopPc) : nat :=
  match pc with
  | SP_Idle => 0 | SP_SetStopping => 1 | SP_Post => 2 | SP_CloseNode => 3 | SP_CloseClient => 4 | SP_JoinNode => 5
  | SP_JoinClient => 6 | SP_Snapshot => 7 | SP_StopConn _ | SP_Retire _ _ | SP_Push _ _ => 8 | SP_JoinCore => 9
  | SP_StopReaper => 10 | SP_JoinReaper => 11 | SP_Clear => 12 | SP_Returned => 13
  end.

Record control (s : Threads) : Prop := {
  c_stopping : 2 <= stop_rank (th_stop s) → th_stopping s = true;
  c_posted : 3 <= stop_rank (th_stop s) → th_posted s = true;
  c_node : 6 <= stop_rank (th_stop s) → th_accept_node s = A_Done;
  c_client : 7 <= stop_rank (th_stop s) → th_accept_client s = A_Done;
  c_core : 10 <= stop_rank (th_stop s) → th_core_exited s = true;
  c_reaper_stopping : th_reaper_stopping s = true ↔ 11 <= stop_rank (th_stop s);
  c_exited : 12 <= stop_rank (th_stop s) → th_reaper s = RP_Exited;
  c_drained : th_reaper s = RP_Exited →
    th_reaper_stopping s = true ∧ th_retired_node s = [] ∧ th_retired_client s = [] ∧ none_flagged s = true
}.

Record inv (s : Threads) : Prop := {
  v_link : ∀ i l, link s i = Some l →
    link_inv (acceptor (lk_kind l) s) (th_reaper s) (th_stop s) (bool_decide (i ∈ th_listed s)) (queued s i) i l;
  v_range : ∀ i, i ∈ th_listed s ∨ queued s i ≠ 0 ∨ at_reaper (th_reaper s) i = true ∨ i ∈ todo (th_stop s) →
    is_Some (link s i);
  v_accept : ∀ k i, stage (acceptor k s) i ≠ 0 → ∃ l, link s i = Some l ∧ lk_kind l = k;
  v_swept : ∀ i l, link s i = Some l → lk_retirement_queued l = false → unswept (th_stop s) i;
  v_control : control s
}.

Lemma started_inv : inv started.
Proof.
  split; [done| | |done|].
  - intros i [Hi|[Hi|[Hi|Hi]]]; cbn in Hi; try done; by apply not_elem_of_nil in Hi.
  - intros [] i; cbn; lia.
  - split; cbn; try lia; done.
Qed.

Lemma link_on_link j f s i : link (on_link j f s) i = if decide (i = j) then f <$> link s i else link s i.
Proof.
  unfold link, on_link. cbn. destruct (decide (i = j)) as [->|Hne].
  - apply list_lookup_alter_eq.
  - by apply list_lookup_alter_ne.
Qed.

Lemma acceptor_set k k' pc s : acceptor k (set_accept k' pc s) = if decide (k = k') then pc else acceptor k s.
Proof. by destruct k, k'. Qed.

(** The acceptor's step leaves the connections it does not hold alone. *)
Lemma stage_other pc pc' i j :
  (stage pc i ≠ 0 → i = j) → (stage pc' i ≠ 0 → i = j) → i ≠ j → stage pc' i = stage pc i.
Proof. intros H1 H2 Hne. destruct (stage pc i) eqn:E1, (stage pc' i) eqn:E2; try done; exfalso; (apply Hne; auto). Qed.

Lemma not_done_rank k s : control s → acceptor k s ≠ A_Done → stop_rank (th_stop s) <= 6.
Proof.
  intros C Hd. destruct (decide (stop_rank (th_stop s) <= 6)); [done|]. exfalso. apply Hd.
  destruct k; [apply (c_node _ C)|apply (c_client _ C)]; lia.
Qed.

Lemma early_unswept pc i : stop_rank pc <= 7 → unswept pc i.
Proof. destruct pc; cbn; try done; lia. Qed.

(** Only the acceptor of kind [k] and the connections change. *)
Lemma control_accept k pc ls li s :
  control s → acceptor k s ≠ A_Done → control (set_accept k pc (set_listed li (set_links ls s))).
Proof.
  intros C Hd. pose proof (not_done_rank k s C Hd) as Hr. destruct C as [C1 C2 C3 C4 C5 C6 C7 C8].
  split; cbn [set_accept set_listed set_links th_stop th_stopping th_posted th_core_exited th_reaper_stopping th_reaper
    th_retired_node th_retired_client]; try done; try lia.
  - cbn. intros H6. destruct k; [|by apply C3]. exfalso. apply Hd, C3. lia.
  - intros HE. destruct (C8 HE) as (A & _). apply C6 in A. lia.
Qed.

(** The acceptor changes the connection it holds, from one stage to the next. *)
Lemma accept_link_inv k pc pc' j f s :
  inv s → acceptor k s = pc → stage pc j ≠ 0 → (∀ i, stage pc i ≠ 0 → i = j) → (∀ i, stage pc' i ≠ 0 → i = j) →
  (∀ l, lk_kind (f l) = lk_kind l ∧ lk_retirement_queued (f l) = lk_retirement_queued l) →
  (∀ l rp sp b q, link_inv pc rp sp b q j l → link_inv pc' rp sp b q j (f l)) →
  inv (set_accept k pc' (on_link j f s)).
Proof.
  intros I Hpc Hst H1 H2 Hf Hl. assert (Hd : acceptor k s ≠ A_Done) by (rewrite Hpc; by intros ->).
  destruct (v_accept _ I k j) as (lj & Hlj & Hkj); [by rewrite Hpc|].
  assert (Hlink : ∀ i, link (set_accept k pc' (on_link j f s)) i = if decide (i = j) then f <$> link s i else link s i)
    by (intros i; apply link_on_link).
  split.
  - intros i l. rewrite Hlink, acceptor_set. destruct (decide (i = j)) as [->|Hne].
    + rewrite Hlj. intros [= <-]. destruct (Hf lj) as [-> _]. rewrite Hkj, decide_True by done.
      pose proof (v_link _ I j lj Hlj) as Hv. rewrite Hkj, Hpc in Hv. by apply Hl.
    + intros Hi. pose proof (v_link _ I i l Hi) as Hv. destruct (decide (lk_kind l = k)) as [E|]; [|done].
      rewrite E, Hpc in Hv. destruct Hv as (T & S & W). split_and!; [done| |done].
      by rewrite (stage_other pc pc' i j) by auto.
  - intros i Hi. rewrite Hlink. destruct (v_range _ I i Hi) as [l ->]. destruct (decide (i = j)); by eexists.
  - intros k' i. rewrite acceptor_set, Hlink. destruct (decide (k' = k)) as [->|Hne]; intros Hi.
    + rewrite (H2 i Hi), decide_True, Hlj by done. exists (f lj). split; [done|]. by destruct (Hf lj) as [-> _].
    + destruct (v_accept _ I k' i Hi) as (l & Hli & Hk). rewrite decide_False; [eauto|]. intros ->. congruence.
  - intros i l. rewrite Hlink. intros Hi _. apply early_unswept.
    pose proof (not_done_rank k s (v_control _ I) Hd). cbn. lia.
  - by apply (control_accept k pc' (alter f j (th_links s)) (th_listed s)); [apply I|].
Qed.

(** The acceptor moves without a connection. *)
Lemma accept_idle_inv k pc' s :
  inv s → acceptor k s ≠ A_Done → (∀ i, stage (acceptor k s) i = 0) → (∀ i, stage pc' i = 0) → inv (set_accept k pc' s).
Proof.
  intros I Hd H1 H2. split.
  - intros i l Hi. pose proof (v_link _ I i l Hi) as Hv. rewrite acceptor_set.
    destruct (decide (lk_kind l = k)) as [E|]; [|done]. rewrite E in Hv. destruct Hv as (T & S & W).
    split_and!; [done| |done]. by rewrite H1 in S; rewrite H2.
  - apply (v_range _ I).
  - intros k' i. rewrite acceptor_set. destruct (decide (k' = k)); [by rewrite H2|]. apply (v_accept _ I).
  - apply (v_swept _ I).
  - by apply (control_accept k pc' (th_links s) (th_listed s)); [apply I|].
Qed.

Lemma fresh_index s i : inv s → length (th_links s) <= i →
  (i ∉ th_listed s) ∧ queued s i = 0 ∧ at_reaper (th_reaper s) i = false ∧ i ∉ todo (th_stop s).
Proof.
  intros I Hi. assert (Hn : ¬ is_Some (link s i)) by (rewrite <-eq_None_not_Some; by apply lookup_ge_None_2).
  split_and!.
  - intros H. apply Hn, (v_range _ I). auto.
  - destruct (Nat.eq_dec (queued s i) 0) as [|H]; [done|]. exfalso. apply Hn, (v_range _ I). auto.
  - destruct (at_reaper _ i) eqn:E; [|done]. exfalso. apply Hn, (v_range _ I). auto.
  - intros H. apply Hn, (v_range _ I). auto.
Qed.

Lemma accept_new_inv k s :
  inv s → acceptor k s = A_Checked →
  inv (set_accept k (A_Listed (length (th_links s)))
         (set_listed (th_listed s ++ [length (th_links s)]) (set_links (th_links s ++ [new_link k]) s))).
Proof.
  intros I Hpc. set (n := length (th_links s)).
  destruct (fresh_index s n I (Nat.le_refl _)) as (Fl & Fq & Fr & Ft).
  assert (Hd : acceptor k s ≠ A_Done) by by rewrite Hpc.
  assert (Hlink : ∀ i, (th_links s ++ [new_link k]) !! i = if decide (i = n) then Some (new_link k) else link s i).
  { intros i. destruct (decide (i = n)) as [->|Hne]; [by rewrite lookup_app_r, Nat.sub_diag by done|].
    destruct (decide (i < n)) as [Hlt|Hge]; [by rewrite lookup_app_l|].
    unfold link. rewrite !lookup_ge_None_2; [done|unfold n in *; lia|rewrite length_app; cbn; unfold n in *; lia]. }
  assert (Hstage : ∀ i, stage (A_Listed n) i ≠ 0 → i = n) by (intros i; cbn; destruct (Nat.eqb_spec i n); [done|lia]).
  split.
  - intros i l Hi. change ((th_links s ++ [new_link k]) !! i = Some l) in Hi. rewrite Hlink in Hi.
    rewrite acceptor_set. cbn [set_accept set_listed set_links th_listed th_reaper th_stop].
    destruct (decide (i = n)) as [->|Hne].
    + injection Hi as <-. cbn [new_link lk_kind]. rewrite decide_True by done. rewrite bool_decide_true by set_solver.
      change (queued _ n) with (queued s n). rewrite Fq. split_and!; [|cbn|by left].
      * unfold places. rewrite Fr. cbn [new_link lk_retirement_queued lk_reader negb b2n].
        rewrite bool_decide_false by done. replace (pushing (th_stop s) n) with false; [done|].
        destruct (th_stop s); cbn in Ft |- *; try done. symmetry. apply Nat.eqb_neq. set_solver.
      * rewrite Nat.eqb_refl. cbn. destruct (th_reaper s); cbn in Fr |- *; rewrite ?Fr; done.
    + pose proof (v_link _ I i l Hi) as Hv.
      assert (Eb : bool_decide (i ∈ th_listed s ++ [n]) = bool_decide (i ∈ th_listed s))
        by (apply bool_decide_ext; set_solver).
      rewrite Eb. change (queued _ i) with (queued s i) at 1. destruct (decide (lk_kind l = k)) as [E|]; [|done].
      rewrite E, Hpc in Hv. destruct Hv as (T & S & W). split_and!; [done| |done].
      replace (stage (A_Listed n) i) with 0; [done|]. cbn. by rewrite (proj2 (Nat.eqb_neq i n)).
  - intros i Hi. change (is_Some ((th_links s ++ [new_link k]) !! i)). rewrite Hlink. destruct (decide (i = n)); [by eexists|].
    apply (v_range _ I). destruct Hi as [Hi|Hi]; [|by right]. left. cbn in Hi. set_solver.
  - intros k' i. rewrite acceptor_set. change (link _ i) with ((th_links s ++ [new_link k]) !! i). rewrite Hlink.
    destruct (decide (k' = k)) as [->|Hne]; intros Hi.
    + rewrite (Hstage i Hi), decide_True by done. by eexists.
    + destruct (v_accept _ I k' i Hi) as (l & Hl & Hk). rewrite decide_False; [eauto|]. intros ->.
      apply lookup_lt_Some in Hl. unfold n in Hl. lia.
  - intros i l _ _. apply early_unswept. pose proof (not_done_rank k s (v_control _ I) Hd). cbn. lia.
  - apply control_accept; [apply I|done].
Qed.

Ltac stage_solver := intros i; cbn; match goal with |- context [i =? ?j] => destruct (Nat.eqb_spec i j) end; (done || lia).

Lemma accept_step_inv k b s s' : inv s → accept_step k b s = Some s' → inv s'.
Proof.
  intros I Hs. unfold accept_step in Hs. destruct (acceptor k s) as [| | |j|j|j|j|] eqn:Hpc; [| | | | | | |done].
  - destruct (th_stopping s); [|destruct b; [|done]]; injection Hs as <-;
      apply accept_idle_inv; rewrite ?Hpc; done.
  - injection Hs as <-. apply accept_idle_inv; rewrite ?Hpc; try done. by destruct (th_stopping s).
  - injection Hs as <-. by apply accept_new_inv.
  - injection Hs as <-. eapply (accept_link_inv k (A_Listed j) (A_WriterUp j)); [done|exact Hpc|cbn; by rewrite Nat.eqb_refl|stage_solver|stage_solver|done|].
    intros l rp sp q b0 (T & S & _). cbn in S. rewrite Nat.eqb_refl in S. split_and!; [done| |by right; left].
    cbn. rewrite Nat.eqb_refl. unfold shape in *. destruct l as [? ? ? [] [] [] []]; done.
  - injection Hs as <-. eapply (accept_link_inv k (A_WriterUp j) (A_WriterSet j)); [done|exact Hpc|cbn; by rewrite Nat.eqb_refl|stage_solver|stage_solver|done|].
    intros l rp sp q b0 (T & S & W). cbn in S. rewrite Nat.eqb_refl in S. split_and!; [done| |done].
    cbn. rewrite Nat.eqb_refl. unfold shape in *. destruct l as [? ? ? [] [] [] []]; done.
  - injection Hs as <-. eapply (accept_link_inv k (A_WriterSet j) (A_ReaderUp j)); [done|exact Hpc|cbn; by rewrite Nat.eqb_refl|stage_solver|stage_solver|done|].
    intros l rp sp q b0 (T & S & W). cbn in S. rewrite Nat.eqb_refl in S. split_and!; [| |done].
    + destruct l as [? ? ? [] ? ? ?]; done.
    + cbn. rewrite Nat.eqb_refl. unfold shape in *. destruct l as [? ? ? [] [] [] []]; done.
  - injection Hs as <-. eapply (accept_link_inv k (A_ReaderUp j) A_Loop);
      [done|exact Hpc|cbn; by rewrite Nat.eqb_refl|stage_solver|intros i; cbn; lia|done|].
    intros l rp sp q b0 (T & S & W). cbn in S. rewrite Nat.eqb_refl in S. split_and!; [done| |done].
    cbn. unfold shape in *. destruct (past_reader rp j || negb q), (past_writer rp j || negb q), l as [? ? ? [] [] [] []]; done.
Qed.

(** A step that concerns one connection, [j]. *)
Lemma inv_update j f s s' :
  inv s → (∀ i, link s' i = if decide (i = j) then f <$> link s i else link s i) →
  (∀ k, acceptor k s' = acceptor k s) → (∀ l, lk_kind (f l) = lk_kind l) →
  (∀ i, i ≠ j → (i ∈ th_listed s' ↔ i ∈ th_listed s) ∧ queued s' i = queued s i ∧
     at_reaper (th_reaper s') i = at_reaper (th_reaper s) i ∧ past_reader (th_reaper s') i = past_reader (th_reaper s) i ∧
     past_writer (th_reaper s') i = past_writer (th_reaper s) i ∧ pushing (th_stop s') i = pushing (th_stop s) i) →
  (∀ l, link s j = Some l →
     link_inv (acceptor (lk_kind l) s) (th_reaper s) (th_stop s) (bool_decide (j ∈ th_listed s)) (queued s j) j l →
     link_inv (acceptor (lk_kind l) s) (th_reaper s') (th_stop s') (bool_decide (j ∈ th_listed s')) (queued s' j) j (f l)) →
  (∀ i, i ∈ th_listed s' ∨ queued s' i ≠ 0 ∨ at_reaper (th_reaper s') i = true ∨ i ∈ todo (th_stop s') →
     is_Some (link s i)) →
  (∀ i l, link s' i = Some l → lk_retirement_queued l = false → unswept (th_stop s') i) → control s' →
  inv s'.
Proof.
  intros I Hlink Hacc Hk Hother Hj Hrange Hsw Hc. split; [| | |done|done].
  - intros i l. rewrite Hlink, Hacc. destruct (decide (i = j)) as [->|Hne].
    + destruct (link s j) as [l0|] eqn:E; [|done]. intros [= <-]. rewrite Hk. apply Hj; [done|]. by apply (v_link _ I).
    + intros Hi. destruct (Hother i Hne) as (E1 & E2 & E3 & E4 & E5 & E6).
      pose proof (v_link _ I i l Hi) as (T & S & W). unfold link_inv, places in *.
      by rewrite E2, E3, E4, E5, E6, (bool_decide_ext _ _ E1).
  - intros i Hi. rewrite Hlink. destruct (Hrange i Hi) as [l ->]. destruct (decide (i = j)); by eexists.
  - intros k i. rewrite Hacc, Hlink. intros Hi. destruct (v_accept _ I k i Hi) as (l & -> & Hl).
    destruct (decide (i = j)); [|by eexists]. exists (f l). by rewrite Hk.
Qed.

(** A step that moves no connection. *)
Lemma inv_still s s' :
  inv s → th_links s' = th_links s → (∀ i, i ∈ th_listed s' ↔ i ∈ th_listed s) →
  th_retired_node s' = th_retired_node s → th_retired_client s' = th_retired_client s → th_reaper s' = th_reaper s →
  (∀ k, acceptor k s' = acceptor k s) →
  (∀ i, pushing (th_stop s) i = false) → (∀ i, pushing (th_stop s') i = false) →
  (∀ i, i ∈ todo (th_stop s') → is_Some (link s i)) →
  (∀ i l, link s i = Some l → lk_retirement_queued l = false → unswept (th_stop s') i) → control s' →
  inv s'.
Proof.
  intros I E1 E2 E3 E4 E5 E6 Hp Hp' Ht Hsw Hc.
  assert (Hlink : ∀ i, link s' i = link s i) by (intros i; unfold link; by rewrite E1).
  assert (Hq : ∀ i, queued s' i = queued s i) by (intros i; unfold queued; by rewrite E3, E4).
  apply (inv_update 0 id s); [done| |done|done| | | | |done].
  - intros i. rewrite Hlink. destruct (decide (i = 0)); [|done]. by destruct (link s i).
  - intros i _. by rewrite Hq, Hp, Hp', E2, E5.
  - intros l Hl (T & S & W). rewrite Hq, E5, (bool_decide_ext _ _ (E2 0)). split_and!; [|done|done].
    unfold places in *. by rewrite Hp'; rewrite Hp in T.
  - intros i. rewrite Hq, E2, E5. intros [Hi|[Hi|[Hi|Hi]]]; [apply (v_range _ I); auto..|auto].
  - intros i l. rewrite Hlink. apply Hsw.
Qed.

Lemma count_single i j : count_occ Nat.eq_dec [j] i = b2n (i =? j).
Proof. cbn. destruct (Nat.eq_dec j i) as [->|Hne]; [by rewrite Nat.eqb_refl|]. by rewrite (proj2 (Nat.eqb_neq i j)) by congruence. Qed.

Lemma queued_retired s i j : is_Some (link s j) → queued (queue_retired j s) i = queued s i + b2n (i =? j).
Proof.
  intros [l Hl]. unfold queued, queue_retired. rewrite Hl, <-(count_single i j).
  destruct (lk_kind l); cbn [set_retired th_retired_node th_retired_client]; rewrite !count_occ_app; lia.
Qed.

Lemma queue_retired_same j s :
  th_links (queue_retired j s) = th_links s ∧ th_listed (queue_retired j s) = th_listed s ∧
  th_reaper (queue_retired j s) = th_reaper s ∧ th_stop (queue_retired j s) = th_stop s ∧
  (∀ k, acceptor k (queue_retired j s) = acceptor k s).
Proof. unfold queue_retired. destruct (link s j) as [l|]; [destruct (lk_kind l)|]; split_and!; try done; by intros []. Qed.

Lemma none_flagged_spec s : none_flagged s = true ↔ ∀ i l, link s i = Some l → lk_reader l ≠ T_Flagged.
Proof.
  unfold none_flagged, link. rewrite forallb_forall. split.
  - intros H i l Hl E. specialize (H l (proj1 (list_elem_of_In _ _) (list_elem_of_lookup_2 _ _ _ Hl))).
    by rewrite E in H.
  - intros H l [i Hi]%list_elem_of_In%list_elem_of_lookup. apply negb_true_iff, bool_decide_eq_false. by eapply H.
Qed.

(** Only connections change: the control invariant needs nothing unless the reaper
    has exited. *)
Lemma control_links s s' :
  control s → th_stop s' = th_stop s → th_stopping s' = th_stopping s → th_posted s' = th_posted s →
  th_core_exited s' = th_core_exited s → th_reaper_stopping s' = th_reaper_stopping s →
  (∀ k, acceptor k s' = acceptor k s) → th_reaper s' = th_reaper s →
  (th_reaper s = RP_Exited →
   th_retired_node s' = [] ∧ th_retired_client s' = [] ∧ ∀ i l, link s' i = Some l → lk_reader l ≠ T_Flagged) →
  control s'.
Proof.
  intros [C1 C2 C3 C4 C5 C6 C7 C8] E1 E2 E3 E4 E5 E6 E7 HE.
  pose proof (E6 K_Node) as E8. pose proof (E6 K_Client) as E9. cbn in E8, E9.
  split; rewrite ?E1, ?E2, ?E3, ?E4, ?E5, ?E7, ?E8, ?E9; try done.
  intros Hx. destruct (C8 Hx) as (A & _), (HE Hx) as (B & D & F). split_and!; [done..|]. by apply none_flagged_spec.
Qed.

(** When the reaper has exited, everything is retired and no reader is queueing. *)
Lemma exited_facts s i l :
  inv s → th_reaper s = RP_Exited → link s i = Some l →
  lk_retirement_queued l = true ∧ lk_reader l ≠ T_Flagged ∧ 11 <= stop_rank (th_stop s).
Proof.
  intros I HE Hl. destruct (c_drained _ (v_control _ I) HE) as (A & _ & _ & F).
  pose proof (proj1 (c_reaper_stopping _ (v_control _ I)) A) as Hr. split_and!; [| |done].
  - destruct (lk_retirement_queued l) eqn:E; [done|]. exfalso. pose proof (v_swept _ I i l Hl E) as Hu.
    destruct (th_stop s); cbn in Hr, Hu; (done || lia).
  - by eapply none_flagged_spec.
Qed.

(** A change of a connection that moves neither its place nor its shape. *)
Lemma inv_link j f s :
  inv s → (∀ l, lk_kind (f l) = lk_kind l ∧ lk_retirement_queued (f l) = lk_retirement_queued l) →
  (∀ l, link s j = Some l → lk_reader (f l) = T_Flagged → lk_reader l = T_Flagged) →
  (∀ l ac rp sp b q, link s j = Some l → link_inv ac rp sp b q j l → link_inv ac rp sp b q j (f l)) →
  inv (on_link j f s).
Proof.
  intros I Hf Hr Hl. apply (inv_update j f s); [done|apply link_on_link|done|apply Hf|done| | | |].
  - intros l E. by apply Hl.
  - apply (v_range _ I).
  - intros i l. rewrite link_on_link. destruct (decide (i = j)) as [->|]; [|apply (v_swept _ I)].
    destruct (link s j) as [l0|] eqn:E; [|done]. intros [= <-]. destruct (Hf l0) as [_ ->]. by apply (v_swept _ I).
  - eapply control_links; [apply I|done..|]. intros HE. destruct (c_drained _ (v_control _ I) HE) as (_ & A & B & _).
    split_and!; [done..|]. intros i l. rewrite link_on_link. destruct (decide (i = j)) as [->|Hne]; intros Hi.
    + destruct (link s j) as [l0|] eqn:E; [|done]. injection Hi as <-. destruct (exited_facts s j l0 I HE E) as (_ & F & _).
      intros F'. by apply F, Hr.
    + by destruct (exited_facts s i l I HE Hi) as (_ & F & _).
Qed.

Lemma inv_stop_link j s : inv s → inv (on_link j stop_link s).
Proof. intros I. apply inv_link; done. Qed.

Lemma writer_step_inv i s s' : inv s → writer_step i s = Some s' → inv s'.
Proof.
  intros I Hs. unfold writer_step in Hs. destruct (link s i) as [l|] eqn:E; [|done]. cbn in Hs.
  destruct (lk_writer l) eqn:Ew; try done. injection Hs as <-.
  apply inv_link; [by apply inv_stop_link|done|done|].
  intros l' ac rp sp b q. rewrite link_on_link, decide_True, E by done. intros [= <-] (T & S & W).
  split_and!; [done| |by right; right]. unfold shape in *.
  destruct (stage ac i) as [|[|[|[]]]], (past_reader rp i || negb b), (past_writer rp i || negb b),
    l as [? ? ? [] [] [] []]; done.
Qed.

(** What is known of a connection's shape decides every case. *)
Ltac shape_cases i l :=
  unfold shape in *;
  destruct (stage _ i) as [|[|[|[]]]], (past_reader _ i || negb _), (past_writer _ i || negb _),
    l as [? ? ? [] [] [] []]; done.

(** A reader that did not hold the retirement moves on. *)
Lemma reader_moves_inv i t s l :
  inv s → link s i = Some l → lk_reader l ≠ T_Flagged → t ≠ T_Flagged →
  (∀ st pr pw, shape st pr pw l = true → shape st pr pw (set_reader t l) = true) → inv (on_link i (set_reader t) s).
Proof.
  intros I E Hr Ht Hshape. apply inv_link; [done|done|done|]. intros l' ac rp sp b q. rewrite E. intros [= <-] (T & S & W).
  split_and!; [|by apply Hshape|done]. unfold places in *. cbn [set_reader lk_reader lk_retirement_queued] in *.
  by rewrite (bool_decide_false (t = T_Flagged)), (bool_decide_false (lk_reader l = T_Flagged)) in * by done.
Qed.

(** The reader sets the flag itself. *)
Lemma reader_flag_inv i s l :
  inv s → link s i = Some l → lk_reader l = T_Stopped → lk_retirement_queued l = false →
  inv (on_link i (set_reader T_Flagged) (on_link i flag_link s)).
Proof.
  intros I E Er Ef.
  assert (Hlink : ∀ k, link (on_link i (set_reader T_Flagged) (on_link i flag_link s)) k =
    if decide (k = i) then (set_reader T_Flagged ∘ flag_link) <$> link s k else link s k).
  { intros k. rewrite !link_on_link. destruct (decide (k = i)); [|done]. by rewrite <-option_fmap_compose. }
  eapply inv_update; [done|exact Hlink|done|done|done| | | |].
  - intros l'. rewrite E. intros [= <-] (T & S & W). split_and!; [|shape_cases i l|done].
    unfold places in *. rewrite Ef, Er in T.
    cbn [compose set_reader flag_link lk_retirement_queued lk_reader negb b2n th_reaper th_stop on_link set_links] in *.
    rewrite bool_decide_true by done. rewrite bool_decide_false in T by done. cbn [b2n] in *. exact T.
  - apply (v_range _ I).
  - intros k l'. rewrite Hlink. destruct (decide (k = i)); [|apply (v_swept _ I)].
    destruct (link s k); [|done]. by intros [= <-].
  - eapply control_links; [apply I|done..|]. intros HE. destruct (exited_facts s i l I HE E) as (F & _). congruence.
Qed.

(** The reader queues the connection and returns. *)
Lemma reader_queue_inv i s l :
  inv s → link s i = Some l → lk_reader l = T_Flagged → inv (on_link i (set_reader T_Done) (queue_retired i s)).
Proof.
  intros I E Er. destruct (queue_retired_same i s) as (Q1 & Q2 & Q3 & Q4 & Q5).
  assert (Hlink : ∀ k, link (on_link i (set_reader T_Done) (queue_retired i s)) k =
      if decide (k = i) then set_reader T_Done <$> link s k else link s k).
  { intros k. rewrite !link_on_link. unfold link. by rewrite Q1. }
  assert (Hq : ∀ k, queued (on_link i (set_reader T_Done) (queue_retired i s)) k = queued s k + b2n (k =? i)).
  { intros k. rewrite <-queued_retired by (by rewrite E). done. }
  eapply inv_update; [done|exact Hlink|exact Q5|done| | | | |].
  - intros k Hne. rewrite Hq, (proj2 (Nat.eqb_neq k i)) by done. cbn. rewrite Q2, Q3, Q4. split_and!; (done || lia).
  - intros l'. rewrite E. intros [= <-] (T & S & W). rewrite Hq, Nat.eqb_refl. cbn. rewrite Q2, Q3, Q4.
    split_and!; [|shape_cases i l|done].
    unfold places in *. rewrite Er in T. cbn [set_reader lk_retirement_queued lk_reader].
    rewrite bool_decide_false by done. rewrite bool_decide_true in T by done. cbn [b2n] in *. lia.
  - intros k. rewrite Hq. cbn. rewrite Q2, Q3, Q4. destruct (Nat.eqb_spec k i) as [->|]; [by rewrite E|].
    cbn [b2n]. rewrite Nat.add_0_r. apply (v_range _ I).
  - intros k l'. rewrite Hlink. cbn. rewrite Q4. destruct (decide (k = i)) as [->|]; [|apply (v_swept _ I)].
    rewrite E. intros [= <-]. cbn. by apply (v_swept _ I).
  - eapply control_links; [apply I|exact Q4| | | | |exact Q5|exact Q3|]; [unfold queue_retired; rewrite E; by destruct (lk_kind l)..|].
    intros HE. destruct (exited_facts s i l I HE E) as (_ & F & _). done.
Qed.

Lemma reader_step_inv i s s' : inv s → reader_step i s = Some s' → inv s'.
Proof.
  intros I Hs. unfold reader_step in Hs. destruct (link s i) as [l|] eqn:E; [|done]. cbn in Hs.
  destruct (lk_reader l) eqn:Er; try done.
  - injection Hs as <-. apply (reader_moves_inv _ _ _ (stop_link l)); [by apply inv_stop_link| |cbn; by rewrite Er|done|].
    + by rewrite link_on_link, decide_True, E.
    + intros st pr pw. destruct st as [|[|[|[]]]], pr, pw, l as [? ? ? [] [] [] []]; done.
  - destruct (lk_retirement_queued l) eqn:Ef; injection Hs as <-; [|by eapply reader_flag_inv].
    apply (reader_moves_inv _ _ _ l); [done|done|by rewrite Er|done|].
    intros st pr pw. destruct st as [|[|[|[]]]], pr, pw, l as [? ? ? [] [] [] []]; done.
  - injection Hs as <-. by eapply reader_queue_inv.
Qed.

(** The reaper moves; it was not and is not at its end. *)
Lemma control_reaper s s' :
  control s → th_reaper s ≠ RP_Exited → th_reaper s' ≠ RP_Exited → th_stop s' = th_stop s →
  th_stopping s' = th_stopping s → th_posted s' = th_posted s → th_core_exited s' = th_core_exited s →
  th_reaper_stopping s' = th_reaper_stopping s → (∀ k, acceptor k s' = acceptor k s) → control s'.
Proof.
  intros [C1 C2 C3 C4 C5 C6 C7 C8] HE HE' E1 E2 E3 E4 E5 E6.
  pose proof (E6 K_Node) as E8. pose proof (E6 K_Client) as E9. cbn in E8, E9.
  split; rewrite ?E1, ?E2, ?E3, ?E4, ?E5, ?E8, ?E9; try done. intros Hr. by apply C7 in Hr.
Qed.

Lemma set_reaper_same pc s :
  th_stop (set_reaper pc s) = th_stop s ∧ th_stopping (set_reaper pc s) = th_stopping s ∧
  th_posted (set_reaper pc s) = th_posted s ∧ th_core_exited (set_reaper pc s) = th_core_exited s ∧
  th_reaper_stopping (set_reaper pc s) = th_reaper_stopping s ∧ (∀ k, acceptor k (set_reaper pc s) = acceptor k s).
Proof. split_and!; try done; by intros []. Qed.

Lemma pop_inv i n c s :
  inv s → th_reaper s = RP_Wait →
  (∀ k, queued s k = count_occ Nat.eq_dec (n ++ c) k + b2n (k =? i)) →
  inv (set_reaper (RP_Stop i) (set_retired n c s)).
Proof.
  intros I Hr Hq. set (s' := set_reaper _ _). assert (Hq' : ∀ k, queued s k = queued s' k + b2n (k =? i)) by exact Hq.
  assert (Hi : is_Some (link s i)) by (apply (v_range _ I); right; left; rewrite Hq, Nat.eqb_refl; cbn; lia).
  apply (inv_update i id s); [done| |by intros []|done| | | | |].
  - intros k. change (link s' k) with (link s k). destruct (decide (k = i)); [|done]. by destruct (link s k).
  - intros k Hne. rewrite Hr. rewrite Hq'. cbn. rewrite (proj2 (Nat.eqb_neq k i)) by done. cbn. split_and!; (done || lia).
  - intros l Hl (T & S & W). rewrite Hr in *. split_and!; [|done|done]. unfold places in *. rewrite Hq', Nat.eqb_refl in T.
    cbn [s' set_reaper th_reaper at_reaper th_stop set_retired th_listed b2n] in *. rewrite Nat.eqb_refl. cbn [b2n id] in *. lia.
  - intros k [Hk|[Hk|[Hk|Hk]]].
    + apply (v_range _ I). by left.
    + apply (v_range _ I). right. left. rewrite Hq'. lia.
    + cbn in Hk. apply Nat.eqb_eq in Hk as ->. done.
    + apply (v_range _ I). by do 3 right.
  - apply (v_swept _ I).
  - eapply control_reaper; [apply I|by rewrite Hr|done|done..|by intros []].
Qed.

(** The reaper goes on with the connection it has. *)
Lemma reaper_at_inv i f pc s :
  inv s → at_reaper (th_reaper s) i = true → (∀ k, at_reaper pc k = (k =? i)) → pc ≠ RP_Exited →
  (∀ l, lk_kind (f l) = lk_kind l ∧ lk_retirement_queued (f l) = lk_retirement_queued l ∧ lk_reader (f l) = lk_reader l ∧
        (lk_writer (f l) = lk_writer l)) →
  (∀ k, k ≠ i → past_reader pc k = false ∧ past_writer pc k = false) →
  (∀ l, link s i = Some l →
     shape (stage (acceptor (lk_kind l) s) i) (past_reader (th_reaper s) i) (past_writer (th_reaper s) i) l = true →
     shape (stage (acceptor (lk_kind l) s) i) (past_reader pc i) (past_writer pc i) (f l) = true) →
  inv (set_reaper pc (on_link i f s)).
Proof.
  intros I Hat Hpc Hx Hf Hpast Hs.
  assert (Hat' : ∀ k, at_reaper (th_reaper s) k = (k =? i)).
  { intros k. destruct (th_reaper s); cbn in Hat |- *; try done; apply Nat.eqb_eq in Hat as ->; done. }
  assert (Hne : th_reaper s ≠ RP_Exited) by (intros E; by rewrite E in Hat).
  assert (Hpast' : ∀ k, k ≠ i → past_reader (th_reaper s) k = false ∧ past_writer (th_reaper s) k = false).
  { intros k Hk. destruct (th_reaper s); cbn in Hat |- *; try done; apply Nat.eqb_eq in Hat as ->;
      by rewrite (proj2 (Nat.eqb_neq k _)). }
  apply (inv_update i f s); [done| |by intros []|intros l; apply Hf| | | | |].
  - intros k. apply link_on_link.
  - intros k Hk. cbn [set_reaper on_link set_links th_listed th_reaper th_stop].
    destruct (Hpast k Hk) as [-> ->], (Hpast' k Hk) as [-> ->]. by rewrite Hpc, Hat'.
  - intros l Hl (T & S & W). destruct (Hf l) as (_ & F2 & F3 & F4). unfold link_inv, places in *. rewrite F2, F3, F4.
    cbn [set_reaper on_link set_links th_reaper th_stop th_listed]. rewrite Hpc. rewrite Hat' in T.
    split_and!; [exact T| |exact W]. assert (Hlisted : bool_decide (i ∈ th_listed s) = true).
    { destruct (bool_decide (i ∈ th_listed s)); [done|]. rewrite Nat.eqb_refl in T. cbn [b2n negb] in T. lia. }
    rewrite Hlisted in *. cbn [negb] in *. rewrite !orb_false_r in *. by apply Hs.
  - intros k [Hk|[Hk|[Hk|Hk]]]; [apply (v_range _ I); auto..| |apply (v_range _ I); auto].
    cbn in Hk. rewrite Hpc in Hk. apply (v_range _ I). right. right. left. by rewrite Hat'.
  - intros k l. change (link (set_reaper pc (on_link i f s)) k) with (link (on_link i f s) k). rewrite link_on_link.
    destruct (decide (k = i)); [|apply (v_swept _ I)]. destruct (link s k) as [l0|] eqn:E; [|done]. intros [= <-].
    destruct (Hf l0) as (_ & -> & _). by apply (v_swept _ I).
  - eapply control_reaper; [apply I|done|done|done..|by intros []].
Qed.

Lemma stored_stage i pc : stored i pc = true → stage pc i = 0.
Proof. destruct pc; cbn; try done; by destruct (Nat.eqb_spec i i0). Qed.

Ltac reaper_past :=
  let k := fresh in let Hk := fresh in
  intros k Hk; cbn; rewrite ?(proj2 (Nat.eqb_neq k _) Hk); done.

Lemma alter_id_link i s : on_link i id s = s.
Proof.
  unfold on_link, set_links. destruct s; cbn. f_equal. apply list_eq. intros k.
  destruct (decide (i = k)) as [->|Hne]; [rewrite list_lookup_alter_eq; by destruct (_ !! k)|by rewrite list_lookup_alter_ne].
Qed.

(** Taking the first of one of the queues. *)
Lemma count_first i k (l : list nat) : count_occ Nat.eq_dec (i :: l) k = b2n (k =? i) + count_occ Nat.eq_dec l k.
Proof.
  cbn. destruct (Nat.eq_dec i k) as [->|Hne]; [by rewrite Nat.eqb_refl|].
  by rewrite (proj2 (Nat.eqb_neq k i)) by congruence.
Qed.

Lemma reaper_exit_inv s :
  inv s → th_reaper s = RP_Wait → th_retired_node s = [] → th_retired_client s = [] →
  th_reaper_stopping s = true → none_flagged s = true → inv (set_reaper RP_Exited s).
Proof.
  intros I Hr En Ec E1 E2. apply (inv_update 0 id s); [done| |by intros []|done| | | | |].
  - intros k. change (link (set_reaper RP_Exited s) k) with (link s k). destruct (decide (k = 0)); [|done].
    by destruct (link s k).
  - intros k _. by rewrite Hr.
  - intros l Hl. by rewrite Hr.
  - intros k [Hk|[Hk|[Hk|Hk]]]; [apply (v_range _ I); auto..|done|apply (v_range _ I); auto].
  - apply (v_swept _ I).
  - destruct (v_control _ I) as [C1 C2 C3 C4 C5 C6 C7 C8]. split; try done.
Qed.

(** While the reaper has a connection, it is in the lists and its shape says so. *)
Lemma reaper_has_shape i s l :
  inv s → link s i = Some l → at_reaper (th_reaper s) i = true →
  i ∈ th_listed s ∧
  shape (stage (acceptor (lk_kind l) s) i) (past_reader (th_reaper s) i) (past_writer (th_reaper s) i) l = true.
Proof.
  intros I El Ha. destruct (v_link _ I i l El) as (T & S & _). unfold places in T. rewrite Ha in T. cbn [b2n] in T.
  destruct (bool_decide (i ∈ th_listed s)) eqn:Hb; [|cbn in T; lia]. apply bool_decide_eq_true in Hb.
  cbn [negb] in S. by rewrite !orb_false_r in S.
Qed.

Lemma reaper_reader_inv i s l :
  inv s → th_reaper s = RP_Reader i → link s i = Some l → (∀ k, stage (acceptor k s) i = 0) →
  lk_reader_joinable l = true ∧
  (lk_reader l = T_Done → inv (set_reaper (RP_Writer i) (on_link i (set_reader_joinable false) s))).
Proof.
  intros I Hr El Hstage. destruct (reaper_has_shape i s l I El) as [Hl S]; [rewrite Hr; apply Nat.eqb_refl|].
  rewrite Hr, Hstage in S. cbn [past_reader past_writer] in S. split; [destruct l as [? ? ? [] [] [] []]; done|]. intros Ed.
  apply reaper_at_inv; rewrite ?Hr; cbn [at_reaper past_reader past_writer]; rewrite ?Nat.eqb_refl; try done.
  - reaper_past.
  - intros l'. rewrite El, Hstage. intros [= <-] S'. unfold shape in *. destruct l as [? ? ? [] [] [] []]; done.
Qed.

Lemma reaper_writer_inv i s l :
  inv s → th_reaper s = RP_Writer i → link s i = Some l →
  lk_writer_joinable l = true ∧
  (lk_writer l = T_Done → inv (set_reaper (RP_Erase i) (on_link i (set_writer_joinable false) s))).
Proof.
  intros I Hr El. destruct (reaper_has_shape i s l I El) as [Hl S]; [rewrite Hr; apply Nat.eqb_refl|].
  rewrite Hr in S. cbn [past_reader past_writer] in S. rewrite Nat.eqb_refl in S.
  assert (Hj : lk_writer_joinable l = true ∧ stage (acceptor (lk_kind l) s) i = 0)
    by (destruct (stage _ i) as [|[|[|[]]]], l as [? ? ? [] [] [] []]; done).
  destruct Hj as [Hj Hstage]. split; [done|]. intros Ed.
  apply reaper_at_inv; rewrite ?Hr; cbn [at_reaper past_reader past_writer]; rewrite ?Nat.eqb_refl; try done.
  - reaper_past.
  - intros l'. rewrite El. intros [= <-]. rewrite Hstage. unfold shape. destruct l as [? ? ? [] [] [] []]; done.
Qed.

Lemma reaper_erase_inv i s :
  inv s → th_reaper s = RP_Erase i → inv (set_reaper RP_Wait (set_listed (filter (λ j, j ≠ i) (th_listed s)) s)).
Proof.
  intros I Hr.
  assert (Hli : ∀ k, k ∈ filter (λ j, j ≠ i) (th_listed s) ↔ k ≠ i ∧ k ∈ th_listed s) by (intros k; by rewrite list_elem_of_filter).
  apply (inv_update i id s); [done| |by intros []|done| | | | |].
  - intros k. change (link (set_reaper RP_Wait (set_listed _ s)) k) with (link s k).
    destruct (decide (k = i)); [|done]. by destruct (link s k).
  - intros k Hk. rewrite Hr. cbn [set_reaper set_listed th_listed th_reaper at_reaper past_reader past_writer th_stop].
    rewrite (proj2 (Nat.eqb_neq k i)) by done. split_and!; try done. rewrite Hli. naive_solver.
  - intros l Hl (T & S & W).
    destruct (reaper_has_shape i s l I Hl) as [Hin _]; [rewrite Hr; apply Nat.eqb_refl|]. apply (bool_decide_eq_true_2 (i ∈ th_listed s)) in Hin.
    rewrite Hr in *. unfold link_inv, places in *.
    cbn [set_reaper set_listed th_listed th_reaper th_stop at_reaper past_reader past_writer] in *.
    rewrite Nat.eqb_refl in *. cbn [b2n orb] in *.
    rewrite (bool_decide_false (i ∈ filter _ _)) by (rewrite Hli; naive_solver). rewrite Hin in T. cbn [negb b2n orb] in *.
    split_and!; [|done|done]. change (queued _ i) with (queued s i). unfold id. lia.
  - intros k [Hk|[Hk|[Hk|Hk]]]; [|apply (v_range _ I); auto|done|apply (v_range _ I); auto].
    apply (v_range _ I). left. by apply Hli in Hk as [_ ?].
  - apply (v_swept _ I).
  - eapply control_reaper; [apply I|by rewrite Hr|done|done..|by intros []].
Qed.

Lemma reaper_step_inv s s' : inv s → reaper_step true s = Some s' → inv s'.
Proof.
  intros I Hs. unfold reaper_step in Hs. destruct (th_reaper s) as [|i|i|i|i|] eqn:Hr; [..|done].
  - destruct (th_retired_node s) as [|i n] eqn:En; [destruct (th_retired_client s) as [|i c] eqn:Ec|].
    + cbn [negb orb] in Hs. destruct (th_reaper_stopping s && none_flagged s) eqn:Eb; [|done]. injection Hs as <-.
      apply andb_true_iff in Eb as [E1 E2]. by apply reaper_exit_inv.
    + injection Hs as <-. apply pop_inv; [done|done|]. intros k. unfold queued. rewrite En, Ec. cbn [app].
      rewrite count_first. lia.
    + assert (Es : s' = set_reaper (RP_Stop i) (set_retired n (th_retired_client s) s)) by (by injection Hs). subst s'.
      apply pop_inv; [done|done|]. intros k. unfold queued. rewrite En. cbn [app]. rewrite count_first.
      change (th_retired_node _) with n. lia.
  - injection Hs as <-. apply reaper_at_inv; rewrite ?Hr; cbn; rewrite ?Nat.eqb_refl; try done.
  - cbn [negb orb] in Hs. destruct (_ && _) eqn:Est; [|done]. apply andb_true_iff in Est as [St1%stored_stage St2%stored_stage].
    destruct (link s i) as [l|] eqn:El; [|done].
    destruct (reaper_reader_inv i s l I Hr El) as [Hj Hinv]; [by intros []|]. rewrite Hj in Hs.
    destruct (bool_decide_reflect (lk_reader l = T_Done)); [|done]. injection Hs as <-. by apply Hinv.
  - destruct (link s i) as [l|] eqn:El; [|done]. destruct (reaper_writer_inv i s l I Hr El) as [Hj Hinv].
    rewrite Hj in Hs. destruct (bool_decide_reflect (lk_writer l = T_Done)); [|done]. injection Hs as <-. by apply Hinv.
  - injection Hs as <-. by apply reaper_erase_inv.
Qed.

Lemma core_exit_inv s s' : inv s → core_exit s = Some s' → inv s'.
Proof.
  intros I Hs. unfold core_exit in Hs. destruct (_ && _); [|done]. injection Hs as <-. destruct I as [V1 V2 V3 V4 V5].
  split; try done. by destruct V5.
Qed.

Lemma core_stops_inv i s s' : inv s → core_stops i s = Some s' → inv s'.
Proof.
  intros I Hs. unfold core_stops in Hs. destruct (link s i); [|done]. cbn in Hs. destruct (_ && _); [|done].
  injection Hs as <-. by apply inv_stop_link.
Qed.

Lemma core_shutdown_inv s s' : inv s → core_shutdown s = Some s' → inv s'.
Proof.
  intros I Hs. unfold core_shutdown in Hs. destruct (_ && _); [|done]. injection Hs as <-. destruct I as [V1 V2 V3 V4 V5].
  split; try done. by destruct V5.
Qed.

Lemma conns_snapshot_spec s i : inv s → i ∈ conns_snapshot s ↔ i ∈ th_listed s.
Proof.
  intros I. unfold conns_snapshot. rewrite elem_of_app, !list_elem_of_In, !List.filter_In, <-list_elem_of_In. split; [tauto|].
  intros Hi. destruct (v_range _ I i (or_introl Hi)) as [l Hl]. unfold is_kind. rewrite Hl.
  destruct (lk_kind l); [left|right]; done.
Qed.

(** A connection that nobody retired is in the list. *)
Lemma unretired_listed s i l : inv s → link s i = Some l → lk_retirement_queued l = false → i ∈ th_listed s.
Proof.
  intros I Hl Hf. destruct (v_link _ I i l Hl) as (T & _). unfold places in T. rewrite Hf in T.
  destruct (bool_decide (i ∈ th_listed s)) eqn:E; [by apply bool_decide_eq_true in E|]. cbn [b2n negb] in T. lia.
Qed.

(** When the reaper has exited and [stop()] is behind its loop, nothing is listed. *)
Lemma exited_unlisted s i l :
  inv s → th_reaper s = RP_Exited → link s i = Some l → (i ∉ th_listed s) ∧ joined l.
Proof.
  intros I HE Hl. destruct (exited_facts s i l I HE Hl) as (F1 & F2 & F3).
  destruct (c_drained _ (v_control _ I) HE) as (_ & Q1 & Q2 & _).
  destruct (v_link _ I i l Hl) as (T & S & W). unfold places in T. rewrite F1, HE in T. unfold queued in T.
  rewrite Q1, Q2 in T. rewrite (bool_decide_false _ F2) in T.
  assert (Hp : pushing (th_stop s) i = false) by (destruct (th_stop s); cbn in F3 |- *; (done || lia)).
  rewrite Hp in T. cbn [at_reaper b2n negb app count_occ] in T.
  assert (Hb : bool_decide (i ∈ th_listed s) = false) by (destruct (bool_decide (i ∈ th_listed s)); [cbn in T; lia|done]).
  split; [by apply bool_decide_eq_false in Hb|]. rewrite HE, Hb in S. cbn [negb past_reader past_writer orb] in S.
  unfold shape in S. unfold joined. destruct (stage _ i) as [|[|[|[]]]], l as [? ? ? [] [] [] []]; done.
Qed.

(** A statement of [stop()] that concerns no connection. *)
Lemma stop_plain_inv s s' :
  inv s → th_links s' = th_links s → (∀ i, i ∈ th_listed s' ↔ i ∈ th_listed s) →
  th_retired_node s' = th_retired_node s → th_retired_client s' = th_retired_client s → th_reaper s' = th_reaper s →
  (∀ k, acceptor k s' = acceptor k s) → stop_rank (th_stop s) ≠ 8 → stop_rank (th_stop s') ≠ 8 →
  stop_rank (th_stop s) ≤ stop_rank (th_stop s') →
  (stop_rank (th_stop s) ≤ 7 → stop_rank (th_stop s') ≤ 7) → control s' → inv s'.
Proof.
  intros I E1 E2 E3 E4 E5 E6 R1 R2 R3 R4 Hc. apply (inv_still s); try done.
  - intros i. destruct (th_stop s); cbn in R1 |- *; (done || lia).
  - intros i. destruct (th_stop s'); cbn in R2 |- *; (done || lia).
  - intros i Hi. destruct (th_stop s'); cbn in R2, Hi; try lia; by apply not_elem_of_nil in Hi.
  - intros i l Hl Hf. pose proof (v_swept _ I i l Hl Hf) as Hu.
    destruct (decide (stop_rank (th_stop s) ≤ 7)); [apply early_unswept; lia|].
    exfalso. destruct (th_stop s); cbn in *; (done || lia).
Qed.

Lemma stop_retire_inv i t s l :
  inv s → th_stop s = SP_Retire i t → link s i = Some l → lk_retirement_queued l = false →
  inv (set_stop (SP_Push i t) (on_link i flag_link s)).
Proof.
  intros I Hp El Ef. pose proof (v_control _ I) as [C1 C2 C3 C4 C5 C6 C7 C8]. rewrite Hp in *. cbn [stop_rank] in *.
  apply (inv_update i flag_link s); [done| |by intros []|done| | | | |].
  - intros k. apply link_on_link.
  - intros k Hk. split_and!; try done. rewrite Hp. cbn. by apply Nat.eqb_neq.
  - intros l'. rewrite El, Hp. intros [= <-] (T & S & W). split_and!; [|done|done]. unfold places in *. rewrite Ef in T.
    cbn [set_stop on_link set_links th_stop th_reaper th_listed pushing flag_link lk_retirement_queued lk_reader negb b2n] in *.
    rewrite Nat.eqb_refl. cbn [b2n]. change (queued _ i) with (queued s i). lia.
  - intros k Hk. apply (v_range _ I). rewrite Hp. exact Hk.
  - intros k l'. change (link (set_stop (SP_Push i t) (on_link i flag_link s)) k) with (link (on_link i flag_link s) k).
    rewrite link_on_link. destruct (decide (k = i)); [destruct (link s k); [by intros [= <-]|done]|].
    intros Hl Hf. pose proof (v_swept _ I k l' Hl Hf) as Hu. rewrite Hp in Hu. cbn in *. naive_solver.
  - split; cbn; try done; try lia. intros HE. destruct (C8 HE) as (A & _). apply C6 in A. lia.
Qed.

Lemma stop_push_inv i t s :
  inv s → th_stop s = SP_Push i t → inv (set_stop (SP_StopConn t) (queue_retired i s)).
Proof.
  intros I Hp. pose proof (v_control _ I) as [C1 C2 C3 C4 C5 C6 C7 C8]. rewrite Hp in *. cbn [stop_rank] in *.
  assert (Hi : is_Some (link s i)) by (apply (v_range _ I); rewrite Hp; cbn; set_solver).
  destruct (queue_retired_same i s) as (Q1 & Q2 & Q3 & Q4 & Q5).
  assert (Hq : ∀ k, queued (set_stop (SP_StopConn t) (queue_retired i s)) k = queued s k + b2n (k =? i))
    by (intros k; by rewrite <-queued_retired).
  assert (Hlink : ∀ k, link (set_stop (SP_StopConn t) (queue_retired i s)) k = link s k)
    by (intros k; unfold link; cbn; by rewrite Q1).
  apply (inv_update i id s); [done| |intros k; rewrite <-(Q5 k); by destruct k|done| | | | |].
  - intros k. rewrite Hlink. destruct (decide (k = i)); [|done]. by destruct (link s k).
  - intros k Hk. rewrite Hq, (proj2 (Nat.eqb_neq k i)) by done.
    cbn [set_stop th_listed th_reaper th_stop b2n pushing]. rewrite Q2, Q3, Hp. cbn [pushing].
    rewrite (proj2 (Nat.eqb_neq k i)) by done. split_and!; (done || lia).
  - intros l Hl (T & S & W). rewrite Hq, Nat.eqb_refl. cbn [set_stop th_listed th_reaper th_stop]. rewrite Q2, Q3.
    split_and!; [|done|done]. unfold places in *. rewrite Hp in T. cbn [pushing] in *. rewrite Nat.eqb_refl in T.
    cbn [b2n id] in *. lia.
  - intros k. rewrite Hq. cbn [set_stop th_listed th_reaper th_stop]. rewrite Q2, Q3. intros Hk.
    destruct (decide (k = i)) as [->|Hne]; [done|]. rewrite (proj2 (Nat.eqb_neq k i)) in Hk by done. cbn [b2n] in Hk.
    apply (v_range _ I). rewrite Hp. cbn [todo] in *. destruct Hk as [?|[?|[?|?]]]; [by left|right; left; lia|auto|].
    do 3 right. by apply list_elem_of_further.
  - intros k l. rewrite Hlink. intros Hl Hf. pose proof (v_swept _ I k l Hl Hf) as Hu. by rewrite Hp in Hu.
  - destruct Hi as [l Hl]. unfold queue_retired. rewrite Hl.
    destruct (lk_kind l); (split; cbn; try done; try lia; intros HE; destruct (C8 HE) as (A & _); apply C6 in A; lia).
Qed.

Lemma control_stop s s' :
  control s → stop_rank (th_stop s) ≤ stop_rank (th_stop s') →
  (stop_rank (th_stop s) < 2 → 2 ≤ stop_rank (th_stop s') → th_stopping s' = true) →
  (stop_rank (th_stop s) < 3 → 3 ≤ stop_rank (th_stop s') → th_posted s' = true) →
  (stop_rank (th_stop s) < 6 → 6 ≤ stop_rank (th_stop s') → th_accept_node s = A_Done) →
  (stop_rank (th_stop s) < 7 → 7 ≤ stop_rank (th_stop s') → th_accept_client s = A_Done) →
  (stop_rank (th_stop s) < 10 → 10 ≤ stop_rank (th_stop s') → th_core_exited s = true) →
  (stop_rank (th_stop s) < 12 → 12 ≤ stop_rank (th_stop s') → th_reaper s = RP_Exited) →
  (th_stopping s = true → th_stopping s' = true) → (th_posted s = true → th_posted s' = true) →
  th_reaper_stopping s' = (if decide (11 ≤ stop_rank (th_stop s')) then true else th_reaper_stopping s) →
  th_core_exited s' = th_core_exited s → (∀ k, acceptor k s' = acceptor k s) → th_reaper s' = th_reaper s →
  th_retired_node s' = th_retired_node s → th_retired_client s' = th_retired_client s → th_links s' = th_links s →
  control s'.
Proof.
  intros [C1 C2 C3 C4 C5 C6 C7 C8] R H2 H3 H6 H7 H10 H12 E1 E2 E3 E4 E5 E6 E7 E8 E9.
  pose proof (E5 K_Node) as A1. pose proof (E5 K_Client) as A2. cbn in A1, A2.
  split; rewrite ?A1, ?A2, ?E4, ?E6, ?E7, ?E8.
  - intros. destruct (decide (2 ≤ stop_rank (th_stop s))); [by apply E1, C1|apply H2; lia].
  - intros. destruct (decide (3 ≤ stop_rank (th_stop s))); [by apply E2, C2|apply H3; lia].
  - intros. destruct (decide (6 ≤ stop_rank (th_stop s))); [by apply C3|apply H6; lia].
  - intros. destruct (decide (7 ≤ stop_rank (th_stop s))); [by apply C4|apply H7; lia].
  - intros. destruct (decide (10 ≤ stop_rank (th_stop s))); [by apply C5|apply H10; lia].
  - rewrite E3. destruct (decide _); [done|]. rewrite C6. lia.
  - intros. destruct (decide (12 ≤ stop_rank (th_stop s))); [by apply C7|apply H12; lia].
  - intros HE. destruct (C8 HE) as (A & B & D & F). split_and!; [|done|done|unfold none_flagged in *; by rewrite E9].
    rewrite E3. by destruct (decide _).
Qed.

Ltac plain I Hp :=
  apply (stop_plain_inv _ _ I); rewrite ?Hp; cbn; try done; try lia; try (by intros []);
  apply (control_stop _ _ (v_control _ I)); rewrite ?Hp; cbn; try done; try lia; try (by intros []).

Lemma stop_step_inv s s' : inv s → stop_step s = Some s' → inv s'.
Proof.
  intros I Hs. pose proof (v_control _ I) as C. unfold stop_step in Hs.
  destruct (th_stop s) as [| | | | | | | |[|i l]|i l|i l| | | | |] eqn:Hp.
  - injection Hs as <-. plain I Hp.
  - injection Hs as <-. plain I Hp.
  - injection Hs as <-. plain I Hp.
  - injection Hs as <-. plain I Hp.
  - injection Hs as <-. plain I Hp.
  - destruct (th_accept_node s) eqn:Ea; try done. injection Hs as <-. plain I Hp.
  - destruct (th_accept_client s) eqn:Ea; try done. injection Hs as <-. plain I Hp.
  - injection Hs as <-. apply (inv_still _ _ I); rewrite ?Hp; cbn; try done.
    + intros i Hi. apply (v_range _ I). left. by apply conns_snapshot_spec.
    + intros i l Hl Hf. apply conns_snapshot_spec; [done|]. by eapply unretired_listed.
    + apply (control_stop _ _ C); rewrite ?Hp; cbn; try done; try lia; try (by intros []).
  - injection Hs as <-. apply (inv_still _ _ I); rewrite ?Hp; cbn; try done; try (by intros i ?%not_elem_of_nil).
    + intros i l Hl Hf. pose proof (v_swept _ I i l Hl Hf) as Hu. rewrite Hp in Hu. by apply not_elem_of_nil in Hu.
    + apply (control_stop _ _ C); rewrite ?Hp; cbn; try done; try lia; try (by intros []).
  - injection Hs as <-. pose proof (inv_stop_link i s I) as I'.
    apply (inv_still _ _ I'); cbn; rewrite ?Hp; cbn; try done.
    + intros k Hk. apply (v_range _ I'). cbn. rewrite Hp. cbn. auto.
    + intros k l' Hl Hf. pose proof (v_swept _ I' k l' Hl Hf) as Hu. cbn in Hu. rewrite Hp in Hu. cbn in Hu. set_solver.
    + apply (control_stop _ _ (v_control _ I')); cbn; rewrite ?Hp; cbn; try done; try lia; try (by intros []).
  - destruct (link s i) as [l0|] eqn:El; [|done]. cbn in Hs. destruct (lk_retirement_queued l0) eqn:Ef; injection Hs as <-;
      [|by eapply stop_retire_inv].
    apply (inv_still _ _ I); rewrite ?Hp; cbn; try done.
    + intros k Hk. apply (v_range _ I). rewrite Hp. cbn. set_solver.
    + intros k l' Hl Hf. pose proof (v_swept _ I k l' Hl Hf) as Hu. rewrite Hp in Hu. destruct Hu as [->|?]; [congruence|done].
    + apply (control_stop _ _ C); rewrite ?Hp; cbn; try done; try lia; try (by intros []).
  - injection Hs as <-. by apply stop_push_inv.
  - destruct (th_core_exited s) eqn:Ee; [|done]. injection Hs as <-. plain I Hp.
  - injection Hs as <-. plain I Hp.
  - destruct (th_reaper s) eqn:Er; try done. injection Hs as <-. plain I Hp.
    rewrite decide_True by lia. apply (c_reaper_stopping _ C). rewrite Hp. done.
  - injection Hs as <-. pose proof (c_exited _ C) as HE. rewrite Hp in HE. specialize (HE (le_n _)).
    apply (stop_plain_inv _ _ I); rewrite ?Hp; cbn; try done; try lia; try (by intros []).
    + intros i. split; [by intros ?%not_elem_of_nil|]. intros Hi. exfalso.
      destruct (v_range _ I i (or_introl Hi)) as [l Hl]. by destruct (exited_unlisted s i l I HE Hl).
    + apply (control_stop _ _ C); rewrite ?Hp; cbn; try done; try lia; try (by intros []).
      rewrite decide_True by lia. apply (c_reaper_stopping _ C). rewrite Hp. cbn. lia.
  - done.
Qed.

Lemma reachable_inv s : reachable true s → inv s.
Proof.
  induction 1 as [|a s s' _ IH Hs]; [apply started_inv|]. destruct a; cbn in Hs.
  - by eapply accept_step_inv.
  - by eapply reader_step_inv.
  - by eapply writer_step_inv.
  - by eapply reaper_step_inv.
  - by eapply core_exit_inv.
  - by eapply core_stops_inv.
  - by eapply core_shutdown_inv.
  - by eapply stop_step_inv.
Qed.

(** ** The end of a careful schedule *)

(** With a careful schedule nothing is left behind. *)
Lemma careful_stop s :
  reachable true s → th_stop s = SP_Returned →
  th_retired_node s = [] ∧ th_retired_client s = [] ∧ Forall joined (th_links s).
Proof.
  intros I%reachable_inv Hp. pose proof (v_control _ I) as [C1 C2 C3 C4 C5 C6 C7 C8]. rewrite Hp in *. cbn [stop_rank] in *.
  assert (HE : th_reaper s = RP_Exited) by (apply C7; lia). destruct (C8 HE) as (_ & Q1 & Q2 & _).
  split_and!; [done..|]. apply Forall_forall. intros l [x Hi]%list_elem_of_lookup. by eapply exited_unlisted.
Qed.

Lemma acts_reachable careful l : ∀ s s', reachable careful s → acts careful l s = Some s' → reachable careful s'.
Proof.
  induction l as [|a l IH]; intros s s' Hr Hs; cbn in Hs; [by injection Hs as <-|].
  destruct (act careful a s) as [s1|] eqn:E; [|done]. eapply IH; [|exact Hs]. by eapply reach_act.
Qed.
