(* ===== verification/CoordHalt.v ===== *)
(** * CoordHalt: [Coordinator::stop] in every schedule (coordinator/coordinator.cpp)

    [CoordStop] follows the connections and needs a schedule that avoids two races;
    here a weaker invariant, of every schedule whatever, which is enough for the end
    of [stop()]. *)

From S2P Require Import Prelude CoordStop.

(** ** The invariant of every schedule *)

(** What a connection is while an acceptor holds it at a stage. *)
Definition held (st : nat) (l : Link) : Prop :=
  (born (lk_writer l) = true ↔ 2 <= st) ∧ (born (lk_reader l) = true ↔ 4 <= st).
(** A thread that is stored has been started. *)
Definition stored_born (l : Link) : Prop :=
  (lk_reader_joinable l = true → born (lk_reader l) = true) ∧
  (lk_writer_joinable l = true → lk_writer l = T_Running ∨ lk_writer l = T_Done) ∧
  (lk_writer l = T_Unborn ∨ lk_writer l = T_Running ∨ lk_writer l = T_Done).

(** The connections some thread is going to look at. *)
Definition known (s : Threads) (i : nat) : Prop :=
  i ∈ th_listed s ∨ i ∈ th_retired_node s ∨ i ∈ th_retired_client s ∨ at_reaper (th_reaper s) i = true
  ∨ i ∈ todo (th_stop s).

Record stages (s : Threads) : Prop := {
  g_stopping : 2 <= stop_rank (th_stop s) → th_stopping s = true;
  g_posted : 3 <= stop_rank (th_stop s) → th_posted s = true;
  g_node : 6 <= stop_rank (th_stop s) → th_accept_node s = A_Done;
  g_client : 7 <= stop_rank (th_stop s) → th_accept_client s = A_Done;
  g_core : 10 <= stop_rank (th_stop s) → th_core_exited s = true;
  g_reaper_stopping : 11 <= stop_rank (th_stop s) → th_reaper_stopping s = true;
  g_exited : 12 <= stop_rank (th_stop s) → th_reaper s = RP_Exited
}.

Record weak (s : Threads) : Prop := {
  w_held : ∀ k i, stage (acceptor k s) i ≠ 0 →
    ∃ l, link s i = Some l ∧ lk_kind l = k ∧ held (stage (acceptor k s) i) l;
  w_link : ∀ i l, link s i = Some l → stored_born l;
  w_known : ∀ i, known s i → is_Some (link s i);
  w_stages : stages s
}.

Lemma started_weak : weak started.
Proof.
  split; [intros [] i; cbn; lia|done| |split; cbn; lia].
  intros i H. unfold known in H. cbn in H. destruct H as [H|[H|[H|[H|H]]]]; try done; by apply not_elem_of_nil in H.
Qed.

(** What threads other than an acceptor do to a connection. *)
Definition evolves (l l' : Link) : Prop :=
  lk_kind l' = lk_kind l ∧ born (lk_reader l') = born (lk_reader l) ∧ born (lk_writer l') = born (lk_writer l) ∧
  (stored_born l → stored_born l').
Definition evolved (s s' : Threads) : Prop :=
  ∀ i, match link s i, link s' i with Some l, Some l' => evolves l l' | None, None => True | _, _ => False end.

Lemma evolves_refl l : evolves l l.
Proof. by split_and!. Qed.
Lemma evolves_reader t l : born (lk_reader l) = true → born t = true → evolves l (set_reader t l).
Proof. intros H1 H2. split_and!; cbn; [done|congruence|done|]. unfold stored_born. cbn. naive_solver. Qed.
Lemma evolves_stop l : evolves l (stop_link l).
Proof. by split_and!. Qed.
Lemma evolved_same s s' : th_links s' = th_links s → evolved s s'.
Proof. intros E i. unfold link. rewrite E. destruct (th_links s !! i); [apply evolves_refl|done]. Qed.
Lemma evolved_on_link s s' i f :
  th_links s' = alter f i (th_links s) → (∀ l, link s i = Some l → evolves l (f l)) → evolved s s'.
Proof.
  intros E Hf j. unfold link. rewrite E. destruct (decide (j = i)) as [->|Hne].
  - rewrite list_lookup_alter_eq. specialize (Hf). unfold link in Hf. destruct (th_links s !! i) as [l|]; [by apply Hf|done].
  - rewrite list_lookup_alter_ne by done. destruct (th_links s !! j); [apply evolves_refl|done].
Qed.
Lemma evolved_trans s s1 s' : evolved s s1 → evolved s1 s' → evolved s s'.
Proof.
  intros H1 H2 i. specialize (H1 i). specialize (H2 i).
  destruct (link s i), (link s1 i), (link s' i); try done.
  destruct H1 as (?&?&?&?), H2 as (?&?&?&?). split_and!; [congruence..|auto].
Qed.

(** A step that leaves the acceptors alone. *)
Lemma weak_step s s' :
  weak s → evolved s s' → (∀ k, acceptor k s' = acceptor k s) → (∀ i, known s' i → known s i ∨ is_Some (link s i)) →
  stages s' → weak s'.
Proof.
  intros W E Ha Hk Hs. split; [| | |done].
  - intros k i. rewrite Ha. intros Hi. destruct (w_held _ W k i Hi) as (l & Hl & Hkd & Hh). specialize (E i).
    rewrite Hl in E. destruct (link s' i) as [l'|]; [|done]. destruct E as (E1 & E2 & E3 & _). exists l'.
    split_and!; [done|congruence|]. unfold held in *. by rewrite E2, E3.
  - intros i l' Hl'. specialize (E i). rewrite Hl' in E. destruct (link s i) as [l|] eqn:Hl; [|done].
    destruct E as (_ & _ & _ & E). by apply E, (w_link _ W i).
  - intros i Hi. specialize (E i). assert (Hl : is_Some (link s i)).
    { destruct (Hk i Hi) as [Hi'|Hi']; [|done]. by apply (w_known _ W). }
    destruct Hl as [l Hl]. rewrite Hl in E. destruct (link s' i) as [l'|]; [by eexists|done].
Qed.

(** Only the control of other threads changes. *)
Ltac keep_stages :=
  match goal with W : weak ?s |- stages _ =>
    destruct (w_stages _ W) as [G1 G2 G3 G4 G5 G6 G7]; split; cbn in *; try done; try lia;
    try (intros ?; specialize (G7 ltac:(done)); congruence) end.

Lemma reader_step_weak i s s' : weak s → reader_step i s = Some s' → weak s'.
Proof.
  intros W Hs. unfold reader_step in Hs. destruct (link s i) as [l|] eqn:El; [|done]. cbn in Hs.
  destruct (lk_reader l) eqn:Er; try done.
  - injection Hs as <-. apply (weak_step s); [done| |by intros []|intros ? ?; by left|keep_stages].
    apply (evolved_trans _ (on_link i stop_link s)); [apply (evolved_on_link s _ i stop_link); [done|]|
      apply (evolved_on_link _ _ i (set_reader T_Stopped)); [done|]].
    + intros l' _. apply evolves_stop.
    + intros l'. rewrite link_on_link, decide_True, El by done. intros [= <-].
      apply evolves_reader; [by cbn; rewrite Er|done].
  - destruct (lk_retirement_queued l); injection Hs as <-; (apply (weak_step s); [done| |by intros []|intros ? ?; by left|keep_stages]).
    + apply (evolved_on_link s _ i (set_reader T_Done)); [done|]. intros l'. rewrite El. intros [= <-].
      apply evolves_reader; [by rewrite Er|done].
    + apply (evolved_trans _ (on_link i flag_link s)); [apply (evolved_on_link s _ i flag_link); [done|]|
        apply (evolved_on_link _ _ i (set_reader T_Flagged)); [done|]].
      * intros l' _. split_and!; done.
      * intros l'. rewrite link_on_link, decide_True, El by done. intros [= <-].
        apply evolves_reader; [by cbn; rewrite Er|done].
  - injection Hs as <-. assert (El' : th_links (queue_retired i s) = th_links s).
    { unfold queue_retired. rewrite El. by destruct (lk_kind l). }
    apply (weak_step s); [done| | | |].
    + apply (evolved_on_link s _ i (set_reader T_Done)); [cbn; by rewrite El'|]. intros l'. rewrite El. intros [= <-].
      apply evolves_reader; [by rewrite Er|done].
    + intros k. unfold queue_retired. rewrite El. by destruct (lk_kind l), k.
    + intros j. unfold known, queue_retired. rewrite El. destruct (lk_kind l); cbn; rewrite ?elem_of_app, ?list_elem_of_singleton;
        intros Hj; (destruct (decide (j = i)) as [->|]; [right; by eexists|left; naive_solver]).
    + unfold queue_retired. rewrite El. destruct (lk_kind l); keep_stages.
Qed.

Lemma writer_step_weak i s s' : weak s → writer_step i s = Some s' → weak s'.
Proof.
  intros W Hs. unfold writer_step in Hs. destruct (link s i) as [l|] eqn:El; [|done]. cbn in Hs.
  destruct (lk_writer l) eqn:Ew; try done. injection Hs as <-.
  apply (weak_step s); [done| |by intros []|intros ? ?; by left|keep_stages].
  apply (evolved_trans _ (on_link i stop_link s)); [by apply (evolved_on_link s _ i stop_link)|].
  apply (evolved_on_link _ _ i (set_writer T_Done)); [done|].
  intros l'. rewrite link_on_link, decide_True, El by done. intros [= <-].
  unfold evolves, stored_born. cbn. rewrite Ew. split_and!; [done..|]. naive_solver.
Qed.

Lemma evolves_unstore (r w : bool) l :
  evolves l (if r then set_reader_joinable false l else l) ∧ evolves l (if w then set_writer_joinable false l else l).
Proof. destruct r, w; (split; split_and!; try done; unfold stored_born; cbn; naive_solver). Qed.

Lemma reaper_step_weak careful s s' : weak s → reaper_step careful s = Some s' → weak s'.
Proof.
  intros W Hs. unfold reaper_step in Hs. destruct (th_reaper s) as [|i|i|i|i|] eqn:Er; [..|done].
  - destruct (th_retired_node s) as [|i n] eqn:En; [destruct (th_retired_client s) as [|i c] eqn:Ec|].
    + destruct (th_reaper_stopping s && _) eqn:Eb; [|done]. injection Hs as <-.
      apply (weak_step s); [done|by apply evolved_same|by intros []| |keep_stages].
      intros j. unfold known. cbn. naive_solver.
    + injection Hs as <-. apply (weak_step s); [done|by apply evolved_same|by intros []| |keep_stages].
      intros j. unfold known. cbn. rewrite En, Ec, Nat.eqb_eq, !elem_of_cons. naive_solver.
    + assert (Es : s' = set_reaper (RP_Stop i) (set_retired n (th_retired_client s) s)) by (by injection Hs). subst s'.
      apply (weak_step s); [done|by apply evolved_same|by intros []| |keep_stages].
      intros j. unfold known. cbn. rewrite En, Nat.eqb_eq, !elem_of_cons. naive_solver.
  - injection Hs as <-. apply (weak_step s); [done|by apply (evolved_on_link s _ i stop_link)|by intros []| |keep_stages].
    intros j. unfold known. cbn. rewrite Er. cbn. naive_solver.
  - destruct (_ || _); [|done]. destruct (link s i) as [l|] eqn:El; [|done].
    destruct (lk_reader_joinable l); [destruct (bool_decide _); [|done]|]; injection Hs as <-;
      (apply (weak_step s); [done| |by intros []| |keep_stages]).
    + apply (evolved_on_link s _ i (set_reader_joinable false)); [done|]. intros l' _. apply (evolves_unstore true true).
    + intros j. unfold known. cbn. rewrite Er. cbn. naive_solver.
    + by apply evolved_same.
    + intros j. unfold known. cbn. rewrite Er. cbn. naive_solver.
  - destruct (link s i) as [l|] eqn:El; [|done].
    destruct (lk_writer_joinable l); [destruct (bool_decide _); [|done]|]; injection Hs as <-;
      (apply (weak_step s); [done| |by intros []| |keep_stages]).
    + apply (evolved_on_link s _ i (set_writer_joinable false)); [done|]. intros l' _. apply (evolves_unstore true true).
    + intros j. unfold known. cbn. rewrite Er. cbn. naive_solver.
    + by apply evolved_same.
    + intros j. unfold known. cbn. rewrite Er. cbn. naive_solver.
  - injection Hs as <-. apply (weak_step s); [done|by apply evolved_same|by intros []| |keep_stages].
    intros j. unfold known. cbn. rewrite list_elem_of_filter. naive_solver.
Qed.

Lemma core_exit_weak s s' : weak s → core_exit s = Some s' → weak s'.
Proof.
  intros W Hs. unfold core_exit in Hs. destruct (_ && _); [|done]. injection Hs as <-.
  apply (weak_step s); [done|by apply evolved_same|by intros []|intros ? ?; by left|keep_stages].
Qed.
Lemma core_stops_weak i s s' : weak s → core_stops i s = Some s' → weak s'.
Proof.
  intros W Hs. unfold core_stops in Hs. destruct (link s i) as [l|]; [|done]. cbn in Hs. destruct (_ && _); [|done].
  injection Hs as <-. apply (weak_step s); [done| |by intros []|intros ? ?; by left|keep_stages].
  by apply (evolved_on_link s _ i stop_link).
Qed.
Lemma core_shutdown_weak s s' : weak s → core_shutdown s = Some s' → weak s'.
Proof.
  intros W Hs. unfold core_shutdown in Hs. destruct (_ && _); [|done]. injection Hs as <-.
  apply (weak_step s); [done|by apply evolved_same|by intros []|intros ? ?; by left|keep_stages].
Qed.

(** [stop()] goes on without touching a connection. *)
Lemma stop_plain_weak s s' :
  weak s → th_links s' = th_links s → (∀ k, acceptor k s' = acceptor k s) → (∀ i, known s' i → known s i) → stages s' →
  weak s'.
Proof. intros W El Ha Hk Hs. apply (weak_step s); [done|by apply evolved_same|done|intros i Hi; left; by apply Hk|done]. Qed.

Lemma snapshot_listed s i : i ∈ conns_snapshot s → i ∈ th_listed s.
Proof. unfold conns_snapshot. rewrite elem_of_app, !list_elem_of_In, !filter_In. naive_solver. Qed.

#[local] Ltac stop_goes_on Hp := keep_stages; rewrite ?Hp in *; cbn in *; auto with lia.
#[local] Ltac stop_plain s Hp :=
  apply (stop_plain_weak s); [done|done|by intros []|intros j; unfold known; cbn; rewrite Hp; cbn; naive_solver|
    stop_goes_on Hp].

Lemma stop_step_weak s s' : weak s → stop_step s = Some s' → weak s'.
Proof.
  intros W Hs. unfold stop_step in Hs.
  destruct (th_stop s) as [| | | | | | | |[|i l]|i l|i l| | | | |] eqn:Hp; try done;
    try (injection Hs as <-; stop_plain s Hp).
  - destruct (th_accept_node s) eqn:Ea; try done. injection Hs as <-. stop_plain s Hp.
  - destruct (th_accept_client s) eqn:Ea; try done. injection Hs as <-. stop_plain s Hp.
  - injection Hs as <-. apply (stop_plain_weak s); [done|done|by intros []| |stop_goes_on Hp].
    intros j. unfold known. cbn. rewrite Hp. cbn. pose proof (snapshot_listed s j). naive_solver.
  - injection Hs as <-. apply (weak_step s); [done|by apply (evolved_on_link s _ i stop_link)|by intros []| |stop_goes_on Hp].
    intros j Hj. left. revert Hj. unfold known. cbn. by rewrite Hp.
  - destruct (link s i) as [x|] eqn:El; [|done]. cbn in Hs. destruct (lk_retirement_queued x); injection Hs as <-.
    + apply (stop_plain_weak s); [done|done|by intros []| |stop_goes_on Hp].
      intros j. unfold known. cbn. rewrite Hp. cbn. rewrite elem_of_cons. naive_solver.
    + apply (weak_step s); [done|by apply (evolved_on_link s _ i flag_link)|by intros []| |stop_goes_on Hp].
      intros j Hj. left. revert Hj. unfold known. cbn. by rewrite Hp.
  - injection Hs as <-. destruct (w_known _ W i) as [x El]; [do 4 right; rewrite Hp; apply elem_of_cons; by left|].
    unfold queue_retired. rewrite El.
    destruct (lk_kind x); (apply (stop_plain_weak s); [done|done|by intros []| |stop_goes_on Hp]);
      intros j; unfold known; cbn; rewrite Hp; cbn; rewrite elem_of_app, list_elem_of_singleton, elem_of_cons; naive_solver.
  - destruct (th_core_exited s) eqn:Ee; [|done]. injection Hs as <-. stop_plain s Hp.
  - destruct (th_reaper s) eqn:Er; try done. injection Hs as <-. stop_plain s Hp.
Qed.

(** ** The acceptors *)

Lemma accept_rank k s : stages s → acceptor k s ≠ A_Done → stop_rank (th_stop s) <= 6.
Proof.
  intros G Hd. destruct (decide (stop_rank (th_stop s) <= 6)); [done|]. exfalso. apply Hd.
  destruct k; [apply (g_node _ G)|apply (g_client _ G)]; lia.
Qed.
Lemma accept_stages k pc s s' :
  stages s → acceptor k s ≠ A_Done → th_stop s' = th_stop s → th_stopping s' = th_stopping s →
  th_posted s' = th_posted s → th_core_exited s' = th_core_exited s → th_reaper_stopping s' = th_reaper_stopping s →
  th_reaper s' = th_reaper s → (∀ k', acceptor k' s' = if decide (k' = k) then pc else acceptor k' s) → stages s'.
Proof.
  intros G Hd E1 E2 E3 E4 E5 E6 Ha. pose proof (accept_rank k s G Hd) as Hr. destruct G as [G1 G2 G3 G4 G5 G6 G7].
  split; rewrite ?E1, ?E2, ?E3, ?E4, ?E5, ?E6; try done; try lia.
  intros H6. change (th_accept_node s') with (acceptor K_Node s'). rewrite Ha. destruct k; cbn; [|by apply G3].
  exfalso. by apply Hd, G3.
Qed.

(** The acceptor moves on with the connection [j] it holds. *)
Lemma accept_hold_weak k pc pc' j f s :
  weak s → acceptor k s = pc → stage pc j ≠ 0 → (∀ i, stage pc i ≠ 0 → i = j) → (∀ i, stage pc' i ≠ 0 → i = j) →
  (∀ l, lk_kind (f l) = lk_kind l) →
  (∀ l, held (stage pc j) l → stored_born l → stored_born (f l) ∧ (stage pc' j ≠ 0 → held (stage pc' j) (f l))) →
  weak (set_accept k pc' (on_link j f s)).
Proof.
  intros W Hpc Hst H1 H2 Hf Hl. assert (Hd : acceptor k s ≠ A_Done) by (rewrite Hpc; by intros ->).
  destruct (w_held _ W k j) as (lj & Hlj & Hkj & Hh); [by rewrite Hpc|]. rewrite Hpc in Hh.
  assert (Hlink : ∀ i, link (set_accept k pc' (on_link j f s)) i = if decide (i = j) then f <$> link s i else link s i)
    by (intros i; apply link_on_link).
  destruct (Hl lj Hh (w_link _ W j lj Hlj)) as [Hb Hh']. split.
  - intros k' i. rewrite acceptor_set, Hlink. destruct (decide (k' = k)) as [->|Hne]; intros Hi.
    + pose proof (H2 i Hi) as ->. rewrite decide_True, Hlj by done. exists (f lj). split_and!; [done|by rewrite Hf|by apply Hh'].
    + destruct (w_held _ W k' i Hi) as (l & Hli & Hk & Hh2). rewrite decide_False; [eauto|]. intros ->. congruence.
  - intros i l. rewrite Hlink. destruct (decide (i = j)) as [->|]; [|apply (w_link _ W)]. rewrite Hlj. by intros [= <-].
  - intros i Hi. rewrite Hlink. assert (Hi' : known s i) by exact Hi. destruct (w_known _ W i Hi') as [l ->].
    destruct (decide (i = j)); by eexists.
  - apply (accept_stages k pc' s); try done; [apply W|]. intros k'. rewrite acceptor_set. by destruct k'.
Qed.

(** It moves on without one. *)
Lemma accept_idle_weak k pc' s :
  weak s → acceptor k s ≠ A_Done → (∀ i, stage pc' i = 0) → weak (set_accept k pc' s).
Proof.
  intros W Hd H2. split; [|apply (w_link _ W)|intros i Hi; by apply (w_known _ W)|].
  - intros k' i. rewrite acceptor_set. destruct (decide (k' = k)) as [->|]; [by rewrite H2|]. apply (w_held _ W).
  - apply (accept_stages k pc' s); try done; [apply W|]. intros k'. apply acceptor_set.
Qed.

(** A new connection. *)
Lemma accept_new_weak k s :
  weak s → acceptor k s = A_Checked →
  let i := length (th_links s) in
  weak (set_accept k (A_Listed i) (set_listed (th_listed s ++ [i]) (set_links (th_links s ++ [new_link k]) s))).
Proof.
  intros W Hpc i. assert (Hd : acceptor k s ≠ A_Done) by (by rewrite Hpc). set (s' := set_accept _ _ _).
  assert (Hlink : ∀ j l, link s j = Some l → link s' j = Some l) by (intros j l Hj; by apply lookup_app_l_Some).
  assert (Hnew : link s' i = Some (new_link k)) by (unfold s', link; cbn; by apply list_lookup_middle).
  split.
  - intros k' j. unfold s'. rewrite acceptor_set. fold s'. destruct (decide (k' = k)) as [->|]; intros Hj.
    + assert (j = i) as -> by (cbn in Hj; destruct (Nat.eqb_spec j i); [done|lia]). exists (new_link k).
      split_and!; [done..|]. cbn. rewrite Nat.eqb_refl. split; (split; [done|lia]).
    + destruct (w_held _ W k' j Hj) as (l & Hl & Hr). exists l. split; [by apply Hlink|done].
  - intros j l Hj. unfold s', link in Hj. cbn in Hj. apply lookup_app_Some in Hj as [Hj|[_ Hj]]; [by apply (w_link _ W j)|].
    apply list_lookup_singleton_Some in Hj as [_ <-]. split_and!; cbn; try done. by left.
  - intros j Hj. assert (Hj' : known s j ∨ j = i).
    { revert Hj. unfold known, s'. cbn. rewrite elem_of_app, list_elem_of_singleton. naive_solver. }
    destruct Hj' as [Hj'| ->]; [|by rewrite Hnew]. destruct (w_known _ W j Hj') as [l Hl]. rewrite (Hlink j l Hl). by eexists.
  - apply (accept_stages k (A_Listed i) s); try done; [apply W|]. intros k'. unfold s'. rewrite acceptor_set. by destruct k'.
Qed.

(** The next stage of a connection. *)
#[local] Ltac next_stage k pc j :=
  apply (accept_hold_weak k pc); try done; cbn; try (intros i; destruct (Nat.eqb_spec i j); [done|lia]);
  rewrite ?Nat.eqb_refl; try lia;
  unfold held, stored_born, born; intros l [Hw Hr] (B1 & B2 & B3);
  destruct l as [? ? ? [] [] jr jw]; cbn in *; try (exfalso; clear B1 B2; intuition (discriminate || lia)); naive_solver lia.

Lemma accept_step_weak k s s' : weak s → accept_step k true s = Some s' → weak s'.
Proof.
  intros W Hs. unfold accept_step in Hs. destruct (acceptor k s) as [| | |j|j|j|j|] eqn:Hpc; try done.
  - destruct (th_stopping s); injection Hs as <-; (apply accept_idle_weak; [done|by rewrite Hpc|done]).
  - injection Hs as <-. apply accept_idle_weak; [done|by rewrite Hpc|by destruct (th_stopping s)].
  - injection Hs as <-. by apply accept_new_weak.
  - injection Hs as <-. next_stage k (A_Listed j) j.
  - injection Hs as <-. next_stage k (A_WriterUp j) j.
  - injection Hs as <-. next_stage k (A_WriterSet j) j.
  - injection Hs as <-. next_stage k (A_ReaderUp j) j.
Qed.

(** ** Progress *)

Lemma flagged_dec s : none_flagged s = true ∨ ∃ i l, link s i = Some l ∧ lk_reader l = T_Flagged.
Proof.
  destruct (none_flagged s) eqn:E; [by left|right]. unfold none_flagged in E.
  apply not_true_iff_false in E. rewrite forallb_forall in E.
  destruct (decide (Exists (λ l, lk_reader l = T_Flagged) (th_links s))) as [He|Hn].
  - apply Exists_exists in He as (l & [i Hi]%list_elem_of_lookup & Hl). by exists i, l.
  - exfalso. apply E. intros l Hl%list_elem_of_In. apply negb_true_iff, bool_decide_eq_false. intros Hr.
    apply Hn, Exists_exists. eauto.
Qed.

Section schedule.
Context (careful : bool).

Definition can_act (s : Threads) : Prop := ∃ a s', act careful a s = Some s'.

Lemma accept_can_act k s : acceptor k s ≠ A_Done → can_act s.
Proof.
  intros Hd. exists (Act_Accept k). cbn. unfold accept_step. destruct (acceptor k s); try done; eauto.
  destruct (th_stopping s); eauto.
Qed.

Lemma reader_can_act s i l :
  link s i = Some l → lk_reader l ≠ T_Unborn → lk_reader l ≠ T_Done → can_act s.
Proof.
  intros Hl H1 H2. exists (Act_Reader i). cbn. unfold reader_step. rewrite Hl. cbn.
  destruct (lk_reader l); try done; eauto. destruct (lk_retirement_queued l); eauto.
Qed.

Lemma reaper_can_act s :
  weak s → th_stop s = SP_JoinReaper → th_reaper s ≠ RP_Exited → can_act s.
Proof.
  intros W Hp HE. destruct (w_stages _ W) as [G1 G2 G3 G4 G5 G6 G7]. rewrite Hp in *. cbn [stop_rank] in *.
  assert (A1 : th_accept_node s = A_Done) by (apply G3; lia). assert (A2 : th_accept_client s = A_Done) by (apply G4; lia).
  assert (Hat : ∀ i, at_reaper (th_reaper s) i = true → ∃ l, link s i = Some l ∧ stored_born l).
  { intros i Hi. destruct (w_known _ W i) as [l Hl]; [unfold known; auto|]. exists l. split; [done|by apply (w_link _ W i)]. }
  unfold can_act. destruct (th_reaper s) as [|i|i|i|i|] eqn:Er; [| | | | |done].
  - destruct (th_retired_node s) eqn:En; [|exists Act_Reaper; cbn; unfold reaper_step; rewrite Er, En; eauto].
    destruct (th_retired_client s) eqn:Ec; [|exists Act_Reaper; cbn; unfold reaper_step; rewrite Er, En, Ec; eauto].
    destruct (flagged_dec s) as [Hn|(i & l & Hl & Hr)]; [|by apply (reader_can_act s i l Hl); rewrite Hr].
    exists Act_Reaper. cbn. unfold reaper_step. rewrite Er, En, Ec, Hn, G6, orb_true_r by lia. eauto.
  - exists Act_Reaper. cbn. unfold reaper_step. rewrite Er. eauto.
  - destruct (Hat i) as (l & Hl & B1 & _); [cbn; apply Nat.eqb_refl|].
    destruct (lk_reader_joinable l) eqn:Ej.
    + destruct (decide (lk_reader l = T_Done)) as [Hd|Hd].
      * exists Act_Reaper. cbn. unfold reaper_step. rewrite Er, A1, A2, Hl, Ej, orb_true_r, bool_decide_true by done. eauto.
      * apply (reader_can_act s i l); [done| |done]. intros E. specialize (B1 eq_refl). by rewrite E in B1.
    + exists Act_Reaper. cbn. unfold reaper_step. rewrite Er, A1, A2, Hl, Ej, orb_true_r. eauto.
  - destruct (Hat i) as (l & Hl & _ & B2 & _); [cbn; apply Nat.eqb_refl|].
    destruct (lk_writer_joinable l) eqn:Ej.
    + destruct (B2 eq_refl) as [Hw|Hw].
      * exists (Act_Writer i). cbn. unfold writer_step. rewrite Hl. cbn. rewrite Hw. eauto.
      * exists Act_Reaper. cbn. unfold reaper_step. rewrite Er, Hl, Ej, bool_decide_true by done. eauto.
    + exists Act_Reaper. cbn. unfold reaper_step. rewrite Er, Hl, Ej. eauto.
  - exists Act_Reaper. cbn. unfold reaper_step. rewrite Er. eauto.
Qed.

Lemma stop_can_act s : weak s → th_stop s ≠ SP_Returned → can_act s.
Proof.
  intros W Hne.
  assert (Hstop : ∀ s', stop_step s = Some s' → can_act s) by (intros s' H; by exists Act_Stop, s').
  unfold stop_step in Hstop. destruct (th_stop s) as [| | | | | | | |[|i l]|i l|i l| | | | |] eqn:Hp; try (eapply Hstop; reflexivity).
  - destruct (th_accept_node s) eqn:Ea; try (by apply (accept_can_act K_Node); cbn; rewrite Ea). by eapply Hstop.
  - destruct (th_accept_client s) eqn:Ea; try (by apply (accept_can_act K_Client); cbn; rewrite Ea). by eapply Hstop.
  - destruct (w_known _ W i) as [l0 Hl]; [do 4 right; rewrite Hp; apply elem_of_cons; by left|]. rewrite Hl in Hstop. cbn in Hstop.
    destruct (lk_retirement_queued l0); by eapply Hstop.
  - destruct (th_core_exited s) eqn:Ee; [by eapply Hstop|]. exists Act_CoreExit. cbn. unfold core_exit. rewrite Ee.
    rewrite (g_posted _ (w_stages _ W)) by (rewrite Hp; cbn; lia). cbn. eauto.
  - destruct (decide (th_reaper s = RP_Exited)) as [E|]; [|by apply reaper_can_act]. rewrite E in Hstop. by eapply Hstop.
  - done.
Qed.

(** ** Termination *)

(** What is left to do: of [stop()]'s statements, of its loop, of everything else.
    A connection in a queue still has to go through the reaper's five statements. *)
Definition loop_work (pc : StopPc) : nat :=
  match pc with
  | SP_StopConn l => 3 * length l
  | SP_Retire _ l => 3 * length l + 2
  | SP_Push _ l => 3 * length l + 1
  | _ => 0
  end.
Definition reader_work (t : ThreadState) : nat :=
  match t with T_Unborn => 10 | T_Running => 9 | T_Stopped => 8 | T_Flagged => 7 | T_Done => 0 end.
Definition writer_work (t : ThreadState) : nat := match t with T_Unborn => 2 | T_Done => 0 | _ => 1 end.
Definition link_work (l : Link) : nat := b2n (negb (lk_stop l)) + reader_work (lk_reader l) + writer_work (lk_writer l).
Definition accept_work (pc : AcceptPc) : nat :=
  match pc with
  | A_Checked => 20 | A_Listed _ => 5 | A_WriterUp _ => 4 | A_WriterSet _ => 3 | A_ReaderUp _ | A_Accepted => 2
  | A_Loop => 1 | A_Done => 0
  end.
Definition reaper_work (pc : ReaperPc) : nat :=
  match pc with RP_Stop _ => 6 | RP_Reader _ => 5 | RP_Writer _ => 4 | RP_Erase _ => 3 | RP_Wait => 1 | RP_Exited => 0 end.
Definition links_work (ls : list Link) : nat := sum_list_with link_work ls.
Definition work (s : Threads) : nat :=
  links_work (th_links s) + 6 * length (th_retired_node s) + 6 * length (th_retired_client s)
  + b2n (negb (th_core_exited s)) + b2n (negb (th_posted s)) + accept_work (th_accept_node s)
  + accept_work (th_accept_client s) + reaper_work (th_reaper s).

Lemma links_work_alter i f ls l :
  ls !! i = Some l → links_work (alter f i ls) + link_work l = links_work ls + link_work (f l).
Proof.
  unfold links_work. revert i. induction ls as [|x ls IH]; intros [|i] Hi; [done|done| |].
  - injection Hi as ->. cbn. lia.
  - specialize (IH i Hi). change (alter f (S i) (x :: ls)) with (x :: alter f i ls). cbn [sum_list_with]. lia.
Qed.

Lemma links_work_le i f ls : (∀ l, link_work (f l) <= link_work l) → links_work (alter f i ls) <= links_work ls.
Proof.
  intros Hf. destruct (ls !! i) as [l|] eqn:E.
  - pose proof (links_work_alter i f ls l E). specialize (Hf l). lia.
  - replace (alter f i ls) with ls; [done|]. apply list_eq. intros k. destruct (decide (i = k)) as [->|].
    + by rewrite list_lookup_alter_eq, E.
    + by rewrite list_lookup_alter_ne.
Qed.

Lemma stop_link_work l : link_work (stop_link l) <= link_work l.
Proof. unfold link_work. cbn. lia. Qed.

(** Any step of a thread that is stopping brings the end nearer. *)
Definition nearer (s' s : Threads) : Prop :=
  stop_rank (th_stop s) < stop_rank (th_stop s') ∨
  stop_rank (th_stop s') = stop_rank (th_stop s) ∧
  (loop_work (th_stop s') < loop_work (th_stop s) ∨
   loop_work (th_stop s') = loop_work (th_stop s) ∧ work s' < work s).

(** A step outside [stop()] that lowers the rest of the work. *)
Lemma nearer_work s s' : th_stop s' = th_stop s → work s' < work s → nearer s' s.
Proof. intros E Hw. right. rewrite E. auto. Qed.

Lemma work_on_link i f s l :
  link s i = Some l → work (on_link i f s) + link_work l = work s + link_work (f l).
Proof.
  intros Hl. pose proof (links_work_alter i f (th_links s) l Hl). unfold work, on_link.
  cbn [set_links th_links th_retired_node th_retired_client th_core_exited th_posted th_accept_node th_accept_client th_reaper].
  lia.
Qed.

Lemma work_set_accept k pc s : work (set_accept k pc s) + accept_work (acceptor k s) = work s + accept_work pc.
Proof.
  unfold work. destruct k; cbn [set_accept set_reaper acceptor set_links th_links th_retired_node th_retired_client th_core_exited th_posted th_accept_node
    th_accept_client th_reaper]; lia.
Qed.

Lemma work_set_reaper pc s : work (set_reaper pc s) + reaper_work (th_reaper s) = work s + reaper_work pc.
Proof.
  unfold work. cbn [set_accept set_reaper acceptor set_links th_links th_retired_node th_retired_client th_core_exited th_posted th_accept_node
    th_accept_client th_reaper]. lia.
Qed.

Lemma accept_nearer k s s' :
  weak s → th_stopping s = true → accept_step k true s = Some s' → nearer s' s.
Proof.
  intros W Hst Hs. unfold accept_step in Hs. rewrite Hst in Hs.
  assert (Hheld := w_held _ W k).
  destruct (acceptor k s) as [| | |i|i|i|i|] eqn:Hpc; try done; injection Hs as <-;
    (apply nearer_work; [by destruct k|]);
    match goal with |- work (set_accept ?k ?pc ?s0) < _ =>
      pose proof (work_set_accept k pc s0) as Hw; replace (acceptor k s0) with (acceptor k s) in Hw by (by destruct k);
      rewrite Hpc in Hw; cbn [accept_work] in Hw end; try lia.
  - assert (Hn : work (set_listed (th_listed s ++ [length (th_links s)]) (set_links (th_links s ++ [new_link k]) s)) = work s + 13)
      by (unfold work, links_work; cbn [set_listed set_links th_links th_retired_node th_retired_client th_core_exited
            th_posted th_accept_node th_accept_client th_reaper]; rewrite sum_list_with_app; cbn; lia).
    lia.
  - destruct (Hheld i) as (l & Hl & _ & Hh); [cbn; by rewrite Nat.eqb_refl|]. pose proof (work_on_link i (set_writer T_Running) s l Hl) as Hw2.
    cbn in Hh. rewrite Nat.eqb_refl in Hh. unfold link_work, held in *. destruct Hh as [Hh1 Hh2].
    destruct l as [? ? ? [] [] ? ?]; cbn in *; solve [lia | exfalso; clear Hw Hw2; intuition (discriminate || lia)].
  - destruct (Hheld i) as (l & Hl & _); [cbn; by rewrite Nat.eqb_refl|]. pose proof (work_on_link i (set_writer_joinable true) s l Hl) as Hw2.
    unfold link_work in *. cbn in *. lia.
  - destruct (Hheld i) as (l & Hl & _ & Hh); [cbn; by rewrite Nat.eqb_refl|]. pose proof (work_on_link i (set_reader T_Running) s l Hl) as Hw2.
    cbn in Hh. rewrite Nat.eqb_refl in Hh. unfold link_work, held in *. destruct Hh as [Hh1 Hh2].
    destruct l as [? ? ? [] [] ? ?]; cbn in *; solve [lia | exfalso; clear Hw Hw2; intuition (discriminate || lia)].
  - destruct (Hheld i) as (l & Hl & _); [cbn; by rewrite Nat.eqb_refl|]. pose proof (work_on_link i (set_reader_joinable true) s l Hl) as Hw2.
    unfold link_work in *. cbn in *. lia.
Qed.

Lemma work_queue_retired i s : is_Some (link s i) → work (queue_retired i s) = work s + 6.
Proof.
  intros [l Hl]. unfold queue_retired. rewrite Hl. unfold work.
  destruct (lk_kind l); cbn [set_retired th_links th_retired_node th_retired_client th_core_exited th_posted
    th_accept_node th_accept_client th_reaper]; rewrite length_app; cbn [length]; lia.
Qed.

Lemma reader_nearer i s s' : reader_step i s = Some s' → nearer s' s.
Proof.
  intros Hs. unfold reader_step in Hs. destruct (link s i) as [l|] eqn:El; [|done]. cbn in Hs.
  assert (Htwo : ∀ f g, work (on_link i g (on_link i f s)) + link_work l = work s + link_work (g (f l))).
  { intros f g. pose proof (work_on_link i f s l El). pose proof (work_on_link i g (on_link i f s) (f l)) as H2.
    rewrite link_on_link, decide_True, El in H2 by done. specialize (H2 eq_refl). lia. }
  destruct (lk_reader l) eqn:Er; try done.
  - injection Hs as <-. apply nearer_work; [done|]. pose proof (Htwo stop_link (set_reader T_Stopped)) as Hw.
    unfold link_work in Hw. rewrite Er in Hw. cbn [stop_link set_reader lk_stop lk_reader lk_writer reader_work negb b2n] in Hw. lia.
  - destruct (lk_retirement_queued l); injection Hs as <-; (apply nearer_work; [done|]).
    + pose proof (work_on_link i (set_reader T_Done) s l El) as Hw. unfold link_work in Hw. rewrite Er in Hw.
      cbn [set_reader lk_stop lk_reader lk_writer reader_work] in Hw. lia.
    + pose proof (Htwo flag_link (set_reader T_Flagged)) as Hw. unfold link_work in Hw. rewrite Er in Hw.
      cbn [flag_link set_reader lk_stop lk_reader lk_writer reader_work] in Hw. lia.
  - injection Hs as <-. destruct (queue_retired_same i s) as (Q1 & _ & _ & Q4 & _). apply nearer_work; [exact Q4|].
    pose proof (work_on_link i (set_reader T_Done) (queue_retired i s) l) as Hw. unfold link at 1 in Hw. rewrite Q1 in Hw.
    specialize (Hw El). rewrite work_queue_retired in Hw by (by rewrite El). unfold link_work in Hw. rewrite Er in Hw.
    cbn [set_reader lk_stop lk_reader lk_writer reader_work] in Hw. lia.
Qed.

Lemma writer_nearer i s s' : writer_step i s = Some s' → nearer s' s.
Proof.
  intros Hs. unfold writer_step in Hs. destruct (link s i) as [l|] eqn:El; [|done]. cbn in Hs.
  destruct (lk_writer l) eqn:Ew; try done. injection Hs as <-. apply nearer_work; [done|].
  pose proof (work_on_link i stop_link s l El) as H1.
  pose proof (work_on_link i (set_writer T_Done) (on_link i stop_link s) (stop_link l)) as H2.
  rewrite link_on_link, decide_True, El in H2 by done. specialize (H2 eq_refl). unfold link_work in *.
  cbn [stop_link set_writer lk_stop lk_reader lk_writer writer_work negb b2n] in *. rewrite Ew in *. cbn [writer_work] in *. lia.
Qed.

Lemma reaper_nearer s s' : reaper_step careful s = Some s' → nearer s' s.
Proof.
  intros Hs. unfold reaper_step in Hs. destruct (th_reaper s) as [|i|i|i|i|] eqn:Er; [..|done].
  - destruct (th_retired_node s) as [|i n] eqn:En; [destruct (th_retired_client s) as [|i c] eqn:Ec|].
    + destruct (_ && _); [|done]. injection Hs as <-. apply nearer_work; [done|].
      pose proof (work_set_reaper RP_Exited s) as Hw. rewrite Er in Hw. cbn [reaper_work] in Hw. lia.
    + injection Hs as <-. apply nearer_work; [done|]. unfold work. rewrite En, Ec, Er.
      cbn [set_reaper set_retired th_links th_retired_node th_retired_client th_core_exited th_posted th_accept_node
        th_accept_client th_reaper reaper_work length]. lia.
    + assert (Es : s' = set_reaper (RP_Stop i) (set_retired n (th_retired_client s) s)) by (by injection Hs). subst s'.
      apply nearer_work; [done|]. unfold work. rewrite En, Er.
      cbn [set_reaper set_retired th_links th_retired_node th_retired_client th_core_exited th_posted th_accept_node
        th_accept_client th_reaper reaper_work length]. lia.
  - injection Hs as <-. apply nearer_work; [done|].
    pose proof (work_set_reaper (RP_Reader i) (on_link i stop_link s)) as Hw.
    change (th_reaper (on_link i stop_link s)) with (th_reaper s) in Hw. rewrite Er in Hw. cbn [reaper_work] in Hw.
    pose proof (links_work_le i stop_link (th_links s) stop_link_work) as Hle.
    assert (work (on_link i stop_link s) <= work s) by (unfold work, on_link;
      cbn [set_links th_links th_retired_node th_retired_client th_core_exited th_posted th_accept_node th_accept_client th_reaper]; lia).
    lia.
  - destruct (_ || _); [|done]. destruct (link s i) as [l|] eqn:El; [|done].
    destruct (lk_reader_joinable l); [destruct (bool_decide _); [|done]|]; injection Hs as <-; (apply nearer_work; [done|]).
    + pose proof (work_set_reaper (RP_Writer i) (on_link i (set_reader_joinable false) s)) as Hw.
      change (th_reaper (on_link i (set_reader_joinable false) s)) with (th_reaper s) in Hw. rewrite Er in Hw.
      pose proof (work_on_link i (set_reader_joinable false) s l El) as H2. unfold link_work in H2.
      cbn [reaper_work set_reader_joinable lk_stop lk_reader lk_writer] in *. lia.
    + pose proof (work_set_reaper (RP_Writer i) s) as Hw. rewrite Er in Hw. cbn [reaper_work] in Hw. lia.
  - destruct (link s i) as [l|] eqn:El; [|done].
    destruct (lk_writer_joinable l); [destruct (bool_decide _); [|done]|]; injection Hs as <-; (apply nearer_work; [done|]).
    + pose proof (work_set_reaper (RP_Erase i) (on_link i (set_writer_joinable false) s)) as Hw.
      change (th_reaper (on_link i (set_writer_joinable false) s)) with (th_reaper s) in Hw. rewrite Er in Hw.
      pose proof (work_on_link i (set_writer_joinable false) s l El) as H2. unfold link_work in H2.
      cbn [reaper_work set_writer_joinable lk_stop lk_reader lk_writer] in *. lia.
    + pose proof (work_set_reaper (RP_Erase i) s) as Hw. rewrite Er in Hw. cbn [reaper_work] in Hw. lia.
  - injection Hs as <-. apply nearer_work; [done|]. unfold work. rewrite Er.
    cbn [set_reaper set_listed th_links th_retired_node th_retired_client th_core_exited th_posted th_accept_node
      th_accept_client th_reaper reaper_work]. lia.
Qed.

Lemma stop_nearer s s' : stop_step s = Some s' → nearer s' s.
Proof.
  intros Hs. unfold stop_step in Hs. unfold nearer.
  destruct (th_stop s) as [| | | | | | | |[|i l]|i l|i l| | | | |] eqn:Hp; try (injection Hs as <-; cbn; lia); try done.
  - destruct (th_accept_node s); try done. injection Hs as <-. cbn. lia.
  - destruct (th_accept_client s); try done. injection Hs as <-. cbn. lia.
  - destruct (link s i) as [l0|]; [|done]. cbn in Hs. destruct (lk_retirement_queued l0); injection Hs as <-; cbn; lia.
  - destruct (th_core_exited s); [|done]. injection Hs as <-. cbn. lia.
  - destruct (th_reaper s); try done. injection Hs as <-. cbn. lia.
Qed.

Lemma act_nearer a s s' : weak s → th_stopping s = true → act careful a s = Some s' → nearer s' s.
Proof.
  intros W Hst Hs. destruct a; cbn in Hs.
  - by eapply accept_nearer.
  - by eapply reader_nearer.
  - by eapply writer_nearer.
  - by eapply reaper_nearer.
  - unfold core_exit in Hs. destruct (th_posted s); [|done]. destruct (th_core_exited s) eqn:E; [done|]. injection Hs as <-.
    apply nearer_work; [done|]. unfold work. rewrite E.
    cbn [set_core_exited th_links th_retired_node th_retired_client th_core_exited th_posted th_accept_node th_accept_client
      th_reaper negb b2n]. lia.
  - unfold core_stops in Hs. destruct (link s i) as [l|] eqn:El; [|done]. cbn in Hs.
    destruct (th_core_exited s); [done|]. destruct (lk_stop l) eqn:E; [done|]. injection Hs as <-.
    apply nearer_work; [done|]. pose proof (work_on_link i stop_link s l El) as Hw. unfold link_work in Hw. rewrite E in Hw.
    cbn [stop_link lk_stop lk_reader lk_writer negb b2n] in Hw. lia.
  - unfold core_shutdown in Hs. destruct (th_core_exited s); [done|]. destruct (th_posted s) eqn:E; [done|]. injection Hs as <-.
    apply nearer_work; [done|]. unfold work. rewrite E.
    cbn [set_posted set_stopping th_links th_retired_node th_retired_client th_core_exited th_posted th_accept_node
      th_accept_client th_reaper negb b2n]. lia.
  - by eapply stop_nearer.
Qed.

Lemma rank_bound pc : stop_rank pc <= 13.
Proof. destruct pc; cbn; lia. Qed.

Lemma nearer_wf : well_founded nearer.
Proof.
  assert (H : ∀ r w m s, 13 - stop_rank (th_stop s) <= r → loop_work (th_stop s) <= w → work s <= m → Acc nearer s).
  { intros r. induction (lt_wf r) as [r _ IHr]. intros w. induction (lt_wf w) as [w _ IHw]. intros m.
    induction (lt_wf m) as [m _ IHm]. intros s Hr Hw Hm. constructor. intros s' [Hn|[En [Hn|[En2 Hn]]]].
    - apply (IHr (13 - stop_rank (th_stop s'))) with (w := loop_work (th_stop s')) (m := work s'); try done.
      pose proof (rank_bound (th_stop s')). lia.
    - apply (IHw (loop_work (th_stop s'))) with (m := work s'); try done; lia.
    - apply (IHm (work s')); try done; lia. }
  intros s. by eapply H.
Qed.

(** [stopping_] stays set. *)
Lemma act_stopping a s s' : act careful a s = Some s' → th_stopping s = true → th_stopping s' = true.
Proof.
  intros Hs Hst. destruct a as [[]|i|i| | |i| |]; cbn in Hs;
    unfold accept_step, reader_step, writer_step, reaper_step, core_exit, core_stops, core_shutdown, stop_step, queue_retired in Hs;
    repeat (case_match; try done); simplify_option_eq; repeat (case_match; try done); try (injection Hs as <-); repeat case_match; done.
Qed.

Lemma act_weak a s s' : weak s → act careful a s = Some s' → weak s'.
Proof.
  intros W Ha. destruct a; cbn in Ha; [by eapply accept_step_weak|by eapply reader_step_weak|by eapply writer_step_weak
    |by eapply reaper_step_weak|by eapply core_exit_weak|by eapply core_stops_weak|by eapply core_shutdown_weak
    |by eapply stop_step_weak].
Qed.

Lemma reachable_weak s : reachable careful s → weak s.
Proof. induction 1 as [|a s s' _ IH Hs]; [apply started_weak|by eapply act_weak]. Qed.

(** No infinite run of a coordinator that is stopping. *)
Lemma stopping_terminates s :
  weak s → th_stopping s = true → Acc (λ s' s, ∃ a, act careful a s = Some s') s.
Proof.
  induction (nearer_wf s) as [s _ IH]. intros W Hst. constructor. intros s' [a Ha].
  apply IH; [by eapply act_nearer|by eapply act_weak|by eapply act_stopping].
Qed.
End schedule.

(** ** Claims *)


(** A client connects, leaves, and the coordinator is stopped meanwhile. *)
Definition connects (k : Kind) : list Action := repeat (Act_Accept k) 7.
Definition sample_run : list Action :=
  connects K_Client ++ connects K_Node ++ [Act_Reader 0; Act_Stop; Act_Stop; Act_Reader 0; Act_Reader 0]
  ++ [Act_Stop; Act_Stop; Act_Stop; Act_Accept K_Node; Act_Accept K_Client] ++ [Act_Stop; Act_Stop; Act_Stop]
  ++ repeat Act_Stop 6 ++ [Act_CoreExit; Act_Stop; Act_Stop] ++ [Act_Writer 0; Act_Writer 1; Act_Reader 1; Act_Reader 1]
  ++ repeat Act_Reaper 11 ++ [Act_Stop; Act_Stop].

Definition sample_stopped : Threads := default started (acts true sample_run started).


(** ** Two races *)

(** The reaper looks at a connection whose reader the acceptor has started but not
    stored yet: it does not join it, and the connection is later destroyed with a
    joinable thread, which ends the process. *)
Definition unstored_run : list Action :=
  repeat (Act_Accept K_Node) 6 ++ repeat (Act_Reader 0) 3 ++ [Act_Reaper; Act_Reaper; Act_Reaper; Act_Writer 0]
  ++ [Act_Reaper; Act_Reaper; Act_Accept K_Node].
Example reaper_misses_reader :
  (λ s, (th_listed s, th_retired_node s, lk_reader_joinable <$> th_links s)) <$> acts false unstored_run started =
  Some ([], [], [true]).
Proof. vm_compute. reflexivity. Qed.

(** A reader sets its retirement flag and is overtaken: [stop()] finds the connection
    retired, the reaper finds its queues empty and leaves, and [stop()] returns with
    both threads of the connection not joined. *)
Definition overtaken_run : list Action :=
  connects K_Node ++ [Act_Reader 0; Act_Reader 0] ++ repeat Act_Stop 5 ++ [Act_Accept K_Node; Act_Accept K_Client]
  ++ repeat Act_Stop 6 ++ [Act_CoreExit; Act_Stop; Act_Stop; Act_Reaper; Act_Stop; Act_Stop].
Example stop_overtakes_retirement :
  (λ s, (th_stop s, (λ l, (lk_reader l, lk_reader_joinable l, lk_writer_joinable l)) <$> th_links s)) <$>
    acts false overtaken_run started = Some (SP_Returned, [(T_Flagged, true, true)]).
Proof. vm_compute. reflexivity. Qed.
