(* ===== verification/Cli.v ===== *)
(** * Cli: the command line (cli/cli.cpp)

    Flags and positional arguments, the configurations of the coordinator and of a
    node, the task described by flags, and the commands that ask a coordinator.  A
    command yields a [Report]: exit code, lines printed, and the requests it made.
    [None] is an exception that nobody catches ([std::stoi] and its kin on bad
    input), which ends the process.  What the coordinator answers is a parameter
    ([Remote]), as are [std::stod], [printf("%f")] and the commands that only run
    another component. *)

From S2P Require Import Prelude Status Support Ids Digest Float64 Task Lifecycle Dag Reservation Placement Wire Frame Socket Channel Serialize Messages Client Workloads Cuda Executor NodeRuntime Store Locality Scheduler Outbound CoordState.

Local Open Scope Z_scope.

(** ** Numbers: [std::stoi], [std::stoul], [std::stoull] *)

Definition is_space (c : Z) : bool := (c =? 32) || ((9 <=? c) && (c <=? 13)).
Definition is_decimal (c : Z) : bool := (48 <=? c) && (c <=? 57).

Fixpoint skip_spaces (cs : bytes) : bytes :=
  match cs with c :: cs' => if is_space c then skip_spaces cs' else cs | [] => [] end.

(** The value of the leading digits, [None] when there is none. *)
Fixpoint read_decimal (cs : bytes) (acc : option Z) : option Z :=
  match cs with
  | c :: cs => if is_decimal c then read_decimal cs (Some (10 * default 0 acc + (c - 48))) else acc
  | [] => acc
  end.

(** Sign and magnitude, as [strtol] reads them; what follows is ignored. *)
Definition read_number (s : string) : option (bool * Z) :=
  match skip_spaces (bytes_of_string s) with
  | [] => None
  | c :: cs =>
      if c =? 45 then v ← read_decimal cs None; Some (true, v)
      else if c =? 43 then v ← read_decimal cs None; Some (false, v)
      else v ← read_decimal (c :: cs) None; Some (false, v)
  end.

Definition stoi (s : string) : option Z :=
  '(neg, v) ← read_number s;
  let x := if neg : bool then - v else v in
  if bool_decide (is_i32 x) then Some x else None.

(** [unsigned long] has 64 bits. *)
Definition stoull (s : string) : option Z :=
  '(neg, v) ← read_number s;
  if bool_decide (is_u64 v) then Some (u64 (if neg : bool then - v else v)) else None.

(** ** Arguments *)

Record CliArgs := mkCliArgs {
  ca_flags : gmap string string;
  ca_positionals : list string
}.

Definition dash : Ascii.ascii := Ascii.ascii_of_N 45.
Definition equals : Ascii.ascii := Ascii.ascii_of_N 61.
Definition first_char (s : string) : option Ascii.ascii :=
  match s with String c _ => Some c | EmptyString => None end.
(** [s.substr(2)] when [s] starts with two dashes *)
Definition long_flag (s : string) : option string :=
  match s with
  | String c (String d rest) => if bool_decide (c = dash) && bool_decide (d = dash) then Some rest else None
  | _ => None
  end.

(** The parts before and after the first '='. *)
Fixpoint split_eq (s : string) : option (string * string) :=
  match s with
  | EmptyString => None
  | String c rest =>
      if bool_decide (c = equals) then Some ("", rest)
      else '(k, v) ← split_eq rest; Some (String c k, v)
  end.

Definition add_flag (key val : string) (a : CliArgs) : CliArgs :=
  mkCliArgs (<[key := val]> (ca_flags a)) (ca_positionals a).
Definition add_positional (s : string) (a : CliArgs) : CliArgs :=
  mkCliArgs (ca_flags a) (ca_positionals a ++ [s]).

(** The loop over [argv[1..]]; a token after a flag is its value unless it starts
    with a dash. *)
Fixpoint parse_loop (argv : list string) (a : CliArgs) : CliArgs :=
  match argv with
  | [] => a
  | s :: argv =>
      match long_flag s with
      | None => parse_loop argv (add_positional s a)
      | Some key =>
          match split_eq key with
          | Some (k, v) => parse_loop argv (add_flag k v a)
          | None =>
              match argv with
              | next :: argv' =>
                  if bool_decide (first_char next = Some dash)
                  then parse_loop argv (add_flag key "true" a)
                  else parse_loop argv' (add_flag key next a)
              | [] => add_flag key "true" a
              end
          end
      end
  end.
Definition parse_args (argv : list string) : CliArgs := parse_loop argv (mkCliArgs ∅ []).

Definition flag (a : CliArgs) (name def : string) : string := default def (ca_flags a !! name).
Definition has_flag (a : CliArgs) (name : string) : bool := bool_decide (is_Some (ca_flags a !! name)).

(** ** Configurations *)

(** [cmd_coordinator] up to the start of the coordinator: [Err] is the message of
    an unknown policy. *)
Definition coordinator_config (a : CliArgs) : option (Result CoordinatorConfig) :=
  node_port ← stoi (flag a "node-port" "0");
  client_port ← stoi (flag a "client-port" "0");
  let policy := flag a "policy" "cost_aware" in
  Some match parse_scheduler_policy policy with
       | None => err EInvalidArgument ("error: unknown policy '" +:+ policy +:+ "'")
       | Some p =>
           let cfg := default_config (flag a "store-dir" ".compute_fabric_store") in
           Ok (mkCoordinatorConfig (cfg_node_host cfg) (u16 node_port) (cfg_client_host cfg) (u16 client_port)
                 (cfg_store_dir cfg) p (cfg_heartbeat_timeout_ms cfg) (cfg_dispatch_timeout_ms cfg)
                 (if has_flag a "telemetry" then flag a "telemetry" "" else "")
                 (has_flag a "telemetry-human") (cfg_command_timeout_ms cfg))
       end.

Definition node_tags (a : CliArgs) : gmap string string :=
  if has_flag a "tag" then
    match split_eq (flag a "tag" "") with Some (k, v) => {[k := v]} | None => ∅ end
  else ∅.

(** [cmd_node] up to the start of the runtime. *)
Definition node_config (a : CliArgs) : option (Result NodeConfig) :=
  port ← stoi (flag a "coordinator-port" "0");
  cpu_slots ← stoi (flag a "cpu-slots" "2");
  device ← stoi (flag a "cuda-device" "0");
  cuda_slots ← stoi (flag a "cuda-slots" "2");
  Some (if u16 port =? 0 then err EInvalidArgument "error: --coordinator-port is required"
        else Ok (mkNodeConfig (flag a "coordinator-host" "127.0.0.1") (u16 port) (flag a "label" "node")
                   (flag a "address" "127.0.0.1") cpu_slots 8589934592 (has_flag a "cuda") device cuda_slots
                   250 5000 (node_tags a))).

(** ** Commands *)

(** What a coordinator answers. *)
Record Remote := mkRemote {
  rm_connect : string → Z → Result unit;
  rm_submit : Id128 → string → ComputeTask → Result TaskSubmitResponse;
  rm_inspect : Id128 → Result TaskInspectResponse;
  rm_list : string → Result TaskListResponse;
  rm_cancel : Id128 → Result TaskCancelResponse;
  rm_workload : Id128 → Result WorkloadInspectResponse;
  rm_nodes : Result NodeListResponse;
  rm_drain : Id128 → bool → Result NodeDrainResponse;
  rm_status : Result FabricStatusResponse;
  rm_placement : ComputeTask → Result PlacementResponse
}.

Record Report := mkReport {
  rt_exit : Z;
  rt_out : list string;
  rt_err : list string;
  rt_asked : list Message
}.

Definition fails (code : Z) (line : string) (asked : list Message) : Report := mkReport code [] [line] asked.
Definition prints (code : Z) (lines : list string) (asked : list Message) : Report := mkReport code lines [] asked.
Definition error_line (e : Error) : string := "error: " +:+ error_to_string e.

(** [printf("%-12s")] *)
Definition pad (n : nat) (s : string) : string :=
  s +:+ string_of_bytes (replicate (n - String.length s) 32).

(** [print_usage] *)
Definition usage (prog : string) : list string :=
  ["Compute Fabric - distributed execution-placement runtime";
   "";
   "Usage: " +:+ prog +:+ " <command> [options]";
   "";
   "Commands:";
   "  --version                       print version";
   "  capabilities                    print executor capabilities";
   "  coordinator                     run the coordinator (blocking)";
   "  node                            run a node (blocking)";
   "  fabric local                    launch coordinator + N nodes locally";
   "  task submit                     submit a task";
   "  task inspect <task-id>          inspect a task";
   "  task list                       list tasks";
   "  task cancel <task-id>           cancel a task";
   "  workload inspect <workload-id>  inspect a workload";
   "  nodes                           list registered nodes";
   "  node drain <node-id>            drain/undrain a node";
   "  placement <task-spec>           query placement for a task";
   "  status                          fabric status";
   "  benchmark                       run the benchmark suite";
   "";
   "Common options:";
   "  --coordinator-host HOST         coordinator address (default 127.0.0.1)";
   "  --client-port PORT              coordinator client port";
   "  --node-port PORT                coordinator node port";
   "  --store-dir DIR                 durable state directory";
   "  --policy baseline|cost_aware    scheduler policy";
   "  --json                          JSON output where supported"].

Section commands.
Context (remote : Remote) (stod : string → option Z) (fmt_f : Z → string) (random : nat → Id128).
Context (serve : CoordinatorConfig → Report) (work : NodeConfig → Report).
Context (cuda_devices : list ExecutorCapability) (fabric_local : CliArgs → option Report)
        (run_benchmark_suite : string → bool → Report).

(** [parse(x, t.member)] leaves the default when it fails. *)
Definition retry_from_flags (a : CliArgs) : option RetryPolicy :=
  max_attempts ← stoull (flag a "max-attempts" "1");
  backoff ← stoull (flag a "retry-backoff-ms" "100");
  Some (mkRetryPolicy (u32 max_attempts)
          (if has_flag a "retry-on-node-loss"
           then negb (bool_decide (flag a "retry-on-node-loss" "" = "false"))
           else rp_retry_on_node_loss default_retry)
          (rp_retry_on_executor_failure default_retry) (rp_retry_on_timeout default_retry) backoff).

Definition state_from_flags (a : CliArgs) : option (list StateDependency) :=
  if has_flag a "state-id" then
    size ← stoull (flag a "state-size" "0");
    transfer ← stod (flag a "state-transfer" "-1");
    recompute ← stod (flag a "state-recompute" "-1");
    let resident :=
      if has_flag a "resident-node" then
        match from_hex (flag a "resident-node" "") with Ok id => [id] | Err _ => [] end
      else [] in
    Some [mkStateDependency (flag a "state-id" "") "" size resident f64_0 transfer recompute false ""]
  else Some [].

(** An identifier given as a flag, or a new one; a bad one stays null. *)
Definition id_from_flag (a : CliArgs) (name : string) (fresh : Id128) : Id128 :=
  let hex := flag a name "" in
  if bool_decide (hex = "") then fresh
  else match from_hex hex with Ok id => id | Err _ => id_zero end.

Definition parse_task_from_flags (a : CliArgs) : option ComputeTask :=
  let id := id_from_flag a "task-id" (random 0) in
  let workload := id_from_flag a "workload" (random 1) in
  let kernel := default KT_HashInteger (parse_kernel_type (flag a "kernel" "hash_integer")) in
  n ← stoull (flag a "n" "100000");
  param_a ← stoull (flag a "a" "31");
  param_b ← stoull (flag a "b" "17");
  seed ← stoull (flag a "seed" "42");
  let executor := default EX_Any_ (parse_executor_type (flag a "executor" "any")) in
  let priority := default PR_Normal (parse_priority (flag a "priority" "normal")) in
  duration ← stod (flag a "duration" "0.05");
  input_bytes ← stoull (flag a "input-bytes" "0");
  output_bytes ← stoull (flag a "output-bytes" "0");
  transfer_gb ← stod (flag a "transfer-gb" "0");
  recompute ← stod (flag a "recompute" "0");
  retry ← retry_from_flags a;
  cc_major ← (if has_flag a "min-cc-major" then stoi (flag a "min-cc-major" "") else Some 0);
  scratch ← (if has_flag a "scratch" then stoull (flag a "scratch" "") else Some 0);
  let tags := if has_flag a "required-tag" then [flag a "required-tag" ""] else [] in
  states ← state_from_flags a;
  Some (mkComputeTask id workload (flag a "name" "task") TC_Generic executor cc_major 0 1 1 scratch [] states
          input_bytes output_bytes duration false 0 priority retry [] [] tags [] "" None None transfer_gb
          recompute f64_0 false kernel n param_a param_b seed ∅ []).

Definition make_client (a : CliArgs) : option (Result unit) :=
  port ← stoi (flag a "client-port" "0");
  Some (if u16 port =? 0 then err EInvalidArgument "--client-port required"
        else rm_connect remote (flag a "coordinator-host" "127.0.0.1") (u16 port)).

(** The beginning of every command that asks the coordinator. *)
Definition with_client (a : CliArgs) (k : option Report) : option Report :=
  c ← make_client a;
  match c with Err e => Some (fails 2 (error_line e) []) | Ok _ => k end.

(** The first positional argument as an identifier. *)
Definition with_id (a : CliArgs) (what : string) (k : Id128 → Report) : Report :=
  match ca_positionals a with
  | [] => fails 2 ("error: " +:+ what +:+ " id required") []
  | p :: _ =>
      match from_hex p with
      | Err _ => fails 2 ("error: bad " +:+ what +:+ " id") []
      | Ok id => k id
      end
  end.

Definition cmd_task_submit (a : CliArgs) : option Report :=
  with_client a
    (t ← parse_task_from_flags a;
     let name := flag a "workload-name" "cli" in
     let asked := [MTaskSubmit (mkTaskSubmit (ct_workload t) name t)] in
     Some match rm_submit remote (ct_workload t) name t with
          | Err e => fails 2 (error_line e) asked
          | Ok r =>
              if tsr_accepted r then prints 0 ["submitted task " +:+ to_hex (tsr_task_id r)] asked
              else fails 2 ("error: submit rejected: " +:+ tsr_error r) asked
          end).

Definition attempt_line (x : ExecutionAttempt) : string :=
  "    attempt " +:+ to_hex (at_id x) +:+ " state=" +:+ attempt_state_name (at_state x) +:+ " node="
  +:+ to_hex (at_node_id x) +:+ " device=" +:+ at_device x +:+ " integrity=" +:+ at_output_integrity x.
Definition cmd_task_inspect (a : CliArgs) : option Report :=
  with_client a (Some (with_id a "task" (λ id,
    let asked := [MTaskInspect (mkTaskInspect id)] in
    match rm_inspect remote id with
    | Err e => fails 2 (error_line e) asked
    | Ok r =>
        if negb (tir_found r) then fails 1 ("task not found: " +:+ default "" (head (ca_positionals a))) asked
        else prints 0
               (["task " +:+ to_hex (tir_task_id r); "  name: " +:+ tir_name r;
                 "  class: " +:+ task_class_name (tir_task_class r); "  state: " +:+ task_state_name (tir_state r);
                 "  attempts: " +:+ to_string (Z.of_nat (length (tir_attempts r)))]
                ++ map attempt_line (tir_attempts r)) asked
    end))).

Definition cmd_task_list (a : CliArgs) : option Report :=
  with_client a (Some (
    let filter := flag a "state" "" in
    let asked := [MTaskList (mkTaskList filter)] in
    match rm_list remote filter with
    | Err e => fails 2 (error_line e) asked
    | Ok r =>
        prints 0 (map (λ e, to_hex (tle_task_id e) +:+ " " +:+ pad 12 (task_state_name (tle_state e)) +:+ " "
                            +:+ pad 10 (priority_name (tle_priority e)) +:+ " " +:+ tle_name e) (tlr_tasks r)) asked
    end)).

Definition cmd_task_cancel (a : CliArgs) : option Report :=
  with_client a (Some (with_id a "task" (λ id,
    let asked := [MTaskCancel (mkTaskCancel id)] in
    match rm_cancel remote id with
    | Err e => fails 2 (error_line e) asked
    | Ok r =>
        if negb (tcr_found r) then fails 1 "task not found" asked
        else prints (if tcr_cancelled r then 0 else 1)
               ["cancel " +:+ (if tcr_cancelled r then "accepted" else "rejected") +:+ ": " +:+ tcr_error r] asked
    end))).

Definition cmd_workload_inspect (a : CliArgs) : option Report :=
  with_client a (Some (with_id a "workload" (λ id,
    let asked := [MWorkloadInspect (mkWorkloadInspect id)] in
    match rm_workload remote id with
    | Err e => fails 2 (error_line e) asked
    | Ok r =>
        prints 0 (("workload " +:+ to_hex (wir_workload_id r) +:+ " " +:+ wir_name r)
          :: map (λ e, "  " +:+ to_hex (tle_task_id e) +:+ " " +:+ task_state_name (tle_state e)) (wir_tasks r)) asked
    end))).

Definition node_columns (e : NodeStatusEntry) : string :=
  to_hex (nse_node_id e) +:+ " " +:+ pad 8 (node_health_name (nse_health e)) +:+ " " +:+ pad 12 (nse_label e)
  +:+ " cpu=" +:+ to_string (nse_cpu_used e) +:+ "/" +:+ to_string (nse_cpu_slots e).
Definition cmd_nodes (a : CliArgs) : option Report :=
  with_client a (Some (
    let asked := [MNodeList mkNodeList] in
    match rm_nodes remote with
    | Err e => fails 2 (error_line e) asked
    | Ok r => prints 0 (map (λ e, node_columns e +:+ " " +:+ nse_address e) (nlr_nodes r)) asked
    end)).

Definition cmd_node_drain (a : CliArgs) : option Report :=
  with_client a (Some (with_id a "node" (λ id,
    let drain := negb (bool_decide (flag a "undrain" "false" = "true")) in
    let asked := [MNodeDrain (mkNodeDrain id drain)] in
    match rm_drain remote id drain with
    | Err e => fails 2 (error_line e) asked
    | Ok r =>
        if negb (ndr_found r) then fails 1 "node not found" asked
        else prints (if ndr_accepted r then 0 else 1)
               ["drain " +:+ (if ndr_accepted r then "accepted" else "rejected") +:+ ": " +:+ ndr_error r] asked
    end))).

Definition cmd_status (a : CliArgs) : option Report :=
  with_client a (Some (
    let asked := [MFabricStatus (mkFabricStatus "")] in
    match rm_status remote with
    | Err e => fails 2 (error_line e) asked
    | Ok s =>
        prints 0
          (["coordinator epoch " +:+ to_string (fsr_coordinator_epoch s) +:+ " policy " +:+ fsr_policy s;
            "nodes=" +:+ to_string (fsr_node_count s) +:+ " tasks=" +:+ to_string (fsr_task_count s) +:+ " running="
            +:+ to_string (fsr_running_count s) +:+ " reserved=" +:+ to_string (fsr_reserved_count s)
            +:+ " completed=" +:+ to_string (fsr_completed_count s)]
           ++ map (λ e, "  node " +:+ node_columns e) (fsr_nodes s)) asked
    end)).

Definition excluded_line (e : Exclusion) : string :=
  "  excluded " +:+ to_hex (ex_node_id e) +:+ ":"
  +:+ foldr (λ r acc, " " +:+ r +:+ acc) "" (ex_reasons e).
(** [*d.chosen_node] of a decision without a node is undefined; the coordinator
    sends none that is feasible. *)
Definition cmd_placement (a : CliArgs) : option Report :=
  with_client a
    (t ← parse_task_from_flags a;
     let asked := [MPlacementQuery (mkPlacementQuery t)] in
     Some match rm_placement remote t with
          | Err e => fails 2 (error_line e) asked
          | Ok r =>
              let d := pres_decision r in
              if negb (pd_feasible d) then
                prints 1 (("placement infeasible: " +:+ pd_reason d) :: map excluded_line (pd_excluded d)) asked
              else
                prints 0
                  (("placement: node=" +:+ to_hex (default id_zero (pd_chosen_node d)) +:+ " exec="
                    +:+ pd_chosen_device d)
                   :: ("  total=" +:+ fmt_f (pd_total_cost d) +:+ " exec=" +:+ fmt_f (pd_execution_cost d)
                       +:+ " queue=" +:+ fmt_f (pd_queue_cost d) +:+ " transfer=" +:+ fmt_f (pd_transfer_cost d)
                       +:+ " recompute=" +:+ fmt_f (pd_recompute_cost d) +:+ " pressure="
                       +:+ fmt_f (pd_pressure_cost d) +:+ " locality=" +:+ fmt_f (pd_state_locality_score d))
                   :: map excluded_line (pd_excluded d)) asked
          end).

Definition cmd_version : Report := prints 0 [project_name +:+ " " +:+ version_string] [].
Definition cmd_capabilities : Report :=
  prints 0
    (["capabilities:"; "  cpu : available"]
     ++ match cuda_devices with
        | [] => ["  cuda: unavailable"]
        | _ => map (λ c, "  cuda: device=" +:+ xc_device_name c +:+ " cc=" +:+ to_string (xc_major c) +:+ "."
                         +:+ to_string (xc_minor c) +:+ " mem=" +:+ to_string (xc_device_memory_bytes c)
                         +:+ " slots=" +:+ to_string (xc_slots c)) cuda_devices
        end) [].
Definition cmd_coordinator (a : CliArgs) : option Report :=
  cfg ← coordinator_config a;
  Some match cfg with Err e => fails 2 (err_message e) [] | Ok cfg => serve cfg end.
Definition cmd_node (a : CliArgs) : option Report :=
  cfg ← node_config a;
  Some match cfg with Err e => fails 2 (err_message e) [] | Ok cfg => work cfg end.

(** ** The dispatch of [cli_main]; [argv] is [argv[1..]] *)

Definition show_usage (code : Z) (prog : string) : option Report := Some (prints code (usage prog) []).

Definition drop_positionals (n : nat) (a : CliArgs) : CliArgs := mkCliArgs (ca_flags a) (drop n (ca_positionals a)).

Definition task_command (prog : string) (sub : string) (args : CliArgs) : option Report :=
  if bool_decide (sub = "submit") then cmd_task_submit args
  else if bool_decide (sub = "inspect") then cmd_task_inspect args
  else if bool_decide (sub = "list") then cmd_task_list args
  else if bool_decide (sub = "cancel") then cmd_task_cancel args
  else show_usage 2 prog.

Definition cli_command (prog cmd : string) (sub : option string) (args : CliArgs) : option Report :=
  if bool_decide (cmd = "capabilities") then Some cmd_capabilities
  else if bool_decide (cmd = "coordinator") then cmd_coordinator args
  else if bool_decide (cmd = "node") then
    if bool_decide (sub = Some "drain") then cmd_node_drain (drop_positionals 2 args) else cmd_node args
  else if bool_decide (cmd = "fabric") then
    if bool_decide (sub = Some "local") then fabric_local args else show_usage 2 prog
  else if bool_decide (cmd = "task") then
    match sub with None => show_usage 2 prog | Some sub => task_command prog sub args end
  else if bool_decide (cmd = "workload") then
    if bool_decide (sub = Some "inspect") then cmd_workload_inspect args else show_usage 2 prog
  else if bool_decide (cmd = "nodes") then cmd_nodes args
  else if bool_decide (cmd = "placement") then cmd_placement args
  else if bool_decide (cmd = "status") then cmd_status args
  else if bool_decide (cmd = "benchmark") then
    let mode := default "" sub in
    Some (run_benchmark_suite (flag args "mode" mode) (has_flag args "cuda" || bool_decide (mode = "cuda")))
  else show_usage 2 prog.

Definition cli_main (prog : string) (argv : list string) : option Report :=
  let args := parse_args argv in
  if has_flag args "version" || has_flag args "v" then Some cmd_version
  else
    match ca_positionals args with
    | [] => show_usage 0 prog
    | cmd :: rest => cli_command prog cmd (head rest) args
    end.
End commands.
