(* ===== verification/CliProps.v ===== *)
(** * CliProps: the command line and the launcher agree, and commands that cannot work

    The arguments the launcher gives its children are read by the children's
    command line as the configuration the launcher meant; and the commands that
    take an identifier after two words look for it in the wrong place. *)

From S2P Require Import Prelude Status Ids Digest Float64 Json Task Lifecycle Dag Reservation Placement Wire Frame Socket Channel Serialize Messages Client Workloads Cuda Executor NodeRuntime Store Locality Scheduler Outbound CoordState Launcher Cli.

Local Open Scope Z_scope.

(** ** Reading arguments *)

(** A token that a flag takes as its value. *)
Definition plain (s : string) : Prop := first_char s ≠ Some dash.

#[export] Instance plain_dec s : Decision (plain s).
Proof. unfold plain. apply _. Defined.

Lemma parse_value s key v argv a :
  long_flag s = Some key → split_eq key = None → plain v →
  parse_loop (s :: v :: argv) a = parse_loop argv (add_flag key v a).
Proof. intros Hs Hk Hv. cbn [parse_loop]. rewrite Hs, Hk. by rewrite bool_decide_false. Qed.

Lemma parse_positional s argv a :
  long_flag s = None → parse_loop (s :: argv) a = parse_loop argv (add_positional s a).
Proof. intros Hs. cbn [parse_loop]. by rewrite Hs. Qed.

Lemma parse_switch s key next argv a :
  long_flag s = Some key → split_eq key = None → ¬ plain next →
  parse_loop (s :: next :: argv) a = parse_loop (next :: argv) (add_flag key "true" a).
Proof.
  intros Hs Hk Hn. cbn [parse_loop]. rewrite Hs, Hk, bool_decide_true; [done|].
  unfold plain in Hn. by destruct (decide (first_char next = Some dash)).
Qed.

(** "--key=value" is that flag, whatever the value. *)
Definition render_flag (kv : string * string) : string := "--" +:+ kv.1 +:+ "=" +:+ kv.2.

Lemma split_eq_render k v : split_eq k = None → split_eq (k +:+ "=" +:+ v) = Some (k, v).
Proof.
  induction k as [|c k IH]; [done|].
  change (String c k +:+ "=" +:+ v) with (String c (k +:+ "=" +:+ v)). cbn [split_eq].
  destruct (bool_decide (c = equals)); [done|]. intros Hk.
  destruct (split_eq k) as [[]|]; [done|]. by rewrite IH.
Qed.

Lemma parse_rendered kvs argv a :
  Forall (λ kv, split_eq kv.1 = None) kvs →
  parse_loop (map render_flag kvs ++ argv) a = parse_loop argv (foldl (λ a kv, add_flag kv.1 kv.2 a) a kvs).
Proof.
  intros Hk. revert a. induction Hk as [|[k v] kvs Hk _ IH]; intros a; [done|].
  cbn [map app foldl fst snd]. rewrite <-IH. cbn [parse_loop].
  change (long_flag (render_flag (k, v))) with (Some (k +:+ "=" +:+ v)). cbv iota. by rewrite split_eq_render.
Qed.

(** ** Numbers survive printing and parsing *)

Lemma read_decimal_char d cs acc :
  (d < 10)%N →
  read_decimal (Z.of_N (Ascii.N_of_ascii (pretty_N_char d)) :: cs) acc =
  read_decimal cs (Some (10 * default 0 acc + Z.of_N d)).
Proof.
  intros Hd. rewrite decimal_char by done. cbn [read_decimal]. unfold is_decimal.
  replace ((48 <=? 48 + Z.of_N d) && (48 + Z.of_N d <=? 57)) with true by lia. do 2 f_equal. lia.
Qed.

Lemma read_decimal_pretty x s :
  (0 < x)%N →
  read_decimal (bytes_of_string (pretty_N_go x s)) None = read_decimal (bytes_of_string s) (Some (Z.of_N x)).
Proof.
  revert s. induction (N.lt_wf_0 x) as [x _ IH]; intros s Hx. rewrite pretty_N_go_step by done.
  pose proof (N.mod_lt x 10 ltac:(done)) as Hm. pose proof (N.div_mod x 10 ltac:(done)) as Hdm.
  destruct (decide (x / 10 = 0)%N) as [E|Hne].
  - rewrite E, pretty_N_go_0. cbn [bytes_of_string]. rewrite read_decimal_char by done. cbn [default]. do 2 f_equal. lia.
  - rewrite IH by (try apply N.div_lt; lia). cbn [bytes_of_string]. rewrite read_decimal_char by done.
    cbn [default]. do 2 f_equal. unfold id. lia.
Qed.

(** The first character of a printed natural is a digit. *)
Lemma pretty_head x s : (0 < x)%N → ∃ d s', (d < 10)%N ∧ pretty_N_go x s = String (pretty_N_char d) s'.
Proof.
  revert s. induction (N.lt_wf_0 x) as [x _ IH]; intros s Hx. rewrite pretty_N_go_step by done.
  destruct (decide (x / 10 = 0)%N) as [E|Hne].
  - rewrite E, pretty_N_go_0. eexists _, _. split; [|done]. by apply N.mod_lt.
  - apply IH; [by apply N.div_lt|by apply N.neq_0_lt_0].
Qed.

Lemma skip_digit d cs :
  (d < 10)%N →
  let c := Z.of_N (Ascii.N_of_ascii (pretty_N_char d)) in skip_spaces (c :: cs) = c :: cs ∧ c ≠ 45 ∧ c ≠ 43.
Proof.
  intros Hd c. assert (Ec : c = 48 + Z.of_N d) by by apply decimal_char. split; [|lia].
  cbn [skip_spaces]. unfold is_space. replace ((c =? 32) || _) with false by lia. done.
Qed.

Lemma read_number_nat n : read_number (pretty n) = Some (false, Z.of_N n).
Proof.
  unfold pretty, pretty_N. case_decide as E; [by subst n|].
  assert (Hn : (0 < n)%N) by lia. pose proof (read_decimal_pretty n "" Hn) as Hr.
  destruct (pretty_head n "" Hn) as (d & s & Hd & Es). rewrite Es in Hr |- *. unfold read_number.
  cbn [bytes_of_string] in Hr |- *.
  destruct (skip_digit d (bytes_of_string s) Hd) as (-> & H1 & H2).
  apply Z.eqb_neq in H1, H2. rewrite H1, H2, Hr. done.
Qed.

Lemma to_string_plain z : 0 <= z → plain (to_string z).
Proof.
  intros Hz. unfold plain, to_string, pretty, pretty_Z. destruct z as [|q|q]; [done| |lia].
  unfold pretty_positive, pretty, pretty_N. rewrite decide_False by done.
  destruct (pretty_head (Npos q) "" ltac:(lia)) as (d & s & Hd & ->). cbn [first_char]. intros [= E].
  pose proof (decimal_char d Hd) as Hc. rewrite E in Hc. cbn in Hc. lia.
Qed.

Lemma stoi_to_string z : 0 <= z < 2147483648 → stoi (to_string z) = Some z.
Proof.
  intros Hz. unfold stoi, to_string.
  assert (E : read_number (pretty z) = Some (false, z)).
  { destruct z as [|q|q]; [done|exact (read_number_nat (Npos q))|lia]. }
  rewrite E. cbn [mbind option_bind]. rewrite bool_decide_true; [done|]. unfold is_i32. lia.
Qed.

(** ** The children's configurations *)

(** What the command line of a coordinator child makes of the launcher's arguments. *)
Lemma coordinator_flags f store policy telemetry :
  0 <= lf_node_port f → 0 <= lf_client_port f → plain store → plain policy →
  (telemetry ≠ "" → plain (telemetry +:+ "/telemetry.ndjson")) →
  parse_args (coordinator_args f store policy telemetry) =
  let a := add_flag "policy" policy (add_flag "store-dir" store
             (add_flag "client-port" (to_string (lf_client_port f))
               (add_flag "node-port" (to_string (lf_node_port f)) (mkCliArgs ∅ ["coordinator"])))) in
  if bool_decide (telemetry = "") then a
  else add_flag "telemetry" (telemetry +:+ "/telemetry.ndjson") a.
Proof.
  intros H1 H2 Hs Hp Ht. unfold parse_args, coordinator_args. cbn [app].
  rewrite parse_positional by done.
  rewrite (parse_value _ "node-port") by (done || by apply to_string_plain).
  rewrite (parse_value _ "client-port") by (done || by apply to_string_plain).
  rewrite (parse_value _ "store-dir"), (parse_value _ "policy") by done.
  case_bool_decide as E; [done|]. rewrite (parse_value _ "telemetry"); [done|done|done|by apply Ht].
Qed.

Lemma node_flags f i cuda :
  0 <= lf_node_port f → 0 <= i →
  parse_args (node_args f i cuda) =
  let a := add_flag "cpu-slots" "2" (add_flag "label" ("node-" +:+ to_string i)
             (add_flag "coordinator-port" (to_string (lf_node_port f)) (mkCliArgs ∅ ["node"]))) in
  if (i =? 0) && cuda then add_flag "cuda-slots" "2" (add_flag "cuda" "true" a) else a.
Proof.
  intros H1 Hi. unfold parse_args, node_args. cbn [app]. rewrite parse_positional by done.
  rewrite (parse_value _ "coordinator-port") by (done || by apply to_string_plain).
  rewrite (parse_value _ "label"), (parse_value _ "cpu-slots") by done.
  destruct ((i =? 0) && cuda); [|done].
  rewrite (parse_switch _ "cuda") by (done || by intros []). by rewrite (parse_value _ "cuda-slots").
Qed.

Lemma u16_small p : 0 <= p < 65536 → u16 p = p.
Proof. intros. apply u16_id. int_solve. Qed.

Ltac flags :=
  unfold flag, has_flag, add_flag; cbn [ca_flags ca_positionals];
  repeat (rewrite lookup_insert_eq || rewrite lookup_insert_ne by done || rewrite lookup_empty); cbn [from_option]; unfold id.

(** ** Claims *)


(** A command line whose answers come from [remote]; the other parameters do not
    matter here. *)
Section asking.
Context (remote : Remote) (stod : string → option Z) (fmt_f : Z → string) (random : nat → Id128).
Context (serve : CoordinatorConfig → Report) (work : NodeConfig → Report).
Context (cuda_devices : list ExecutorCapability) (fabric_local : CliArgs → option Report)
        (run_benchmark_suite : string → bool → Report).

Definition run_cli : string → list string → option Report :=
  cli_main remote stod fmt_f random serve work cuda_devices fabric_local run_benchmark_suite.

(** A client can be made: the port is given and the coordinator accepts. *)
Definition can_connect (a : CliArgs) : Prop := make_client remote a = Some (Ok tt).

Lemma with_client_connected a k : can_connect a → with_client remote a k = k.
Proof. intros Hc. unfold with_client. by rewrite Hc. Qed.

Lemma with_id_bad a what k p ps e :
  ca_positionals a = p :: ps → from_hex p = Err e → with_id a what k = fails 2 ("error: bad " +:+ what +:+ " id") [].
Proof. intros Hp He. unfold with_id. by rewrite Hp, He. Qed.

(** The word of the command where an identifier is looked for. *)
Definition command_word (cmd sub : string) : option string :=
  if bool_decide (cmd = "task") && (bool_decide (sub = "inspect") || bool_decide (sub = "cancel")) then Some "task"
  else if bool_decide (cmd = "workload") && bool_decide (sub = "inspect") then Some "workload"
  else None.

Local Ltac bad_id :=
  rewrite with_client_connected by assumption; f_equal; eapply with_id_bad; [eassumption|vm_compute; reflexivity].

Lemma command_word_bad prog cmd sub rest a word :
  command_word cmd sub = Some word → ca_positionals a = cmd :: sub :: rest → can_connect a →
  cli_command remote stod fmt_f random serve work cuda_devices fabric_local run_benchmark_suite
    prog cmd (Some sub) a = Some (fails 2 ("error: bad " +:+ word +:+ " id") []).
Proof.
  intros Hw Hp Hc. unfold command_word in Hw.
  destruct (bool_decide_reflect (cmd = "task")) as [->|Hne]; cbn [andb] in Hw.
  - destruct (bool_decide_reflect (sub = "inspect")) as [->|Hs].
    { injection Hw as <-. transitivity (cmd_task_inspect remote a); [done|]. unfold cmd_task_inspect. bad_id. }
    destruct (bool_decide_reflect (sub = "cancel")) as [->|]; [|done].
    injection Hw as <-. transitivity (cmd_task_cancel remote a); [done|]. unfold cmd_task_cancel. bad_id.
  - destruct (bool_decide_reflect (cmd = "workload")) as [->|]; [|done]. cbn [andb] in Hw.
    destruct (bool_decide_reflect (sub = "inspect")) as [->|]; [|done]. injection Hw as <-.
    transitivity (cmd_workload_inspect remote a); [done|]. unfold cmd_workload_inspect. bad_id.
Qed.
End asking.

(** The commands that take an identifier after two words cannot work.  "task
    inspect <id>", "task cancel <id>" and "workload inspect <id>", on a coordinator
    that can be reached and whatever follows, report a bad identifier and ask the
    coordinator nothing: [cmd_task_inspect] and its kin read the identifier from
    [positionals[0]], which is still the word "task" or "workload".  Only "node
    drain <id>" removes its two words before, and asks for the node it is given. *)
Theorem identifier_commands (remote : Remote) (stod : string → option Z) (fmt_f : Z → string) (random : nat → Id128)
    (serve : CoordinatorConfig → Report) (work : NodeConfig → Report) (cuda_devices : list ExecutorCapability)
    (fabric_local : CliArgs → option Report) (run_benchmark_suite : string → bool → Report)
    (prog : string) (argv : list string) (cmd sub : string) (rest : list string) :
  let a := parse_args argv in
  let cli := run_cli remote stod fmt_f random serve work cuda_devices fabric_local run_benchmark_suite in
  ca_positionals a = cmd :: sub :: rest → has_flag a "version" = false → has_flag a "v" = false →
  can_connect remote a →
  (∀ word, command_word cmd sub = Some word →
     cli prog argv = Some (fails 2 ("error: bad " +:+ word +:+ " id") [])) ∧
  (∀ hex id, cmd = "node" → sub = "drain" → head rest = Some hex → from_hex hex = Ok id →
     ∃ r, cli prog argv = Some r ∧
       rt_asked r = [MNodeDrain (mkNodeDrain id (negb (bool_decide (flag a "undrain" "false" = "true"))))]).
Proof.
  intros a cli Hp Hv1 Hv2 Hc.
  assert (E : cli prog argv = cli_command remote stod fmt_f random serve work cuda_devices fabric_local
    run_benchmark_suite prog cmd (Some sub) a).
  { unfold cli, run_cli, cli_main. fold a. by rewrite Hv1, Hv2, Hp. }
  rewrite E. split.
  - intros word Hw. by eapply command_word_bad.
  - intros hex id -> -> Hh Hid.
    change (∃ r, cmd_node_drain remote (drop_positionals 2 a) = Some r ∧
      rt_asked r = [MNodeDrain (mkNodeDrain id (negb (bool_decide (flag a "undrain" "false" = "true"))))]).
    unfold cmd_node_drain. rewrite with_client_connected by exact Hc. unfold with_id, drop_positionals.
    cbn [ca_positionals]. rewrite Hp. destruct rest as [|x rest]; [done|]. injection Hh as ->. cbn [drop].
    rewrite Hid. eexists. split; [reflexivity|]. unfold flag. cbn [ca_flags].
    destruct (rm_drain remote id _) as [r|]; [|done]. by destruct (ndr_found r).
Qed.


(** A store directory that begins with a dash is taken for the next flag. *)
Example dash_value_not_taken : flag (parse_args ["--store-dir"; "-x"]) "store-dir" "" = "true".
Proof. by vm_compute. Qed.

(** A coordinator that accepts every connection and every drain and refuses the rest. *)
Definition sample_remote : Remote :=
  mkRemote (λ _ _, Ok tt) (λ _ _ _, err EUnsupported "") (λ _, err EUnsupported "") (λ _, err EUnsupported "")
    (λ _, err EUnsupported "") (λ _, err EUnsupported "") (err EUnsupported "")
    (λ _ _, Ok (mkNodeDrainResponse true true "")) (err EUnsupported "") (λ _, err EUnsupported "").
Definition sample_cli : string → list string → option Report :=
  run_cli sample_remote (λ _, None) (λ _, "") (λ n, id_zero) (λ _, prints 0 [] []) (λ _, prints 0 [] []) []
    (λ _, None) (λ _ _, prints 0 [] []).

Lemma identifier_commands_witness :
  sample_cli "cf" ["task"; "cancel"; to_hex (mkId 1 2); "--client-port=7001"] = Some (fails 2 "error: bad task id" []) ∧
  ∃ r, sample_cli "cf" ["node"; "drain"; to_hex (mkId 1 2); "--client-port=7001"] = Some r ∧
    rt_asked r = [MNodeDrain (mkNodeDrain (mkId 1 2) true)].
Proof.
  split.
  - destruct (identifier_commands sample_remote (λ _, None) (λ _, "") (λ n, id_zero) (λ _, prints 0 [] [])
      (λ _, prints 0 [] []) [] (λ _, None) (λ _ _, prints 0 [] []) "cf"
      ["task"; "cancel"; to_hex (mkId 1 2); "--client-port=7001"] "task" "cancel" [to_hex (mkId 1 2)]) as [Hb _];
      [vm_compute; reflexivity..|]. by apply (Hb "task").
  - destruct (identifier_commands sample_remote (λ _, None) (λ _, "") (λ n, id_zero) (λ _, prints 0 [] [])
      (λ _, prints 0 [] []) [] (λ _, None) (λ _ _, prints 0 [] []) "cf"
      ["node"; "drain"; to_hex (mkId 1 2); "--client-port=7001"] "node" "drain" [to_hex (mkId 1 2)]) as [_ Hd];
      [vm_compute; reflexivity..|].
    destruct (Hd (to_hex (mkId 1 2)) (mkId 1 2)) as (r & E & Hr); [done..|by vm_compute|].
    exists r. split; [exact E|]. rewrite Hr. by vm_compute.
Defined.
