(* ===== verification/FabricLocal.v ===== *)
(** * FabricLocal: the "fabric local" command (cli/cli.cpp, [cmd_fabric_local])

    The command that runs a whole fabric on one machine: it launches a coordinator
    and nodes, submits a small workload, waits until every task has ended, and shuts
    everything down.  It composes the launcher, the client and the command line; the
    state is the launcher's [Host].  Whether an interrupt has been requested, the
    random identifiers and the path of the executable are data. *)

From S2P Require Import Prelude Status Ids Digest Float64 Task Lifecycle Reservation Wire Frame Socket Channel Serialize Messages Client Launcher LauncherProps Cli.

Local Open Scope Z_scope.

Definition f64_hundredth : Z := 0x3f847ae147ae147b.   (* 0.01 *)

(** What a run shows: exit code, lines printed, and the last answers about the
    submitted tasks. *)
Record LocalRun := mkLocalRun {
  lr_exit : Z;
  lr_out : list string;
  lr_err : list string;
  lr_submitted : list Id128;
  lr_verdicts : list (Result TaskInspectResponse);
  lr_confirmed : Z
}.
Definition run_failed (line : string) : LocalRun := mkLocalRun 2 [] [line] [] [] 0.

(** A validation task: the members the command sets on a default task. *)
Definition validation_task (id workload : Id128) (name : string) (executor : ExecutorType) (kernel : KernelType)
    (n seed : Z) : ComputeTask :=
  mkComputeTask id workload name TC_Generic executor 0 0 1 1 0 [] [] 0 0 f64_hundredth false 0 PR_Normal
    (mkRetryPolicy 2 (rp_retry_on_node_loss default_retry) (rp_retry_on_executor_failure default_retry)
       (rp_retry_on_timeout default_retry) (rp_retry_backoff_ms default_retry))
    [] [] [] [] "" None None f64_0 f64_0 f64_0 false kernel n 31 17 seed ∅ [].

Section run.
Context (env : Env) (fuel : nat) (interrupt : nat → nat → bool) (random : nat → Id128) (exe_path : string).

(** Every identifier is drawn anew: the workload's first, then the tasks'. *)
Definition minimal_task (i : nat) : ComputeTask :=
  validation_task (random (S i)) (random 0) ("minimal-" +:+ to_string (Z.of_nat i)) EX_Any_ KT_HashInteger 50000
    (42 + Z.of_nat i).
Definition cuda_task : ComputeTask :=
  validation_task (random 4) (random 0) "cuda-transform" EX_Cuda KT_VectorTransform 200000 7.
Definition validation_tasks (cuda_node : bool) : list (string * ComputeTask) :=
  map (λ i, ("", minimal_task i)) [0%nat; 1%nat; 2%nat] ++ if cuda_node then [("cuda ", cuda_task)] else [].

Definition interrupt_requested : Act bool := λ h, Some (interrupt (h_ticks h) (h_calls h), h).

Definition submit_one (label : string) (t : ComputeTask) (c : FabricClient)
    : Act (option string * FabricClient) :=
  '(r, c) ← call_client env (submit (e_clock env) fuel (ct_workload t) "fabric-local" t) c;
  mret (match r with
        | Err e => Some (label +:+ "submit failed: " +:+ error_to_string e)
        | Ok r => if tsr_accepted r then None else Some (label +:+ "submit failed: " +:+ tsr_error r)
        end, c).

(** The submissions: the identifiers accepted and the lines of the failures. *)
Fixpoint submit_all (ts : list (string * ComputeTask)) (c : FabricClient)
    : Act (list Id128 * list string * FabricClient) :=
  match ts with
  | [] => mret ([], [], c)
  | (label, t) :: ts =>
      '(failure, c) ← submit_one label t c;
      '(submitted, failures, c) ← submit_all ts c;
      mret (match failure with
            | Some line => (submitted, line :: failures, c)
            | None => (ct_id t :: submitted, failures, c)
            end)
  end.

Definition ended (r : Result TaskInspectResponse) : bool :=
  match r with Ok r => tir_found r && is_terminal (tir_state r) | Err _ => false end.
Definition succeeded (r : Result TaskInspectResponse) : bool :=
  match r with Ok r => tir_found r && bool_decide (tir_state r = TS_Succeeded) | Err _ => false end.

(** One pass over the submitted tasks, up to the first that has not ended. *)
Fixpoint all_ended (ids : list Id128) (c : FabricClient) : Act (bool * FabricClient) :=
  match ids with
  | [] => mret (true, c)
  | id :: ids =>
      '(insp, c) ← call_client env (inspect (e_clock env) fuel id) c;
      if ended insp then all_ended ids c else mret (false, c)
  end.

(** The wait; [all_terminal] is what the last pass found. *)
Fixpoint wait_terminal (n : nat) (deadline : Z) (ids : list Id128) (all_terminal : bool) (c : FabricClient)
    : Act (bool * FabricClient) :=
  match n with
  | O => λ _, None
  | S n =>
      now ← now_millis env;
      if deadline <=? now then mret (all_terminal, c)
      else
        stop ← interrupt_requested;
        if stop : bool then mret (all_terminal, c)
        else
          '(all_terminal, c) ← all_ended ids c;
          if all_terminal : bool then mret (true, c) else wait_terminal n deadline ids false c
  end.

Fixpoint inspect_all (ids : list Id128) (c : FabricClient) : Act (list (Result TaskInspectResponse) * FabricClient) :=
  match ids with
  | [] => mret ([], c)
  | id :: ids =>
      '(insp, c) ← call_client env (inspect (e_clock env) fuel id) c;
      '(rest, c) ← inspect_all ids c;
      mret (insp :: rest, c)
  end.

(** From the connected client to the verdict. *)
Definition validate (nodes : Z) (cuda_node : bool) (c : FabricClient) (f : LocalFabric)
    : Act (LocalRun * LocalFabric) :=
  '(submitted, failures, c) ← submit_all (validation_tasks cuda_node) c;
  now ← now_millis env;
  '(all_terminal, c) ← wait_terminal fuel (now + 60000) submitted false c;
  '(verdicts, c) ← inspect_all submitted c;
  let success := count succeeded verdicts in
  let failed := count (λ r, negb (succeeded r)) verdicts in
  '(st, c) ← call_client env (status (e_clock env) fuel 10000) c;
  '(stopped, f) ← shutdown_all env fuel f;
  let confirmed := match stopped with Ok n => n | Err _ => -1 end in
  let out :=
    ("fabric local: tasks=" +:+ to_string (Z.of_nat (length submitted)) +:+ " succeeded=" +:+ to_string success
     +:+ " failed=" +:+ to_string failed)
    :: match st with
       | Ok st => ["fabric local: nodes=" +:+ to_string (fsr_node_count st) +:+ " epoch="
                   +:+ to_string (fsr_coordinator_epoch st)]
       | Err _ => []
       end
    ++ ["fabric local: shutdown confirmed processes=" +:+ to_string confirmed] in
  stop ← interrupt_requested;
  mret
    (if stop : bool then
       mkLocalRun 130 out (failures ++ ["fabric local: interrupted"]) submitted verdicts confirmed
     else if negb all_terminal || (0 <? Z.of_nat (length failures)) || (0 <? failed) || (confirmed <? nodes + 1) then
       mkLocalRun 2 out (failures ++ ["fabric local: validation FAILED"]) submitted verdicts confirmed
     else mkLocalRun 0 (out ++ ["fabric local: validation PASSED"]) failures submitted verdicts confirmed, f).

(** The fabric is destroyed at the end of the command, and its destructor shuts
    down once more. *)
Definition destroy {A} (r : A) (f : LocalFabric) : Act A :=
  '(_, _) ← shutdown_all env fuel f; mret r.

Definition stop_and_fail (line : string) (f : LocalFabric) : Act LocalRun :=
  '(_, f) ← shutdown_all env fuel f; destroy (run_failed line) f.

Definition fabric_local (nodes : Z) (cuda_node : bool) (store_dir policy telemetry_dir : string) : Act LocalRun :=
  launched ← launch env fuel exe_path nodes cuda_node store_dir policy telemetry_dir;
  match launched with
  | Err e => mret (run_failed (error_line e))
  | Ok f =>
      '(wr, f) ← wait_registered env fuel 15000 f;
      match wr with
      | Err e => stop_and_fail (error_line e) f
      | Ok _ =>
          client ← Launcher.make_client env f;
          match client with
          | None => stop_and_fail "error: cannot connect to coordinator" f
          | Some c => '(r, f) ← validate nodes cuda_node c f; destroy r f
          end
      end
  end.

(** [None]: [std::stoi] throws. *)
Definition cmd_fabric_local (a : CliArgs) : option (Act LocalRun) :=
  nodes ← stoi (flag a "nodes" "2");
  Some (fabric_local nodes (has_flag a "cuda-node") (flag a "store-dir" ".compute_fabric_store_local")
          (flag a "policy" "cost_aware") (flag a "telemetry-dir" "")).
End run.

(** ** The command returns and tells the truth *)

Section props.
Context (env : Env) (fuel : nat) (interrupt : nat → nat → bool) (random : nat → Id128) (exe_path : string).
Context (span : Z) (Ht : timely env fuel span) (Hspan : 60000 <= span).

(** What a step of the client's conversation leaves. *)
Definition talked {A} (h : Host) (P : A → Prop) (x : A * FabricClient) (h' : Host) : Prop :=
  later h h' ∧ client_fits x.2 ∧ P x.1.

Lemma submit_one_does label t c h :
  client_fits c → does (submit_one env fuel label t c) h (talked h (λ _, True)).
Proof.
  intros Hc. unfold submit_one. apply does_bind.
  eapply does_mono; [by apply (call_client_does env fuel span Ht)|]. intros [r c'] h' [L F]. by apply does_ret.
Qed.

Lemma submit_all_does ts c h :
  client_fits c →
  does (submit_all env fuel ts c) h
    (talked h (λ x, x.2 = [] → x.1 = map (λ t, ct_id t.2) ts)).
Proof.
  intros Hc. revert c h Hc. induction ts as [|[label t] ts IH]; intros c h Hc; cbn [submit_all].
  { by apply does_ret. }
  apply does_bind. eapply does_mono; [by apply submit_one_does|]. intros [failure c1] h1 (L1 & F1 & _).
  apply does_bind. eapply does_mono; [by apply IH|]. intros [[ids failures] c2] h2 (L2 & F2 & E2).
  apply does_ret. cbn [fst snd] in E2. destruct failure; (split_and!; [by etrans|done|]); [done|].
  cbn. intros Hf. by rewrite E2.
Qed.

Lemma inspect_does id c h :
  client_fits c → does (call_client env (inspect (e_clock env) fuel id) c) h (talked h (λ _, True)).
Proof.
  intros Hc. eapply does_mono; [by apply (call_client_does env fuel span Ht)|]. by intros x h' [L F].
Qed.

Lemma all_ended_does ids c h :
  client_fits c → does (all_ended env fuel ids c) h (talked h (λ _, True)).
Proof.
  revert c h. induction ids as [|id ids IH]; intros c h Hc; cbn [all_ended]; [by apply does_ret|].
  apply does_bind. eapply does_mono; [by apply inspect_does|]. intros [r c1] h1 (L1 & F1 & _). cbn [fst snd] in *.
  destruct (ended r); [|by apply does_ret].
  eapply does_mono; [by apply IH|]. intros x h2 (L2 & F2 & _). split_and!; [by etrans|done..].
Qed.

Lemma wait_terminal_does N n deadline ids b c h :
  (∀ i, (N <= i)%nat → deadline <= e_clock env i) → (N < h_ticks h + n)%nat → (0 < n)%nat → client_fits c →
  does (wait_terminal env fuel interrupt n deadline ids b c) h (talked h (λ _, True)).
Proof.
  intros HN. revert b c h. induction n as [|n IH]; intros b c h Hn H0 Hc; [lia|]. cbn [wait_terminal].
  apply does_bind, now_does. set (h1 := mkHost _ _ _). assert (L1 : later h h1) by (apply later_tick; lia).
  destruct (Z.leb_spec deadline (e_clock env (h_ticks h))) as [|Hlt]; [by apply does_ret|].
  assert (h_ticks h < N)%nat by (destruct (decide (N <= h_ticks h)%nat) as [Hle|]; [specialize (HN _ Hle)|]; lia).
  apply does_bind. eexists _, h1. split; [done|]. destruct (interrupt _ _); [by apply does_ret|].
  apply does_bind. eapply does_mono; [by apply all_ended_does|]. intros [all c2] h2 (L2 & F2 & _). cbn [snd] in F2.
  assert (L : later h h2) by by etrans. destruct all; [by apply does_ret|].
  pose proof (la_ticks _ _ L2) as T. cbn [h1 h_ticks] in T.
  eapply does_mono; [apply IH; [lia|lia|done]|]. intros x h3 (L3 & F3 & _). split_and!; [by etrans|done..].
Qed.

Lemma inspect_all_does ids c h :
  client_fits c → does (inspect_all env fuel ids c) h (talked h (λ vs, length vs = length ids)).
Proof.
  revert c h. induction ids as [|id ids IH]; intros c h Hc; cbn [inspect_all]; [by apply does_ret|].
  apply does_bind. eapply does_mono; [by apply inspect_does|]. intros [r c1] h1 (L1 & F1 & _).
  apply does_bind. eapply does_mono; [by apply IH|]. intros [rs c2] h2 (L2 & F2 & E2).
  apply does_ret. split_and!; [by etrans|done|]. cbn in *. congruence.
Qed.

(** What an exit code says about a run that started [n] processes. *)
Record truthful (nodes : Z) (cuda_node : bool) (n : Z) (r : LocalRun) : Prop := {
  tf_code : lr_exit r = 0 ∨ lr_exit r = 2 ∨ lr_exit r = 130;
  tf_interrupted : lr_exit r = 130 → ∃ i j, interrupt i j = true;
  tf_passed : lr_exit r = 0 →
    lr_submitted r = map (λ t, ct_id t.2) (validation_tasks random cuda_node) ∧
    length (lr_verdicts r) = length (lr_submitted r) ∧
    Forall (λ v, succeeded v = true) (lr_verdicts r) ∧
    nodes < lr_confirmed r ∧ lr_confirmed r = n
}.

Lemma count_none {A} (p : A → bool) l : count (λ x, negb (p x)) l <= 0 → Forall (λ x, p x = true) l.
Proof.
  unfold count. induction l as [|x l IH]; cbn [List.filter]; [done|]. intros Hc.
  destruct (p x) eqn:E; cbn [negb length] in Hc; [constructor; [done|apply IH; lia]|lia].
Qed.

Lemma validate_does nodes cuda c f h :
  0 <= nodes → client_fits c → tracked h f →
  does (validate env fuel interrupt random nodes cuda c f) h
    (λ x h', tracked h' x.2 ∧ truthful nodes cuda (count spawned (children f)) x.1 ∧
       (lr_exit x.1 = 0 → all_settled x.2)).
Proof.
  intros Hnodes Hc Htr. unfold validate. apply does_bind. eapply does_mono; [by apply submit_all_does|].
  intros [[ids failures] c1] h1 (L1 & F1 & E1). apply does_bind, now_does. set (h2 := mkHost _ _ _).
  assert (L2 : later h1 h2) by (apply later_tick; lia).
  apply does_bind. eapply does_mono; [apply (wait_terminal_does (h_ticks h1 + fuel)%nat); [| | |exact F1]|].
  { intros i Hi. etrans; [|by apply (ti_mono _ _ _ Ht)]. pose proof (ti_span _ _ _ Ht (h_ticks h1)). lia. }
  { cbn. lia. }
  { by eapply fuel_pos. }
  intros [all c3] h3 (L3 & F3 & _). apply does_bind. eapply does_mono; [by apply inspect_all_does|].
  intros [vs c4] h4 (L4 & F4 & E4). cbn [fst snd] in *. cbv zeta. apply does_bind.
  eapply does_mono; [by apply (call_client_does env fuel span Ht)|]. intros [st c5] h5 [L5 F5].
  assert (L : later h h5) by (repeat (etrans; [eassumption|]); done).
  assert (Htr5 : tracked h5 f) by (eapply tracked_step; [by apply fabric_refl|done]).
  apply does_bind. eapply does_mono; [by eapply shutdown_all_does, tr_pids|].
  intros [stopped f6] h6 (S6 & O6 & _). cbn [fst snd] in *. apply does_bind. eexists _, h6. split; [done|].
  apply does_ret. cbn [fst snd]. split; [by eapply tracked_step|].
  destruct (interrupt (h_ticks h6) (h_calls h6)) eqn:Ei.
  { split; [|done]. split; [by right; right|by eexists _, _|done]. }
  destruct (_ || _) eqn:Eb; [split; [|done]; split; [by right; left|done..]|].
  apply orb_false_iff in Eb as [[[_ Hf]%orb_false_iff Hb]%orb_false_iff Hn].
  apply Z.ltb_ge in Hf, Hb, Hn. assert (failures = []) as -> by (destruct failures; [done|cbn in Hf; lia]).
  destruct stopped as [n|e]; [|lia]. destruct O6 as [-> Hset]. split; [|done].
  split; [by left|done|]. cbn. intros _. split_and!; [by apply E1|done|by apply count_none|lia|done].
Qed.
End props.

Lemma launched_count n f : launched n f → count spawned (children f) = 1 + Z.of_nat n.
Proof.
  intros [_ Hn _ Ha]. unfold count. rewrite forallb_filter_id.
  - unfold children. cbn [length]. lia.
  - apply forallb_forall. intros c Hc%list_elem_of_In. rewrite Forall_forall in Ha.
    destruct (Ha c Hc) as [_ Hs]. unfold spawned. apply negb_true_iff, Z.eqb_neq. intros E. apply Hs. by left.
Qed.

(** The last shutdown, by the destructor. *)
Lemma destroy_does {A} env fuel span (r : A) f h :
  timely env fuel span → tracked h f →
  does (destroy env fuel r f) h (λ r' h', r' = r ∧ (obliging env → h_procs h' = ∅) ∧
    (all_settled f → h_procs h' = ∅)).
Proof.
  intros Ht Htr. unfold destroy. apply does_bind. eapply does_mono; [by eapply shutdown_all_does, tr_pids|].
  intros [r' f'] h' (S & O & G). cbn [fst snd] in *. pose proof (tracked_step _ _ _ _ S Htr) as Htr'.
  apply does_ret. split_and!; [done| |].
  - intros Ho. specialize (G Ho). destruct r' as [n|]; [|done]. by eapply settled_empty, O.
  - intros Hs. by eapply settled_empty, all_settled_step.
Qed.

Lemma stop_and_fail_does env fuel span line f h :
  timely env fuel span → tracked h f →
  does (stop_and_fail env fuel line f) h (λ r h', r = run_failed line ∧ (obliging env → h_procs h' = ∅)).
Proof.
  intros Ht Htr. unfold stop_and_fail. apply does_bind. eapply does_mono; [by eapply shutdown_all_does, tr_pids|].
  intros [r' f'] h' (S & _). cbn [fst snd] in *. eapply does_mono; [by eapply destroy_does, tracked_step|].
  by intros r h2 (-> & Ho & _).
Qed.


(** A run in which the coordinator answers every request of the conversation. *)
Definition answers (task_state : TaskState) : list RecvEvent :=
  let submitted i := (kTaskSubmitResponse, serialize_task_submit_response (mkTaskSubmitResponse true (mkId 5 (i + 1)) "")) in
  let inspected i := (kTaskInspectResponse, serialize_task_inspect_response
    (mkTaskInspectResponse true (mkId 5 (i + 1)) "minimal" TC_Generic task_state "" [] 0 "")) in
  imap (λ k m, RE_Bytes (wire (make_frame m.1 SK_Coordinator id_zero (Z.of_nat k + 1) m.2)))
    ([submitted 0; submitted 1; submitted 2] ++ [inspected 0; inspected 1; inspected 2]
     ++ [inspected 0; inspected 1; inspected 2] ++ [(kFabricStatusResponse, sample_status)]).
Definition conversation (task_state : TaskState) : Socket :=
  mkSocket (new_state 4) (answers task_state) (replicate 12 (SE_Sent 5000)) [].
Definition local_env (call : nat) (task_state : TaskState) : Env :=
  scripted_env false (λ n, Ok (if (n =? call)%nat then conversation task_state else sample_socket)).
Definition local_run (call : nat) (task_state : TaskState) (interrupt : nat → nat → bool) : option (LocalRun * Host) :=
  fabric_local (local_env call task_state) (6 * 1001) interrupt (λ i, mkId 5 (Z.of_nat i)) "/bin/cf" 2 false "store" "cost" ""
    empty_host.

Definition run_summary (r : LocalRun) : Z * list string * list string := (lr_exit r, lr_out r, lr_err r).

Example local_run_passes :
  (run_summary ∘ fst) <$> local_run 17 TS_Succeeded (λ _ _, false) =
  Some (0, ["fabric local: tasks=3 succeeded=3 failed=0"; "fabric local: nodes=2 epoch=1";
            "fabric local: shutdown confirmed processes=3"; "fabric local: validation PASSED"], []).
Proof. vm_compute. reflexivity. Qed.

Example local_run_fails :
  (λ x, (lr_exit x.1, lr_err x.1)) <$> local_run 17 TS_Failed (λ _ _, false) =
  Some (2, ["fabric local: validation FAILED"]).
Proof. vm_compute. reflexivity. Qed.

Example local_run_interrupted :
  (λ x, (lr_exit x.1, lr_err x.1)) <$> local_run 17 TS_Running (λ i _, (40 <? i)%nat) =
  Some (130, ["fabric local: interrupted"]).
Proof. vm_compute. reflexivity. Qed.

