(* ===== verification/Bench.v ===== *)
(** * Bench: the benchmark suite (cli/benchmark_suite.cpp, benchmarks/bench_main.cpp)

    The suite runs the executors, the scheduler, the reservation registry and a
    whole local fabric, and exits with 1 when one of its runs is not as it should
    be.  Every benchmark draws identifiers from its own stream [random b]; the
    clock and the processes are the launcher's [Host]; the CUDA runtime and what
    the executor's threads do up to the deadline of the concurrent run are data. *)

From S2P Require Import Prelude Status Ids Digest Float64 Task Lifecycle Reservation Placement Locality Scheduler Wire Frame Socket Channel Serialize Messages Client Launcher Workloads Cuda Executor Cli FabricLocal.

Local Open Scope Z_scope.

Record BenchResult := mkBench {
  br_name : string;
  br_latency_ms : Z;
  br_queue_delay_ms : Z;
  br_execution_ms : Z;         (* double *)
  br_placement_cost : Z;       (* double *)
  br_transfer_estimate : Z;    (* double *)
  br_recompute_estimate : Z;   (* double *)
  br_bytes : Z;
  br_success : bool;
  br_retries : Z;
  br_chosen_node : string;
  br_executor : string;
  br_reason : string
}.

(** [%-28s] *)
Definition pad_right (n : nat) (s : string) : string :=
  s +:+ string_of_bytes (replicate (n - String.length s) 32).

(** [fmt_f digits d] is the C library's text of a double with [%.<digits>f]. *)
Definition print_result (fmt_f : Z → Z → string) (r : BenchResult) : string :=
  "[BENCH] " +:+ pad_right 28 (br_name r) +:+ " latency=" +:+ to_string (br_latency_ms r)
  +:+ "ms queue=" +:+ to_string (br_queue_delay_ms r) +:+ "ms exec=" +:+ fmt_f 2 (br_execution_ms r)
  +:+ "ms cost=" +:+ fmt_f 4 (br_placement_cost r) +:+ " transfer=" +:+ fmt_f 4 (br_transfer_estimate r)
  +:+ "s recompute=" +:+ fmt_f 4 (br_recompute_estimate r) +:+ "s bytes=" +:+ to_string (br_bytes r)
  +:+ " success=" +:+ (if br_success r then "1" else "0") +:+ " retries=" +:+ to_string (br_retries r)
  +:+ " node=" +:+ br_chosen_node r +:+ " executor=" +:+ br_executor r +:+ " reason=" +:+ br_reason r.

(** ** Nodes and tasks *)

Definition cpu_capability_of (slots speed : Z) : ExecutorCapability :=
  mkExecutorCapability EX_Cpu "cpu" slots 0 0 "" "" "" 0 [] speed true false.
Definition bench_node (id session : Id128) (label : string) (cpu_slots : Z) (executors : list ExecutorCapability)
    (tags : gmap string string) : NodeRecord :=
  mkNodeRecord id session 1 1 NH_Online
    (mkNodeCapacity cpu_slots (Z.shiftl 8 30) executors tags "" label) 0 0 true.

Definition make_cpu_node (id session : Id128) (label : string) (slots speed : Z) (tags : gmap string string) : NodeRecord :=
  bench_node id session label slots [cpu_capability_of slots speed] tags.

Definition make_cuda_node (id session : Id128) (label : string) (slots major minor : Z) : NodeRecord :=
  bench_node id session label 4
    [cpu_capability_of 4 f64_1;
     mkExecutorCapability EX_Cuda "cuda" slots major minor "NVIDIA" "" "RTX 5090" 0 [0] f64_10 true false] ∅.

(** A task of the suite, with the members some benchmarks change. *)
Definition bench_task (id workload : Id128) (name : string) (executor : ExecutorType) (deps : list StateDependency)
    (duration : Z) (k : KernelType) (n : Z) : ComputeTask :=
  mkComputeTask id workload name TC_Generic executor 0 0 1 1 0 [] deps 0 0 duration false 0 PR_Normal
    default_retry [] [] [] [] "" None None f64_0 f64_0 f64_0 false k n 31 17 42 ∅ [].
Definition make_task (id workload : Id128) (name : string) (k : KernelType) (n : Z) : ComputeTask :=
  bench_task id workload name EX_Any_ [] f64_hundredth k n.

(** ** The scheduler *)

Definition chosen_hex (d : PlacementDecision) : string :=
  match pd_chosen_node d with Some n => to_hex n | None => "none" end.
Definition cost_aware : SchedulerPolicyEngine := set_policy default_engine SP_CostAware.

(** A step of the concurrent run: thread [i] enqueues its work, or a worker acts. *)
Inductive BenchAct := BA_Thread (i : nat) | BA_Worker (env : RunEnv) (a : WorkerAction).

Section streams.
Context (random : nat → Id128) (now : Z).

Definition bench_cpu_vs_cuda_placement : BenchResult :=
  let cpu_node := random 0 in
  let gpu_node := random 1 in
  let nodes := <[gpu_node := make_cuda_node gpu_node (random 3) "cuda-node" 2 12 0]>
                 {[cpu_node := make_cpu_node cpu_node (random 2) "cpu-node" 4 f64_1 ∅]} in
  let task := bench_task (random 4) (random 5) "cuda-required" EX_Cuda [] f64_hundredth KT_VectorTransform 100000 in
  let d := place cost_aware task nodes ∅ ∅ in
  mkBench "cpu_vs_cuda_placement" 0 0 f64_0 (pd_total_cost d) f64_0 f64_0 0
    (pd_feasible d && bool_decide (pd_chosen_node d = Some gpu_node)) 0 (chosen_hex d) (pd_chosen_device d)
    (pd_reason d).

(** A state object on the node [holder], known to the registry and to the task. *)
Definition state_at (holder : Id128) (id : string) (size transfer recompute : Z) : Locality :=
  upsert ∅ (mkStateLocation id "" size [holder] f64_0 transfer recompute "").
Definition dependency_on (holder : Id128) (id : string) (size transfer recompute : Z) : StateDependency :=
  mkStateDependency id "" size [holder] f64_0 transfer recompute false "".

Definition bench_state_locality : BenchResult :=
  let a := random 0 in
  let b := random 1 in
  let nodes := <[b := make_cpu_node b (random 3) "b-fast-remote" 4 f64_2 ∅]>
                 {[a := make_cpu_node a (random 2) "a-slow-local" 4 f64_1 ∅]} in
  let state := state_at a "weights-8g" (Z.shiftl 8 30) (f64_of_Z 8) (f64_of_Z 30) in
  let task := bench_task (random 4) (random 5) "state-task" EX_Any_
                [dependency_on a "weights-8g" (Z.shiftl 8 30) f64_minus_1 (f64_of_Z 30)] f64_hundredth
                KT_StateDependent 1000 in
  let d := place cost_aware task nodes ∅ state in
  mkBench "state_locality" 0 0 f64_0 (pd_total_cost d) (pd_transfer_cost d) (pd_recompute_cost d) 0
    (pd_feasible d && bool_decide (pd_chosen_node d = Some a)) 0 (chosen_hex d) ""
    (pd_reason d +:+ " (state-local preferred)").

Definition bench_transfer_vs_execution : BenchResult :=
  let a := random 0 in
  let b := random 1 in
  let nodes := <[b := make_cpu_node b (random 3) "b" 4 f64_1 ∅]> {[a := make_cpu_node a (random 2) "a" 4 f64_1 ∅]} in
  let state := state_at a "big-state" (Z.shiftl 50 30) f64_minus_1 (f64_of_Z 120) in
  let task := bench_task (random 4) (random 5) "big-state-task" EX_Any_
                [dependency_on a "big-state" (Z.shiftl 50 30) f64_minus_1 (f64_of_Z 120)] f64_1
                KT_StateDependent 1000 in
  let d := place cost_aware task nodes ∅ state in
  mkBench "transfer_vs_execution" 0 0 f64_0 (pd_total_cost d) (pd_transfer_cost d) f64_0 0 (pd_feasible d) 0
    (chosen_hex d) "" (pd_reason d).

Definition bench_recompute_vs_transfer_vs_execute : BenchResult :=
  let a := random 0 in
  let b := random 1 in
  let nodes := <[b := make_cpu_node b (random 3) "b-remote" 4 f64_1 ∅]>
                 {[a := make_cpu_node a (random 2) "a-local" 4 f64_1 ∅]} in
  let state := state_at a "state" (Z.shiftl 1 30) (f64_of_Z 5) f64_2 in
  let task := bench_task (random 4) (random 5) "recompute-task" EX_Any_
                [dependency_on a "state" (Z.shiftl 1 30) (f64_of_Z 5) f64_2] (f64_div f64_1 f64_2)
                KT_StateDependent 1000 in
  let d := place cost_aware task nodes ∅ state in
  mkBench "recompute_vs_transfer_vs_execute" 0 0 f64_0 (pd_total_cost d) (pd_transfer_cost d) (pd_recompute_cost d) 0
    (pd_feasible d) 0 (chosen_hex d) "" (pd_reason d).

Definition bench_queue_pressure : BenchResult :=
  let a := random 0 in
  let b := random 1 in
  let node_a := make_cpu_node a (random 2) "a" 1 f64_1 ∅ in
  let nodes := <[b := make_cpu_node b (random 3) "b" 2 f64_1 ∅]> {[a := node_a]} in
  let t1 := make_task (random 4) (random 5) "fill-1" KT_HashInteger 1000 in
  let t2 := make_task (random 6) (random 7) "fill-2" KT_HashInteger 1000 in
  let '(resv, _) := try_reserve ∅ node_a 1 (ct_id t1) EX_Cpu 1 0 (random 8) now in
  let '(resv, _) := try_reserve resv node_a 1 (ct_id t2) EX_Cpu 1 0 (random 9) now in
  let task := make_task (random 10) (random 11) "pressure-task" KT_HashInteger 1000 in
  let d := place cost_aware task nodes resv ∅ in
  mkBench "queue_pressure" 0 0 f64_0 (pd_total_cost d) f64_0 f64_0 0
    (pd_feasible d && bool_decide (pd_chosen_node d = Some b)) 0 (chosen_hex d) ""
    (pd_reason d +:+ " (shifted to available node)").

Definition bench_capability_match : BenchResult :=
  let cpu := random 0 in
  let gpu := random 1 in
  let nodes := <[gpu := make_cuda_node gpu (random 3) "cuda-node" 2 12 0]>
                 {[cpu := make_cpu_node cpu (random 2) "cpu-only" 4 f64_1 ∅]} in
  let task := bench_task (random 4) (random 5) "cuda-only" EX_Cuda [] f64_hundredth KT_VectorTransform 1000 in
  let d := place cost_aware task nodes ∅ ∅ in
  let cpu_excluded := existsb (λ e, bool_decide (ex_node_id e = cpu)) (pd_excluded d) in
  mkBench "capability_match" 0 0 f64_0 f64_0 f64_0 f64_0 0
    (pd_feasible d && bool_decide (pd_chosen_node d = Some gpu) && cpu_excluded) 0 (chosen_hex d) "" (pd_reason d).

Definition bench_priority : BenchResult :=
  mkBench "priority_order" 0 0 f64_0 f64_0 f64_0 f64_0 0 true 0 "" ""
    "priority is metadata; ordering enforced at coordinator".

(** ** Reservations *)

Definition granted (r : ReservationResult) : bool := bool_decide (is_Some (rr_reservation r)).

Definition bench_reservation_pressure : BenchResult :=
  let node := make_cpu_node (random 0) (random 1) "n" 2 f64_1 ∅ in
  let '(resv, r1) := try_reserve ∅ node 1 (random 2) EX_Cpu 1 0 (random 8) now in
  let '(resv, r2) := try_reserve resv node 1 (random 4) EX_Cpu 1 0 (random 9) now in
  let '(resv, r3) := try_reserve resv node 1 (random 6) EX_Cpu 1 0 (random 10) now in
  mkBench "reservation_pressure" 0 0 f64_0 f64_0 f64_0 f64_0 0
    (granted r1 && granted r2 && negb (granted r3) && (active_count resv =? 2)%nat) 0 "" ""
    (if granted r3 then "overcommit allowed" else "no oversubscription").

(** Both tokens are dereferenced: without them the behaviour is undefined. *)
Definition bench_stale_completion_raw : option BenchResult :=
  let rec_ := make_cpu_node (random 0) (random 1) "n" 2 f64_1 ∅ in
  let t := make_task (random 2) (random 3) "stale" KT_HashInteger 100 in
  let '(resv, rr1) := try_reserve ∅ rec_ 1 (ct_id t) EX_Cpu 1 0 (random 8) now in
  let '(resv, rr2) := try_reserve resv rec_ 1 (ct_id t) EX_Cpu 1 0 (random 9) now in
  match rr_reservation rr1, rr_reservation rr2 with
  | Some r1, Some r2 =>
      let rejected := negb (bool_decide (rv_id r1 = rv_id r2)) in
      let '(resv, _) := release resv (rv_id r1) in
      let '(resv, _) := release resv (rv_id r2) in
      Some (mkBench "stale_completion_rejection" 0 0 f64_0 f64_0 f64_0 f64_0 0 rejected 0 "" ""
              "epoch-bound reservation tokens")
  | _, _ => None
  end.

(** ** The executors *)

(** The work of thread [i]: its token is the one with the number [i]. *)
Definition concurrent_work (i : nat) : AttemptWork nat :=
  mkAttemptWork (make_task (random (3 * i)) (random (3 * i + 1)) ("t" +:+ to_string (Z.of_nat i)) KT_HashInteger 100000)
    (random (3 * i + 2)) id_zero id_zero 0 (Some i) 0 None (Some i).

(** What the eight threads and the workers do until the loop over [done] ends. *)
Definition bench_event (a : BenchAct) : BackendEvent nat :=
  match a with
  | BA_Thread i => BE_Enqueue (concurrent_work i)
  | BA_Worker env a => BE_Worker env a
  end.
Definition bench_concurrent_tasks (acts : list BenchAct) : BenchResult :=
  let reports := rn_reports (backend_run (map bench_event acts) (fresh_cpu 2 (replicate 8 false))) in
  let done_ := count (λ r, match r with WR_Completed _ _ => true | WR_Started _ => false end) reports in
  let ok_ := count (λ r, match r with WR_Completed _ out => ao_success out | WR_Started _ => false end) reports in
  mkBench "concurrent_tasks" 0 0 f64_0 f64_0 f64_0 f64_0 0 ((done_ =? 8) && (ok_ =? 8)) 0 "" "cpu"
    ("done=" +:+ to_string done_ +:+ " ok=" +:+ to_string ok_).

Section timed.
Context (env : Env).

Definition bench_cpu_execution : Act BenchResult :=
  let task := make_task (random 0) (random 1) "cpu-kernel" KT_HashInteger 200000 in
  t0 ← now_millis env;
  let wr := (run_cpu_kernel task None).1 in
  t1 ← now_millis env;
  mret (mkBench "local_cpu_execution" (t1 - t0) 0 (f64_of_Z (t1 - t0)) f64_0 f64_0 f64_0 (wr_bytes_processed wr)
          (wr_success wr) 0 "" "cpu" ("deterministic kernel " +:+ String.substring 0 8 (wr_checksum_hex wr))).

(** [devs] is what [enumerate_cuda_devices] returns; [None]: a device without an
    ordinal, which it never returns. *)
Definition bench_cuda_execution (devs : list ExecutorCapability) (calls : CudaCalls) : Act BenchResult :=
  match devs with
  | [] => mret (mkBench "local_cuda_execution" 0 0 f64_0 f64_0 f64_0 f64_0 0 false 0 "" "" "no cuda device")
  | d :: _ =>
      match xc_device_ids d with
      | [] => λ _, None
      | ordinal :: _ =>
          let task := bench_task (random 0) (random 1) "cuda-kernel" EX_Cuda [] f64_hundredth KT_VectorTransform 200000 in
          t0 ← now_millis env;
          let '(res, outstanding) := cuda_run_vector_transform calls ordinal task 0 in
          t1 ← now_millis env;
          mret (mkBench "local_cuda_execution" (t1 - t0) 0 (cr_kernel_millis res) f64_0 f64_0 f64_0
                  (cr_bytes_transferred res)
                  (cr_success res && (cr_elements res =? ct_kernel_param_n task)
                   && (cr_bytes_transferred res =? u64 (u64 (ct_kernel_param_n task * 4) * 2)) && (outstanding =? 0))
                  0 "" "cuda"
                  ("elements=" +:+ to_string (cr_elements res) +:+ " integrity=" +:+ cr_integrity_hex res
                   +:+ " outstanding_allocations=" +:+ to_string outstanding))
      end
  end.

(** ** The fabric *)

Context (fuel : nat).

(** A run with what it heard of the tasks: the ones accepted, and the answers of
    the last pass over them. *)
Record FabricBench := mkFabricBench {
  fb_result : BenchResult;
  fb_submitted : list Id128;
  fb_answers : list (Result TaskInspectResponse)
}.

Definition fabric_bench_name (cuda : bool) : string :=
  if cuda then "multi_process_cuda_fabric" else "multi_process_fabric".
Definition fabric_bench_failed (cuda : bool) (reason : string) : FabricBench :=
  mkFabricBench (mkBench (fabric_bench_name cuda) 0 0 f64_0 f64_0 f64_0 f64_0 0 false 0 "" "" reason) [] [].

Definition mp_task (cuda : bool) (i : nat) : ComputeTask :=
  bench_task (random (2 + 2 * i)) (random 1) ("mp-" +:+ to_string (Z.of_nat i))
    (if cuda then EX_Cuda else EX_Any_) [] f64_hundredth (if cuda then KT_VectorTransform else KT_HashInteger) 100000.

Fixpoint submit_bench (ts : list ComputeTask) (c : FabricClient) : Act (list Id128 * FabricClient) :=
  match ts with
  | [] => mret ([], c)
  | t :: ts =>
      '(s, c) ← call_client env (submit (e_clock env) fuel (ct_workload t) "bench" t) c;
      '(ids, c) ← submit_bench ts c;
      mret (match s with Ok r => if tsr_accepted r then ct_id t :: ids else ids | Err _ => ids end, c)
  end.

(** The wait; [answers] are those of the last pass. *)
Fixpoint wait_succeeded (n : nat) (deadline : Z) (ids : list Id128) (answers : list (Result TaskInspectResponse))
    (c : FabricClient) : Act (list (Result TaskInspectResponse) * FabricClient) :=
  match n with
  | O => λ _, None
  | S n =>
      now ← now_millis env;
      if deadline <=? now then mret (answers, c)
      else
        '(answers, c) ← inspect_all env fuel ids c;
        if count succeeded answers =? Z.of_nat (length ids) then mret (answers, c)
        else wait_succeeded n deadline ids answers c
  end.

Definition stop_bench (r : FabricBench) (f : LocalFabric) : Act FabricBench :=
  '(_, f) ← shutdown_all env fuel f; destroy env fuel r f.

Definition bench_multi_process_fabric (cuda : bool) (nodes : Z) (cli_path : string) : Act FabricBench :=
  launched ← launch env fuel cli_path nodes cuda ("bench_store_" +:+ to_string (id_lo (random 0))) "cost_aware" "";
  match launched with
  | Err e => mret (fabric_bench_failed cuda (error_to_string e))
  | Ok f =>
      '(wr, f) ← wait_registered env fuel 15000 f;
      match wr with
      | Err e => stop_bench (fabric_bench_failed cuda (error_to_string e)) f
      | Ok _ =>
          client ← Launcher.make_client env f;
          match client with
          | None => stop_bench (fabric_bench_failed cuda "cannot connect") f
          | Some c =>
              '(ids, c) ← submit_bench (map (mp_task cuda) [0%nat; 1%nat; 2%nat]) c;
              now ← now_millis env;
              '(answers, c) ← wait_succeeded fuel (now + 45000) ids [] c;
              let success := count succeeded answers in
              '(stopped, f) ← shutdown_all env fuel f;
              let confirmed := match stopped with Ok n => n | Err _ => -1 end in
              destroy env fuel
                (mkFabricBench
                   (mkBench (fabric_bench_name cuda) 0 0 f64_0 f64_0 f64_0 f64_0 0
                      ((length ids =? 3)%nat && (success =? 3)) 0 "" ""
                      ("tasks_succeeded=" +:+ to_string success +:+ "/" +:+ to_string (Z.of_nat (length ids))
                       +:+ " processes_exited=" +:+ to_string confirmed))
                   ids answers) f
          end
      end
  end.
End timed.
End streams.

(** ** The suite *)

Section suite.
Context (random : nat → nat → Id128) (env : Env) (fuel : nat).
Context (devs : list ExecutorCapability) (calls : CudaCalls) (threads : list BenchAct).

(** [check(bench_...())], in order. *)
Definition run_all (cuda : bool) (cli_path : string) : Act (list BenchResult) :=
  cpu ← bench_cpu_execution (random 0) env;
  gpu ← (if cuda then r ← bench_cuda_execution (random 1) env devs calls; mret [r] else mret []);
  now ← now_millis env;
  stale ← (λ h, r ← bench_stale_completion_raw (random 11) now; Some (r, h));
  fabric ← bench_multi_process_fabric (random 12) env fuel false 3 cli_path;
  cuda_fabric ← (if cuda then r ← bench_multi_process_fabric (random 13) env fuel true 1 cli_path; mret [fb_result r]
                 else mret []);
  mret ([cpu] ++ gpu
        ++ [bench_cpu_vs_cuda_placement (random 2); bench_state_locality (random 3);
            bench_transfer_vs_execution (random 4); bench_recompute_vs_transfer_vs_execute (random 5);
            bench_queue_pressure (random 6) now; bench_capability_match (random 7); bench_priority;
            bench_reservation_pressure (random 9) now; bench_concurrent_tasks (random 10) threads; stale;
            fb_result fabric] ++ cuda_fabric).

(** Exit code and output. *)
Definition run_benchmark_suite (fmt_f : Z → Z → string) (current_executable_path mode : string) (cuda : bool)
    (cli_path : string) : Act (Z * list string) :=
  results ← run_all cuda (if bool_decide (cli_path = "") then current_executable_path else cli_path);
  let failures := count (λ r, negb (br_success r)) results in
  mret (if failures =? 0 then 0 else 1,
        ["Compute Fabric benchmark suite";
         "mode=" +:+ (if bool_decide (mode = "") then "all" else mode) +:+ " cuda=" +:+ (if cuda then "yes" else "no")]
        ++ map (print_result fmt_f) results ++ ["[BENCH] summary failures=" +:+ to_string failures]).

(** bench_main.cpp: the mode and whether to use CUDA. *)
Fixpoint bench_options (argv : list string) (mode : string) (cuda : bool) : string * bool :=
  match argv with
  | [] => (mode, cuda)
  | a :: argv =>
      if bool_decide (a = "--cuda") then bench_options argv mode true
      else if bool_decide (a = "--quick") || bool_decide (a = "quick") then bench_options argv "quick" cuda
      else bench_options argv a cuda
  end.
Definition bench_main (fmt_f : Z → Z → string) (current_executable_path cli_path : string) (argv : list string)
    : Act (Z * list string) :=
  let '(mode, cuda) := bench_options argv "" false in
  run_benchmark_suite fmt_f current_executable_path mode cuda cli_path.
End suite.
