(* ===== verification/BenchProps.v ===== *)
(** * BenchProps: what the benchmark suite's exit code means (cli/benchmark_suite.cpp)

    The benchmarks of the scheduler and of the reservations have one right answer
    whatever identifiers are drawn; they are proved from the scheduler's and the
    registry's lemmas, not by running them.  The concurrent run is proved for every
    interleaving of its threads with the executor's workers, the fabric runs for
    every behaviour of processes and network. *)

From S2P Require Import Prelude Status Ids Digest Float64 Task Lifecycle Reservation Placement Locality Scheduler Wire Frame Socket Channel Serialize Messages Client Launcher LauncherProps Workloads Cuda Executor Cli FabricLocal Bench.

Local Open Scope Z_scope.

(** ** Placement on two nodes *)

Lemma two_nodes (a b : Id128) (na nb : NodeRecord) :
  a ≠ b → (in_order (<[b := nb]> {[a := na]} : gmap Id128 NodeRecord)).*2 ≡ₚ [na; nb].
Proof.
  intros Hab. rewrite in_order_perm, map_to_list_insert by (by rewrite lookup_singleton_ne).
  rewrite map_to_list_singleton. cbn. apply Permutation_swap.
Qed.

Lemma two_nodes_swap (a b : Id128) (na nb : NodeRecord) :
  a ≠ b → (in_order (<[b := nb]> {[a := na]} : gmap Id128 NodeRecord)).*2 ≡ₚ [nb; na].
Proof. intros Hab. rewrite two_nodes by done. apply Permutation_swap. Qed.

Section two.
Context (e : SchedulerPolicyEngine) (task : ComputeTask) (reg : Registry) (state : Locality).
Context (nodes : gmap Id128 NodeRecord) (na nb : NodeRecord).
Context (Hnodes : (in_order nodes).*2 ≡ₚ [na; nb]) (Hna : exclusion_reasons task na = []).

Abbreviation d := (place e task nodes reg state).
Abbreviation cand := (candidate_of e task reg state).

(** The candidates of a feasible placement, and what is chosen. *)
Lemma place_first :
  exclusion_reasons task nb ≠ [] ∨ better (cand na) (cand nb) = true →
  pd_feasible d = true ∧ pd_chosen_node d = Some (nr_id na).
Proof.
  intros Hnb. set (good := filter (λ n, exclusion_reasons task n = []) (in_order nodes).*2).
  assert (Hg : good ≡ₚ filter (λ n, exclusion_reasons task n = []) [na; nb]) by (unfold good; by rewrite Hnodes).
  rewrite !filter_cons, filter_nil, decide_True in Hg by done.
  pose proof (place_candidates e task nodes reg state) as Hc. fold good in Hc.
  destruct (place_cases e task nodes reg state) as [(Hnil & _)|(c & cs & Hcs & Hf & Hn & _)].
  { fold good in Hnil. rewrite Hnil in Hg. by apply Permutation_nil_cons in Hg. }
  split; [done|]. rewrite Hn. f_equal. rewrite Hcs in Hc.
  pose proof (best_of_in c cs) as Hin. assert (Ha : cand na ∈ c :: cs).
  { rewrite Hc. apply list_elem_of_fmap_2. rewrite Hg. by left. }
  pose proof (best_of_min c cs _ Ha) as Hmin. rewrite Hc in Hin. apply list_elem_of_fmap in Hin as (n & E & Hin).
  rewrite E in Hmin |- *. rewrite Hg in Hin. rewrite candidate_of_node.
  apply elem_of_cons in Hin as [->|Hin]; [done|]. case_decide as D; [|by apply elem_of_nil in Hin].
  apply list_elem_of_singleton in Hin as ->. destruct Hnb as [?|Hb]; [done|congruence].
Qed.

(** With one good node the placement is feasible. *)
Lemma place_feasible : pd_feasible d = true.
Proof.
  destruct (place_cases e task nodes reg state) as [(Hnil & _)|(c & cs & _ & Hf & _)]; [|done].
  assert (Hin : na ∈ filter (λ n, exclusion_reasons task n = []) (in_order nodes).*2).
  { apply list_elem_of_filter. split; [done|]. rewrite Hnodes. by left. }
  rewrite Hnil in Hin. by apply elem_of_nil in Hin.
Qed.

Lemma place_excludes : exclusion_reasons task nb ≠ [] → nr_id nb ∈ ex_node_id <$> pd_excluded d.
Proof.
  intros Hnb. rewrite place_excluded, <-list_fmap_compose. apply list_elem_of_fmap. exists nb. split; [done|].
  apply list_elem_of_filter. split; [done|]. rewrite Hnodes. by right; left.
Qed.
End two.

(** ** The scheduler's benchmarks *)

Section placement_benches.
Context (random : nat → Id128) (now : Z) (Hdraws : NoDup (map random (seq 0 24))).

Lemma drawn i j : (i < 24)%nat → (j < 24)%nat → i ≠ j → random i ≠ random j.
Proof.
  intros Hi Hj Hij E. apply Hij.
  apply (NoDup_lookup (map random (seq 0 24)) i j (random i) Hdraws);
    rewrite list_lookup_fmap, lookup_seq_lt by done; [done|]. cbn. by rewrite E.
Qed.

Lemma first_two : random 0 ≠ random 1.
Proof. by apply drawn; lia. Qed.

(** The decision of the goal chooses the first node of [H : nodes are [na; nb]]. *)
Ltac chooses H :=
  match goal with |- context [place ?e ?t ?ns ?r ?s] => destruct (place_first e t r s ns _ _ H) as [-> ->] end.

Lemma cpu_vs_cuda_placement_ok : br_success (bench_cpu_vs_cuda_placement random) = true.
Proof.
  unfold bench_cpu_vs_cuda_placement. cbn [br_success]. chooses (two_nodes_swap _ _
    (make_cpu_node (random 0) (random 2) "cpu-node" 4 f64_1 ∅)
    (make_cuda_node (random 1) (random 3) "cuda-node" 2 12 0) first_two); [done|by left|]. by apply bool_decide_true.
Qed.

Lemma capability_match_ok : br_success (bench_capability_match random) = true.
Proof.
  unfold bench_capability_match. cbn [br_success].
  set (cpu := make_cpu_node (random 0) (random 2) "cpu-only" 4 f64_1 ∅).
  set (gpu := make_cuda_node (random 1) (random 3) "cuda-node" 2 12 0).
  set (task := bench_task _ _ _ _ _ _ _ _). pose proof (two_nodes_swap _ _ cpu gpu first_two) as H.
  assert (Hx : nr_id cpu ∈ ex_node_id <$> pd_excluded (place cost_aware task (<[random 1 := gpu]> {[random 0 := cpu]}) ∅ ∅))
    by (by apply (place_excludes _ _ _ _ _ _ _ H)).
  chooses H; [done|by left|]. rewrite bool_decide_true by done. apply existsb_exists.
  apply list_elem_of_fmap in Hx as (x & E & Hx). exists x. split; [by apply list_elem_of_In|]. by apply bool_decide_true.
Qed.

Lemma transfer_vs_execution_ok : br_success (bench_transfer_vs_execution random) = true.
Proof.
  unfold bench_transfer_vs_execution. cbn [br_success].
  by apply (place_feasible _ _ _ _ _ _ _ (two_nodes _ _ _ _ first_two)).
Qed.

Lemma recompute_vs_transfer_ok : br_success (bench_recompute_vs_transfer_vs_execute random) = true.
Proof.
  unfold bench_recompute_vs_transfer_vs_execute. cbn [br_success].
  by apply (place_feasible _ _ _ _ _ _ _ (two_nodes _ _ _ _ first_two)).
Qed.

Lemma resident_state_at h id size transfer recompute n :
  resident_on (state_at h id size transfer recompute) id n = bool_decide (h = n).
Proof.
  unfold resident_on, state_at, upsert. rewrite lookup_insert_eq. cbn. by rewrite orb_false_r.
Qed.

Lemma better_score x y : f64_ltb (cs_score x) (cs_score y) = true → better x y = true.
Proof. intros H. unfold better. by rewrite (f64_ltb_not_eqb _ _ H). Qed.

(** The score of a node for a task that any executor may run, without history. *)
Definition plain_score (duration queue transfer recompute : Z) : Z :=
  f64_add (f64_add (f64_add (f64_add (f64_add (f64_add (f64_mul duration f64_1) (f64_mul queue f64_1))
    (f64_mul transfer f64_1)) (f64_mul recompute f64_1)) f64_0) f64_0) f64_0.

Lemma score_plain id workload name deps k n reg state node cap :
  find_executor_cap node EX_Any_ = Some cap →
  f64_gtb (pressure_score node EX_Any_ reg) f64_0_8 = false →
  let task := bench_task id workload name EX_Any_ deps f64_hundredth k n in
  cs_score (candidate_of cost_aware task reg state node) =
  plain_score f64_hundredth (queue_cost task node reg)
    (transfer_seconds_for state task (nr_id node) f64_1e9 f64_0_001) (recompute_seconds_for state task).
Proof.
  intros Hc Hp task. change (cs_score (candidate_of cost_aware task reg state node)) with
    (cb_total (evaluate (se_cost_model cost_aware) task node reg state f64_hundredth)).
  unfold evaluate. cbv zeta. change (ct_required_executor task) with EX_Any_. rewrite Hc.
  change (cc_pressure_threshold (cm_context (se_cost_model cost_aware))) with f64_0_8. rewrite Hp.
  change (affinity_delta task node) with f64_0.
  cbn [cb_total se_cost_model cost_aware set_policy default_engine cm_weights default_weights cm_context default_context
       cw_execution cw_queue cw_transfer cw_recompute cw_affinity cc_bandwidth_bytes_per_sec
       cc_transfer_latency_seconds].
  assert (f64_geb f64_hundredth f64_0 = true) as -> by (vm_compute; reflexivity).
  assert (f64_mul f64_0 f64_1 = f64_0) as -> by (vm_compute; reflexivity). by unfold plain_score.
Qed.

(** The node that holds the state wins over the faster one. *)
Lemma state_locality_ok : br_success (bench_state_locality random) = true.
Proof.
  unfold bench_state_locality. cbn [br_success].
  set (na := make_cpu_node (random 0) (random 2) "a-slow-local" 4 f64_1 ∅).
  set (nb := make_cpu_node (random 1) (random 3) "b-fast-remote" 4 f64_2 ∅).
  set (state := state_at _ _ _ _ _). chooses (two_nodes _ _ na nb first_two); [done|right|by apply bool_decide_true].
  pose proof (resident_state_at (random 0) "weights-8g" (Z.shiftl 8 30) (f64_of_Z 8) (f64_of_Z 30)) as R.
  fold state in R. apply better_score. rewrite !(score_plain _ _ _ _ _ _ _ _ _ (cpu_capability_of 4 _)) by (vm_compute; reflexivity).
  unfold transfer_seconds_for. cbn [foldl bench_task ct_state_dependencies]. unfold transfer_step.
  cbn [dependency_on sd_state_id sd_transfer_estimate_seconds]. rewrite !R, bool_decide_true by done.
  rewrite bool_decide_false by apply first_two. vm_compute. reflexivity.
Qed.

(** ** Reservations on a node with CPU slots *)

(** All that is booked on the node is booked on its CPU executor, one slot each. *)
Record booked (node : Id128) (n : Z) (reg : Registry) : Prop := {
  bk_slots : active_sum (holds_slots node EX_Cpu) rv_slots reg = n;
  bk_total : active_sum (active_on node) rv_slots reg = n
}.

Lemma booked_none node : booked node 0 ∅.
Proof. by split. Qed.

Definition cpu_reservation (id task node session : Id128) : Reservation :=
  mkReservation id task node session 1 1 EX_Cpu 1 0 now false.

Lemma booked_one_more node n reg id task session :
  reg !! id = None → booked node n reg → booked node (n + 1) (<[id := cpu_reservation id task node session]> reg).
Proof.
  intros Hid [H1 H2]. split; rewrite active_sum_insert, delete_id by done; [rewrite H1|rewrite H2];
    unfold holds_slots, active_on; cbn [cpu_reservation rv_node_id rv_executor rv_released rv_slots];
    rewrite !bool_decide_true by done; cbn; lia.
Qed.

(** The request is granted exactly when a slot is free. *)
Lemma reserve_one reg node session label slots task id n :
  0 < slots < 1000 → 0 <= n < 1000 → booked node n reg →
  let r := try_reserve reg (make_cpu_node node session label slots f64_1 ∅) 1 task EX_Cpu 1 0 id now in
  if n <? slots then r = (<[id := cpu_reservation id task node session]> reg,
                          mkReservationResult (Some (cpu_reservation id task node session)) [])
  else r.1 = reg ∧ rr_reservation r.2 = None.
Proof.
  intros Hs Hn [H1 H2] r. unfold r, try_reserve. cbn [make_cpu_node bench_node nr_health nr_id nr_capacity nr_session
    nr_session_epoch nc_executors nc_cpu_worker_slots nc_host_memory_scheduling_bytes].
  change (find_executor _ _) with (Some (cpu_capability_of slots f64_1)).
  rewrite !bool_decide_false by done. cbn [cpu_capability_of xc_healthy xc_slots negb].
  unfold used_executor_slots, used_cpu_slots. rewrite !(usage_loop_mod _ _ 4294967296) by done. rewrite H1, H2.
  unfold u32. rewrite !(Z.mod_small n), !(Z.mod_small slots), !(Z.mod_small (n + 1)) by lia. cbn [Z.eqb].
  change (0 <? 0) with false. rewrite andb_false_r, bool_decide_true by done. cbn [andb].
  destruct (Z.ltb_spec n slots), (Z.ltb_spec slots (n + 1)); try lia; [done|by split].
Qed.

(** A request in the goal, decided by [reserve_one]. *)
Ltac reserves n Hb :=
  match goal with |- context [try_reserve ?reg (make_cpu_node ?node ?s ?l ?k f64_1 ∅) 1 ?t EX_Cpu 1 0 ?id now] =>
    let H := fresh "H" in
    pose proof (reserve_one reg node s l k t id n ltac:(lia) ltac:(lia) Hb) as H; cbn in H;
    destruct (try_reserve reg (make_cpu_node node s l k f64_1 ∅) 1 t EX_Cpu 1 0 id now) as [? ?]; cbn [fst snd] in H
  end.

Lemma reservation_pressure_ok : br_success (bench_reservation_pressure random now) = true.
Proof.
  unfold bench_reservation_pressure. set (r1 := cpu_reservation (random 8) (random 2) (random 0) (random 1)).
  set (r2 := cpu_reservation (random 9) (random 4) (random 0) (random 1)).
  pose proof (booked_none (random 0)) as B0. assert (H89 : random 8 ≠ random 9) by (by apply drawn; lia).
  pose proof (booked_one_more _ _ _ (random 8) (random 2) (random 1) (lookup_empty _) B0) as B1. fold r1 in B1.
  assert (H9 : (<[random 8 := r1]> ∅ : Registry) !! random 9 = None)
    by (by rewrite lookup_insert_ne, lookup_empty).
  pose proof (booked_one_more _ _ _ (random 9) (random 4) (random 1) H9 B1) as B2. fold r2 in B2.
  reserves 0 B0. injection H as -> ->. fold r1. reserves 1 B1. injection H as -> ->. fold r2.
  reserves 2 B2. destruct H as [-> Hr]. cbn [br_success]. unfold granted. rewrite Hr. cbn [rr_reservation].
  rewrite !bool_decide_true, bool_decide_false by (done || by intros []). cbn [andb negb]. apply Nat.eqb_eq.
  unfold active_count, count_where. rewrite in_order_perm, map_to_list_insert, map_to_list_insert, map_to_list_empty
    by (done || apply lookup_empty). done.
Qed.

Lemma stale_completion_ok :
  ∃ r, bench_stale_completion_raw random now = Some r ∧ br_success r = true ∧ br_name r = "stale_completion_rejection".
Proof.
  unfold bench_stale_completion_raw. cbn [make_task bench_task ct_id].
  set (r1 := cpu_reservation (random 8) (random 2) (random 0) (random 1)).
  pose proof (booked_none (random 0)) as B0. assert (H89 : random 8 ≠ random 9) by (by apply drawn; lia).
  pose proof (booked_one_more _ _ _ (random 8) (random 2) (random 1) (lookup_empty _) B0) as B1. fold r1 in B1.
  reserves 0 B0. injection H as -> ->. fold r1. reserves 1 B1. injection H as -> ->. cbn [rr_reservation].
  destruct (release _ _) as [reg1 ?]. destruct (release _ _) as [reg2 ?]. eexists. split; [done|]. split; [|done].
  cbn [br_success]. by rewrite bool_decide_false.
Qed.

(** The one booking makes the node's queue longer: the other node is better. *)
Lemma queue_pressure_ok : br_success (bench_queue_pressure random now) = true.
Proof.
  unfold bench_queue_pressure, make_task. cbv zeta.
  change (ct_id (bench_task (random 4) _ _ _ _ _ _ _)) with (random 4).
  change (ct_id (bench_task (random 6) _ _ _ _ _ _ _)) with (random 6).
  set (r1 := cpu_reservation (random 8) (random 4) (random 0) (random 2)).
  pose proof (booked_none (random 0)) as B0.
  pose proof (booked_one_more _ _ _ (random 8) (random 4) (random 2) (lookup_empty _) B0) as B1. fold r1 in B1.
  reserves 0 B0. injection H as -> _. fold r1. reserves 1 B1. destruct H as [-> _]. cbn [br_success].
  set (na := make_cpu_node (random 0) (random 2) "a" 1 f64_1 ∅).
  set (nb := make_cpu_node (random 1) (random 3) "b" 2 f64_1 ∅).
  set (reg := <[random 8 := r1]> ∅ : Registry).
  assert (Hact : all_active reg = [r1]).
  { unfold all_active. assert (in_order reg = [(random 8, r1)]) as ->; [|done].
    apply Permutation_singleton_r. by rewrite in_order_perm, <-(map_to_list_singleton (random 8) r1). }
  chooses (two_nodes_swap _ _ na nb first_two); [done|right|by apply bool_decide_true].
  assert (Hp : ∀ node, In node [na; nb] → pressure_score node EX_Any_ reg = pressure_score node EX_Any_ ∅).
  { intros node [<-|[<-|[]]]; unfold pressure_score; rewrite !no_any_slots; try done;
      (intros k x Hr; unfold reg in Hr; apply lookup_insert_Some in Hr as [[_ <-]|[_ Hr]]; [done|by rewrite lookup_empty in Hr]). }
  apply better_score. rewrite (score_plain _ _ _ _ _ _ _ _ nb (cpu_capability_of 2 f64_1)),
    (score_plain _ _ _ _ _ _ _ _ na (cpu_capability_of 1 f64_1))
    by (first [reflexivity|rewrite Hp by (cbn; tauto); vm_compute; reflexivity]).
  unfold queue_cost. rewrite Hact. cbn [foldl r1 cpu_reservation rv_node_id na nb make_cpu_node bench_node nr_id].
  rewrite (bool_decide_true (random 0 = random 0)) by done. rewrite bool_decide_false by apply first_two.
  vm_compute. reflexivity.
Qed.
End placement_benches.

(** ** The concurrent run *)

Section concurrent.
Context (random : nat → Id128).

Definition ours (w : AttemptWork nat) : Prop := ∃ i, w = concurrent_work random i.
Definition threads (acts : list BenchAct) : list nat :=
  flat_map (λ a, match a with BA_Thread i => [i] | BA_Worker _ _ => [] end) acts.
Definition untouched (tokens : list bool) : Prop := ∀ t, cancelled_opt t tokens = false.

Lemma untouched_fresh n : untouched (replicate n false).
Proof.
  intros [t|]; [|done]. cbn. unfold token_is_cancelled.
  destruct (replicate n false !! t) as [b|] eqn:E; [|done]. by apply lookup_replicate in E as [-> _].
Qed.

(** Without cancellations the work succeeds. *)
Lemma ours_succeed env tokens w :
  ours w → untouched tokens → ao_success (cpu_outcome env tokens w false) = true.
Proof.
  intros [i ->] Ht. unfold cpu_outcome. set (token := kernel_token env tokens _).
  assert (Hn : ∀ k, is_cancelled token k = false).
  { intros k. unfold token, kernel_token. cbn. specialize (Ht (Some i)). cbn in Ht. by rewrite Ht, andb_false_r. }
  set (task := aw_task _). assert (Hs : wr_success (run_cpu_kernel task token).1 = true).
  { destruct (proj2 (run_cpu_kernel_ok task)) as []; [by split|]. unfold run_cpu_kernel. cbv zeta.
    destruct (run_kernel_token task token) as [->|[[k Hk] _]]; [done|congruence]. }
  destruct (run_cpu_kernel task token) as [wr device]. cbn [fst] in Hs. by rewrite Hs.
Qed.

Record quiet (s : BackendRun nat (CpuExecutorBackend nat)) : Prop := {
  qu_tokens : untouched (rn_tokens s);
  qu_stopping : pl_stopping (cpu_pool (rn_backend s)) = false;
  qu_queue : Forall ours (pl_queue (cpu_pool (rn_backend s)));
  qu_workers : Forall (λ x, ours x.1 ∧ x.2 ≠ PH_Cancelled) (pl_workers (cpu_pool (rn_backend s)));
  qu_reports : Forall (λ r, match r with WR_Completed _ out => ao_success out = true | WR_Started _ => True end)
                 (rn_reports s)
}.

Lemma quiet_worker env a (s : BackendRun nat (CpuExecutorBackend nat)) :
  quiet s → quiet (backend_event (BE_Worker env a) s).
Proof.
  intros [H1 H2 H3 H4 H5]. cbn [backend_event be_worker cpu_backend]. unfold cpu_worker.
  destruct s as [[m p] tokens acc rs]. cbn [rn_backend rn_tokens rn_accepted rn_reports cpu_pool cpu_motors] in *.
  assert (Hset : ∀ i w ph ph', pl_workers p !! i = Some (w, ph) → ph' ≠ PH_Cancelled →
    Forall (λ x, ours x.1 ∧ x.2 ≠ PH_Cancelled) (<[i := (w, ph')]> (pl_workers p))).
  { intros i w ph ph' Ei Hph. apply Forall_insert; [done|]. split; [|done].
    by apply (Forall_lookup_1 _ _ _ _ H4 Ei). }
  destruct a as [|i|i|i|i]; cbn [pool_worker]; unfold pool_take, pool_start, pool_check, pool_finish, pool_leave.
  - destruct (pl_queue p) as [|w q] eqn:Eq; [by split; cbn; rewrite ?Eq|].
    destruct (_ <? _)%nat; [|by split; cbn; rewrite ?Eq]. apply Forall_cons in H3 as [Hw H3].
    split; cbn; [done..| |by rewrite app_nil_r]. apply Forall_app_2; [done|]. by apply Forall_singleton.
  - destruct (pl_workers p !! i) as [[w []]|] eqn:Ei; try by split.
    split; cbn; [done..|by eapply Hset|]. apply Forall_app_2; [done|]. by destruct (aw_on_start w); repeat constructor.
  - destruct (pl_workers p !! i) as [[w []]|] eqn:Ei; try by split.
    rewrite (H1 (aw_token w)). split; cbn; [done..|by eapply Hset|by rewrite app_nil_r].
  - destruct (pl_workers p !! i) as [[w ph]|] eqn:Ei; [|by split].
    destruct (Forall_lookup_1 _ _ _ _ H4 Ei) as [Hw Hph]. cbn [fst snd] in *.
    rewrite (bool_decide_false (ph = PH_Cancelled)) by done. cbn [orb].
    destruct (bool_decide (ph = PH_Executing)); [|by split]. split; cbn; [done..|by eapply Hset|].
    apply Forall_app_2; [done|]. destruct (aw_on_complete w); [|done]. constructor; [|done]. by apply ours_succeed.
  - destruct (pl_workers p !! i) as [[w []]|] eqn:Ei; try by split.
    split; cbn; [done..|by apply Forall_delete|by rewrite app_nil_r].
Qed.

Lemma quiet_thread i (s : BackendRun nat (CpuExecutorBackend nat)) :
  quiet s → (length (pl_queue (cpu_pool (rn_backend s))) < kCpuQueue)%nat →
  let s' := backend_event (BE_Enqueue (concurrent_work random i)) s in
  quiet s' ∧ rn_accepted s' = rn_accepted s ++ [concurrent_work random i].
Proof.
  intros [H1 H2 H3 H4 H5] Hl. cbn [backend_event be_enqueue cpu_backend]. unfold cpu_enqueue, pool_enqueue. rewrite H2.
  destruct (Nat.leb_spec kCpuQueue (length (pl_queue (cpu_pool (rn_backend s))))); [lia|].
  split; [|done]. split; cbn; [done..| |done|done]. apply Forall_app_2; [done|]. apply Forall_singleton. by exists i.
Qed.

Lemma queue_accepted (s : BackendRun nat (CpuExecutorBackend nat)) :
  accounted s → (length (pl_queue (cpu_pool (rn_backend s))) <= length (rn_accepted s))%nat.
Proof.
  intros (fin & Ha & _). rewrite Ha, length_app. cbn [be_pending cpu_laws]. unfold pool_pending. rewrite length_app. lia.
Qed.

(** Whatever the interleaving, all the work is accepted and the run stays quiet. *)
Lemma quiet_run acts (s : BackendRun nat (CpuExecutorBackend nat)) :
  quiet s → accounted s → (length (rn_accepted s) + length (threads acts) <= kCpuQueue)%nat →
  let s' := backend_run (map (bench_event random) acts) s in
  quiet s' ∧ rn_accepted s' = rn_accepted s ++ map (concurrent_work random) (threads acts).
Proof.
  revert s. induction acts as [|a acts IH]; intros s Hq Ha Hl; [by rewrite app_nil_r|].
  change (backend_run (map (bench_event random) (a :: acts)) s) with
    (backend_run (map (bench_event random) acts) (backend_event (bench_event random a) s)).
  pose proof (backend_event_accounted (bench_event random a) s Ha) as Ha'. destruct a as [i|env a]; cbn [bench_event] in *.
  - cbn [threads flat_map app length] in Hl. pose proof (queue_accepted s Ha).
    destruct (quiet_thread i s Hq) as [Hq' E]; [lia|].
    destruct (IH _ Hq' Ha') as [Hr Er]; [rewrite E, length_app; cbn [length]; unfold threads; lia|].
    split; [done|]. by rewrite Er, E, <-app_assoc.
  - assert (E : rn_accepted (backend_event (BE_Worker env a) s) = rn_accepted s).
    { cbn [backend_event]. by destruct (be_worker _ _ _ _) as [[]|]. }
    destruct (IH _ (quiet_worker env a s Hq) Ha') as [Hr Er]; [by rewrite E|]. split; [done|]. by rewrite Er, E.
Qed.

Lemma count_completed (rs : list (WorkerReport nat)) :
  count (λ r, match r with WR_Completed _ _ => true | WR_Started _ => false end) rs
  = Z.of_nat (length (completed_keys rs)).
Proof.
  unfold count. f_equal. induction rs as [|[k|k out] rs IH]; [done|exact IH|]. cbn [List.filter length]. by rewrite IH.
Qed.

Lemma count_ext_Forall {A} (p q : A → bool) l : Forall (λ x, p x = q x) l → count p l = count q l.
Proof.
  unfold count. induction 1 as [|x l E _ IH]; [done|]. cbn [List.filter]. rewrite E.
  destruct (q x); cbn [length]; lia.
Qed.

(** The run fails only when the workers do not finish before the deadline. *)
Lemma concurrent_tasks_ok acts :
  threads acts ≡ₚ seq 0 8 →
  be_idle (rn_backend (backend_run (map (bench_event random) acts) (fresh_cpu 2 (replicate 8 false)))) = true →
  br_success (bench_concurrent_tasks random acts) = true.
Proof.
  intros Ht Hi. unfold bench_concurrent_tasks. set (s := backend_run _ _) in *. cbn [br_success].
  destruct (fresh_cpu_ok (K := nat) 2 (replicate 8 false)) as [_ Hacc]; [done|].
  destruct (quiet_run acts (fresh_cpu 2 (replicate 8 false))) as [Hq Ea]; [|done| |].
  { split; [exact (untouched_fresh 8)|done|constructor..]. }
  { cbn [fresh_cpu rn_accepted length]. rewrite Ht. apply Nat.leb_le. reflexivity. }
  fold s in Hq, Ea. cbn [fresh_cpu rn_accepted app] in Ea.
  apply (backend_run_accounted (map (bench_event random) acts)) in Hacc as (fin & Hf & Hc & _). fold s in Hf, Hc.
  destruct (idle_pending _ Hi) as [Ep _]. rewrite Ep, app_nil_r, Ea in Hf.
  assert (Hlen : length (completed_keys (rn_reports s)) = 8%nat).
  { rewrite Hc. unfold complete_keys. rewrite <-Hf. rewrite flat_map_concat_map, map_map.
    change (map (λ x, option_list (aw_on_complete (concurrent_work random x))) (threads acts)) with
      (map (λ x, [x]) (threads acts)). rewrite <-flat_map_concat_map.
    assert (∀ l : list nat, length (flat_map (λ x, [x]) l) = length l) as -> by (induction l; cbn; auto).
    by rewrite Ht. }
  assert (Eok : count (λ r, match r with WR_Completed _ out => ao_success out | WR_Started _ => false end) (rn_reports s) =
    count (λ r, match r with WR_Completed _ _ => true | WR_Started _ => false end) (rn_reports s)).
  { apply count_ext_Forall, (Forall_impl _ _ _ (qu_reports _ Hq)). by intros []. }
  by rewrite Eok, count_completed, Hlen.
Qed.
End concurrent.

(** ** The fabric runs *)

Section fabric.
Context (random : nat → Id128) (env : Env) (fuel : nat) (span : Z).
Context (Ht : timely env fuel span) (Hspan : 60000 <= span).

Lemma submit_bench_does ts c h :
  client_fits c →
  does (submit_bench env fuel ts c) h
    (talked h (λ ids, (length ids <= length ts)%nat ∧ (length ids = length ts → ids = map ct_id ts))).
Proof.
  revert c h. induction ts as [|t ts IH]; intros c h Hc; cbn [submit_bench]; [by apply does_ret|].
  apply does_bind. eapply does_mono; [by apply (call_client_does env fuel span Ht)|]. intros [r c1] h1 [L1 F1].
  apply does_bind. eapply does_mono; [by apply IH|]. intros [ids c2] h2 (L2 & F2 & Hl & He). cbn [fst snd] in *.
  apply does_ret. split_and!; [by etrans|done|cbn [fst]..];
    destruct r as [r|]; [destruct (tsr_accepted r)| |destruct (tsr_accepted r)|]; cbn [length map]; try lia.
  intros [= E]. by rewrite He.
Qed.

Definition answered (ids : list Id128) (answers : list (Result TaskInspectResponse)) : Prop :=
  answers = [] ∨ length answers = length ids.

Lemma wait_succeeded_does N n deadline ids answers c h :
  (∀ i, (N <= i)%nat → deadline <= e_clock env i) → (N < h_ticks h + n)%nat → (0 < n)%nat → client_fits c →
  answered ids answers →
  does (wait_succeeded env fuel n deadline ids answers c) h (talked h (answered ids)).
Proof.
  intros HN. revert answers c h. induction n as [|n IH]; intros answers c h Hn H0 Hc Ha; [lia|]. cbn [wait_succeeded].
  apply does_bind, now_does. set (h1 := mkHost _ _ _). assert (L1 : later h h1) by (apply later_tick; lia).
  destruct (Z.leb_spec deadline (e_clock env (h_ticks h))) as [|Hlt]; [by apply does_ret|].
  assert (h_ticks h < N)%nat by (destruct (decide (N <= h_ticks h)%nat) as [Hle|]; [specialize (HN _ Hle)|]; lia).
  apply does_bind. eapply does_mono; [by apply (inspect_all_does env fuel span Ht)|].
  intros [vs c2] h2 (L2 & F2 & Hv). cbn [fst snd] in *.
  assert (L : later h h2) by by etrans. destruct (_ =? _); [apply does_ret; by split_and!; [..|right]|].
  pose proof (la_ticks _ _ L2) as T. cbn [h1 h_ticks] in T.
  eapply does_mono; [apply IH; [lia|lia|done|by right]|]. intros x h3 (L3 & F3 & A3). split_and!; [by etrans|done..].
Qed.

(** What a successful run has heard: all three tasks were accepted and in its last
    pass the coordinator said of each that it succeeded. *)
Record bench_truthful (cuda : bool) (b : FabricBench) : Prop := {
  bt_name : br_name (fb_result b) = fabric_bench_name cuda;
  bt_success : br_success (fb_result b) = true →
    fb_submitted b = map (λ i, ct_id (mp_task random cuda i)) [0%nat; 1%nat; 2%nat] ∧
    length (fb_answers b) = 3%nat ∧ Forall (λ v, succeeded v = true) (fb_answers b)
}.

Lemma count_whole {A} (p : A → bool) l : count p l = Z.of_nat (length l) → Forall (λ x, p x = true) l.
Proof.
  unfold count. induction l as [|x l IH]; [done|]. cbn [List.filter]. pose proof (List.filter_length_le p l).
  destruct (p x) eqn:E; cbn [length]; intros Hc; [constructor; [done|apply IH; lia]|lia].
Qed.

Lemma bench_fabric_does cuda nodes cli_path h :
  h_procs h = ∅ →
  does (bench_multi_process_fabric random env fuel cuda nodes cli_path) h
    (λ b h', bench_truthful cuda b ∧ (obliging env → h_procs h' = ∅)).
Proof.
  intros He. unfold bench_multi_process_fabric. apply does_bind. eapply does_mono; [by eapply launch_does|].
  assert (Hfail : ∀ reason, bench_truthful cuda (fabric_bench_failed cuda reason)) by done.
  intros [f|e] h1 Hl; cbn [launch_outcome] in Hl; [|by apply does_ret].
  destruct Hl as [Hla Htr]. apply does_bind.
  eapply does_mono; [eapply (wait_registered_does env fuel span Ht 15000); [lia|apply Htr]|].
  intros [wr f2] h2 [S2 _]. cbn [snd] in S2. pose proof (tracked_step _ _ _ _ S2 Htr) as Htr2.
  assert (Hend : ∀ b f h0, bench_truthful cuda b → tracked h0 f →
    does (destroy env fuel b f) h0 (λ b h', bench_truthful cuda b ∧ (obliging env → h_procs h' = ∅))).
  { intros b f0 h0 Hb Ht0. eapply does_mono; [by eapply destroy_does|]. by intros b' h' (-> & Ho & _). }
  assert (Hstop : ∀ reason h0, later h2 h0 → does (stop_bench env fuel (fabric_bench_failed cuda reason) f2) h0
    (λ b h', bench_truthful cuda b ∧ (obliging env → h_procs h' = ∅))).
  { intros reason h0 L. assert (tracked h0 f2) by (by eapply tracked_step, Htr2; apply fabric_refl).
    unfold stop_bench. apply does_bind. eapply does_mono; [by eapply shutdown_all_does, tr_pids|].
    intros [r f3] h3 (S3 & _). cbn [fst snd] in S3. by apply Hend, tracked_step with h0 f2. }
  destruct wr as [|e]; [|by apply Hstop]. apply does_bind. unfold Launcher.make_client. apply does_bind.
  eapply does_mono; [apply connect_client_does|]. intros [cr c] h3 [L3 F3]. apply does_ret. cbn [snd] in F3.
  destruct cr as [|e]; [|by apply Hstop]. apply does_bind. eapply does_mono; [by apply submit_bench_does|].
  intros [ids c4] h4 (L4 & F4 & Hlen & Hids). apply does_bind, now_does. set (h5 := mkHost _ _ _).
  assert (L5 : later h4 h5) by (apply later_tick; lia).
  apply does_bind. eapply does_mono; [apply (wait_succeeded_does (h_ticks h4 + fuel)%nat); [| | |exact F4|by left]|].
  { intros i Hi. etrans; [|by apply (ti_mono _ _ _ Ht)]. pose proof (ti_span _ _ _ Ht (h_ticks h4)). lia. }
  { cbn. lia. }
  { by eapply fuel_pos. }
  intros [answers c6] h6 (L6 & F6 & Ha). cbn [fst snd] in *. cbv zeta.
  assert (L : later h2 h6) by (repeat (etrans; [eassumption|]); done).
  assert (Htr6 : tracked h6 f2) by (eapply tracked_step; [by apply fabric_refl|done]).
  apply does_bind. eapply does_mono; [by eapply shutdown_all_does, tr_pids|].
  intros [stopped f7] h7 (S7 & _). cbn [fst snd] in S7. apply Hend; [|by eapply tracked_step].
  split; [done|]. cbn [fb_result fb_submitted fb_answers br_success].
  intros [Hl%Nat.eqb_eq Hs%Z.eqb_eq]%andb_true_iff. destruct Ha as [->|Hn]; [done|]. rewrite Hl in Hn.
  split_and!; [|done|apply count_whole; by rewrite Hn]. rewrite Hids by (by rewrite Hl, length_map).
  by rewrite map_map.
Qed.
End fabric.

(** ** The measured runs of the executors *)

Lemma cpu_execution_does random env h :
  does (bench_cpu_execution random env) h
    (λ r h', later h h' ∧ br_name r = "local_cpu_execution" ∧ br_success r = true).
Proof.
  unfold bench_cpu_execution. apply does_bind, now_does, does_bind, now_does, does_ret. cbn [h_procs h_ticks h_calls].
  split; [apply later_tick; lia|]. split; [done|]. cbn [br_success].
  apply run_cpu_kernel_ok. by split.
Qed.

(** Nothing fails on the device and what is freed is free. *)
Definition device_ok (devs : list ExecutorCapability) (calls : CudaCalls) : Prop :=
  devs ≠ [] ∧ calls_ok calls 200000 ∧ (∀ k, cc_free calls k = None).

Lemma cuda_run_ok calls ordinal task g :
  calls_ok calls (cuda_n task) → kernel_n task <= kGrid →
  let r := (cuda_run_vector_transform calls ordinal task g).1 in
  cr_success r = true ∧ cr_elements r = cuda_n task ∧ cr_bytes_transferred r = u64 (u64 (cuda_n task * 4) * 2).
Proof.
  intros Hok Hn. cbv zeta. rewrite cuda_run_compute by done. pose proof (cuda_n_range task) as Hr.
  rewrite cuda_compute_ok by (done || lia). rewrite drop_ge; [done|].
  set (a := low32 _). set (b := low32 _). set (seed := low32 _).
  pose proof (length_transformed calls (cuda_n task) a b seed). pose proof (grid_covers (cuda_n task) Hr) as Hg.
  assert (cuda_n task <= kGrid) by (unfold cuda_n; lia). destruct (Z.leb_spec (cuda_n task) kGrid); [|lia].
  pose proof (Z.div_mod (cuda_n task + 255) 256). pose proof (Z.mod_pos_bound (cuda_n task + 255) 256). lia.
Qed.

Lemma cuda_execution_does random env devs calls h :
  Forall (λ d, xc_device_ids d ≠ []) devs →
  does (bench_cuda_execution random env devs calls) h
    (λ r h', later h h' ∧ br_name r = "local_cuda_execution" ∧ (device_ok devs calls → br_success r = true)).
Proof.
  intros Hids. unfold bench_cuda_execution. destruct devs as [|d devs].
  { apply does_ret. split_and!; [done|done|by intros []]. }
  apply Forall_cons in Hids as [Hd _]. destruct (xc_device_ids d) as [|ordinal ids]; [done|].
  set (task := bench_task _ _ _ _ _ _ _ _). apply does_bind, now_does.
  destruct (cuda_run_vector_transform calls ordinal task 0) as [res g] eqn:E. apply does_bind, now_does, does_ret.
  cbn [h_procs h_ticks h_calls]. split; [apply later_tick; lia|]. split; [done|]. intros (_ & Hok & Hf).
  pose proof (cuda_run_ok calls ordinal task 0) as Hrun. pose proof (cuda_no_leak calls ordinal task 0 Hf) as Hg.
  rewrite E in Hrun, Hg. cbn [fst snd] in Hrun, Hg. destruct Hrun as (H1 & H2 & H3); [done|done|].
  cbn [br_success]. by rewrite H1, H2, H3, Hg.
Qed.

(** ** The suite *)

Lemma reservation_names random now :
  br_name (bench_queue_pressure random now) = "queue_pressure" ∧
  br_name (bench_reservation_pressure random now) = "reservation_pressure".
Proof.
  unfold bench_queue_pressure, bench_reservation_pressure. by repeat destruct (try_reserve _ _ _ _ _ _ _ _ _).
Qed.

Definition suite_names (cuda : bool) : list string :=
  ["local_cpu_execution"] ++ (if cuda then ["local_cuda_execution"] else [])
  ++ ["cpu_vs_cuda_placement"; "state_locality"; "transfer_vs_execution"; "recompute_vs_transfer_vs_execute";
      "queue_pressure"; "capability_match"; "priority_order"; "reservation_pressure"; "concurrent_tasks";
      "stale_completion_rejection"; "multi_process_fabric"]
  ++ (if cuda then ["multi_process_cuda_fabric"] else []).

(** The executor has finished the work of the eight threads. *)
Definition threads_finish (random : nat → Id128) (acts : list BenchAct) : Prop :=
  threads acts ≡ₚ seq 0 8 ∧
  be_idle (rn_backend (backend_run (map (bench_event random) acts) (fresh_cpu 2 (replicate 8 false)))) = true.

(** What is behind a result that is not decided by the code alone. *)
Definition behind (random : nat → nat → Id128) (devs : list ExecutorCapability) (calls : CudaCalls)
    (acts : list BenchAct) (r : BenchResult) : Prop :=
  (br_name r = "local_cuda_execution" ∧ (device_ok devs calls → br_success r = true)) ∨
  (br_name r = "concurrent_tasks" ∧ (threads_finish (random 10%nat) acts → br_success r = true)) ∨
  (∃ (cuda : bool) (b : FabricBench), fb_result b = r ∧ bench_truthful (random (if cuda then 13%nat else 12%nat)) cuda b) ∨
  br_success r = true.

Section run.
Context (random : nat → nat → Id128) (env : Env) (fuel : nat) (span : Z) (devs : list ExecutorCapability)
  (calls : CudaCalls) (acts : list BenchAct).
Context (Ht : timely env fuel span) (Hspan : 60000 <= span).
Context (Hdraws : ∀ b, NoDup (map (random b) (seq 0 24))).
Context (Hdevs : Forall (λ d, xc_device_ids d ≠ []) devs).

Lemma run_all_does cuda cli_path h :
  h_procs h = ∅ → (cuda = true → obliging env) →
  does (run_all random env fuel devs calls acts cuda cli_path) h
    (λ rs h', map br_name rs = suite_names cuda ∧ Forall (behind random devs calls acts) rs ∧
       (obliging env → h_procs h' = ∅)).
Proof.
  intros He Hc. unfold run_all. apply does_bind. eapply does_mono; [apply cpu_execution_does|].
  intros cpu h1 (L1 & N1 & S1). apply does_bind.
  eapply (does_mono _ _ (λ (rs : list BenchResult) (h' : Host), later h h' ∧ map br_name rs = (if cuda then ["local_cuda_execution"] else []) ∧
    Forall (behind random devs calls acts) rs)).
  { destruct cuda; [|by apply does_ret]. apply does_bind. eapply does_mono; [by apply cuda_execution_does|].
    intros r h2 (L2 & N2 & S2). apply does_ret. split_and!; [by etrans|cbn; by rewrite N2|]. constructor; [by left|done]. }
  intros gpu h2 (L2 & N2 & S2). apply does_bind, now_does. set (now := e_clock _ _). set (h3 := mkHost _ _ _).
  assert (L3 : later h h3) by (etrans; [exact L2|apply later_tick; lia]). apply does_bind.
  destruct (stale_completion_ok (random 11%nat) now (Hdraws _)) as (stale & Es & Ss & Ns).
  exists stale, h3. rewrite Es. split; [done|]. apply does_bind.
  eapply does_mono; [eapply bench_fabric_does; [done|done|by eapply later_empty]|]. intros fab h4 [T4 O4]. apply does_bind.
  eapply (does_mono _ _ (λ (rs : list BenchResult) (h' : Host), (obliging env → h_procs h' = ∅) ∧
    map br_name rs = (if cuda then ["multi_process_cuda_fabric"] else []) ∧ Forall (behind random devs calls acts) rs)).
  { destruct cuda; [|by apply does_ret]. specialize (O4 (Hc eq_refl)). apply does_bind.
    eapply does_mono; [by eapply bench_fabric_does|]. intros fab5 h5 [T5 O5]. apply does_ret.
    split_and!; [done|cbn; by rewrite (bt_name _ _ _ T5)|]. constructor; [|done]. right; right; left. by exists true, fab5. }
  intros cfab h5 (O5 & N5 & S5). apply does_ret. split_and!; [| |done].
  - rewrite !map_app, N2, N5. cbn [map app]. rewrite N1, Ns, (bt_name _ _ _ T4), (proj1 (reservation_names _ _)),
      (proj2 (reservation_names _ _)). by destruct cuda.
  - assert (Hok : ∀ r, br_success r = true → behind random devs calls acts r) by (intros; by right; right; right).
    repeat apply Forall_app_2; try done; [by apply Forall_singleton, Hok|].
    rewrite !Forall_cons. split_and!.
    + by apply Hok, cpu_vs_cuda_placement_ok.
    + by apply Hok, state_locality_ok.
    + by apply Hok, transfer_vs_execution_ok.
    + by apply Hok, recompute_vs_transfer_ok.
    + by apply Hok, queue_pressure_ok.
    + by apply Hok, capability_match_ok.
    + by apply Hok.
    + by apply Hok, reservation_pressure_ok.
    + right; left. split; [done|]. intros [H1 H2]. by apply concurrent_tasks_ok.
    + by apply Hok.
    + right; right; left. by exists false, fab.
    + done.
Qed.
End run.

Lemma count_failures rs : Forall (λ r, br_success r = true) rs → count (λ r, negb (br_success r)) rs = 0.
Proof. unfold count. induction 1 as [|r rs Hr _ IH]; [done|]. cbn [List.filter]. by rewrite Hr. Qed.

(** The suite's exit code is decided by the measured runs alone.  With any
    identifiers that are drawn distinct, any processes, network and device, and a
    clock that goes on, the suite returns; its exit code is 0 or 1, and 0 exactly
    when every result is a success.  The benchmarks of the scheduler, of the
    reservations and of the CPU kernel always succeed; the concurrent one does in
    every interleaving in which the executor's workers finish the work in time; the
    CUDA one on a device where nothing fails; a fabric run only when all its tasks
    were accepted and last reported as succeeded.  When signals and waits work no
    process is left. *)
Theorem benchmark_suite_verdict (random : nat → nat → Id128) (env : Env) (fuel : nat) (span : Z)
    (devs : list ExecutorCapability) (calls : CudaCalls) (acts : list BenchAct) (fmt_f : Z → Z → string)
    (exe mode : string) (cuda : bool) (cli_path : string) (h : Host) :
  timely env fuel span → 60000 <= span → h_procs h = ∅ → (cuda = true → obliging env) →
  (∀ b, NoDup (map (random b) (seq 0 24))) → Forall (λ d, xc_device_ids d ≠ []) devs →
  ∃ code lines rs h',
    run_benchmark_suite random env fuel devs calls acts fmt_f exe mode cuda cli_path h = Some ((code, lines), h') ∧
    drop 2 lines = map (print_result fmt_f) rs
      ++ ["[BENCH] summary failures=" +:+ to_string (count (λ r, negb (br_success r)) rs)] ∧
    map br_name rs = suite_names cuda ∧ Forall (behind random devs calls acts) rs ∧
    (code = 0 ∨ code = 1) ∧ (code = 0 ↔ Forall (λ r, br_success r = true) rs) ∧
    (obliging env → h_procs h' = ∅).
Proof.
  intros Ht Hs He Hc Hd Hv. unfold run_benchmark_suite.
  set (path := if bool_decide (cli_path = "") then exe else cli_path).
  destruct (run_all_does random env fuel span devs calls acts Ht Hs Hd Hv cuda path h He Hc)
    as (rs & h' & E & Hn & Hb & Ho). unfold mbind, act_bind. rewrite E. cbv zeta. eexists _, _, rs, h'.
  split; [reflexivity|]. split_and!; [done|done|done|by destruct (_ =? _); auto| |done].
  destruct (Z.eqb_spec (count (λ r, negb (br_success r)) rs) 0) as [E0|E0]; split; try done.
  - intros _. apply count_none. lia.
  - intros Hall. destruct E0. by apply count_failures.
Qed.

(** *** Sample runs *)

Definition bench_ids (b i : nat) : Id128 := mkId (Z.of_nat b) (Z.of_nat i).

Lemma bench_ids_distinct b : NoDup (map (bench_ids b) (seq 0 24)).
Proof. apply NoDup_fmap_2; [|apply NoDup_seq]. intros i j [= E%Nat2Z.inj]. done. Qed.

(** The threads enqueue in turn, then one worker does all the work. *)
Definition one_after_the_other : list BenchAct :=
  map BA_Thread (seq 0 8)
  ++ concat (replicate 8 (map (BA_Worker sample_env) [WA_Take; WA_Start 0; WA_Check 0; WA_Finish 0; WA_Leave 0])).

Example one_worker_finishes : threads_finish (bench_ids 10) one_after_the_other.
Proof. split; [reflexivity|]. lazy. reflexivity. Qed.

Lemma benchmark_suite_verdict_witness :
  ∃ code lines rs h',
    run_benchmark_suite bench_ids (local_env 17 TS_Succeeded) (6 * 1001) [] (healthy_device []) one_after_the_other
      (λ _ _, "") "/bin/cf" "" false "" empty_host = Some ((code, lines), h') ∧
    length rs = 12%nat ∧ (code = 0 ↔ Forall (λ r, br_success r = true) rs).
Proof.
  destruct (benchmark_suite_verdict bench_ids (local_env 17 TS_Succeeded) (6 * 1001) 60000 [] (healthy_device [])
    one_after_the_other (λ _ _, "") "/bin/cf" "" false "" empty_host) as (code & lines & rs & h' & E & _ & Hn & _ & _ & Hc & _);
    [apply scripted_timely; lia|lia|done|done|apply bench_ids_distinct|done|].
  exists code, lines, rs, h'. split_and!; [exact E| |exact Hc]. apply (f_equal length) in Hn. by rewrite length_map in Hn.
Defined.
