(* ===== verification/Fabric.v ===== *)
(** * Fabric: a node and the coordinator together

    What a node reports about an attempt ([NodeProps]), the frames of its reports,
    the coordinator's reader and command loop ([Coordinator]) and the commit
    ([CoordCommit]) composed: the result of a dispatched attempt makes its task
    succeed. *)

From S2P Require Import Prelude Status Ids Digest Float64 Task Lifecycle Dag Reservation Wire Frame Socket Channel Serialize Messages Workloads Cuda Executor NodeRuntime NodeProps.
From S2P Require Import Placement Locality Scheduler Store Outbound CoordState CoordNodes CoordAttempts CoordSched CoordClient Coordinator CoordInv CoordDurable CoordRecovery CoordProps CoordReadiness CoordCommit.

Local Open Scope Z_scope.

(** ** Reports become commands *)

Lemma reader_of_reads {A} (p : Parse A) bs (a : A) : reads p bs a → (p (reader_of bs)).1 = Ok a.
Proof. intros Hr. specialize (Hr 0 []). rewrite app_nil_r in Hr. unfold reader_of. by rewrite Hr. Qed.

Section reports.
Context {C : Type} (n : Node C).

Lemma started_command st q :
  attempt_started_wf st → node_command (node_frame n (MAttemptStarted st) q) = Some (K_AttemptStarted st).
Proof.
  intros Hw. change (node_command _) with (parsed deserialize_attempt_started (node_frame n (MAttemptStarted st) q) K_AttemptStarted).
  unfold parsed. cbn [node_frame make_frame fr_payload serialize_message].
  by rewrite (reader_of_reads _ _ _ (attempt_started_reads st Hw)).
Qed.

Lemma complete_command co q :
  attempt_complete_wf co → node_command (node_frame n (MAttemptComplete co) q) = Some (K_AttemptComplete co).
Proof.
  intros Hw. change (node_command _) with (parsed deserialize_attempt_complete (node_frame n (MAttemptComplete co) q) K_AttemptComplete).
  unfold parsed. cbn [node_frame make_frame fr_payload serialize_message].
  by rewrite (reader_of_reads _ _ _ (attempt_complete_reads co Hw)).
Qed.
End reports.

(** ** Finding an attempt whose id is unique *)

Lemma find_in_lists_exists id (m : gmap Id128 (list ExecutionAttempt)) tid i l a :
  m !! tid = Some l → l !! i = Some a → at_id a = id → is_Some (find_in_lists id (in_order m)).
Proof.
  intros Hm Hl Ha. apply elem_of_in_order in Hm. revert Hm.
  induction (in_order m) as [|[t k] ls IH]; intros Hin; [by apply not_elem_of_nil in Hin|]. cbn [find_in_lists].
  destruct (list_find (λ a, at_id a = id) k) as [[j b]|] eqn:E; [by eexists|].
  apply elem_of_cons in Hin as [[= <- <-]|Hin]; [|by apply IH]. exfalso.
  apply list_find_None in E. rewrite Forall_forall in E. by apply (E a); [eapply list_elem_of_lookup_2|].
Qed.

Lemma find_unique s p a :
  attempt_at s p = Some a → (∀ q b, attempt_at s q = Some b → at_id b = at_id a → q = p) →
  find_in_lists (at_id a) (in_order (c_attempts s)) = Some (p, a).
Proof.
  intros Ha Hu. pose proof Ha as Ha'. unfold attempt_at in Ha'. apply bind_Some in Ha' as (l & Hl & Hi).
  destruct (find_in_lists_exists (at_id a) (c_attempts s) p.1 p.2 l a Hl Hi eq_refl) as [[q b] E].
  rewrite E. apply find_in_lists_some in E as [Hq Hb]. fold (attempt_at s q) in Hq.
  pose proof (Hu q b Hq Hb) as ->. congruence.
Qed.

(** ** The start of an attempt *)

Lemma persist_queue s :
  c_queue (exec persist s) = c_queue s ∧ c_core_running (exec persist s) = c_core_running s.
Proof.
  unfold exec, persist, mbind, core_bind, modify, save_durable. core_cbn.
  destruct (c_store s) eqn:E; [|done]. destruct (store_save _ _ _ _). by core_cbn.
Qed.

Lemma attempt_started_effect s cmd st p a :
  find_in_lists (ast_attempt_id st) (in_order (c_attempts s)) = Some (p, a) →
  at_coordinator_epoch a = ds_epoch (c_durable s) →
  task_state (c_graph s) (at_task_id a) = TS_Dispatching →
  let s' := exec (handle_attempt_started cmd st) s in
  c_attempts s' = alter (alter (mark_started (ast_started_at_ms st) (ast_device st)) p.2) p.1 (c_attempts s) ∧
  c_graph s' = (set_state (c_graph s) (at_task_id a) TS_Running).1 ∧
  c_cancel_requested s' = c_cancel_requested s ∧
  c_queue s' = c_queue s ∧ c_core_running s' = c_core_running s.
Proof.
  intros Hf He Hst s'. remember s' as x eqn:E. unfold s', exec, handle_attempt_started, find_active_attempt in E.
  erewrite core_bind_eq in E by reflexivity. rewrite Hf in E. erewrite core_bind_eq in E by reflexivity.
  rewrite He, Z.eqb_refl in E. cbn [negb] in E. erewrite core_bind_eq in E by reflexivity.
  set (s1 := set_attempts _ _) in E. unfold ignore, set_task_st in E. unfold mbind, core_bind, mret, core_ret in E.
  change (c_graph s1) with (c_graph s) in E.
  destruct (set_state (c_graph s) (at_task_id a) TS_Running) as [g res]. cbv beta iota in E.
  subst x. pose proof (persist_graph (set_graph g s1)) as P1.
  destruct (persist_keeps (set_graph g s1)) as (P2 & _ & P3).
  destruct (persist_queue (set_graph g s1)) as [P4 P5]. unfold exec in *. by rewrite P1, P2, P3, P4, P5.
Qed.

(** ** What the node says about the attempt *)

Section node.
Context {C : Type} `{!ExecutorBackend DispatchAttempt C} `{!BackendLaws DispatchAttempt C}.
Context (clock : nat → Z).

(** A completion the node has reported is of a dispatch it has received, and the
    start of the attempt was reported before. *)
Lemma completion_origin (n : Node C) es co b :
  no_work n → (MAttemptComplete co, b) ∈ n_sent (node_run clock es n) →
  (∃ m, m ∈ dispatches clock es n ∧ da_attempt_id m = acm_attempt_id co ∧
        da_reservation_id m = acm_reservation_id co) ∧
  ∃ st b', (MAttemptStarted st, b') ∈ n_sent (node_run clock es n) ∧ ast_attempt_id st = acm_attempt_id co.
Proof.
  intros Hn Hin. destruct (node_run_accounts clock es [] n (no_work_accounts n Hn)) as [(dr & Hk & _) _ _ _ Hq].
  cbn [app] in Hk. split.
  - assert (Hrep : (acm_attempt_id co, acm_task_id co, acm_reservation_id co) ∈ map key_of_dispatch (dispatches clock es n)).
    { rewrite Hk. apply elem_of_app. left. apply list_elem_of_omap. by exists (MAttemptComplete co, b). }
    apply list_elem_of_fmap in Hrep as (m & Em & Hm). exists m. unfold key_of_dispatch in Em. by simplify_eq.
  - apply list_elem_of_split in Hin as (pre & post & E).
    destruct (Hq pre _ post (acm_attempt_id co) E eq_refl) as (t & d & b' & Hst).
    exists (mkAttemptStarted (acm_attempt_id co) t d), b'. split; [|done]. rewrite E. apply elem_of_app. by left.
Qed.
End node.

(** ** The reports in the coordinator *)

(** A report that arrives on an idle coordinator's node connection is queued. *)
Definition report_command (ref : ConnRef) (f : Frame) (k : CommandKind) : CoreCommand :=
  mkCoreCommand k (Some ref) None (fh_request_id (fr_header f)) (shutdown_target f) id_zero.

Lemma report_queued s ref r f k :
  node_command f = Some k → (∀ reg, k ≠ K_NodeRegister reg) → nrd_handshake_done r = true →
  c_stopping s = false → (length (c_queue s) < kMaxQueue)%nat →
  exec (event (E_NodeFrame ref r (Ok f))) s = set_queue (c_queue s ++ [report_command ref f k]) s.
Proof.
  intros Hk Hreg Hr Hst Hq. unfold exec, event, node_reader_step. rewrite Hr. cbn [negb]. rewrite Hk.
  unfold reader_action, push_command, modify, gets, mbind, core_bind, can_push. rewrite Hst. cbn [negb andb].
  destruct (Nat.ltb_spec (length (c_queue s)) kMaxQueue); [|lia]. cbn [snd]. rewrite Hst. cbn [negb andb].
  destruct (Nat.ltb_spec (length (c_queue s)) kMaxQueue); [|lia]. done.
Qed.

Lemma command_taken s cmd rest :
  c_core_running s = true → c_queue s = cmd :: rest → cmd_kind cmd ≠ K_Shutdown →
  exec (event E_Command) s = exec (process cmd) (set_queue rest s).
Proof.
  intros Hr Hq Hk. unfold exec, event, core_step, when, mbind, core_bind, gets, modify. rewrite Hr, Hq.
  cbv beta iota. by destruct (cmd_kind cmd).
Qed.

(** Reporting start and result of an attempt to an idle coordinator. *)
Section outcome.
Context (s : Coordinator) (p : AttemptPtr) (a : ExecutionAttempt).

(** The attempt is out on a node, and nothing has been heard of it yet. *)
Record awaited : Prop := {
  aw_reachable : reachable s;
  aw_running : c_core_running s = true ∧ c_stopping s = false ∧ c_queue s = [];
  aw_attempt : attempt_at s p = Some a;
  aw_unique : ∀ q b, attempt_at s q = Some b → at_id b = at_id a → q = p;
  aw_state : at_state a = AS_Dispatched ∧ at_committed a = false;
  aw_task_state : task_state (c_graph s) (at_task_id a) = TS_Dispatching;
  aw_cancel : c_cancel_requested s !! at_task_id a ≠ Some true
}.

Context (Haw : awaited).

Lemma awaited_epoch e : core_ok e s → at_coordinator_epoch a = ds_epoch (c_durable s).
Proof.
  intros Hok. rewrite (ck_epoch e s Hok). pose proof (aw_attempt Haw) as Ha. unfold attempt_at in Ha.
  apply bind_Some in Ha as (l & Hl & Hi). pose proof (ck_attempts e s Hok _ _ Hl) as Hall.
  rewrite Forall_forall in Hall. apply (Hall a); [by eapply list_elem_of_lookup_2|]. apply (aw_state Haw).
Qed.

(** The state after the start was processed, with the result next. *)
Lemma after_start cmd st queue :
  ast_attempt_id st = at_id a →
  ∃ e, let s1 := exec (handle_attempt_started cmd st) (set_queue queue s) in
    let a1 := mark_started (ast_started_at_ms st) (ast_device st) a in
    core_ok e s1 ∧ c_queue s1 = queue ∧ c_core_running s1 = true ∧
    find_in_lists (at_id a) (in_order (c_attempts s1)) = Some (p, a1) ∧
    at_coordinator_epoch a1 = ds_epoch (c_durable s1) ∧
    task_state (c_graph s1) (at_task_id a) = TS_Running ∧
    c_cancel_requested s1 !! at_task_id a ≠ Some true.
Proof.
  intros Hid. destruct (reachable_clean _ (aw_reachable Haw)) as [e [Hok _]]. exists e. cbv zeta.
  destruct Haw as [_ (Hr & Hst & _) Ha Hu [Hs Hc] Ht Hk]. pose proof (awaited_epoch e Hok) as He.
  set (s0 := set_queue queue s). set (a1 := mark_started _ _ a).
  assert (Hok0 : core_ok e s0) by (destruct Hok; by split).
  assert (Hf0 : find_in_lists (ast_attempt_id st) (in_order (c_attempts s0)) = Some (p, a)).
  { rewrite Hid. by apply (find_unique s). }
  destruct (attempt_started_effect s0 cmd st p a Hf0 He Ht) as (A1 & G1 & K1 & Q1 & R1).
  pose proof (handle_attempt_started_ok e cmd st s0 Hok0) as Hok1. unfold exec in *.
  set (s1 := (handle_attempt_started cmd st s0).2) in *.
  assert (Hat : ∀ q, attempt_at s1 q = if decide (q = p) then mark_started (ast_started_at_ms st) (ast_device st)
    <$> attempt_at s q else attempt_at s q).
  { intros q. pose proof (attempt_at_alter (mark_started (ast_started_at_ms st) (ast_device st)) p q s) as Hal.
    rewrite <-Hal. unfold attempt_at. core_cbn. by rewrite A1. }
  split_and!; [done|by rewrite Q1|by rewrite R1| | | |by rewrite K1].
  - apply (find_unique s1 p a1).
    + by rewrite Hat, decide_True, Ha.
    + intros q b. rewrite Hat. case_decide as E; [done|]. intros Hq Hb. by apply (Hu q b).
  - rewrite (ck_epoch e s1 Hok1), <-(ck_epoch e s Hok). exact He.
  - rewrite G1. assert (Hsome : is_Some (g_states (c_graph s) !! at_task_id a)).
    { unfold task_state in Ht. destruct (g_states (c_graph s) !! at_task_id a); [by eexists|done]. }
    pose proof (task_state_set_state (c_graph s) (at_task_id a) TS_Running (at_task_id a) Hsome) as E.
    rewrite decide_True, Ht in E by done. exact E.
Qed.

Lemma reports_processed {C} (n : Node C) ref r st co q1 q2 :
  ast_attempt_id st = at_id a → acm_attempt_id co = at_id a → acm_reservation_id co = at_reservation_id a →
  attempt_started_wf st → attempt_complete_wf co → nrd_handshake_done r = true →
  let s' := run [E_NodeFrame ref r (Ok (node_frame n (MAttemptStarted st) q1));
                 E_NodeFrame ref r (Ok (node_frame n (MAttemptComplete co) q2)); E_Command; E_Command] s in
  committed_at s' p ∧ task_state (c_graph s') (at_task_id a) = TS_Succeeded ∧
  c_task_reservation s' !! at_task_id a = None.
Proof.
  intros Hst Hco Hres Hw1 Hw2 Hr s'. destruct (aw_running Haw) as (Hrun & Hstop & Hq).
  set (f1 := node_frame n (MAttemptStarted st) q1) in *. set (f2 := node_frame n (MAttemptComplete co) q2) in *.
  set (c1 := report_command ref f1 (K_AttemptStarted st)). set (c2 := report_command ref f2 (K_AttemptComplete co)).
  destruct (after_start c1 st [c2] Hst) as (e & Hok & Q1 & R1 & F1 & E1 & T1 & K1).
  set (s1 := exec (handle_attempt_started c1 st) (set_queue [c2] s)) in *.
  assert (E : s' = exec (handle_attempt_complete c2 co) (set_queue [] s1)).
  { unfold s', run. cbn [foldl].
    rewrite (report_queued s ref r f1 (K_AttemptStarted st)); [|by apply started_command|done|done|done|rewrite Hq; cbn; unfold kMaxQueue; lia].
    rewrite (report_queued _ ref r f2 (K_AttemptComplete co)); [|by apply complete_command|done|done|exact Hstop|
      cbn [c_queue set_queue]; rewrite Hq; cbn; unfold kMaxQueue; lia].
    match goal with |- exec _ (exec (event E_Command) ?x) = _ =>
      rewrite (command_taken x c1 [c2]); [|exact Hrun|cbn [c_queue set_queue]; by rewrite Hq|done] end.
    change (exec (process c1) (set_queue [c2] (set_queue _ (set_queue _ s)))) with s1.
    by rewrite (command_taken s1 c2 []). }
  set (s2 := set_queue [] s1) in *. assert (Hok2 : core_ok e s2) by (destruct Hok; by split).
  destruct (completion_effect_ok e s2 c2 co p (mark_started (ast_started_at_ms st) (ast_device st) a))
    as ((now & Hc) & _ & Hr' & Hs & _); [done|by rewrite Hco|apply (aw_state Haw)| |].
  { split; [done|exact E1|by left|done|by left|exact K1]. }
  cbn [mark_started at_task_id] in Hr', Hs. rewrite <-E in Hc, Hr', Hs.
  split_and!; [|by apply Hs|done]. by eexists.
Qed.
End outcome.

(** ** Claims *)


(** Sample: the node of the dispatched task runs it and reports. *)
Definition the_dispatch : DispatchAttempt :=
  mkDispatchAttempt (aw_task (sample_work 1)) (mkId 9 3) (mkId 9 2) 2 0.
Definition the_node : Node CudaStub :=
  let f := make_frame kDispatchAttempt SK_Coordinator id_zero 1 (serialize_message (MDispatchAttempt the_dispatch)) in
  set_flags false true false
    (set_session (mkId 7 7) 2 1
       (set_transport
          (Some (new_channel (mkSocket (new_state 5) [RE_Bytes (wire f)] (replicate 9 (SE_Sent 500)) []))) 0
          (new_node NodeProps.sample_config (mkId 8 8) (mkStub false)))).
Definition node_log : list (Message * bool) := n_sent (node_run (λ _, 0) attempt_events the_node).
Definition the_result : AttemptComplete :=
  mkAttemptComplete (mkId 9 3) (mkId 0 1) (mkId 9 2) 2 0 16 "f3df0fe9d4853420e086366bb1ea076f"
    4609434218613702656 4609434218613702656 3 "cpu" [""].
Definition the_attempt : ExecutionAttempt :=
  match attempt_at dispatched_run first_attempt with
  | Some a => a
  | None => new_attempt id_zero id_zero id_zero id_zero 0 id_zero EX_Cpu 0 0 ""
  end.

Lemma the_attempts : c_attempts dispatched_run = {[ mkId 0 1 := [the_attempt] ]}.
Proof. vm_compute. reflexivity. Qed.

Lemma the_attempt_awaited : awaited dispatched_run first_attempt the_attempt.
Proof.
  split.
  - apply dispatched_reachable.
  - vm_compute. done.
  - vm_compute. reflexivity.
  - intros [t i] b. unfold attempt_at. rewrite the_attempts. cbn [fst snd].
    intros (l & [<- <-]%lookup_singleton_Some & Hi)%bind_Some _. destruct i; [done|]. by cbn in Hi.
  - vm_compute. done.
  - vm_compute. reflexivity.
  - vm_compute. discriminate.
Qed.

Lemma the_result_wf : attempt_complete_wf the_result.
Proof.
  unfold attempt_complete_wf, id_wf, list_wf, the_result.
  cbn [acm_attempt_id acm_task_id acm_reservation_id acm_coordinator_epoch acm_result_code acm_output_size
    acm_output_integrity acm_duration_ms acm_cpu_millis acm_bytes_transferred acm_device acm_notes id_hi id_lo].
  repeat (apply conj; [vm_compute; repeat split; congruence|]).
  apply Forall_singleton. vm_compute. congruence.
Qed.

