(* ===== verification/Rpc.v ===== *)
(** * Rpc: a client and the coordinator together

    A client's call ([Client]), the frame it sends, the coordinator's reader, core
    loop and response ([Coordinator], [CoordClient]) composed.  [RemoteCall] is what
    a kind of request promises, [RemoteCallLaws] that the program keeps it; both
    are instantiated by the ten requests of [FabricClient]. *)

From S2P Require Import Prelude Status Ids Digest Float64 Task Lifecycle Dag Reservation Placement Wire Frame Socket Channel Serialize Messages Client.
From S2P Require Import Locality Scheduler Store Outbound CoordState CoordNodes CoordAttempts CoordSched CoordClient Coordinator CoordInv CoordDurable CoordRecovery CoordProps Fabric.

Local Open Scope Z_scope.

(** ** Requests *)

(** A request, the command it becomes, what the core does before and after it
    responds, and how the client reads the response. *)
Class RemoteCall (Req Resp : Type) := {
  rc_request : Req → Message;
  rc_kind : Req → CommandKind;
  rc_answer : Req → Core Resp;
  rc_follow : Core unit;
  rc_response : Resp → Message;
  rc_parse : Parse Resp
}.
#[global] Arguments rc_follow Req Resp {_}.

(** A client's connection, and the states that differ in it only. *)
Definition not_node (ref : ConnRef) (s : Coordinator) : Prop := ∀ id, c_node_conns s !! id ≠ Some ref.

Record attached (ref : ConnRef) (cn : Conn) (s : Coordinator) : Prop := {
  att_conn : c_conns s !! ref = Some cn;
  att_client : c_client_conns s !! cn_id cn = Some ref;
  att_other : not_node ref s
}.

Record same_but (ref : ConnRef) (s s' : Coordinator) : Prop := {
  sb_state : s' = set_conns (c_conns s') s;
  sb_conns : delete ref (c_conns s') = delete ref (c_conns s)
}.

(** The frame of a request. *)
Definition request_frame (m : Message) (sender : Id128) (req : Z) : Frame :=
  make_frame (message_type m) SK_Client sender req (serialize_message m).
Definition response_frame (m : Message) (req : Z) : Frame :=
  coordinator_frame (message_type m) req (serialize_message m).

Class RemoteCallLaws (Req Resp : Type) `{!RemoteCall Req Resp} : Prop := {
  rl_command (q : Req) sender req : message_wf (rc_request q) →
    client_command (request_frame (rc_request q) sender req) = Some (rc_kind q);
  rl_kind (q : Req) : rc_kind q ≠ K_Shutdown;
  rl_process (q : Req) cmd s : cmd_kind cmd = rc_kind q →
    process cmd s = (resp ← rc_answer q;
                     respond_client cmd (message_type (rc_response resp))
                       (serialize_message (rc_response resp)) ;;
                     rc_follow Req Resp) s;
  rl_answer (q : Req) ref cn : preserves (attached ref cn) (rc_answer q);
  rl_follow ref cn : preserves (attached ref cn) (rc_follow Req Resp);
  rl_follow_same ref s s' : same_but ref s s' → not_node ref s →
    same_but ref (exec (rc_follow Req Resp) s) (exec (rc_follow Req Resp) s');
  rl_reads (r : Resp) : message_wf (rc_response r) → reads rc_parse (serialize_message (rc_response r)) r;
  rl_type (r : Resp) : message_type (rc_response r) ≠ kErrorResponse
}.

(** ** What the core answers *)

Definition submit_answer (q : TaskSubmit) : Core TaskSubmitResponse :=
  r ← submit_task q; mret (mkTaskSubmitResponse r.1 (ct_id (tsub_task q)) r.2).

Definition inspect_answer (q : TaskInspect) : Core TaskInspectResponse :=
  let id := tin_task_id q in
  task ← gets (λ s, find_task (c_graph s) id);
  match task with
  | None => mret (mkTaskInspectResponse false id "" TC_Generic TS_Submitted "task not found" [] 0 "")
  | Some t =>
      st ← state_of id;
      attempts ← attempts_at id;
      mret (mkTaskInspectResponse true id (ct_name t) (ct_task_class t) st "" attempts
              (u32 (Z.of_nat (length attempts))) (to_hex (ct_workload t)))
  end.

(** The requests that only read. *)
Definition list_answer (q : TaskList) (s : Coordinator) : TaskListResponse :=
  let wanted := if bool_decide (tl_filter_state q = "") then None else parse_task_state (tl_filter_state q) in
  mkTaskListResponse (list_tasks (c_graph s)
    (λ id _, match wanted with
             | Some st => bool_decide (task_state (c_graph s) id = st)
             | None => true
             end)).
Definition workload_answer (q : WorkloadInspect) (s : Coordinator) : WorkloadInspectResponse :=
  let id := wi_workload_id q in
  match ds_workloads (c_durable s) !! id with
  | None => mkWorkloadInspectResponse false id "" [] "workload not found"
  | Some w => mkWorkloadInspectResponse true id (wl_name w)
                (list_tasks (c_graph s) (λ _ t, bool_decide (ct_workload t = id))) ""
  end.
Definition placement_answer (q : PlacementQuery) (s : Coordinator) : PlacementResponse :=
  mkPlacementResponse true
    (place (c_scheduler s) (pq_task q) (c_nodes s) (c_reservations s) (c_locality s)) "".
Definition node_list_answer (s : Coordinator) : NodeListResponse :=
  mkNodeListResponse (map (node_status (c_reservations s)) (in_order (c_nodes s))).

Definition drain_answer (q : NodeDrain) : Core NodeDrainResponse :=
  it ← gets (λ s, c_nodes s !! nd_node_id q);
  match it with
  | None => mret (mkNodeDrainResponse false false "node not found")
  | Some r =>
      if bool_decide (nr_health r = NH_Offline)
      then mret (mkNodeDrainResponse true false "node offline")
      else
        update_node (nd_node_id q) (with_health (if nd_drain q then NH_Draining else NH_Online)) ;;
        mret (mkNodeDrainResponse true true "")
  end.

(** What follows the response to a shutdown request. *)
Definition shutdown_follow : Core unit :=
  conns ← gets (λ s, in_order (c_node_conns s));
  for_each conns shutdown_node ;;
  modify (set_stopping true) ;;
  persist ;;
  modify (λ s, set_queue (shutdown_command :: c_queue s) s).

#[export] Instance submit_call : RemoteCall TaskSubmit TaskSubmitResponse :=
  { rc_request := MTaskSubmit; rc_kind := K_ClientTaskSubmit; rc_answer := submit_answer;
    rc_follow := mret tt; rc_response := MTaskSubmitResponse; rc_parse := deserialize_task_submit_response }.
#[export] Instance inspect_call : RemoteCall TaskInspect TaskInspectResponse :=
  { rc_request := MTaskInspect; rc_kind := K_ClientTaskInspect; rc_answer := inspect_answer;
    rc_follow := mret tt; rc_response := MTaskInspectResponse; rc_parse := deserialize_task_inspect_response }.
#[export] Instance list_call : RemoteCall TaskList TaskListResponse :=
  { rc_request := MTaskList; rc_kind := K_ClientTaskList; rc_answer := λ q, gets (list_answer q);
    rc_follow := mret tt; rc_response := MTaskListResponse; rc_parse := deserialize_task_list_response }.
#[export] Instance cancel_call : RemoteCall TaskCancel TaskCancelResponse :=
  { rc_request := MTaskCancel; rc_kind := K_ClientTaskCancel; rc_answer := λ q, cancel_task (tcl_task_id q);
    rc_follow := mret tt; rc_response := MTaskCancelResponse; rc_parse := deserialize_task_cancel_response }.
#[export] Instance workload_call : RemoteCall WorkloadInspect WorkloadInspectResponse :=
  { rc_request := MWorkloadInspect; rc_kind := K_ClientWorkloadInspect; rc_answer := λ q, gets (workload_answer q);
    rc_follow := mret tt; rc_response := MWorkloadInspectResponse; rc_parse := deserialize_workload_inspect_response }.
#[export] Instance status_call : RemoteCall FabricStatus FabricStatusResponse :=
  { rc_request := MFabricStatus; rc_kind := K_ClientFabricStatus; rc_answer := λ _, gets fabric_status;
    rc_follow := mret tt; rc_response := MFabricStatusResponse; rc_parse := deserialize_fabric_status_response }.
#[export] Instance placement_call : RemoteCall PlacementQuery PlacementResponse :=
  { rc_request := MPlacementQuery; rc_kind := K_ClientPlacementQuery; rc_answer := λ q, gets (placement_answer q);
    rc_follow := mret tt; rc_response := MPlacementResponse; rc_parse := deserialize_placement_response }.
#[export] Instance node_list_call : RemoteCall NodeList NodeListResponse :=
  { rc_request := MNodeList; rc_kind := λ _, K_ClientNodeList; rc_answer := λ _, gets node_list_answer;
    rc_follow := mret tt; rc_response := MNodeListResponse; rc_parse := deserialize_node_list_response }.
#[export] Instance drain_call : RemoteCall NodeDrain NodeDrainResponse :=
  { rc_request := MNodeDrain; rc_kind := K_ClientNodeDrain; rc_answer := drain_answer;
    rc_follow := mret tt; rc_response := MNodeDrainResponse; rc_parse := deserialize_node_drain_response }.
#[export] Instance shutdown_call : RemoteCall CoordinatorShutdown CoordinatorShutdownResponse :=
  { rc_request := MCoordinatorShutdown; rc_kind := λ _, K_ClientCoordinatorShutdown;
    rc_answer := λ _, mret (mkCoordinatorShutdownResponse true ""); rc_follow := shutdown_follow;
    rc_response := MCoordinatorShutdownResponse; rc_parse := deserialize_coordinator_shutdown_response }.

(** ** The answers leave the client's connection alone *)

Ltac attached_frame :=
  let H := fresh in intros ? H; destruct H; split; unfold snd, modify, not_node in *; core_cbn; assumption.
#[export] Hint Extern 5 (preserves (attached _ _) (modify _)) =>
  solve [apply preserves_modify; attached_frame] : core.

Section attached.
Context (ref : ConnRef) (cn : Conn).
Abbreviation I := (attached ref cn).

Lemma now_millis_attached : preserves I now_millis.
Proof. unfold now_millis. attached_frame. Qed.
Lemma state_of_attached id : preserves I (state_of id).
Proof. apply preserves_gets. Qed.
Lemma set_task_st_attached id st : preserves I (set_task_st id st).
Proof. intros s Hs. unfold set_task_st. destruct (set_state _ _ _). by destruct Hs. Qed.
Lemma attempts_at_attached id : preserves I (attempts_at id).
Proof. intros s Hs. unfold attempts_at. destruct (c_attempts s !! id); [done|]. by destruct Hs. Qed.
Lemma persist_attached : preserves I persist.
Proof.
  intros s Hs. unfold persist, mbind, core_bind, modify, save_durable. core_cbn.
  destruct (c_store s); [|by destruct Hs]. destruct (store_save _ _ _ _). by destruct Hs.
Qed.
Lemma queue_frame_attached other f : other ≠ ref → preserves I (queue_frame other f).
Proof.
  intros Hne. apply preserves_modify. intros s [H1 H2 H3]. split; core_cbn; [|done..].
  by rewrite lookup_alter_ne.
Qed.

Lemma send_to_node_attached id t p : preserves I (send_to_node id t p).
Proof.
  intros s Hs. unfold send_to_node, mbind, core_bind, gets. destruct (c_node_conns s !! id) as [other|] eqn:E; [|done].
  destruct (conn_stopped s other); [done|]. apply queue_frame_attached; [|done].
  intros ->. by destruct (att_other _ _ _ Hs id).
Qed.

#[local] Hint Resolve now_millis_attached state_of_attached set_task_st_attached attempts_at_attached
  persist_attached send_to_node_attached : core.

Lemma submit_task_attached q : preserves I (submit_task q).
Proof.
  unfold submit_task, accept_task. solve_core.
  - intros s Hs. destruct (add_task _ _). by destruct Hs.
  - apply preserves_modify. intros s Hs. destruct (bool_decide _); [done|]. by destruct Hs.
Qed.
Lemma cancel_task_attached id : preserves I (cancel_task id).
Proof. unfold cancel_task, request_cancel, release_task_reservation, release_reservation. solve_core. Qed.
Lemma shutdown_follow_attached : preserves I shutdown_follow.
Proof. unfold shutdown_follow, shutdown_node. solve_core. Qed.
Lemma submit_answer_attached q : preserves I (submit_answer q).
Proof. apply preserves_bind; [apply submit_task_attached|intros; apply preserves_ret]. Qed.
Lemma inspect_answer_attached q : preserves I (inspect_answer q).
Proof. unfold inspect_answer. solve_core. Qed.
Lemma drain_answer_attached q : preserves I (drain_answer q).
Proof. unfold drain_answer, update_node. solve_core. Qed.
End attached.

#[export] Hint Resolve cancel_task_attached shutdown_follow_attached submit_answer_attached
  inspect_answer_attached drain_answer_attached : core.

(** ** Two states that differ in the connection *)

Lemma same_but_refl ref s : same_but ref s s.
Proof. split; [by destruct s|done]. Qed.

Lemma delete_alter_same {V} (f : V → V) (k : nat) (m : gmap nat V) : delete k (alter f k m) = delete k m.
Proof.
  apply map_eq. intros i. destruct (decide (i = k)) as [->|Hne]; [by rewrite !lookup_delete_eq|].
  by rewrite !lookup_delete_ne, lookup_alter_ne.
Qed.

Lemma same_but_alter ref f s : same_but ref s (set_conns (alter f ref (c_conns s)) s).
Proof. split; [by destruct s|apply delete_alter_same]. Qed.

Lemma same_but_lookup ref other s s' :
  same_but ref s s' → other ≠ ref → c_conns s' !! other = c_conns s !! other.
Proof.
  intros [_ E] Hne. rewrite <-(lookup_delete_ne (c_conns s') ref), E by done. by rewrite lookup_delete_ne.
Qed.

(** A program that leaves the connection [ref] and the nodes' connections alone. *)
Definition apart {A} (ref : ConnRef) (m : Core A) : Prop := ∀ s s', same_but ref s s' → not_node ref s →
  (m s').1 = (m s).1 ∧ same_but ref (m s).2 (m s').2 ∧ not_node ref (m s).2.

Lemma apart_ret {A} ref (a : A) : apart ref (mret a).
Proof. by intros s s' Hs Hn. Qed.
Lemma apart_bind {A B} ref (m : Core A) (k : A → Core B) :
  apart ref m → (∀ a, apart ref (k a)) → apart ref (m ≫= k).
Proof.
  intros Hm Hk s s' Hs Hn. destruct (Hm s s' Hs Hn) as (E & Hs1 & Hn1). unfold mbind, core_bind.
  destruct (m s) as [a s1], (m s') as [a' s1']. cbn in E, Hs1, Hn1. subst a'. by apply Hk.
Qed.
Lemma apart_gets {A} ref (f : Coordinator → A) :
  (∀ s s', same_but ref s s' → not_node ref s → f s' = f s) → apart ref (gets f).
Proof. intros Hf s s' Hs Hn. split_and!; [by apply Hf|done..]. Qed.

(** A program that does not look at the connections at all. *)
Definition blind {A} (m : Core A) : Prop := ∀ s x,
  m (set_conns x s) = ((m s).1, set_conns x (m s).2) ∧ c_conns (m s).2 = c_conns s ∧
  c_node_conns (m s).2 = c_node_conns s.
Lemma blind_apart {A} ref (m : Core A) : blind m → apart ref m.
Proof.
  intros Hb s s' [E Hd] Hn. destruct (Hb s (c_conns s')) as (Em & Ec & En). rewrite <-E in Em. rewrite Em.
  split_and!; [done| |unfold not_node; by rewrite En]. split; core_cbn; [done|by rewrite Ec].
Qed.
Lemma persist_blind : blind persist.
Proof.
  intros s x. unfold persist, mbind, core_bind, modify, save_durable. core_cbn.
  destruct (c_store s); [|done]. by destruct (store_save _ _ _ _).
Qed.

Lemma shutdown_node_apart ref kv : kv.2 ≠ ref → apart ref (shutdown_node kv).
Proof.
  destruct kv as [id other]. intros Hne. unfold shutdown_node. apply apart_bind.
  { apply apart_gets. intros s s' Hs _. by apply (same_but_lookup ref). }
  intros conn. apply apart_bind; [apply apart_gets; intros s s' [-> _] _; done|]. intros rec.
  destruct conn as [c|]; [|apply apart_ret]. destruct rec as [r|]; [|apply apart_ret].
  unfold when. destruct (_ && _); [|apply apart_ret]. unfold send_to_node.
  intros s s' Hs Hn. unfold mbind, core_bind, gets.
  assert (En : c_node_conns s' = c_node_conns s) by (rewrite (sb_state _ _ _ Hs); done). rewrite En.
  destruct (c_node_conns s !! id) as [o|] eqn:Eo; [|by apply apart_ret].
  assert (Ho : o ≠ ref) by (intros ->; by destruct (Hn id)).
  assert (Ec : conn_stopped s' o = conn_stopped s o) by (unfold conn_stopped; by rewrite (same_but_lookup ref o s s')).
  rewrite Ec. destruct (conn_stopped s o); [by apply apart_ret|].
  split_and!; [done| |done]. destruct Hs as [Es Hd]. split; cbn [queue_frame modify snd]; core_cbn.
  - by rewrite Es at 2.
  - rewrite !delete_alter_ne by done. by rewrite Hd.
Qed.

Lemma for_each_apart {A} ref (l : list A) body : (∀ x, x ∈ l → apart ref (body x)) → apart ref (for_each l body).
Proof.
  induction l as [|x l IH]; intros Hb; cbn [for_each]; [apply apart_ret|].
  apply apart_bind; [apply Hb, elem_of_cons; by left|]. intros _. apply IH. intros y Hy. apply Hb, elem_of_cons. by right.
Qed.

Lemma apart_gets_bind {A B} ref (f : Coordinator → A) (k : A → Core B) :
  (∀ s s', same_but ref s s' → f s' = f s) → (∀ s, not_node ref s → apart ref (k (f s))) →
  apart ref (gets f ≫= k).
Proof. intros Hf Hk s s' Hs Hn. unfold mbind, core_bind, gets. rewrite (Hf s s' Hs). by apply Hk. Qed.

Lemma shutdown_follow_apart ref : apart ref shutdown_follow.
Proof.
  apply apart_gets_bind; [by intros s s' [-> _]|]. intros s Hn. apply apart_bind.
  { apply for_each_apart. intros [id other] Hin. apply shutdown_node_apart. intros E. cbn in E. subst other.
    apply elem_of_in_order in Hin. by destruct (Hn id). }
  intros _. apply apart_bind; [by apply blind_apart|]. intros _.
  apply apart_bind; [apply blind_apart, persist_blind|]. intros _. by apply blind_apart.
Qed.

(** ** The requests keep the laws *)

(** The frame of a well-formed request is read as its command. *)
Lemma parsed_reads {A} (p : Parse A) (f : Frame) (k : A → CommandKind) (a : A) :
  reads p (fr_payload f) a → parsed p f k = Some (k a).
Proof. intros Hr. unfold parsed. by rewrite (reader_of_reads _ _ _ Hr). Qed.

Lemma trivial_follow ref s s' : same_but ref s s' → not_node ref s →
  same_but ref (exec (mret tt : Core unit) s) (exec (mret tt : Core unit) s').
Proof. done. Qed.

Ltac eval_types :=
  repeat match goal with
  | |- context [Z.eqb ?a ?b] => let v := eval vm_compute in (Z.eqb a b) in change (Z.eqb a b) with v; cbv iota
  end.
Ltac solve_call call handler answer :=
  split;
  [ intros q sender req Hw; unfold call, rc_request, rc_kind in *;
    unfold client_command; cbn [request_frame make_frame fr_header fh_message_type message_type];
    eval_types; erewrite parsed_reads; [reflexivity|];
    cbn [request_frame make_frame fr_payload serialize_message message_wf] in *; eauto with wire
  | done
  | intros q cmd s E; unfold process; rewrite E;
    unfold call, rc_kind, rc_answer, rc_follow, rc_response, handler, answer, mbind, core_bind, mret, core_ret, gets;
    cbn [message_type serialize_message];
    repeat first [case_match | match goal with u : () |- _ => destruct u end]; simplify_eq; try congruence
  | intros q ref cn; unfold call, rc_answer; eauto with core
  | intros ref cn; unfold call, rc_follow; eauto with core
  | try exact trivial_follow
  | intros r Hw; unfold call, rc_parse, rc_response in *; cbn [serialize_message message_wf] in *; eauto with wire
  | done ].

#[export] Instance submit_laws : RemoteCallLaws TaskSubmit TaskSubmitResponse.
Proof. solve_call submit_call handle_task_submit submit_answer. Qed.
#[export] Instance inspect_laws : RemoteCallLaws TaskInspect TaskInspectResponse.
Proof. solve_call inspect_call handle_task_inspect inspect_answer. Qed.
#[export] Instance list_laws : RemoteCallLaws TaskList TaskListResponse.
Proof. solve_call list_call handle_task_list list_answer. Qed.
#[export] Instance cancel_laws : RemoteCallLaws TaskCancel TaskCancelResponse.
Proof. solve_call cancel_call handle_task_cancel handle_task_cancel. Qed.
#[export] Instance workload_laws : RemoteCallLaws WorkloadInspect WorkloadInspectResponse.
Proof. solve_call workload_call handle_workload_inspect workload_answer. Qed.
#[export] Instance status_laws : RemoteCallLaws FabricStatus FabricStatusResponse.
Proof. solve_call status_call handle_fabric_status fabric_status. Qed.
#[export] Instance placement_laws : RemoteCallLaws PlacementQuery PlacementResponse.
Proof. solve_call placement_call handle_placement_query placement_answer. Qed.
#[export] Instance node_list_laws : RemoteCallLaws NodeList NodeListResponse.
Proof. solve_call node_list_call handle_node_list node_list_answer. Qed.
#[export] Instance drain_laws : RemoteCallLaws NodeDrain NodeDrainResponse.
Proof. solve_call drain_call handle_node_drain drain_answer. Qed.
#[export] Instance shutdown_laws : RemoteCallLaws CoordinatorShutdown CoordinatorShutdownResponse.
Proof.
  solve_call shutdown_call handle_coordinator_shutdown shutdown_follow.
  intros ref s s' Hs Hn. by apply shutdown_follow_apart.
Qed.

(** ** The coordinator's side *)

(** An idle coordinator that serves the connection. *)
Record serving (s : Coordinator) (ref : ConnRef) (cn : Conn) : Prop := {
  sv_idle : c_core_running s = true ∧ c_stopping s = false ∧ c_queue s = [];
  sv_attached : attached ref cn s;
  sv_conn : cn_stop cn = false
}.

Definition with_outbound (cn : Conn) (f : Frame) : Conn := (queue_outbound cn f).1.

Lemma respond_client_effect s ref cn cmd t p :
  attached ref cn s → cmd_client_conn cmd = Some ref →
  exec (respond_client cmd t p) s
  = set_conns (alter (λ c, with_outbound c (coordinator_frame t (cmd_request_id cmd) p)) ref (c_conns s)) s.
Proof.
  intros [Hc Hi _] E. unfold exec, respond_client, mbind, core_bind, gets. rewrite E, Hc.
  cbn [option_bind]. rewrite Hi, bool_decide_true by done. with_strategy opaque [coordinator_frame] reflexivity.
Qed.

Section server.
Context `{!RemoteCall Req Resp} `{!RemoteCallLaws Req Resp}.

(** A request's frame and the next command: the answer is queued on the
    connection, and the rest of the state is that of answering at once. *)
Lemma request_served (s : Coordinator) ref cn (q : Req) sender req (a : Resp) :
  serving s ref cn → message_wf (rc_request q) →
  (rc_answer q s).1 = a →
  let s' := run [E_ClientFrame ref (Ok (request_frame (rc_request q) sender req)); E_Command] s in
  c_conns s' !! ref = Some (with_outbound cn (response_frame (rc_response a) req)) ∧
  same_but ref (exec (rc_answer q ;; rc_follow Req Resp) s) s'.
Proof.
  intros [(Hr & Hst & Hq) Ha Hcn] Hw Ea s'. set (f := request_frame _ _ _) in s'.
  set (cmd := mkCoreCommand (rc_kind q) None (Some ref) req id_zero id_zero).
  assert (E1 : exec (event (E_ClientFrame ref (Ok f))) s = set_queue [cmd] s).
  { unfold exec, event, client_reader_step. unfold f at 1. rewrite (rl_command q sender req Hw).
    unfold reader_action, push_command, modify, gets, mbind, core_bind, can_push. rewrite Hst, Hq.
    change (length [] <? kMaxQueue)%nat with true. cbn [negb andb snd]. by rewrite Hst, Hq. }
  assert (E2 : s' = exec (process cmd) s).
  { unfold s', run. cbn [foldl]. rewrite E1, (command_taken _ cmd []); [|done|done|apply rl_kind].
    f_equal. destruct s. cbn in Hq. by subst. }
  clearbody s'. pose proof (rl_answer q ref cn s Ha) as Ha1. unfold exec in E2. rewrite (rl_process q cmd s eq_refl) in E2.
  unfold exec. unfold mbind, core_bind in E2 |- *. destruct (rc_answer q s) as [a' s1]. cbn [fst snd] in *. subst a'.
  pose proof (respond_client_effect s1 ref cn cmd (message_type (rc_response a))
    (serialize_message (rc_response a)) Ha1 eq_refl) as E3. unfold exec in E3.
  destruct (respond_client _ _ _ s1) as [u s2]. cbn [snd] in E3. subst s2 s'.
  set (cn' := with_outbound cn (response_frame (rc_response a) req)).
  set (s2 := set_conns _ s1).
  assert (Hid : cn_id cn' = cn_id cn).
  { unfold cn', with_outbound, queue_outbound. rewrite Hcn. by destruct (outbound_overflow _ _). }
  assert (Ha2 : attached ref cn' s2).
  { destruct Ha1 as [H1 H2 H3]. unfold s2. split; core_cbn; [by rewrite lookup_alter_eq, H1|by rewrite Hid|done]. }
  split; [apply (rl_follow ref cn' s2 Ha2)|]. apply rl_follow_same; [apply same_but_alter|apply Ha1].
Qed.
End server.

(** ** The client's side *)

(** A request that gives up has reached its deadline. *)
Lemma request_loop_late clock fuel deadline req fs ch c e c' :
  delivering kMaxFramePayload fs ch → request_loop clock fuel deadline req ch c = Some (Err e, c') →
  fc_channel c' = None →
  err_code e = ETimeout ∧ ∃ i, deadline <= clock i ∧ (fc_ticks c <= i < fc_ticks c')%nat.
Proof.
  revert fs ch c. induction fuel as [|fuel IH]; intros fs ch c Hd; [done|]. cbn [request_loop].
  destruct (Z.leb_spec deadline (clock (fc_ticks c))) as [Hle|_].
  { intros [= <- <-] _. split; [done|]. exists (fc_ticks c). cbn [with_channel fc_ticks]. split; [done|lia]. }
  set (ms := if _ : bool then _ else _).
  destruct (recv_frame_delivers clock ch ms kMaxFramePayload (S (S (fc_ticks c))) fs Hd) as (r & ch' & tk & E & Ho).
  pose proof (recv_frame_ticks _ _ _ _ _ _ _ _ E) as Htk. rewrite E.
  assert (Hgo : ∀ fs', delivering kMaxFramePayload fs' ch' →
    request_loop clock fuel deadline req ch' (with_channel (Some ch') tk c) = Some (Err e, c') →
    fc_channel c' = None → err_code e = ETimeout ∧ ∃ i, deadline <= clock i ∧ (fc_ticks c <= i < fc_ticks c')%nat).
  { intros fs' Hd' E' Hn. destruct (IH _ _ _ Hd' E' Hn) as (Hc & i & Hi & Hb). split; [done|]. exists i.
    cbn [with_channel fc_ticks] in Hb. split; [done|lia]. }
  destruct Ho as [f fs' ch' -> Hd' _|msg ch' Hd' _].
  - destruct (_ =? req); [|exact (Hgo fs' Hd')]. destruct (_ =? _); [|done].
    destruct (parse_payload _ _); [|done]. by intros [= _ <-].
  - unfold err at 1. rewrite bool_decide_true by done. exact (Hgo fs Hd').
Qed.

Lemma response_in_unique fs req f post g post' :
  response_in fs req f post → response_in fs req g post' → f = g ∧ post = post'.
Proof.
  intros (pre & -> & Hf & Hp) (pre' & E & Hg & Hp'). revert pre' E Hp'.
  induction Hp as [|x pre Hx Hp IH]; intros [|y pre'] E Hp'; cbn in E.
  - by injection E as <- <-.
  - injection E as <- _. by apply Forall_cons in Hp' as [? _].
  - by injection E as -> _.
  - injection E as <- E. apply Forall_cons in Hp' as [_ Hp']. by apply (IH pre').
Qed.

Lemma outcome_ok fs req f post r c :
  response_in fs req f post → fh_message_type (fr_header f) ≠ kErrorResponse →
  request_outcome fs req r c → r = Ok f ∨ ∃ e, r = Err e ∧ fc_channel c = None.
Proof.
  intros Hf Ht. destruct r as [g|e]; cbn [request_outcome].
  - intros (post' & ch & Hg & _). left. by destruct (response_in_unique _ _ _ _ _ _ Hf Hg) as [-> _].
  - intros [?|(g & post' & ch & m & Hg & _ & _ & Hk & _)]; [right; by exists e|].
    by destruct (response_in_unique _ _ _ _ _ _ Hf Hg) as [-> _].
Qed.

Lemma request_succeeds clock N fuel mt payload timeout_ms c ch fs f post :
  (∀ i, (N <= i)%nat → clock (fc_ticks c) + timeout_ms <= clock i) → (N < fuel)%nat →
  fc_channel c = Some ch → delivering kMaxFramePayload fs ch → 0 < timeout_ms →
  response_in fs (fc_next_request_id c) f post → fh_message_type (fr_header f) ≠ kErrorResponse →
  ∃ r c', request clock fuel mt payload timeout_ms c = Some (r, c') ∧
    (r = Ok f ∨ ∃ e, r = Err e ∧ fc_channel c' = None ∧
      ((send_message clock ch mt SK_Client (fc_client_id c) (fc_next_request_id c) payload
          (clamp_int timeout_ms) (S (fc_ticks c))).1.1 = Err e ∨
       ∃ i, clock (fc_ticks c) + timeout_ms <= clock i ∧ (i < fc_ticks c')%nat)).
Proof.
  intros HN Hfuel Hc Hd Ht Hf Hty. unfold request. rewrite Hc, (dg_valid _ _ _ Hd). cbn [negb].
  destruct (Z.leb_spec timeout_ms 0); [lia|]. unfold send_message. cbn [fc_client_id fc_ticks].
  set (fr := make_frame _ _ _ _ _).
  pose proof (send_delivering clock _ _ ch fr (clamp_int timeout_ms) (S (fc_ticks c)) Hd) as Hs.
  destruct (send_frame _ _ _ _ _) as [[r ch'] tk]. destruct Hs as [Hd' Htk].
  destruct r as [[]|e]; [|eexists _, _; split; [done|]; right; exists e; split_and!; [done..|by left]].
  set (c1 := with_channel _ _ _).
  destruct (request_loop_returns clock N fuel (clock (fc_ticks c) + timeout_ms) (fc_next_request_id c) fs ch' c1)
    as (r & c' & E & Ho & _ & _); [done|cbn; lia|lia|done|].
  exists r, c'. split; [done|]. destruct (outcome_ok _ _ _ _ _ _ Hf Hty Ho) as [->|(e & -> & Hn)]; [by left|].
  right. exists e. split_and!; [done..|]. right.
  destruct (request_loop_late _ _ _ _ _ _ _ _ _ Hd' E Hn) as (_ & i & Hi & ?). exists i. split; [done|lia].
Qed.

(** ** Claims *)


(** Sample: a client cancels the first of the two tasks. *)
Definition cancel_request : TaskCancel := mkTaskCancel (mkId 0 1).
Definition serving_conn : Conn := default (new_conn id_zero) (c_conns submitted_run !! client_conn).
Definition cancelled_run : Coordinator :=
  run [E_ClientFrame client_conn (Ok (request_frame (MTaskCancel cancel_request) sample_client 7)); E_Command]
    submitted_run.
Definition cancel_stream : list Frame :=
  cn_outbound (default (new_conn id_zero) (c_conns cancelled_run !! client_conn)).
Definition cancel_channel : Channel :=
  let b := flat_map wire cancel_stream in
  new_channel (mkSocket (new_state 4) [RE_Bytes (take 50 b); RE_Again; RE_Bytes (drop 50 b)] [SE_Sent 500] []).
Definition cancelling_client : FabricClient := mkClient "127.0.0.1" 7001 (Some cancel_channel) sample_client 7 0.

Lemma submitted_serving : serving submitted_run client_conn serving_conn.
Proof.
  split; [vm_compute; done| |vm_compute; reflexivity]. split; [vm_compute; reflexivity..|].
  intros id. assert (E : c_node_conns submitted_run = ∅) by (vm_compute; reflexivity). by rewrite E, lookup_empty.
Qed.

Lemma cancel_delivering : delivering kMaxFramePayload cancel_stream cancel_channel.
Proof.
  split; [|repeat constructor; vm_compute; congruence|done|vm_compute; reflexivity|].
  - assert (E : cancel_stream =
      [coordinator_frame kTaskSubmitResponse 1 (serialize_task_submit_response (mkTaskSubmitResponse true (mkId 0 1) ""));
       coordinator_frame kTaskSubmitResponse 1 (serialize_task_submit_response (mkTaskSubmitResponse true (mkId 0 2) ""));
       coordinator_frame kTaskCancelResponse 7 (serialize_task_cancel_response (mkTaskCancelResponse true true ""))])
      by (vm_compute; reflexivity).
    rewrite E. repeat (apply Forall_cons_2; [apply made_deliverable; (vm_compute; split; congruence) ||
      (vm_compute; congruence) || enum_wf_solve || (split; vm_compute; split; congruence)|]).
    apply Forall_nil_2.
  - vm_compute. lia.
Qed.


Example cancel_call_run :
  fst <$> cancel Z.of_nat 9 (mkId 0 1) cancelling_client = Some (Ok (mkTaskCancelResponse true true "")).
Proof. vm_compute. reflexivity. Qed.
