(* ===== verification/Host.v ===== *)
(** * Host: the processes of the coordinator and of a node (cli/cli.cpp,
    [cmd_coordinator] and [cmd_node] from the start of the service to the exit code,
    the interrupt handler, [Coordinator::run] and [NodeRuntime::run])

    The two commands are the same program around another service: start it, install
    the interrupt handler, run it in a second thread, poll for its end or an
    interrupt, stop it, join the thread.  The main thread, the runner, the signal and
    the threads of the service interleave; [waits] tells the services apart: the
    coordinator's [run] polls [stopping_], the node's waits on a condition variable
    that [request_runtime_stop] notifies without holding its mutex. *)

From S2P Require Import Prelude Status Ids Digest Float64 Task Lifecycle Dag Reservation Placement Wire Frame Socket Channel Serialize Messages Client Workloads Cuda Executor NodeRuntime NodeRegister.
From S2P Require Import Store Locality Scheduler Outbound CoordState CoordNodes CoordAttempts CoordSched CoordClient Coordinator CoordInv CoordDurable CoordRecovery Cli.

(** ** Threads *)

(** The main thread; [M_Stop] is in a call of [stop()], with what follows it. *)
(** [return 0] or [return 2]. *)
Inductive Ending := End_Ok | End_Failed.
Definition exit_code (e : Ending) : Z := match e with End_Ok => 0 | End_Failed => 2 end.

Inductive AfterStop := AS_Join | AS_Unwind | AS_Leave (e : Ending).
Inductive MainPc :=
| M_Starting                    (* in [start()] *)
| M_Install                     (* before [install_interrupt_handler] *)
| M_Spawn                       (* before the runner is created *)
| M_Poll                        (* [while (!finished.load() && !interrupt_requested())] *)
| M_Check                       (* [if (interrupt_requested())] *)
| M_Stop (after : AfterStop)    (* calling [stop()] *)
| M_Stopping (after : AfterStop)(* in it, waiting for the threads of the service *)
| M_Join                        (* [runner.join()] *)
| M_Exit (e : Ending).

(** The runner: it looks at [stopping_], has seen it clear, waits, has left [run()]. *)
Inductive RunnerPc := R_Unborn | R_Testing | R_Tested | R_Waiting | R_Leaving | R_Returned.
#[export] Instance RunnerPc_eq_dec : EqDecision RunnerPc.
Proof. solve_decision. Defined.

Record Host := mkHost {
  h_main : MainPc;
  h_runner : RunnerPc;
  h_finished : bool;
  h_interrupt : bool;      (* [g_interrupt] *)
  h_stopping : bool;       (* [stopping_] of the service *)
  h_stop_done : bool;      (* [stop_done_] *)
  h_threads : bool         (* threads of the service run *)
}.

(** [cli_main] has just installed the handler and entered the command. *)
Definition launched : Host := mkHost M_Starting R_Unborn false false false false false.

Definition set_main (pc : MainPc) (s : Host) : Host :=
  mkHost pc (h_runner s) (h_finished s) (h_interrupt s) (h_stopping s) (h_stop_done s) (h_threads s).
Definition set_runner (pc : RunnerPc) (s : Host) : Host :=
  mkHost (h_main s) pc (h_finished s) (h_interrupt s) (h_stopping s) (h_stop_done s) (h_threads s).
Definition set_finished (s : Host) : Host :=
  mkHost (h_main s) (h_runner s) true (h_interrupt s) (h_stopping s) (h_stop_done s) (h_threads s).
Definition set_interrupt (b : bool) (s : Host) : Host :=
  mkHost (h_main s) (h_runner s) (h_finished s) b (h_stopping s) (h_stop_done s) (h_threads s).
Definition set_threads (b : bool) (s : Host) : Host :=
  mkHost (h_main s) (h_runner s) (h_finished s) (h_interrupt s) (h_stopping s) (h_stop_done s) b.
(** [stopping_.store(true); cv.notify_all()]: a runner that waits looks again. *)
Definition request_stop (stop_done : bool) (s : Host) : Host :=
  mkHost (h_main s) (if h_runner s is R_Waiting then R_Testing else h_runner s) (h_finished s) (h_interrupt s)
    true stop_done (h_threads s).

Section steps.
Context (waits : bool).

Definition after_stop (a : AfterStop) : MainPc :=
  match a with AS_Join => M_Join | AS_Unwind => M_Stop (AS_Leave End_Ok) | AS_Leave e => M_Exit e end.

(** [cmd_coordinator] and [cmd_node]; [ok]: what [start()] returns.  The last call
    of [stop()] is the destructor's.  The wait for the service's threads is
    [CoordStop]'s and [NodeProps]'s. *)
Definition main_step (ok : bool) (s : Host) : option Host :=
  match h_main s with
  | M_Starting =>
      Some (if ok then set_threads true (set_main M_Install s) else set_main (M_Stop (AS_Leave End_Failed)) s)
  | M_Install => Some (set_main M_Spawn (set_interrupt false s))
  | M_Spawn => Some (set_main M_Poll (set_runner R_Testing s))
  | M_Poll => if h_finished s || h_interrupt s then Some (set_main M_Check s) else None
  | M_Check => Some (set_main (if h_interrupt s then M_Stop AS_Join else M_Join) s)
  | M_Stop a =>
      Some (if h_stop_done s then set_main (after_stop a) s else set_main (M_Stopping a) (request_stop true s))
  | M_Stopping a => Some (set_main (after_stop a) (set_threads false s))
  | M_Join => if h_runner s is R_Returned then Some (set_main (M_Stop AS_Unwind) s) else None
  | M_Exit _ => None
  end.

(** [run()], and what the runner does after it. *)
Definition runner_step (s : Host) : option Host :=
  match h_runner s with
  | R_Testing => Some (set_runner (if h_stopping s then R_Leaving else R_Tested) s)
  | R_Tested => Some (set_runner (if waits then R_Waiting else R_Testing) s)
  | R_Leaving => Some (set_runner R_Returned (set_finished s))
  | R_Unborn | R_Waiting | R_Returned => None
  end.
(** A condition variable may wake up by itself. *)
Definition spurious_step (s : Host) : option Host :=
  match h_runner s with R_Waiting => Some (set_runner R_Testing s) | _ => None end.

(** A signal, while none is pending. *)
Definition signal_step (s : Host) : option Host :=
  if h_interrupt s then None else match h_main s with M_Exit _ => None | _ => Some (set_interrupt true s) end.

(** The service stops itself: a client asked the coordinator to, the node lost its
    coordinator or was told to.  Several threads may do so. *)
Definition service_step (s : Host) : option Host :=
  if h_threads s && (negb (h_stopping s) || bool_decide (h_runner s = R_Waiting))
  then Some (request_stop (h_stop_done s) s) else None.
End steps.

Inductive HostAction := HA_Main (started_ok : bool) | HA_Runner | HA_Spurious | HA_Signal | HA_Service.
Definition host_act (waits : bool) (a : HostAction) (s : Host) : option Host :=
  match a with
  | HA_Main ok => main_step ok s
  | HA_Runner => runner_step waits s
  | HA_Spurious => spurious_step s
  | HA_Signal => signal_step s
  | HA_Service => service_step s
  end.
Fixpoint host_acts (waits : bool) (l : list HostAction) (s : Host) : option Host :=
  match l with [] => Some s | a :: l => s ← host_act waits a s; host_acts waits l s end.

Inductive hosted (waits : bool) : Host → Prop :=
| hosted_launched : hosted waits launched
| hosted_act a s s' : hosted waits s → host_act waits a s = Some s' → hosted waits s'.

(** ** The invariant *)

(** What goes with each statement of the main thread. *)
Definition main_ok (s : Host) : bool :=
  let born := negb (bool_decide (h_runner s = R_Unborn)) in
  let returned := bool_decide (h_runner s = R_Returned) in
  match h_main s with
  | M_Starting => negb born && negb (h_stop_done s) && negb (h_threads s)
  | M_Install | M_Spawn => negb born && negb (h_stop_done s) && h_threads s
  | M_Poll | M_Stop AS_Join => born && negb (h_stop_done s) && h_threads s
  | M_Check => born && negb (h_stop_done s) && h_threads s && (h_interrupt s || returned)
  | M_Stopping AS_Join => born && h_stop_done s
  | M_Join => born && (if h_stop_done s then negb (h_threads s) else h_threads s && returned)
  | M_Stop AS_Unwind => returned && (negb (h_stop_done s) || negb (h_threads s))
  | M_Stopping AS_Unwind => returned && h_stop_done s
  | M_Stop (AS_Leave End_Ok) => returned && h_stop_done s && negb (h_threads s)
  | M_Stop (AS_Leave End_Failed) => negb born && negb (h_stop_done s) && negb (h_threads s)
  | M_Stopping (AS_Leave End_Ok) => false
  | M_Stopping (AS_Leave End_Failed) => negb born && h_stop_done s && negb (h_threads s)
  | M_Exit End_Ok => returned && h_stop_done s && negb (h_threads s)
  | M_Exit End_Failed => negb born && h_stop_done s && negb (h_threads s)
  end.

(** [finished] is the runner's last word, a runner that has left [run()] has seen
    [stopping_], which [stop()] sets; only a condition variable is waited on. *)
Definition host_ok (waits : bool) (s : Host) : bool :=
  main_ok s
  && Bool.eqb (h_finished s) (bool_decide (h_runner s = R_Returned))
  && (h_stopping s || negb (bool_decide (h_runner s = R_Leaving) || bool_decide (h_runner s = R_Returned)))
  && (h_stopping s || negb (h_stop_done s))
  && (waits || negb (bool_decide (h_runner s = R_Waiting))).

(** ** Checking all states

    The state of the process is finite: what a boolean function says of every state
    is evaluated. *)
Definition all_bool (p : bool → bool) : bool := p false && p true.
Definition all_runner (p : RunnerPc → bool) : bool :=
  p R_Unborn && p R_Testing && p R_Tested && p R_Waiting && p R_Leaving && p R_Returned.
Definition all_ending (p : Ending → bool) : bool := p End_Ok && p End_Failed.
Definition all_after (p : AfterStop → bool) : bool := p AS_Join && p AS_Unwind && all_ending (λ e, p (AS_Leave e)).
Definition all_main (p : MainPc → bool) : bool :=
  p M_Starting && p M_Install && p M_Spawn && p M_Poll && p M_Check && all_after (λ a, p (M_Stop a))
  && all_after (λ a, p (M_Stopping a)) && p M_Join && all_ending (λ e, p (M_Exit e)).
Definition all_host (p : Host → bool) : bool :=
  all_main (λ m, all_runner (λ r, all_bool (λ f, all_bool (λ i, all_bool (λ st, all_bool (λ sd, all_bool (λ th,
    p (mkHost m r f i st sd th)))))))).
Definition all_action (p : HostAction → bool) : bool :=
  all_bool (λ ok, p (HA_Main ok)) && p HA_Runner && p HA_Spurious && p HA_Signal && p HA_Service.

Lemma all_bool_spec p b : all_bool p = true → p b = true.
Proof. intros [? ?]%andb_true_iff. by destruct b. Qed.
Lemma all_runner_spec p r : all_runner p = true → p r = true.
Proof. unfold all_runner. rewrite !andb_true_iff. by destruct r; intros (((((?&?)&?)&?)&?)&?). Qed.
Lemma all_ending_spec p e : all_ending p = true → p e = true.
Proof. intros [? ?]%andb_true_iff. by destruct e. Qed.
Lemma all_after_spec p a : all_after p = true → p a = true.
Proof.
  unfold all_after. rewrite !andb_true_iff. intros [[? ?] He]. destruct a as [| |e]; [done..|].
  by apply (all_ending_spec (λ e, p (AS_Leave e))).
Qed.
Lemma all_main_spec p m : all_main p = true → p m = true.
Proof.
  unfold all_main. rewrite !andb_true_iff. intros ((((((((?&?)&?)&?)&?)&Ha)&Hb)&?)&He).
  destruct m as [| | | | |a|a| |e]; [done..| | |done|].
  - by apply (all_after_spec (λ a, p (M_Stop a))).
  - by apply (all_after_spec (λ a, p (M_Stopping a))).
  - by apply (all_ending_spec (λ e, p (M_Exit e))).
Qed.
Lemma all_host_spec p s : all_host p = true → p s = true.
Proof.
  destruct s as [m r f i st sd th]. intros H. apply (all_main_spec _ m) in H. apply (all_runner_spec _ r) in H.
  apply (all_bool_spec _ f) in H. apply (all_bool_spec _ i) in H. apply (all_bool_spec _ st) in H.
  apply (all_bool_spec _ sd) in H. by apply (all_bool_spec _ th) in H.
Qed.
Lemma all_action_spec p a : all_action p = true → p a = true.
Proof.
  unfold all_action. rewrite !andb_true_iff. intros ((((Hm&?)&?)&?)&?). destruct a as [ok| | | |]; [|done..].
  by apply (all_bool_spec (λ ok, p (HA_Main ok))).
Qed.

(** For every service, action and state. *)
Definition everywhere (p : bool → HostAction → Host → bool) : bool :=
  all_bool (λ w, all_action (λ a, all_host (p w a))).
Lemma everywhere_spec p w a s : everywhere p = true → p w a s = true.
Proof.
  unfold everywhere. intros H. apply (all_bool_spec _ w) in H. apply (all_action_spec _ a) in H.
  by apply (all_host_spec _ s) in H.
Qed.

(** The invariant is kept. *)
Definition act_keeps (w : bool) (a : HostAction) (s : Host) : bool :=
  match host_act w a s with Some s' => implb (host_ok w s) (host_ok w s') | None => true end.

Lemma host_act_ok waits a s s' : host_ok waits s = true → host_act waits a s = Some s' → host_ok waits s' = true.
Proof.
  intros Hs E. assert (H : act_keeps waits a s = true) by (apply everywhere_spec; vm_compute; reflexivity).
  unfold act_keeps in H. by rewrite E, Hs in H.
Qed.

Lemma hosted_ok waits s : hosted waits s → host_ok waits s = true.
Proof. induction 1 as [|a s s' _ IH E]; [by destruct waits|by eapply host_act_ok]. Qed.

(** ** The end *)

Definition main_rank (pc : MainPc) : nat :=
  match pc with
  | M_Starting => 12 | M_Install => 11 | M_Spawn => 10 | M_Poll => 9 | M_Check => 8
  | M_Stop AS_Join => 7 | M_Stopping AS_Join => 6 | M_Join => 5 | M_Stop AS_Unwind => 4 | M_Stopping AS_Unwind => 3
  | M_Stop (AS_Leave _) => 2 | M_Stopping (AS_Leave _) => 1 | M_Exit _ => 0
  end.
Definition runner_rank (pc : RunnerPc) : nat :=
  match pc with R_Unborn | R_Returned => 0 | R_Leaving => 1 | R_Testing => 2 | R_Waiting => 3 | R_Tested => 4 end.
Definition host_work (s : Host) : nat :=
  20 * main_rank (h_main s) + runner_rank (h_runner s) + (if h_interrupt s then 0 else 1).

(** Every step of a process whose service is stopping brings the end nearer. *)
Definition act_nears (w : bool) (a : HostAction) (s : Host) : bool :=
  match host_act w a s with
  | Some s' => implb (host_ok w s && h_stopping s) (h_stopping s' && (host_work s' <? host_work s)%nat)
  | None => true
  end.

Lemma host_act_nearer waits a s s' :
  host_ok waits s = true → h_stopping s = true → host_act waits a s = Some s' →
  h_stopping s' = true ∧ host_work s' < host_work s.
Proof.
  intros Hs Hst E. assert (H : act_nears waits a s = true) by (apply everywhere_spec; vm_compute; reflexivity).
  unfold act_nears in H. rewrite E, Hs, Hst in H. cbn [andb implb] in H. apply andb_true_iff in H as [? H].
  split; [done|by apply Nat.ltb_lt].
Qed.

Lemma host_finite waits s :
  host_ok waits s = true → h_stopping s = true → Acc (λ s' s, ∃ a, host_act waits a s = Some s') s.
Proof.
  remember (host_work s) as n eqn:En. revert s En. induction (lt_wf n) as [n _ IH]. intros s -> Hs Hst.
  constructor. intros s' [a E]. destruct (host_act_nearer waits a s s' Hs Hst E) as [Hst' Hlt].
  apply (IH (host_work s')); [done|done|by eapply host_act_ok|done].
Qed.

(** The main thread or the runner can go on. *)
Definition goes_on (waits : bool) (s : Host) : bool :=
  match main_step true s, runner_step waits s with None, None => false | _, _ => true end.
Definition exited (s : Host) : option Ending := match h_main s with M_Exit e => Some e | _ => None end.
(** The runner waits for a notification that has already been given. *)
Definition wakeup_lost (s : Host) : bool := bool_decide (h_runner s = R_Waiting) && h_stopping s.

Definition progresses (w : bool) (_ : HostAction) (s : Host) : bool :=
  implb (host_ok w s)
    match exited s with
    | Some End_Ok => bool_decide (h_runner s = R_Returned) && h_stop_done s && negb (h_threads s)
    | Some End_Failed => bool_decide (h_runner s = R_Unborn) && h_stop_done s && negb (h_threads s)
    | None =>
        implb (h_stopping s) (goes_on w s || wakeup_lost s)
        && implb (h_interrupt s) (h_stopping s || match main_step true s with Some _ => true | None => false end)
    end.

Lemma host_progress waits s : host_ok waits s = true → progresses waits HA_Runner s = true.
Proof. intros _. apply everywhere_spec. vm_compute. reflexivity. Qed.

(** ** Claims *)


(** A coordinator that is interrupted, and a node whose coordinator shuts it down. *)
Definition interrupted_run : list HostAction :=
  [HA_Main true; HA_Main true; HA_Main true; HA_Runner; HA_Signal] ++ repeat (HA_Main true) 3 ++ [HA_Runner; HA_Runner]
  ++ [HA_Main true; HA_Runner] ++ repeat (HA_Main true) 3.
Definition interrupted_host : Host := default launched (host_acts false interrupted_run launched).

Lemma host_acts_hosted waits l : ∀ s s', hosted waits s → host_acts waits l s = Some s' → hosted waits s'.
Proof.
  induction l as [|a l IH]; intros s s' Hs E; cbn in E; [by injection E as <-|].
  destruct (host_act waits a s) as [s1|] eqn:E1; [|done]. eapply IH; [|exact E]. by eapply hosted_act.
Qed.


(** The node is told to stop between the runner's test and its wait: the runner
    waits for ever, and the main thread polls. *)
Definition lost_run : list HostAction := [HA_Main true; HA_Main true; HA_Main true; HA_Runner; HA_Service; HA_Runner].
Example node_wakeup_lost :
  (λ s, (wakeup_lost s, goes_on true s)) <$> host_acts true lost_run launched = Some (true, false).
Proof. vm_compute. reflexivity. Qed.

(** An interrupt during [start()] is forgotten when the handler is installed again:
    afterwards the main thread polls as if there had been none. *)
Example early_interrupt_forgotten :
  (λ s, (h_main s, h_interrupt s, main_step true s)) <$>
    host_acts false [HA_Signal; HA_Main true; HA_Main true; HA_Main true; HA_Runner] launched
  = Some (M_Poll, false, None).
Proof. vm_compute. reflexivity. Qed.

(** ** What the two commands report *)

Local Open Scope Z_scope.

(** [r] is what [start()] returned, [line] what is printed then; the process exits
    as [hosted_process_ends] says. *)
Definition host_report (r : Result unit) (line : string) : Report :=
  match r with
  | Err e => fails (exit_code End_Failed) (error_line e) []
  | Ok _ => prints (exit_code End_Ok) [line] []
  end.

(** [bound]: the ports of the two listeners. *)
Definition listening_line (ports : Z * Z) (epoch : Z) : string :=
  "coordinator listening node_port=" +:+ to_string ports.1 +:+ " client_port=" +:+ to_string ports.2
  +:+ " epoch=" +:+ to_string epoch.
Definition serve_coordinator (world : World) (files : FileSystem) (dir_ok : bool) (bound : Result (Z * Z))
    (cfg : CoordinatorConfig) : Report :=
  let '(r, s) := start dir_ok (match bound with Ok _ => Ok tt | Err e => Err e end) (new_coordinator cfg world files) in
  host_report r (listening_line (match bound with Ok ports => ports | Err _ => (0, 0) end) (ds_epoch (c_durable s))).

Definition registered_line {C} (n : Node C) : string :=
  "node " +:+ to_hex (n_node_id n) +:+ " registered (session epoch " +:+ to_string (n_session_epoch n)
  +:+ ", coordinator epoch " +:+ to_string (n_epoch n) +:+ ")".
(** [None]: the start has not come back within the fuel. *)
Definition work_node {C} `{!ExecutorBackend DispatchAttempt C} (clock : nat → Z) (fuel : nat)
    (connects : nat → Result Socket) (random_id : Id128) (cuda : C) (cfg : NodeConfig) : option Report :=
  '(r, n) ← node_start clock fuel connects 10000 (new_node cfg random_id cuda);
  Some (host_report r (registered_line n)).

Example coordinator_command :
  (λ r, (rt_exit r, rt_out r)) <$>
    cmd_coordinator (serve_coordinator (mkWorld (λ n, Z.of_nat n) (λ n, mkId 9 (1 + Z.of_nat n)) (λ _, W_Done)) ∅ true (Ok (7000, 7001)))
      (parse_args ["coordinator"; "--store-dir"; "d"])
  = Some (0, ["coordinator listening node_port=7000 client_port=7001 epoch=2"]).
Proof. vm_compute. reflexivity. Qed.
